(** * CONQUEST / CLAWQUEST game server: tick processor, actions, trades.

    A shallow embedding of the server core (TypeScript over SQLite):
    - [types.ts]            entities and [GAME_CONSTANTS];
    - [db/database.ts]      schema, grid generation and grid expansion;
    - [game/actions.ts]     expand, attack, fortify, gift, capital;
    - [game/communication.ts] messages and trades;
    - [routes/actions.ts]   the unified action endpoint;
    - [routes/agent.ts]     join;
    - [tick/processor.ts]   the tick transaction;
    - [tick/scheduler.ts]   timer path and manual trigger.

    Conventions of the embedding.
    - A table is the list of its rows in rowid (insertion) order; a
      [SELECT ... .get()] is the first matching row, [.all()] the matching
      rows in table order, an [UPDATE ... WHERE] a map over all rows, an
      [INSERT] an append.
    - Numbers are [Z]: the INTEGER columns and the JSON numbers the API
      receives are taken to be integers.
    - Time is a [Z] count of seconds; [datetime('now')], [Date.now()] and
      [new Date()] all read the [now] argument of the operation, and the
      stored timestamps compare as numbers.
    - WebSocket broadcasts, webhook notifications and console output do not
      touch the store and are left out; the JSON [data] payloads of events
      and responses are left out as well. *)

From Stdlib Require Import ZArith List String Ascii Bool Lia.
From Stdlib Require Import DecimalString Permutation.
Import ListNotations.

#[local] Open Scope string_scope.
#[local] Open Scope Z_scope.

(* ================================================================== *)
(** ** Entities ([types.ts]) *)
(* ================================================================== *)

Inductive TerrainType : Type := farmland | mine | mixed | barren.

Module Agent.
Record t : Type := mk {
    id : string;
    display_name : string;
    food : Z;
    metal : Z;
    capital_q : option Z;
    capital_r : option Z;
    last_seen_at : option Z
  }.
End Agent.

Module Tile.
Record t : Type := mk {
    q : Z;
    r : Z;
    terrain : TerrainType;
    owner_id : option string;
    fortification : Z
  }.
End Tile.

Inductive AttackStatus : Type := attack_pending | attack_resolved.

Module Attack.
Record t : Type := mk {
    id : Z;
    attacker_id : string;
    target_q : Z;
    target_r : Z;
    commitment : Z;
    status : AttackStatus;
    resolves_at : option Z
  }.
End Attack.

Inductive TradeStatus : Type :=
  trade_pending | trade_accepted | trade_rejected | trade_expired.

Module Trade.
Record t : Type := mk {
    id : Z;
    from_id : string;
    to_id : string;
    offer_food : Z;
    offer_metal : Z;
    request_food : Z;
    request_metal : Z;
    status : TradeStatus;
    expires_at : option Z
  }.
End Trade.

Module Message.
Record t : Type := mk {
    id : Z;
    from_id : string;
    to_id : string;
    content : string;
    read : Z
  }.
End Message.

Module GameEvent.
Record t : Type := mk {
    type : string;
    actor_id : option string;
    description : string
  }.
End GameEvent.

Module AgentMemory.
Record t : Type := mk {
    agent_id : string;
    content : string;
    updated_at : Z
  }.
End AgentMemory.

Module GameState.
Record t : Type := mk {
    current_tick : Z;
    last_tick_at : option Z;
    tick_interval_hours : Z;
    grid_radius : Z
  }.
End GameState.

Record ActionResponse : Type := mkResponse {
  success : bool;
  message : string
}.

(** [GAME_CONSTANTS] *)
Module GAME_CONSTANTS.
Definition EXPAND_FOOD_COST : Z := 20.
Definition EXPAND_METAL_COST : Z := 10.
Definition FARMLAND_FOOD : Z := 10.
Definition MINE_METAL : Z := 10.
Definition MIXED_FOOD : Z := 5.
Definition MIXED_METAL : Z := 5.
Definition BARREN_FOOD : Z := 2.
Definition UPKEEP_FOOD_PER_TILE : Z := 3.
Definition BASE_TILE_DEFENSE : Z := 10.
Definition ATTACK_RESOLUTION_HOURS : Z := 2.
Definition TRADE_EXPIRY_HOURS : Z := 24.
Definition MAX_MEMORY_CHARS : nat := Z.to_nat 10000.
Definition MAP_EXPANSION_THRESHOLD : Z := 20.
Definition MAP_EXPANSION_RINGS : Z := 2.
End GAME_CONSTANTS.

(* ================================================================== *)
(** ** The store ([db/database.ts] schema) *)
(* ================================================================== *)

(** The SQLite database.  [seq_attacks], [seq_trades] and [seq_messages]
    are the AUTOINCREMENT counters of the three tables whose ids the core
    reads back. *)
Record Store : Type := mkStore {
  agents : list Agent.t;
  agent_memories : list AgentMemory.t;
  tiles : list Tile.t;
  messages : list Message.t;
  trades : list Trade.t;
  attacks : list Attack.t;
  events : list GameEvent.t;
  game_state : GameState.t;
  seq_attacks : Z;
  seq_trades : Z;
  seq_messages : Z
}.

Definition with_agents (f : list Agent.t -> list Agent.t) (s : Store) : Store :=
  mkStore (f (agents s)) (agent_memories s) (tiles s) (messages s) (trades s)
          (attacks s) (events s) (game_state s)
          (seq_attacks s) (seq_trades s) (seq_messages s).

Definition with_agent_memories
  (f : list AgentMemory.t -> list AgentMemory.t) (s : Store) : Store :=
  mkStore (agents s) (f (agent_memories s)) (tiles s) (messages s) (trades s)
          (attacks s) (events s) (game_state s)
          (seq_attacks s) (seq_trades s) (seq_messages s).

Definition with_tiles (f : list Tile.t -> list Tile.t) (s : Store) : Store :=
  mkStore (agents s) (agent_memories s) (f (tiles s)) (messages s) (trades s)
          (attacks s) (events s) (game_state s)
          (seq_attacks s) (seq_trades s) (seq_messages s).

Definition with_messages (f : list Message.t -> list Message.t) (s : Store) : Store :=
  mkStore (agents s) (agent_memories s) (tiles s) (f (messages s)) (trades s)
          (attacks s) (events s) (game_state s)
          (seq_attacks s) (seq_trades s) (seq_messages s).

Definition with_trades (f : list Trade.t -> list Trade.t) (s : Store) : Store :=
  mkStore (agents s) (agent_memories s) (tiles s) (messages s) (f (trades s))
          (attacks s) (events s) (game_state s)
          (seq_attacks s) (seq_trades s) (seq_messages s).

Definition with_attacks (f : list Attack.t -> list Attack.t) (s : Store) : Store :=
  mkStore (agents s) (agent_memories s) (tiles s) (messages s) (trades s)
          (f (attacks s)) (events s) (game_state s)
          (seq_attacks s) (seq_trades s) (seq_messages s).

Definition with_events (f : list GameEvent.t -> list GameEvent.t) (s : Store) : Store :=
  mkStore (agents s) (agent_memories s) (tiles s) (messages s) (trades s)
          (attacks s) (f (events s)) (game_state s)
          (seq_attacks s) (seq_trades s) (seq_messages s).

Definition with_game_state (f : GameState.t -> GameState.t) (s : Store) : Store :=
  mkStore (agents s) (agent_memories s) (tiles s) (messages s) (trades s)
          (attacks s) (events s) (f (game_state s))
          (seq_attacks s) (seq_trades s) (seq_messages s).

(** [UPDATE table SET ... WHERE ...]: every row the predicate selects is
    rewritten, in place. *)
Definition sql_update {A : Type} (where_ : A -> bool) (set : A -> A)
  (rows : list A) : list A :=
  map (fun row => if where_ row then set row else row) rows.

(** Strict equality of a nullable column with a value. *)
Definition eq_opt_string (o : option string) (v : string) : bool :=
  match o with
  | Some x => String.eqb x v
  | None => false
  end.

Definition eq_opt_Z (o : option Z) (v : Z) : bool :=
  match o with
  | Some x => Z.eqb x v
  | None => false
  end.

(** Template-literal rendering of a number. *)
Definition show_Z (n : Z) : string := NilZero.string_of_int (Z.to_int n).

Definition show_terrain (t : TerrainType) : string :=
  match t with
  | farmland => "farmland"
  | mine => "mine"
  | mixed => "mixed"
  | barren => "barren"
  end.

Definition show_coord (q r : Z) : string :=
  "(" ++ show_Z q ++ ", " ++ show_Z r ++ ")".

(* ================================================================== *)
(** ** Shared helpers of [game/actions.ts], [game/communication.ts]
       and [tick/processor.ts] *)
(* ================================================================== *)

Definition at_coord (q r : Z) (t : Tile.t) : bool :=
  Z.eqb (Tile.q t) q && Z.eqb (Tile.r t) r.

Definition has_id (agentId : string) (a : Agent.t) : bool :=
  String.eqb (Agent.id a) agentId.

(** [SELECT * FROM tiles WHERE q = ? AND r = ?] *)
Definition getTile (s : Store) (q r : Z) : option Tile.t :=
  find (at_coord q r) (tiles s).

(** [SELECT * FROM agents WHERE id = ?] *)
Definition getAgent (s : Store) (agentId : string) : option Agent.t :=
  find (has_id agentId) (agents s).

(** [INSERT INTO events (type, actor_id, description, data)] *)
Definition logEvent (actorId : option string) (type description : string)
  (s : Store) : Store :=
  with_events (fun es => (es ++ [GameEvent.mk type actorId description])%list) s.

Definition add_resources (foodDelta metalDelta : Z) (a : Agent.t) : Agent.t :=
  Agent.mk (Agent.id a) (Agent.display_name a)
           (Agent.food a + foodDelta) (Agent.metal a + metalDelta)
           (Agent.capital_q a) (Agent.capital_r a) (Agent.last_seen_at a).

(** [UPDATE agents SET food = food + ?, metal = metal + ? WHERE id = ?] *)
Definition updateAgentResources (agentId : string) (foodDelta metalDelta : Z)
  (s : Store) : Store :=
  with_agents (sql_update (has_id agentId) (add_resources foodDelta metalDelta)) s.

Definition set_capital (cq cr : option Z) (a : Agent.t) : Agent.t :=
  Agent.mk (Agent.id a) (Agent.display_name a) (Agent.food a) (Agent.metal a)
           cq cr (Agent.last_seen_at a).

Definition set_owner (o : option string) (t : Tile.t) : Tile.t :=
  Tile.mk (Tile.q t) (Tile.r t) (Tile.terrain t) o (Tile.fortification t).

Definition set_owner_reset (o : option string) (t : Tile.t) : Tile.t :=
  Tile.mk (Tile.q t) (Tile.r t) (Tile.terrain t) o 0.

Definition add_fortification (amount : Z) (t : Tile.t) : Tile.t :=
  Tile.mk (Tile.q t) (Tile.r t) (Tile.terrain t) (Tile.owner_id t)
          (Tile.fortification t + amount).

(** [clearCapitalIfLost]: forget the capital of [agentId] when it is the
    tile just lost. *)
Definition clearCapitalIfLost (agentId : string) (lostQ lostR : Z)
  (s : Store) : Store :=
  match getAgent s agentId with
  | None => s
  | Some agent =>
      if eq_opt_Z (Agent.capital_q agent) lostQ
         && eq_opt_Z (Agent.capital_r agent) lostR
      then with_agents (sql_update (has_id agentId) (set_capital None None)) s
      else s
  end.

(* ================================================================== *)
(** ** Hex topology and territorial actions ([game/actions.ts]) *)
(* ================================================================== *)

Definition getNeighbors (q r : Z) : list (Z * Z) :=
  [ (q + 1, r); (q - 1, r); (q, r + 1); (q, r - 1);
    (q + 1, r - 1); (q - 1, r + 1) ].

(** Does [agentId] own a tile adjacent to the target? *)
Definition hasAdjacentTerritory (s : Store) (agentId : string)
  (targetQ targetR : Z) : bool :=
  existsb (fun n =>
             match getTile s (fst n) (snd n) with
             | Some tile => eq_opt_string (Tile.owner_id tile) agentId
             | None => false
             end)
          (getNeighbors targetQ targetR).

Definition fail (msg : string) (s : Store) : Store * ActionResponse :=
  (s, mkResponse false msg).

Definition expand (s : Store) (agent : Agent.t) (targetQ targetR : Z)
  : Store * ActionResponse :=
  match getTile s targetQ targetR with
  | None => fail "Target tile does not exist" s
  | Some targetTile =>
    match Tile.owner_id targetTile with
    | Some _ =>
        fail "Target tile is already claimed. Use ATTACK to take enemy tiles." s
    | None =>
      if negb (hasAdjacentTerritory s (Agent.id agent) targetQ targetR) then
        fail "You must expand from an adjacent tile you own" s
      else
        let foodCost := GAME_CONSTANTS.EXPAND_FOOD_COST in
        let metalCost := GAME_CONSTANTS.EXPAND_METAL_COST in
        if Agent.food agent <? foodCost then
          fail ("Not enough food. Need " ++ show_Z foodCost ++ ", have "
                ++ show_Z (Agent.food agent)) s
        else if Agent.metal agent <? metalCost then
          fail ("Not enough metal. Need " ++ show_Z metalCost ++ ", have "
                ++ show_Z (Agent.metal agent)) s
        else
          let s1 := updateAgentResources (Agent.id agent) (- foodCost) (- metalCost) s in
          let s2 := with_tiles (sql_update (at_coord targetQ targetR)
                                  (set_owner (Some (Agent.id agent)))) s1 in
          let s3 := logEvent (Some (Agent.id agent)) "expand"
                      (Agent.display_name agent ++ " expanded to "
                       ++ show_coord targetQ targetR) s2 in
          (s3, mkResponse true
                 ("Successfully expanded to " ++ show_coord targetQ targetR
                  ++ ". Terrain: " ++ show_terrain (Tile.terrain targetTile)))
    end
  end.

(** [INSERT INTO attacks (...) VALUES (?, ?, ?, ?, 'pending', ?)] *)
Definition insert_attack (attackerId : string) (targetQ targetR commitment : Z)
  (resolvesAt : Z) (s : Store) : Store :=
  let newId := seq_attacks s + 1 in
  mkStore (agents s) (agent_memories s) (tiles s) (messages s) (trades s)
          (attacks s ++ [Attack.mk newId attackerId targetQ targetR commitment
                                    attack_pending (Some resolvesAt)])%list
          (events s) (game_state s)
          newId (seq_trades s) (seq_messages s).

Definition declareAttack (now : Z) (s : Store) (agent : Agent.t)
  (targetQ targetR commitment : Z) : Store * ActionResponse :=
  if commitment <=? 0 then
    fail "Metal commitment must be positive" s
  else if commitment >? Agent.metal agent then
    fail ("Not enough metal. Committing " ++ show_Z commitment ++ ", have "
          ++ show_Z (Agent.metal agent)) s
  else
    match getTile s targetQ targetR with
    | None => fail "Target tile does not exist" s
    | Some targetTile =>
      match Tile.owner_id targetTile with
      | None => fail "Target tile is unclaimed. Use EXPAND instead." s
      | Some owner =>
        if String.eqb owner (Agent.id agent) then
          fail "Cannot attack your own tile" s
        else if negb (hasAdjacentTerritory s (Agent.id agent) targetQ targetR) then
          fail "You must attack from an adjacent tile you own" s
        else
          match getAgent s owner with
          | None => fail "Defender not found" s
          | Some defender =>
            let resolvesAt :=
              now + GAME_CONSTANTS.ATTACK_RESOLUTION_HOURS * 60 * 60 in
            let s1 := updateAgentResources (Agent.id agent) 0 (- commitment) s in
            let s2 := insert_attack (Agent.id agent) targetQ targetR commitment
                        resolvesAt s1 in
            let s3 := logEvent (Some (Agent.id agent)) "attack_declared"
                        (Agent.display_name agent ++ " declared attack on "
                         ++ show_coord targetQ targetR ++ " owned by "
                         ++ Agent.display_name defender) s2 in
            (s3, mkResponse true
                   ("Attack declared on " ++ show_coord targetQ targetR
                    ++ ". Will resolve at " ++ show_Z resolvesAt ++ ". "
                    ++ Agent.display_name defender ++ " has time to fortify."))
          end
      end
    end.

Definition fortify (s : Store) (agent : Agent.t)
  (targetQ targetR metalAmount : Z) : Store * ActionResponse :=
  if metalAmount <=? 0 then
    fail "Metal amount must be positive" s
  else if metalAmount >? Agent.metal agent then
    fail ("Not enough metal. Want " ++ show_Z metalAmount ++ ", have "
          ++ show_Z (Agent.metal agent)) s
  else
    match getTile s targetQ targetR with
    | None => fail "Target tile does not exist" s
    | Some targetTile =>
      if negb (eq_opt_string (Tile.owner_id targetTile) (Agent.id agent)) then
        fail "You can only fortify your own tiles" s
      else
        let s1 := updateAgentResources (Agent.id agent) 0 (- metalAmount) s in
        let s2 := with_tiles (sql_update (at_coord targetQ targetR)
                                (add_fortification metalAmount)) s1 in
        let s3 := logEvent (Some (Agent.id agent)) "fortify"
                    (Agent.display_name agent ++ " fortified "
                     ++ show_coord targetQ targetR) s2 in
        let newFortification := Tile.fortification targetTile + metalAmount in
        (s3, mkResponse true
               ("Fortified " ++ show_coord targetQ targetR
                ++ ". Defense is now "
                ++ show_Z (GAME_CONSTANTS.BASE_TILE_DEFENSE + newFortification)))
    end.

Definition giftTile (s : Store) (agent : Agent.t) (targetQ targetR : Z)
  (toAgentId : string) : Store * ActionResponse :=
  match getTile s targetQ targetR with
  | None => fail "Target tile does not exist" s
  | Some targetTile =>
    if negb (eq_opt_string (Tile.owner_id targetTile) (Agent.id agent)) then
      fail "You can only gift your own tiles" s
    else
      match getAgent s toAgentId with
      | None => fail "Recipient agent not found" s
      | Some recipient =>
        if String.eqb (Agent.id recipient) (Agent.id agent) then
          fail "Cannot gift tile to yourself" s
        else
          (* Transfer ownership (keep fortifications) *)
          let s1 := with_tiles (sql_update (at_coord targetQ targetR)
                                  (set_owner (Some (Agent.id recipient)))) s in
          let s2 := clearCapitalIfLost (Agent.id agent) targetQ targetR s1 in
          let s3 := logEvent (Some (Agent.id agent)) "gift"
                      (Agent.display_name agent ++ " gifted "
                       ++ show_coord targetQ targetR ++ " to "
                       ++ Agent.display_name recipient) s2 in
          (s3, mkResponse true
                 ("Successfully gifted " ++ show_coord targetQ targetR
                  ++ " to " ++ Agent.display_name recipient))
      end
  end.

Definition setCapital (s : Store) (agent : Agent.t) (targetQ targetR : Z)
  : Store * ActionResponse :=
  match getTile s targetQ targetR with
  | None => fail "Target tile does not exist" s
  | Some targetTile =>
    if negb (eq_opt_string (Tile.owner_id targetTile) (Agent.id agent)) then
      fail "You can only set capital on your own tiles" s
    else
      let s1 := with_agents (sql_update (has_id (Agent.id agent))
                               (set_capital (Some targetQ) (Some targetR))) s in
      let s2 := logEvent (Some (Agent.id agent)) "expand"
                  (Agent.display_name agent ++ " designated "
                   ++ show_coord targetQ targetR ++ " as their capital") s1 in
      (s2, mkResponse true
             ("Successfully set " ++ show_coord targetQ targetR
              ++ " as your capital"))
  end.

Definition giftResources (s : Store) (agent : Agent.t) (toAgentId : string)
  (food metal : Z) : Store * ActionResponse :=
  if (food <? 0) || (metal <? 0) then
    fail "Resource amounts cannot be negative" s
  else if (food =? 0) && (metal =? 0) then
    fail "Must gift at least some resources" s
  else if food >? Agent.food agent then
    fail ("Not enough food. Want to gift " ++ show_Z food ++ ", have "
          ++ show_Z (Agent.food agent)) s
  else if metal >? Agent.metal agent then
    fail ("Not enough metal. Want to gift " ++ show_Z metal ++ ", have "
          ++ show_Z (Agent.metal agent)) s
  else
    match getAgent s toAgentId with
    | None => fail "Recipient agent not found" s
    | Some recipient =>
      if String.eqb (Agent.id recipient) (Agent.id agent) then
        fail "Cannot gift resources to yourself" s
      else
        let s1 := updateAgentResources (Agent.id agent) (- food) (- metal) s in
        let s2 := updateAgentResources (Agent.id recipient) food metal s1 in
        let s3 := logEvent (Some (Agent.id agent)) "gift"
                    (Agent.display_name agent ++ " gifted resources to "
                     ++ Agent.display_name recipient) s2 in
        (s3, mkResponse true
               ("Successfully gifted " ++ show_Z food ++ " food and "
                ++ show_Z metal ++ " metal to " ++ Agent.display_name recipient))
    end.

(* ================================================================== *)
(** ** Messages and trades ([game/communication.ts]) *)
(* ================================================================== *)

(** [String.prototype.trim], on the ASCII white space characters. *)
Definition is_space (c : ascii) : bool :=
  let n := nat_of_ascii c in
  (Nat.eqb n 32 || (Nat.leb 9 n && Nat.leb n 13))%bool.

Fixpoint trim_start (s : string) : string :=
  match s with
  | EmptyString => EmptyString
  | String c rest => if is_space c then trim_start rest else s
  end.

Fixpoint string_rev (s : string) : string :=
  match s with
  | EmptyString => EmptyString
  | String c rest => string_rev rest ++ String c EmptyString
  end.

Definition trim (s : string) : string :=
  string_rev (trim_start (string_rev (trim_start s))).

(** [INSERT INTO messages (from_id, to_id, content, read) VALUES (?, ?, ?, 0)] *)
Definition insert_message (fromId toId content : string) (s : Store) : Store :=
  let newId := seq_messages s + 1 in
  mkStore (agents s) (agent_memories s) (tiles s)
          (messages s ++ [Message.mk newId fromId toId content 0])%list
          (trades s) (attacks s) (events s) (game_state s)
          (seq_attacks s) (seq_trades s) newId.

Definition sendMessage (s : Store) (agent : Agent.t) (toAgentId content : string)
  : Store * ActionResponse :=
  if (String.length content =? 0)%nat || (String.length (trim content) =? 0)%nat then
    fail "Message content cannot be empty" s
  else if (2000 <? String.length content)%nat then
    fail "Message too long (max 2000 characters)" s
  else
    match getAgent s toAgentId with
    | None => fail "Recipient agent not found" s
    | Some recipient =>
      if String.eqb (Agent.id recipient) (Agent.id agent) then
        fail "Cannot send message to yourself" s
      else
        let s1 := insert_message (Agent.id agent) (Agent.id recipient)
                    (trim content) s in
        (s1, mkResponse true ("Message sent to " ++ Agent.display_name recipient))
    end.

(** [INSERT INTO trades (...) VALUES (?, ?, ?, ?, ?, ?, 'pending', ?)] *)
Definition insert_trade (fromId toId : string)
  (offerFood offerMetal requestFood requestMetal expiresAt : Z) (s : Store)
  : Store :=
  let newId := seq_trades s + 1 in
  mkStore (agents s) (agent_memories s) (tiles s) (messages s)
          (trades s ++ [Trade.mk newId fromId toId offerFood offerMetal
                                 requestFood requestMetal trade_pending
                                 (Some expiresAt)])%list
          (attacks s) (events s) (game_state s)
          (seq_attacks s) newId (seq_messages s).

Definition proposeTrade (now : Z) (s : Store) (agent : Agent.t)
  (toAgentId : string) (offerFood offerMetal requestFood requestMetal : Z)
  : Store * ActionResponse :=
  if (offerFood <? 0) || (offerMetal <? 0) || (requestFood <? 0)
     || (requestMetal <? 0) then
    fail "Trade amounts cannot be negative" s
  else if (offerFood =? 0) && (offerMetal =? 0) && (requestFood =? 0)
          && (requestMetal =? 0) then
    fail "Trade must involve at least some resources" s
  else if offerFood >? Agent.food agent then
    fail ("Cannot offer " ++ show_Z offerFood ++ " food, you only have "
          ++ show_Z (Agent.food agent)) s
  else if offerMetal >? Agent.metal agent then
    fail ("Cannot offer " ++ show_Z offerMetal ++ " metal, you only have "
          ++ show_Z (Agent.metal agent)) s
  else
    match getAgent s toAgentId with
    | None => fail "Recipient agent not found" s
    | Some recipient =>
      if String.eqb (Agent.id recipient) (Agent.id agent) then
        fail "Cannot trade with yourself" s
      else
        let expiresAt := now + GAME_CONSTANTS.TRADE_EXPIRY_HOURS * 60 * 60 in
        let s1 := insert_trade (Agent.id agent) (Agent.id recipient)
                    offerFood offerMetal requestFood requestMetal expiresAt s in
        let s2 := logEvent (Some (Agent.id agent)) "trade_proposed"
                    (Agent.display_name agent ++ " proposed a trade to "
                     ++ Agent.display_name recipient) s1 in
        (s2, mkResponse true
               ("Trade proposal sent to " ++ Agent.display_name recipient))
    end.

Definition is_pending (t : Trade.t) : bool :=
  match Trade.status t with
  | trade_pending => true
  | _ => false
  end.

Definition has_trade_id (tradeId : Z) (t : Trade.t) : bool :=
  Z.eqb (Trade.id t) tradeId.

(** [SELECT * FROM trades WHERE id = ? AND status = 'pending'] *)
Definition getPendingTrade (s : Store) (tradeId : Z) : option Trade.t :=
  find (fun t => has_trade_id tradeId t && is_pending t) (trades s).

Definition set_trade_status (st : TradeStatus) (t : Trade.t) : Trade.t :=
  Trade.mk (Trade.id t) (Trade.from_id t) (Trade.to_id t)
           (Trade.offer_food t) (Trade.offer_metal t)
           (Trade.request_food t) (Trade.request_metal t)
           st (Trade.expires_at t).

(** [UPDATE trades SET status = ? WHERE id = ?] *)
Definition updateTradeStatus (tradeId : Z) (st : TradeStatus) (s : Store) : Store :=
  with_trades (sql_update (has_trade_id tradeId) (set_trade_status st)) s.

(** [trade.expires_at && new Date(trade.expires_at) < new Date()] *)
Definition trade_is_past_expiry (now : Z) (t : Trade.t) : bool :=
  match Trade.expires_at t with
  | Some e => e <? now
  | None => false
  end.

Definition acceptTrade (now : Z) (s : Store) (agent : Agent.t) (tradeId : Z)
  : Store * ActionResponse :=
  match getPendingTrade s tradeId with
  | None => fail "Trade proposal not found or no longer pending" s
  | Some trade =>
    if trade_is_past_expiry now trade then
      fail "Trade proposal has expired" (updateTradeStatus tradeId trade_expired s)
    else if negb (String.eqb (Trade.to_id trade) (Agent.id agent)) then
      fail "This trade proposal is not for you" s
    else
      match getAgent s (Trade.from_id trade) with
      | None => fail "Trade proposer no longer exists" s
      | Some proposer =>
        if (Agent.food proposer <? Trade.offer_food trade)
           || (Agent.metal proposer <? Trade.offer_metal trade) then
          fail (Agent.display_name proposer
                ++ " no longer has the offered resources")
               (updateTradeStatus tradeId trade_expired s)
        else if (Agent.food agent <? Trade.request_food trade)
                || (Agent.metal agent <? Trade.request_metal trade) then
          fail ("You don't have enough resources. Need "
                ++ show_Z (Trade.request_food trade) ++ " food and "
                ++ show_Z (Trade.request_metal trade) ++ " metal") s
        else
          (* Proposer gives offer, receives request *)
          let s1 := updateAgentResources (Agent.id proposer)
                      (- Trade.offer_food trade + Trade.request_food trade)
                      (- Trade.offer_metal trade + Trade.request_metal trade) s in
          (* Accepter gives request, receives offer *)
          let s2 := updateAgentResources (Agent.id agent)
                      (Trade.offer_food trade - Trade.request_food trade)
                      (Trade.offer_metal trade - Trade.request_metal trade) s1 in
          let s3 := updateTradeStatus tradeId trade_accepted s2 in
          let s4 := logEvent None "trade_accepted"
                      (Agent.display_name proposer ++ " and "
                       ++ Agent.display_name agent ++ " completed a trade") s3 in
          (s4, mkResponse true
                 ("Trade completed with " ++ Agent.display_name proposer))
      end
  end.

Definition rejectTrade (s : Store) (agent : Agent.t) (tradeId : Z)
  : Store * ActionResponse :=
  match getPendingTrade s tradeId with
  | None => fail "Trade proposal not found or no longer pending" s
  | Some trade =>
    if negb (String.eqb (Trade.to_id trade) (Agent.id agent)) then
      fail "This trade proposal is not for you" s
    else
      let s1 := updateTradeStatus tradeId trade_rejected s in
      let s2 :=
        match getAgent s (Trade.from_id trade) with
        | Some proposer =>
            logEvent (Some (Agent.id agent)) "trade_rejected"
              (Agent.display_name agent ++ " rejected a trade from "
               ++ Agent.display_name proposer) s1
        | None => s1
        end in
      (s2, mkResponse true "Trade proposal rejected")
  end.

(* ================================================================== *)
(** ** The unified action endpoint ([routes/actions.ts]) *)
(* ================================================================== *)

(** A JSON value as the request body carries it: absent, [null], a
    boolean, a number (an integer here) or a string.  Arrays and nested
    objects are not covered. *)
Inductive JVal : Type :=
| JUndefined
| JNull
| JBool (b : bool)
| JNum (n : Z)
| JStr (s : string).

Module AgentAction.
Record t : Type := mk {
    type : JVal;
    target_q : JVal;
    target_r : JVal;
    commitment : JVal;
    metal_amount : JVal;
    to_agent_id : JVal;
    content : JVal;
    trade_id : JVal;
    food : JVal;
    metal : JVal;
    offer_food : JVal;
    offer_metal : JVal;
    request_food : JVal;
    request_metal : JVal
  }.
End AgentAction.

(** [ActionRequest]: [action] is [None] when the body has no [action] or
    it is not an object. *)
Record ActionRequest : Type := mkRequest {
  action : option AgentAction.t;
  save_memory : JVal
}.

(** What the caller is sent: [{ error }], an action result, or the
    framework's own error page when the handler threw. *)
Inductive ResponseBody : Type :=
| error_body (error : string)
| result_body (result : ActionResponse)
| uncaught_exception.

Record HttpResponse : Type := mkHttp {
  status : Z;
  body : ResponseBody
}.

Definition truthy (v : JVal) : bool :=
  match v with
  | JUndefined | JNull => false
  | JBool b => b
  | JNum n => negb (n =? 0)
  | JStr s => negb (String.eqb s "")
  end.

Definition show_JVal (v : JVal) : string :=
  match v with
  | JUndefined => "undefined"
  | JNull => "null"
  | JBool true => "true"
  | JBool false => "false"
  | JNum n => show_Z n
  | JStr s => s
  end.

(** [x || default] on an optional number of the admin routes. *)
Definition or_zero (x : option Z) : Z :=
  match x with
  | Some n => n
  | None => 0
  end.

(** [x || 0] on an amount the action route hands on without a [typeof]
    check.  A number or a falsy value gives an integer.  [true] and a
    non-empty string reach the handler as they are, and what it then
    compares, negates and binds is decided by JavaScript's and SQLite's
    coercions (a bound [NaN], text in an integer column); the integer
    tables of this development do not cover that, and the result is
    [None]. *)
Definition amount_or_zero (v : JVal) : option Z :=
  if truthy v then
    match v with
    | JNum n => Some n
    | _ => None
    end
  else Some 0.

Definition getAgentById (s : Store) (id : string) : option Agent.t :=
  find (has_id id) (agents s).

Definition set_last_seen_at (ts : option Z) (a : Agent.t) : Agent.t :=
  Agent.mk (Agent.id a) (Agent.display_name a) (Agent.food a) (Agent.metal a)
           (Agent.capital_q a) (Agent.capital_r a) ts.

(** [UPDATE agents SET last_seen_at = datetime('now') WHERE id = ?] *)
Definition touch_last_seen (now : Z) (id : string) (s : Store) : Store :=
  with_agents (sql_update (has_id id) (set_last_seen_at (Some now))) s.

Definition slice0 (n : nat) (s : string) : string := String.substring 0 n s.

Definition saveAgentMemory (now : Z) (agentId content : string) (s : Store)
  : Store :=
  let truncated := slice0 GAME_CONSTANTS.MAX_MEMORY_CHARS content in
  with_agent_memories
    (sql_update (fun m => String.eqb (AgentMemory.agent_id m) agentId)
                (fun m => AgentMemory.mk (AgentMemory.agent_id m) truncated now))
    s.

Definition bad_request (msg : string) (s : Store) : Store * HttpResponse :=
  (s, mkHttp 400 (error_body msg)).

(** [if (result.success) res.json(result) else res.status(400).json(result)] *)
Definition send_result (sr : Store * ActionResponse) : Store * HttpResponse :=
  let (s, result) := sr in
  (s, mkHttp (if success result then 200 else 400) (result_body result)).

(** The [case] arms of the route's [switch (action.type)]. *)
Definition case_expand (s : Store) (agent : Agent.t) (act : AgentAction.t)
  : Store * HttpResponse :=
  match AgentAction.target_q act, AgentAction.target_r act with
  | JNum tq, JNum tr => send_result (expand s agent tq tr)
  | _, _ => bad_request "expand requires target_q and target_r (numbers)" s
  end.

Definition case_attack (now : Z) (s : Store) (agent : Agent.t)
  (act : AgentAction.t) : Store * HttpResponse :=
  match AgentAction.target_q act, AgentAction.target_r act with
  | JNum tq, JNum tr =>
      match AgentAction.commitment act with
      | JNum c =>
          if c <=? 0 then
            bad_request "attack requires commitment (positive number)" s
          else send_result (declareAttack now s agent tq tr c)
      | _ => bad_request "attack requires commitment (positive number)" s
      end
  | _, _ => bad_request "attack requires target_q and target_r (numbers)" s
  end.

Definition case_fortify (s : Store) (agent : Agent.t) (act : AgentAction.t)
  : Store * HttpResponse :=
  match AgentAction.target_q act, AgentAction.target_r act with
  | JNum tq, JNum tr =>
      match AgentAction.metal_amount act with
      | JNum m =>
          if m <=? 0 then
            bad_request "fortify requires metal_amount (positive number)" s
          else send_result (fortify s agent tq tr m)
      | _ => bad_request "fortify requires metal_amount (positive number)" s
      end
  | _, _ => bad_request "fortify requires target_q and target_r (numbers)" s
  end.

Definition case_gift_tile (s : Store) (agent : Agent.t) (act : AgentAction.t)
  : Store * HttpResponse :=
  match AgentAction.target_q act, AgentAction.target_r act with
  | JNum tq, JNum tr =>
      match AgentAction.to_agent_id act with
      | JStr to => send_result (giftTile s agent tq tr to)
      | _ => bad_request "gift_tile requires to_agent_id (string)" s
      end
  | _, _ => bad_request "gift_tile requires target_q and target_r (numbers)" s
  end.

(** [None]: an amount outside the integers, see [amount_or_zero]. *)
Definition case_gift_resources (s : Store) (agent : Agent.t)
  (act : AgentAction.t) : option (Store * HttpResponse) :=
  match AgentAction.to_agent_id act with
  | JStr to =>
      match amount_or_zero (AgentAction.food act),
            amount_or_zero (AgentAction.metal act) with
      | Some food, Some metal =>
          Some (send_result (giftResources s agent to food metal))
      | _, _ => None
      end
  | _ => Some (bad_request "gift_resources requires to_agent_id (string)" s)
  end.

Definition case_message (s : Store) (agent : Agent.t) (act : AgentAction.t)
  : Store * HttpResponse :=
  match AgentAction.to_agent_id act with
  | JStr to =>
      match AgentAction.content act with
      | JStr c => send_result (sendMessage s agent to c)
      | _ => bad_request "message requires content (string)" s
      end
  | _ => bad_request "message requires to_agent_id (string)" s
  end.

(** [None]: an amount outside the integers, see [amount_or_zero]. *)
Definition case_trade_propose (now : Z) (s : Store) (agent : Agent.t)
  (act : AgentAction.t) : option (Store * HttpResponse) :=
  match AgentAction.to_agent_id act with
  | JStr to =>
      match amount_or_zero (AgentAction.offer_food act),
            amount_or_zero (AgentAction.offer_metal act),
            amount_or_zero (AgentAction.request_food act),
            amount_or_zero (AgentAction.request_metal act) with
      | Some offerFood, Some offerMetal, Some requestFood, Some requestMetal =>
          Some (send_result (proposeTrade now s agent to offerFood offerMetal
                               requestFood requestMetal))
      | _, _, _, _ => None
      end
  | _ => Some (bad_request "trade_propose requires to_agent_id (string)" s)
  end.

Definition case_trade_accept (now : Z) (s : Store) (agent : Agent.t)
  (act : AgentAction.t) : Store * HttpResponse :=
  match AgentAction.trade_id act with
  | JNum tid => send_result (acceptTrade now s agent tid)
  | _ => bad_request "trade_accept requires trade_id (number)" s
  end.

Definition case_trade_reject (s : Store) (agent : Agent.t) (act : AgentAction.t)
  : Store * HttpResponse :=
  match AgentAction.trade_id act with
  | JNum tid => send_result (rejectTrade s agent tid)
  | _ => bad_request "trade_reject requires trade_id (number)" s
  end.

Definition case_wait (s : Store) : Store * HttpResponse :=
  send_result (s, mkResponse true "Waited. No action taken.").

Definition case_set_capital (s : Store) (agent : Agent.t) (act : AgentAction.t)
  : Store * HttpResponse :=
  match AgentAction.target_q act, AgentAction.target_r act with
  | JNum tq, JNum tr => send_result (setCapital s agent tq tr)
  | _, _ => bad_request "set_capital requires target_q and target_r (numbers)" s
  end.

Definition case_default (s : Store) (act : AgentAction.t) : Store * HttpResponse :=
  bad_request ("Unknown action type: " ++ show_JVal (AgentAction.type act)) s.

(** [switch (action.type)]: strict comparison with each label in turn.
    [None] comes from the two arms that hand amounts on unchecked. *)
Definition switch_action_type (now : Z) (s : Store) (agent : Agent.t)
  (act : AgentAction.t) : option (Store * HttpResponse) :=
  match AgentAction.type act with
  | JStr ty =>
      if String.eqb ty "expand" then Some (case_expand s agent act)
      else if String.eqb ty "attack" then Some (case_attack now s agent act)
      else if String.eqb ty "fortify" then Some (case_fortify s agent act)
      else if String.eqb ty "gift_tile" then Some (case_gift_tile s agent act)
      else if String.eqb ty "gift_resources" then case_gift_resources s agent act
      else if String.eqb ty "message" then Some (case_message s agent act)
      else if String.eqb ty "trade_propose" then case_trade_propose now s agent act
      else if String.eqb ty "trade_accept" then
        Some (case_trade_accept now s agent act)
      else if String.eqb ty "trade_reject" then Some (case_trade_reject s agent act)
      else if String.eqb ty "wait" then Some (case_wait s)
      else if String.eqb ty "set_capital" then Some (case_set_capital s agent act)
      else Some (case_default s act)
  | _ => Some (case_default s act)
  end.

(** [if (save_memory !== undefined) saveAgentMemory(id, save_memory)]:
    [content.slice] exists on a string only; on [null], a boolean or a
    number the call throws, which is [None] here. *)
Definition save_memory_if_provided (now : Z) (id : string) (v : JVal)
  (s : Store) : option Store :=
  match v with
  | JUndefined => Some s
  | JStr content => Some (saveAgentMemory now id content s)
  | _ => None
  end.

(** [router.post('/:id/action')].  The handler has no [try]: when saving
    the memory throws, the caller gets the framework's HTTP 500 and the
    time stamp written just before stays.  The result is [None] when an
    unchecked amount is outside the integers, see [amount_or_zero]. *)
Definition post_action (now : Z) (s : Store) (id : string) (req : ActionRequest)
  : option (Store * HttpResponse) :=
  match getAgentById s id with
  | None => Some (s, mkHttp 404 (error_body "Agent not found"))
  | Some agent =>
    let s1 := touch_last_seen now id s in
    match save_memory_if_provided now id (save_memory req) s1 with
    | None => Some (s1, mkHttp 500 uncaught_exception)
    | Some s2 =>
      match action req with
      | None =>
          Some (bad_request "Invalid action format. Must include action.type" s2)
      | Some act =>
        if negb (truthy (AgentAction.type act)) then
          Some (bad_request "Invalid action format. Must include action.type" s2)
        else switch_action_type now s2 agent act
      end
    end
  end.

(* ================================================================== *)
(** ** The tick processor ([tick/processor.ts]) *)
(* ================================================================== *)

Module AttackResolved.
Record t : Type := mk {
    attack_id : Z;
    attacker_id : string;
    defender_id : string;
    target_q : Z;
    target_r : Z;
    success : bool
  }.
End AttackResolved.

Module TickResult.
Record t : Type := mk {
    tick_number : Z;
    resources_produced : list (string * Z * Z);
    upkeep_paid : list (string * Z);
    attacks_resolved : list AttackResolved.t;
    tiles_lost_to_starvation : list (string * Z * Z);
    trades_expired : Z
  }.
End TickResult.

Definition push_resources_produced (x : string * Z * Z) (res : TickResult.t) :=
  TickResult.mk (TickResult.tick_number res)
    (TickResult.resources_produced res ++ [x])%list
    (TickResult.upkeep_paid res) (TickResult.attacks_resolved res)
    (TickResult.tiles_lost_to_starvation res) (TickResult.trades_expired res).

Definition push_upkeep_paid (x : string * Z) (res : TickResult.t) :=
  TickResult.mk (TickResult.tick_number res)
    (TickResult.resources_produced res)
    (TickResult.upkeep_paid res ++ [x])%list (TickResult.attacks_resolved res)
    (TickResult.tiles_lost_to_starvation res) (TickResult.trades_expired res).

Definition push_attacks_resolved (x : AttackResolved.t) (res : TickResult.t) :=
  TickResult.mk (TickResult.tick_number res)
    (TickResult.resources_produced res)
    (TickResult.upkeep_paid res) (TickResult.attacks_resolved res ++ [x])%list
    (TickResult.tiles_lost_to_starvation res) (TickResult.trades_expired res).

Definition push_tiles_lost (x : string * Z * Z) (res : TickResult.t) :=
  TickResult.mk (TickResult.tick_number res)
    (TickResult.resources_produced res)
    (TickResult.upkeep_paid res) (TickResult.attacks_resolved res)
    (TickResult.tiles_lost_to_starvation res ++ [x])%list
    (TickResult.trades_expired res).

Definition set_trades_expired (n : Z) (res : TickResult.t) :=
  TickResult.mk (TickResult.tick_number res)
    (TickResult.resources_produced res)
    (TickResult.upkeep_paid res) (TickResult.attacks_resolved res)
    (TickResult.tiles_lost_to_starvation res) n.

Definition getGameState (s : Store) : GameState.t := game_state s.

Definition getAllAgents (s : Store) : list Agent.t := agents s.

(** [SELECT * FROM tiles WHERE owner_id = ?] *)
Definition getAgentTiles (s : Store) (agentId : string) : list Tile.t :=
  filter (fun t => eq_opt_string (Tile.owner_id t) agentId) (tiles s).

(** [a.status = 'pending' AND a.resolves_at <= datetime('now')] *)
Definition attack_is_due (now : Z) (a : Attack.t) : bool :=
  match Attack.status a, Attack.resolves_at a with
  | attack_pending, Some due => due <=? now
  | _, _ => false
  end.

(** The pending attacks whose deadline has passed, each joined with its
    target tile; [defender_id] is that tile's owner when the query runs. *)
Definition getPendingAttacksToResolve (now : Z) (s : Store)
  : list (Attack.t * option string) :=
  flat_map
    (fun a =>
       if attack_is_due now a then
         map (fun t => (a, Tile.owner_id t))
             (filter (at_coord (Attack.target_q a) (Attack.target_r a)) (tiles s))
       else [])
    (attacks s).

Definition calculateResourceProduction (terrain : TerrainType) : Z * Z :=
  match terrain with
  | farmland => (GAME_CONSTANTS.FARMLAND_FOOD, 0)
  | mine => (0, GAME_CONSTANTS.MINE_METAL)
  | mixed => (GAME_CONSTANTS.MIXED_FOOD, GAME_CONSTANTS.MIXED_METAL)
  | barren => (GAME_CONSTANTS.BARREN_FOOD, 0)
  end.

(** [agent?.display_name || 'Unknown'] *)
Definition name_or_unknown (a : option Agent.t) : string :=
  match a with
  | Some x => if String.eqb (Agent.display_name x) "" then "Unknown"
              else Agent.display_name x
  | None => "Unknown"
  end.

(** [owner ? (getAgent(owner)?.display_name || 'Unknown') : 'Nobody'] *)
Definition defender_name (s : Store) (owner : option string) : string :=
  match owner with
  | Some o => if String.eqb o "" then "Nobody" else name_or_unknown (getAgent s o)
  | None => "Nobody"
  end.

(** [owner || ''] *)
Definition or_empty (o : option string) : string :=
  match o with
  | Some x => x
  | None => ""
  end.

Definition set_attack_status (st : AttackStatus) (a : Attack.t) : Attack.t :=
  Attack.mk (Attack.id a) (Attack.attacker_id a) (Attack.target_q a)
            (Attack.target_r a) (Attack.commitment a) st (Attack.resolves_at a).

(** [UPDATE attacks SET status = 'resolved' WHERE id = ?] *)
Definition markAttackResolved (attackId : Z) (s : Store) : Store :=
  with_attacks (sql_update (fun a => Attack.id a =? attackId)
                           (set_attack_status attack_resolved)) s.

(** STEP 1, the body of [for (const attack of attacksToResolve)]. *)
Definition resolveAttack (st : Store * TickResult.t)
  (row : Attack.t * option string) : Store * TickResult.t :=
  let (s, result) := st in
  let (attack, defender_id) := row in
  let tq := Attack.target_q attack in
  let tr := Attack.target_r attack in
  match getTile s tq tr with
  | None => (markAttackResolved (Attack.id attack) s, result)
  | Some tile =>
    let attackerName := name_or_unknown (getAgent s (Attack.attacker_id attack)) in
    let defense := GAME_CONSTANTS.BASE_TILE_DEFENSE + Tile.fortification tile in
    let attackSuccess := Attack.commitment attack >? defense in
    if attackSuccess then
      let previousOwner := Tile.owner_id tile in
      let defenderName := defender_name s previousOwner in
      let s1 := with_tiles (sql_update (at_coord tq tr)
                              (set_owner_reset (Some (Attack.attacker_id attack)))) s in
      let s2 := logEvent (Some (Attack.attacker_id attack)) "attack_success"
                  (attackerName ++ " captured " ++ show_coord tq tr
                   ++ " from " ++ defenderName) s1 in
      let s3 := match previousOwner with
                | Some p => if String.eqb p "" then s2
                            else clearCapitalIfLost p tq tr s2
                | None => s2
                end in
      let result' := push_attacks_resolved
                       (AttackResolved.mk (Attack.id attack)
                          (Attack.attacker_id attack) (or_empty previousOwner)
                          tq tr true) result in
      (markAttackResolved (Attack.id attack) s3, result')
    else
      let defenderName := defender_name s defender_id in
      let s1 := logEvent (Some (Attack.attacker_id attack)) "attack_failed"
                  (attackerName ++ "'s attack on " ++ show_coord tq tr
                   ++ " failed. " ++ defenderName ++ " defended successfully.") s in
      let result' := push_attacks_resolved
                       (AttackResolved.mk (Attack.id attack)
                          (Attack.attacker_id attack) (or_empty defender_id)
                          tq tr false) result in
      (markAttackResolved (Attack.id attack) s1, result')
  end.

(** STEP 1: resolve pending attacks. *)
Definition resolveAttacks (now : Z) (st : Store * TickResult.t)
  : Store * TickResult.t :=
  fold_left resolveAttack (getPendingAttacksToResolve now (fst st)) st.

(** The inner loop of STEP 2: total yield of a list of tiles. *)
Definition totalProduction (ts : list Tile.t) : Z * Z :=
  fold_left (fun acc tile =>
               let production := calculateResourceProduction (Tile.terrain tile) in
               (fst acc + fst production, snd acc + snd production))
            ts (0, 0).

(** STEP 2, the body of [for (const agent of agents)]. *)
Definition produceFor (st : Store * TickResult.t) (agent : Agent.t)
  : Store * TickResult.t :=
  let (s, result) := st in
  let tiles := getAgentTiles s (Agent.id agent) in
  let (totalFood, totalMetal) := totalProduction tiles in
  if (totalFood >? 0) || (totalMetal >? 0) then
    (updateAgentResources (Agent.id agent) totalFood totalMetal s,
     push_resources_produced (Agent.id agent, totalFood, totalMetal) result)
  else (s, result).

(** [valueOrder[terrain] || 0] *)
Definition valueOrder (terrain : TerrainType) : Z :=
  match terrain with
  | barren => 0
  | mixed => 1
  | mine => 2
  | farmland => 3
  end.

(** [Array.prototype.sort] with the comparator
    [(a, b) => valueOrder[a.terrain] - valueOrder[b.terrain]]: a stable
    sort, so tiles of equal value keep their table order. *)
Fixpoint insert_by_value (x : Tile.t) (sorted : list Tile.t) : list Tile.t :=
  match sorted with
  | [] => [x]
  | y :: rest =>
      if valueOrder (Tile.terrain x) - valueOrder (Tile.terrain y) <=? 0
      then x :: sorted
      else y :: insert_by_value x rest
  end.

Definition sort_by_value (ts : list Tile.t) : list Tile.t :=
  fold_right insert_by_value [] ts.

(** [Math.ceil(a / b)] for a positive divisor. *)
Definition ceil_div (a b : Z) : Z := - ((- a) / b).

Definition set_food (f : Z) (a : Agent.t) : Agent.t :=
  Agent.mk (Agent.id a) (Agent.display_name a) f (Agent.metal a)
           (Agent.capital_q a) (Agent.capital_r a) (Agent.last_seen_at a).

(** The body of the starvation loop: one tile is given up. *)
Definition loseTile (agent : Agent.t) (st : Store * TickResult.t)
  (tileToLose : Tile.t) : Store * TickResult.t :=
  let (s, result) := st in
  let lq := Tile.q tileToLose in
  let lr := Tile.r tileToLose in
  let s1 := with_tiles (sql_update (at_coord lq lr) (set_owner_reset None)) s in
  let s2 := clearCapitalIfLost (Agent.id agent) lq lr s1 in
  let s3 := logEvent (Some (Agent.id agent)) "starvation"
              (Agent.display_name agent ++ " lost " ++ show_coord lq lr
               ++ " due to starvation") s2 in
  (s3, push_tiles_lost (Agent.id agent, lq, lr) result).

(** STEP 3, the body of [for (const agent of agents)]. *)
Definition payUpkeep (st : Store * TickResult.t) (agent : Agent.t)
  : Store * TickResult.t :=
  let (s, result) := st in
  let tiles := getAgentTiles s (Agent.id agent) in
  let upkeepCost := Z.of_nat (List.length tiles) * GAME_CONSTANTS.UPKEEP_FOOD_PER_TILE in
  if upkeepCost >? 0 then
    match getAgent s (Agent.id agent) with
    | None => (s, result)
    | Some currentAgent =>
      if Agent.food currentAgent >=? upkeepCost then
        (updateAgentResources (Agent.id agent) (- upkeepCost) 0 s,
         push_upkeep_paid (Agent.id agent, upkeepCost) result)
      else
        let paidAmount := Agent.food currentAgent in
        let s1 := with_agents (sql_update (has_id (Agent.id agent)) (set_food 0)) s in
        let result1 := push_upkeep_paid (Agent.id agent, paidAmount) result in
        let shortfall := upkeepCost - paidAmount in
        let tilesToLose := ceil_div shortfall GAME_CONSTANTS.UPKEEP_FOOD_PER_TILE in
        let tilesOrdered := sort_by_value tiles in
        let count := Z.min tilesToLose (Z.of_nat (List.length tilesOrdered)) in
        fold_left (loseTile agent) (firstn (Z.to_nat count) tilesOrdered)
                  (s1, result1)
    end
  else (s, result).

Definition trade_is_due (now : Z) (t : Trade.t) : bool :=
  is_pending t &&
  match Trade.expires_at t with
  | Some e => e <=? now
  | None => false
  end.

(** STEP 4: [UPDATE trades SET status = 'expired'
    WHERE status = 'pending' AND expires_at <= datetime('now')]. *)
Definition expireTrades (now : Z) (st : Store * TickResult.t)
  : Store * TickResult.t :=
  let (s, result) := st in
  let changes := Z.of_nat (List.length (filter (trade_is_due now) (trades s))) in
  (with_trades (sql_update (trade_is_due now) (set_trade_status trade_expired)) s,
   set_trades_expired changes result).

(** STEP 5: advance the tick counter and log the tick. *)
Definition updateGameState (now newTickNumber : Z) (st : Store * TickResult.t)
  : Store * TickResult.t :=
  let (s, result) := st in
  let s1 := with_game_state
              (fun g => GameState.mk newTickNumber (Some now)
                          (GameState.tick_interval_hours g)
                          (GameState.grid_radius g)) s in
  (logEvent None "tick" ("Game tick " ++ show_Z newTickNumber ++ " processed") s1,
   result).

(** STEP 2 and STEP 3 iterate over the same [agents] array, read once
    after STEP 1. *)
Definition produceResources (agents : list Agent.t) (st : Store * TickResult.t)
  : Store * TickResult.t :=
  fold_left produceFor agents st.

Definition deductUpkeep (agents : list Agent.t) (st : Store * TickResult.t)
  : Store * TickResult.t :=
  fold_left payUpkeep agents st.

Definition processTick (now : Z) (s : Store) : Store * TickResult.t :=
  let gameState := getGameState s in
  let newTickNumber := GameState.current_tick gameState + 1 in
  let result := TickResult.mk newTickNumber [] [] [] [] 0 in
  let st1 := resolveAttacks now (s, result) in
  let agents := getAllAgents (fst st1) in
  let st2 := produceResources agents st1 in
  let st3 := deductUpkeep agents st2 in
  let st4 := expireTrades now st3 in
  updateGameState now newTickNumber st4.

(** [hoursSinceLastTick >= gameState.tick_interval_hours] *)
Definition shouldProcessTick (now : Z) (s : Store) : bool :=
  match GameState.last_tick_at (getGameState s) with
  | None => true
  | Some lastTickTime =>
      now - lastTickTime >=? GameState.tick_interval_hours (getGameState s) * 60 * 60
  end.

(* ================================================================== *)
(** ** The scheduler ([tick/scheduler.ts]) *)
(* ================================================================== *)

(** The timer path: runs every minute, ticks only when one is due. *)
Definition checkAndProcessTick (now : Z) (s : Store) : Store :=
  if shouldProcessTick now s then fst (processTick now s) else s.

(** The admin path: [processTick()] without asking [shouldProcessTick]. *)
Definition triggerTickManually (now : Z) (s : Store) : Store :=
  fst (processTick now s).

(* ================================================================== *)
(** ** Grid generation and expansion ([db/database.ts]) *)
(* ================================================================== *)

(** [Math.random()] is an input of the model: [rng q r] is the draw, in
    hundredths, taken for the tile at [(q, r)]. *)
Definition randomTerrain (rand : Z) : TerrainType :=
  if rand <? 25 then farmland
  else if rand <? 45 then mine
  else if rand <? 55 then mixed
  else barren.

(** The integers [lo, lo + 1, ..., hi] of a [for] loop. *)
Definition Zrange (lo hi : Z) : list Z :=
  map (fun i => lo + Z.of_nat i) (seq 0 (Z.to_nat (hi - lo + 1))).

Definition gridRadius : Z := 8.

Definition generateInitialGrid (rng : Z -> Z -> Z) (s : Store) : Store :=
  let rows :=
    flat_map
      (fun q =>
         let r1 := Z.max (- gridRadius) (- q - gridRadius) in
         let r2 := Z.min gridRadius (- q + gridRadius) in
         map (fun r => Tile.mk q r (randomTerrain (rng q r)) None 0)
             (Zrange r1 r2))
      (Zrange (- gridRadius) gridRadius) in
  with_tiles (fun ts => (ts ++ rows)%list) s.

(** The ring walk: start at axial [(-d, d)], walk six edges of [d] steps. *)
Definition directions : list (Z * Z) :=
  [ (1, 0); (1, -1); (0, -1); (-1, 0); (-1, 1); (0, 1) ].

Definition walk_edge (d : nat) (dir : Z * Z) (st : list (Z * Z) * (Z * Z))
  : list (Z * Z) * (Z * Z) :=
  Nat.iter d
    (fun acc =>
       let '(coords, (q, r)) := acc in
       ((coords ++ [(q, r)])%list, (q + fst dir, r + snd dir)))
    st.

Definition getHexRingCoords (d : Z) : list (Z * Z) :=
  if d =? 0 then [(0, 0)]
  else
    fst (fold_left (fun st dir => walk_edge (Z.to_nat d) dir st)
                   directions ([], (- d, d))).

Definition getGridRadius (s : Store) : Z :=
  GameState.grid_radius (game_state s).

Definition is_unclaimed (t : Tile.t) : bool :=
  match Tile.owner_id t with
  | None => true
  | Some _ => false
  end.

(** [SELECT COUNT( * ) FROM tiles WHERE owner_id IS NULL] *)
Definition getUnclaimedCount (s : Store) : Z :=
  Z.of_nat (List.length (filter is_unclaimed (tiles s))).

(** [INSERT OR IGNORE INTO tiles (q, r, terrain, owner_id, fortification)
    VALUES (?, ?, ?, NULL, 0)]: nothing happens when the key is taken. *)
Definition insert_tile_or_ignore (rng : Z -> Z -> Z) (acc : list Tile.t * Z)
  (c : Z * Z) : list Tile.t * Z :=
  let (ts, tilesAdded) := acc in
  let (q, r) := c in
  if existsb (at_coord q r) ts then (ts, tilesAdded)
  else ((ts ++ [Tile.mk q r (randomTerrain (rng q r)) None 0])%list,
        tilesAdded + 1).

Definition set_grid_radius (radius : Z) (g : GameState.t) : GameState.t :=
  GameState.mk (GameState.current_tick g) (GameState.last_tick_at g)
               (GameState.tick_interval_hours g) radius.

(** [expandGrid]: returns the store with [(newRadius, tilesAdded)]. *)
Definition expandGrid (rng : Z -> Z -> Z) (rings : Z) (s : Store)
  : Store * (Z * Z) :=
  let currentRadius := getGridRadius s in
  let newRadius := currentRadius + rings in
  let ringCoords := flat_map getHexRingCoords (Zrange (currentRadius + 1) newRadius) in
  let (ts, tilesAdded) :=
    fold_left (insert_tile_or_ignore rng) ringCoords (tiles s, 0) in
  (with_game_state (set_grid_radius newRadius) (with_tiles (fun _ => ts) s),
   (newRadius, tilesAdded)).

(* ================================================================== *)
(** ** Joining the game ([routes/agent.ts]) *)
(* ================================================================== *)

Definition center_distance (t : Tile.t) : Z :=
  Tile.q t * Tile.q t + Tile.r t * Tile.r t + Tile.q t * Tile.r t.

(** The first row of least [key]; rows of equal key stay in table order. *)
Fixpoint first_min_by (key : Tile.t -> Z) (ts : list Tile.t) : option Tile.t :=
  match ts with
  | [] => None
  | t :: rest =>
      match first_min_by key rest with
      | None => Some t
      | Some m => if key t <=? key m then Some t else Some m
      end
  end.

(** [SELECT * FROM tiles WHERE owner_id IS NULL
    ORDER BY (q * q + r * r + q * r) ASC LIMIT 1] *)
Definition findStartingTile (s : Store) : option Tile.t :=
  first_min_by center_distance (filter is_unclaimed (tiles s)).

Record JoinRequest : Type := mkJoin {
  agent_id : JVal;
  display_name : JVal;
  webhook_url : JVal;
  webhook_token : JVal;
  gateway_token : JVal;
  custom_strategy : JVal;
  dashboard_chat_enabled : JVal
}.

(** The database driver binds numbers, strings and [null]; handed a
    boolean it throws. *)
Definition bindable (v : JVal) : bool :=
  match v with
  | JBool _ => false
  | _ => true
  end.

(** [x || null] *)
Definition or_null (v : JVal) : JVal := if truthy v then v else JNull.

(** The five optional values as [INSERT INTO agents] binds them;
    [dashboard_chat_enabled ? 1 : 0] is always a number. *)
Definition optional_bindings (req : JoinRequest) : list JVal :=
  [or_null (webhook_url req); or_null (webhook_token req);
   or_null (gateway_token req); or_null (custom_strategy req);
   JNum (if truthy (dashboard_chat_enabled req) then 1 else 0)].

(** A row of [agent_memories] under the primary key [agentId]. *)
Definition has_memory (agentId : string) (m : AgentMemory.t) : bool :=
  String.eqb (AgentMemory.agent_id m) agentId.

(** [!x || typeof x !== 'string' || x.trim().length < 2] *)
Definition valid_name (v : JVal) : option string :=
  match v with
  | JStr x =>
      if negb (truthy v) || (String.length (trim x) <? 2)%nat then None
      else Some (trim x)
  | _ => None
  end.

(** [router.post('/join')]: the store and the HTTP status.  The inserts
    and updates run in one transaction inside [try]: when binding a value
    throws, or [agent_memories] already has a row under the new id, nothing
    of the transaction is kept and the answer is 500; the grid expansion
    ran before it and stays. *)
Definition join (rng : Z -> Z -> Z) (now : Z) (s : Store) (req : JoinRequest)
  : Store * Z :=
  match valid_name (agent_id req) with
  | None => (s, 400)
  | Some trimmedId =>
    match valid_name (display_name req) with
    | None => (s, 400)
    | Some trimmedName =>
      if existsb (has_id trimmedId) (agents s) then (s, 409)
      else if existsb (fun a => String.eqb (Agent.display_name a) trimmedName)
                      (agents s) then (s, 409)
      else
        let s1 := if getUnclaimedCount s <? GAME_CONSTANTS.MAP_EXPANSION_THRESHOLD
                  then fst (expandGrid rng GAME_CONSTANTS.MAP_EXPANSION_RINGS s)
                  else s in
        match findStartingTile s1 with
        | None => (s1, 503)
        | Some startingTile =>
          if negb (forallb bindable (optional_bindings req))
             || existsb (has_memory trimmedId) (agent_memories s1)
          then (s1, 500)
          else
          let sq := Tile.q startingTile in
          let sr := Tile.r startingTile in
          let s2 := with_agents
                      (fun l => (l ++ [Agent.mk trimmedId trimmedName 100 50
                                               None None None])%list) s1 in
          let s3 := with_agent_memories
                      (fun l => (l ++ [AgentMemory.mk trimmedId "" now])%list) s2 in
          let s4 := with_tiles (sql_update (at_coord sq sr)
                                  (set_owner (Some trimmedId))) s3 in
          let s5 := with_agents (sql_update (has_id trimmedId)
                                   (set_capital (Some sq) (Some sr))) s4 in
          let s6 := logEvent (Some trimmedId) "join"
                      (trimmedName ++ " has entered the game") s5 in
          (s6, 201)
        end
    end
  end.

(* ================================================================== *)
(** ** Administration ([index.ts]) *)
(* ================================================================== *)

Definition set_resources (f m : Z) (a : Agent.t) : Agent.t :=
  Agent.mk (Agent.id a) (Agent.display_name a) f m
           (Agent.capital_q a) (Agent.capital_r a) (Agent.last_seen_at a).

(** One iteration of the loop that hands every kept agent a tile near the
    centre and makes it the capital. *)
Definition assignStartingTile (s : Store) (agentId : string) : Store :=
  match findStartingTile s with
  | None => s
  | Some tile =>
      let s1 := with_tiles (sql_update (at_coord (Tile.q tile) (Tile.r tile))
                              (set_owner (Some agentId))) s in
      with_agents (sql_update (has_id agentId)
                     (set_capital (Some (Tile.q tile)) (Some (Tile.r tile)))) s1
  end.

(** [app.post('/api/admin/reset')] *)
Definition resetGame (now : Z) (keepAgentIds : list string)
  (food metal : option Z) (s : Store) : Store :=
  let startFood := if or_zero food =? 0 then 200 else or_zero food in
  let startMetal := if or_zero metal =? 0 then 100 else or_zero metal in
  let kept (id : string) := existsb (String.eqb id) keepAgentIds in
  let s1 := with_events (fun _ => [])
              (with_messages (fun _ => [])
                 (with_trades (fun _ => [])
                    (with_attacks (fun _ => []) s))) in
  let s2 := with_tiles (sql_update (fun _ => true) (set_owner_reset None)) s1 in
  let s3 := match keepAgentIds with
            | [] => s2
            | _ => with_agents (filter (fun a => kept (Agent.id a)))
                     (with_agent_memories
                        (filter (fun m => kept (AgentMemory.agent_id m))) s2)
            end in
  let s4 := with_agents (sql_update (fun _ => true)
                           (set_resources startFood startMetal)) s3 in
  let s5 := with_agent_memories
              (sql_update (fun _ => true)
                 (fun m => AgentMemory.mk (AgentMemory.agent_id m) ""
                             (AgentMemory.updated_at m))) s4 in
  let s6 := fold_left assignStartingTile (map Agent.id (agents s5)) s5 in
  with_game_state
    (fun g => GameState.mk 0 (Some now) (GameState.tick_interval_hours g)
                (GameState.grid_radius g)) s6.

(** The database as [initializeDatabase] leaves it on first start. *)
Definition emptyStore (now : Z) : Store :=
  mkStore [] [] [] [] [] [] [] (GameState.mk 0 (Some now) 2 8) 0 0 0.

Definition initializeDatabase (rng : Z -> Z -> Z) (now : Z) : Store :=
  generateInitialGrid rng (emptyStore now).

(* ================================================================== *)
(** ** The server as a transition system *)
(* ================================================================== *)

(** The requests and timer events that write to the game tables.  (The
    remaining routes only read them, or write the memory, strategy,
    message-read and dashboard columns.) *)
Inductive Op : Type :=
| OpAction (now : Z) (id : string) (req : ActionRequest)
| OpJoin (rng : Z -> Z -> Z) (now : Z) (req : JoinRequest)
| OpTimer (now : Z)
| OpManualTick (now : Z)
| OpExpandGrid (rng : Z -> Z -> Z) (rings : Z)
| OpReset (now : Z) (keepAgentIds : list string) (food metal : option Z).

Definition run (op : Op) (s : Store) : Store :=
  match op with
  | OpAction now id req =>
      match post_action now s id req with
      | Some out => fst out
      | None => s
      end
  | OpJoin rng now req => fst (join rng now s req)
  | OpTimer now => checkAndProcessTick now s
  | OpManualTick now => triggerTickManually now s
  | OpExpandGrid rng rings => fst (expandGrid rng rings s)
  | OpReset now keep food metal => resetGame now keep food metal s
  end.

(** The states the server can be in: a fresh database, then any sequence
    of operations. *)
Inductive reachable : Store -> Prop :=
| reachable_init (rng : Z -> Z -> Z) (now : Z) :
    reachable (initializeDatabase rng now)
| reachable_step (s : Store) (op : Op) :
    reachable s -> reachable (run op s).

(* ================================================================== *)
(** ** Read-side helpers of the tick and of the inbox *)
(* ================================================================== *)

(** [getTimeUntilNextTick], in milliseconds; the model's clock counts
    seconds. *)
Definition getTimeUntilNextTick (now : Z) (s : Store) : Z :=
  match GameState.last_tick_at (getGameState s) with
  | None => 0
  | Some lastTickTime =>
      let tickIntervalMs :=
        GameState.tick_interval_hours (getGameState s) * 60 * 60 * 1000 in
      let nextTickTime := lastTickTime * 1000 + tickIntervalMs in
      Z.max 0 (nextTickTime - now * 1000)
  end.

(** [getNextTickAt], in seconds. *)
Definition getNextTickAt (s : Store) : option Z :=
  match GameState.last_tick_at (getGameState s) with
  | None => None
  | Some lastTickTime =>
      Some (lastTickTime
            + GameState.tick_interval_hours (getGameState s) * 60 * 60)
  end.

Definition set_read (v : Z) (m : Message.t) : Message.t :=
  Message.mk (Message.id m) (Message.from_id m) (Message.to_id m)
             (Message.content m) v.

(** [WHERE id IN (...) AND to_id = ?] *)
Definition addressed_in (messageIds : list Z) (agentId : string)
  (m : Message.t) : bool :=
  existsb (Z.eqb (Message.id m)) messageIds
  && String.eqb (Message.to_id m) agentId.

(** [markMessagesRead]; [result.changes] counts the rows the [WHERE]
    clause selects. *)
Definition markMessagesRead (s : Store) (agent : Agent.t) (messageIds : list Z)
  : Store * ActionResponse :=
  match messageIds with
  | [] => fail "No message IDs provided" s
  | _ =>
      let hit := addressed_in messageIds (Agent.id agent) in
      let changes := Z.of_nat (List.length (filter hit (messages s))) in
      (with_messages (sql_update hit (set_read 1)) s,
       mkResponse true ("Marked " ++ show_Z changes ++ " messages as read"))
  end.

(** [router.post('/:id/memory')] ([routes/actions.ts]): the store, the
    HTTP status and [chars_saved]. *)
Definition post_memory (now : Z) (s : Store) (id : string) (content : JVal)
  : Store * (Z * option Z) :=
  match getAgentById s id with
  | None => (s, (404, None))
  | Some _ =>
      match content with
      | JStr c =>
          (saveAgentMemory now id c s,
           (200, Some (Z.of_nat (Nat.min (String.length c)
                                         GAME_CONSTANTS.MAX_MEMORY_CHARS))))
      | _ => (s, (400, None))
      end
  end.

(* ================================================================== *)
(** * Vocabulary of the statements and sample stores *)
(* ================================================================== *)

(** The row stored for the agent a handler is given.  The route reads the
    agent, stamps [last_seen_at] in the table and then calls the handler
    with the record it read: the stored row is that record with a time
    stamp of its own. *)
Definition stamped (seen : option Z) (a : Agent.t) : Agent.t :=
  Agent.mk (Agent.id a) (Agent.display_name a) (Agent.food a) (Agent.metal a)
           (Agent.capital_q a) (Agent.capital_r a) seen.

(** The four ways an expansion is refused. *)
Definition expand_refused (s : Store) (agent : Agent.t) (q r : Z) : Prop :=
  getTile s q r = None
  \/ (exists t owner, getTile s q r = Some t /\ Tile.owner_id t = Some owner)
  \/ hasAdjacentTerritory s (Agent.id agent) q r = false
  \/ Agent.food agent < 20
  \/ Agent.metal agent < 10.


Definition coord (t : Tile.t) : Z * Z := (Tile.q t, Tile.r t).

(** Does the agent hold its capital on [(q, r)]? *)
Definition capital_at (a : Agent.t) (q r : Z) : bool :=
  eq_opt_Z (Agent.capital_q a) q && eq_opt_Z (Agent.capital_r a) r.

Definition attack_captures (attack : Attack.t) (tile : Tile.t) : bool :=
  Attack.commitment attack >? 10 + Tile.fortification tile.

(** The previous owner as the capture branch sees it: [if (previousOwner)]. *)
Definition clear_previous_owner (owner : option string) (q r : Z) (s : Store)
  : Store :=
  match owner with
  | Some p => if String.eqb p "" then s else clearCapitalIfLost p q r s
  | None => s
  end.

(** The capital an agent loses with the capture of [tile] at [(q, r)]: the
    agent is the previous owner and holds its capital there. *)
Definition loses_capital (tile : Tile.t) (q r : Z) (id : string) (a : Agent.t)
  : bool :=
  eq_opt_string (Tile.owner_id tile) id && negb (String.eqb id "")
  && capital_at a q r.

(** The empty result a tick starts from. *)
Definition initialResult (s : Store) : TickResult.t :=
  TickResult.mk (GameState.current_tick (getGameState s) + 1) [] [] [] [] 0.

(** Once the rows of an attack id are resolved they stay resolved. *)
Definition resolved_in (id : Z) (rows : list Attack.t) : Prop :=
  forall a, In a rows -> Attack.id a = id -> Attack.status a = attack_resolved.


(** *** Sample stores *)

Definition alice : Agent.t := Agent.mk "alice" "Alice" 100 50 (Some 0) (Some 0) None.
Definition bob : Agent.t := Agent.mk "bob" "Bob" 100 50 (Some 1) (Some 0) None.

(** Two players on a strip of four tiles: alice on barren [(0, 0)], bob
    on farmland [(1, 0)], two free tiles next to alice. *)
Definition sample_store : Store :=
  mkStore [alice; bob]
          [AgentMemory.mk "alice" "" 0; AgentMemory.mk "bob" "" 0]
          [Tile.mk 0 0 barren (Some "alice") 0;
           Tile.mk 1 0 farmland (Some "bob") 0;
           Tile.mk 0 1 farmland None 0;
           Tile.mk (-1) 0 mine None 0]
          [] [] [] [] (GameState.mk 0 (Some 0) 2 8) 0 0 0.

(** Scenario B: alice commits 15 metal against bob's unfortified tile. *)
Definition battle_store : Store :=
  fst (declareAttack 0 sample_store alice 1 0 15).

Definition battle_attack : Attack.t :=
  Attack.mk 1 "alice" 1 0 15 attack_pending (Some 7200).

(** Before the tick bob gifts the contested tile to alice, who puts 3
    metal of fortification on it: alice now attacks her own tile. *)
Definition self_attack_store : Store :=
  fst (fortify (fst (giftTile battle_store bob 1 0 "alice"))
               (add_resources 0 (-15) alice) 1 0 3).

(** *** Invariants of the tiles table *)

(** A tile nobody owns carries no fortification. *)
Definition unfortified_if_unowned (t : Tile.t) : Prop :=
  Tile.owner_id t = None -> Tile.fortification t = 0.

(** The primary key [(q, r)]. *)
Definition tiles_keyed (ts : list Tile.t) : Prop := NoDup (map coord ts).

Definition tiles_ok (ts : list Tile.t) : Prop :=
  tiles_keyed ts /\ Forall unfortified_if_unowned ts.

(** What one submitted action can do to the tiles table.  The flag says
    whether the action is a tile gift, the one effect that moves a tile
    between two players. *)
Inductive tile_effect (ts : list Tile.t) : bool -> list Tile.t -> Prop :=
| effect_none (gift : bool) : tile_effect ts gift ts
| effect_claim (gift : bool) (q r : Z) (newOwner : string) (t : Tile.t) :
    find (at_coord q r) ts = Some t -> Tile.owner_id t = None ->
    tile_effect ts gift (sql_update (at_coord q r) (set_owner (Some newOwner)) ts)
| effect_gift (q r : Z) (newOwner giver : string) (t : Tile.t) :
    find (at_coord q r) ts = Some t -> Tile.owner_id t = Some giver ->
    tile_effect ts true (sql_update (at_coord q r) (set_owner (Some newOwner)) ts)
| effect_fortify (gift : bool) (q r amount : Z) (owner : string) (t : Tile.t) :
    find (at_coord q r) ts = Some t -> Tile.owner_id t = Some owner ->
    tile_effect ts gift (sql_update (at_coord q r) (add_fortification amount) ts).

(** [action.type === 'gift_tile'] *)
Definition is_gift_tile (act : AgentAction.t) : bool :=
  match AgentAction.type act with
  | JStr ty => String.eqb ty "gift_tile"
  | _ => false
  end.

(** [action.type === 'gift_tile'] for the request as a whole. *)
Definition is_gift_request (req : ActionRequest) : bool :=
  match action req with
  | Some act => is_gift_tile act
  | None => false
  end.

(** What a tick can do to the tiles table: a sequence of updates, each
    giving one coordinate a new owner (or none) and fortification 0. *)
Inductive tiles_reset (ts : list Tile.t) : list Tile.t -> Prop :=
| reset_none : tiles_reset ts ts
| reset_more (ts' : list Tile.t) (q r : Z) (o : option string) :
    tiles_reset ts ts' ->
    tiles_reset ts (sql_update (at_coord q r) (set_owner_reset o) ts').

(** A freshly generated tile. *)
Definition fresh_tile (t : Tile.t) : Prop :=
  Tile.owner_id t = None /\ Tile.fortification t = 0.

(** Grid expansion appends fresh tiles and leaves the old rows alone. *)
Definition grid_grows (ts ts' : list Tile.t) : Prop :=
  exists extra, ts' = (ts ++ extra)%list /\ Forall fresh_tile extra.

(** *** A short game, from a fresh database *)

(** A join request that gives the two names and nothing else. *)
Definition join_as (id name : string) : JoinRequest :=
  mkJoin (JStr id) (JStr name) JUndefined JUndefined JUndefined JUndefined
         JUndefined.


Definition fortify_action (q r amount : Z) : ActionRequest :=
  mkRequest
    (Some (AgentAction.mk (JStr "fortify") (JNum q) (JNum r) JUndefined
             (JNum amount) JUndefined JUndefined JUndefined
             JUndefined JUndefined JUndefined JUndefined JUndefined JUndefined))
    JUndefined.

Definition gift_tile_action (q r : Z) (to : string) : ActionRequest :=
  mkRequest
    (Some (AgentAction.mk (JStr "gift_tile") (JNum q) (JNum r) JUndefined
             JUndefined (JStr to) JUndefined JUndefined
             JUndefined JUndefined JUndefined JUndefined JUndefined JUndefined))
    JUndefined.

(** Every draw is 0: an all-farmland map. *)
Definition all_farmland (q r : Z) : Z := 0.

(** alice and bob join a fresh world; alice is placed on [(0, 0)]. *)
Definition two_players : Store :=
  run (OpJoin all_farmland 20 (join_as "bob" "Bob"))
    (run (OpJoin all_farmland 10 (join_as "alice" "Alice"))
       (initializeDatabase all_farmland 0)).

(** alice then puts 5 metal of fortification on her tile. *)
Definition fortified_game : Store :=
  run (OpAction 30 "alice" (fortify_action 0 0 5)) two_players.

(** The gift of that tile to bob. *)
Definition gift_op : Op := OpAction 40 "alice" (gift_tile_action 0 0 "bob").

(** Is the operation a [gift_tile] action? *)
Definition is_gift_op (op : Op) : bool :=
  match op with
  | OpAction _ _ req => is_gift_request req
  | _ => false
  end.

(** The reading of "every ownership change leaves the tile with
    fortification 0" over the transition system: whenever one operation
    changes the owner of a tile, the tile has fortification 0 afterwards. *)
Definition every_ownership_change_resets : Prop :=
  forall (s : Store) (op : Op) (q r : Z) (t t' : Tile.t),
    reachable s ->
    getTile s q r = Some t ->
    getTile (run op s) q r = Some t' ->
    Tile.owner_id t' <> Tile.owner_id t ->
    Tile.fortification t' = 0.

(** Idempotence of the manual trigger, as the claim words it: a second
    trigger leaves the state the first one produced. *)
Definition manual_trigger_idempotent : Prop :=
  forall (now : Z) (s : Store),
    triggerTickManually now (triggerTickManually now s)
    = triggerTickManually now s.

(** *** Trades *)

(** Referential integrity of the trades table: the proposer of every trade
    is a registered agent (the foreign key [from_id REFERENCES agents]),
    and nobody trades with himself ([proposeTrade] refuses it). *)
Definition trades_wf (s : Store) : Prop :=
  forall t, In t (trades s) ->
    (exists proposer, getAgent s (Trade.from_id t) = Some proposer)
    /\ Trade.from_id t <> Trade.to_id t.

(** The ways an acceptance is refused. *)
Definition accept_refused (now : Z) (s : Store) (agent : Agent.t) (tradeId : Z)
  : Prop :=
  (forall t, In t (trades s) -> Trade.id t = tradeId ->
             Trade.status t <> trade_pending)
  \/ exists trade,
       getPendingTrade s tradeId = Some trade
       /\ (trade_is_past_expiry now trade = true
           \/ Trade.to_id trade <> Agent.id agent
           \/ (exists proposer,
                 getAgent s (Trade.from_id trade) = Some proposer
                 /\ (Agent.food proposer < Trade.offer_food trade
                     \/ Agent.metal proposer < Trade.offer_metal trade))
           \/ Agent.food agent < Trade.request_food trade
           \/ Agent.metal agent < Trade.request_metal trade).

(** The trades table with the status of trade [tradeId] set to [st] and
    nothing else touched. *)
Definition mark_trade (tradeId : Z) (st : TradeStatus) (rows : list Trade.t)
  : list Trade.t :=
  map (fun t =>
         if Trade.id t =? tradeId then
           Trade.mk (Trade.id t) (Trade.from_id t) (Trade.to_id t)
                    (Trade.offer_food t) (Trade.offer_metal t)
                    (Trade.request_food t) (Trade.request_metal t)
                    st (Trade.expires_at t)
         else t)
      rows.

(** The branch [acceptTrade] takes, read off its guards. *)
Inductive accept_outcome (now : Z) (s : Store) (agent : Agent.t) (tid : Z)
  : Store * ActionResponse -> Prop :=
| accept_not_pending (msg : string) :
    getPendingTrade s tid = None ->
    accept_outcome now s agent tid (s, mkResponse false msg)
| accept_expired (trade : Trade.t) (msg : string) :
    getPendingTrade s tid = Some trade ->
    trade_is_past_expiry now trade = true ->
    accept_outcome now s agent tid
      (updateTradeStatus tid trade_expired s, mkResponse false msg)
| accept_not_recipient (trade : Trade.t) (msg : string) :
    getPendingTrade s tid = Some trade ->
    trade_is_past_expiry now trade = false ->
    Trade.to_id trade <> Agent.id agent ->
    accept_outcome now s agent tid (s, mkResponse false msg)
| accept_no_proposer (trade : Trade.t) (msg : string) :
    getPendingTrade s tid = Some trade ->
    trade_is_past_expiry now trade = false ->
    Trade.to_id trade = Agent.id agent ->
    getAgent s (Trade.from_id trade) = None ->
    accept_outcome now s agent tid (s, mkResponse false msg)
| accept_proposer_short (trade : Trade.t) (proposer : Agent.t) (msg : string) :
    getPendingTrade s tid = Some trade ->
    trade_is_past_expiry now trade = false ->
    Trade.to_id trade = Agent.id agent ->
    getAgent s (Trade.from_id trade) = Some proposer ->
    Agent.food proposer < Trade.offer_food trade
    \/ Agent.metal proposer < Trade.offer_metal trade ->
    accept_outcome now s agent tid
      (updateTradeStatus tid trade_expired s, mkResponse false msg)
| accept_accepter_short (trade : Trade.t) (proposer : Agent.t) (msg : string) :
    getPendingTrade s tid = Some trade ->
    trade_is_past_expiry now trade = false ->
    Trade.to_id trade = Agent.id agent ->
    getAgent s (Trade.from_id trade) = Some proposer ->
    Agent.food proposer >= Trade.offer_food trade ->
    Agent.metal proposer >= Trade.offer_metal trade ->
    Agent.food agent < Trade.request_food trade
    \/ Agent.metal agent < Trade.request_metal trade ->
    accept_outcome now s agent tid (s, mkResponse false msg)
| accept_done (trade : Trade.t) (proposer : Agent.t) (msg : string) :
    getPendingTrade s tid = Some trade ->
    trade_is_past_expiry now trade = false ->
    Trade.to_id trade = Agent.id agent ->
    getAgent s (Trade.from_id trade) = Some proposer ->
    Agent.food proposer >= Trade.offer_food trade ->
    Agent.metal proposer >= Trade.offer_metal trade ->
    Agent.food agent >= Trade.request_food trade ->
    Agent.metal agent >= Trade.request_metal trade ->
    accept_outcome now s agent tid
      (logEvent None "trade_accepted"
         (Agent.display_name proposer ++ " and " ++ Agent.display_name agent
          ++ " completed a trade")
         (updateTradeStatus tid trade_accepted
            (updateAgentResources (Agent.id agent)
               (Trade.offer_food trade - Trade.request_food trade)
               (Trade.offer_metal trade - Trade.request_metal trade)
               (updateAgentResources (Agent.id proposer)
                  (- Trade.offer_food trade + Trade.request_food trade)
                  (- Trade.offer_metal trade + Trade.request_metal trade) s))),
       mkResponse true msg).

(** bob offers alice 30 food for 20 metal. *)
Definition trade_store : Store :=
  fst (proposeTrade 0 sample_store bob "alice" 30 0 0 20).

(** *** The action endpoint *)





(** The memory table after the route stored [v] for agent [id] at [now]:
    untouched when the request carries none. *)
Definition memory_saved (now : Z) (id : string) (v : JVal)
  (rows : list AgentMemory.t) : list AgentMemory.t :=
  match v with
  | JStr content =>
      map (fun m =>
             if String.eqb (AgentMemory.agent_id m) id then
               AgentMemory.mk (AgentMemory.agent_id m)
                 (String.substring 0 GAME_CONSTANTS.MAX_MEMORY_CHARS content)
                 now
             else m)
          rows
  | _ => rows
  end.





(** *** Upkeep and starvation, as functions of what the agent holds *)

(** The primary key of the agents table. *)
Definition agents_keyed (l : list Agent.t) : Prop := NoDup (map Agent.id l).

(** Tiles in ascending terrain value. *)
Definition value_le (a b : Tile.t) : Prop :=
  valueOrder (Tile.terrain a) <= valueOrder (Tile.terrain b).

(** Every element of the first list is at most every element of the
    second. *)
Definition all_le (l1 l2 : list Tile.t) : Prop :=
  forall a b, In a l1 -> In b l2 -> value_le a b.

Inductive ascending : list Tile.t -> Prop :=
| ascending_nil : ascending []
| ascending_cons (x : Tile.t) (l : list Tile.t) :
    (forall y, In y l -> value_le x y) -> ascending l -> ascending (x :: l).

(** [upkeepCost] of a holding. *)
Definition upkeepCostOf (owned : list Tile.t) : Z :=
  Z.of_nat (List.length owned) * GAME_CONSTANTS.UPKEEP_FOOD_PER_TILE.

(** The agent owes upkeep and cannot pay it. *)
Definition starves (food : Z) (owned : list Tile.t) : bool :=
  (upkeepCostOf owned >? 0) && negb (food >=? upkeepCostOf owned).

(** [Math.min(tilesToLose, tilesOrdered.length)] *)
Definition tilesToLoseOf (food : Z) (owned : list Tile.t) : Z :=
  Z.min (ceil_div (upkeepCostOf owned - food) GAME_CONSTANTS.UPKEEP_FOOD_PER_TILE)
        (Z.of_nat (List.length (sort_by_value owned))).

(** The tiles a starving agent gives up. *)
Definition tilesLost (food : Z) (owned : list Tile.t) : list Tile.t :=
  if starves food owned
  then firstn (Z.to_nat (tilesToLoseOf food owned)) (sort_by_value owned)
  else [].

(** Is [t] at the coordinate of one of the [lost] tiles? *)
Definition covers (lost : list Tile.t) (t : Tile.t) : bool :=
  existsb (fun l => at_coord (Tile.q l) (Tile.r l) t) lost.

(** Does the agent hold its capital on one of the [lost] tiles? *)
Definition capital_among (lost : list Tile.t) (a : Agent.t) : bool :=
  existsb (fun l => capital_at a (Tile.q l) (Tile.r l)) lost.

Definition clear_capital_among (lost : list Tile.t) (a : Agent.t) : Agent.t :=
  if capital_among lost a then set_capital None None a else a.

(** The agent's record after STEP 3, given what it owns. *)
Definition agentAfterUpkeep (owned : list Tile.t) (cur : Agent.t) : Agent.t :=
  if upkeepCostOf owned >? 0 then
    if Agent.food cur >=? upkeepCostOf owned
    then add_resources (- upkeepCostOf owned) 0 cur
    else clear_capital_among (tilesLost (Agent.food cur) owned) (set_food 0 cur)
  else cur.

(** The tiles the agent [id] gives up when STEP 3 reaches it in [s]. *)
Definition lostOf (s : Store) (id : string) : list Tile.t :=
  match getAgent s id with
  | Some cur => tilesLost (Agent.food cur) (getAgentTiles s id)
  | None => []
  end.

Definition has_turn (l : list Agent.t) (x : string) : bool :=
  existsb (fun a => String.eqb x (Agent.id a)) l.


Definition lost_in_phase (s : Store) (l : list Agent.t) (t : Tile.t) : bool :=
  existsb (fun a => covers (lostOf s (Agent.id a)) t) l.


(** What the tiles of [id] yield in one tick. *)
Definition yieldOf (s : Store) (id : string) : Z * Z :=
  totalProduction (getAgentTiles s id).

(** The agent's record after STEP 2. *)
Definition agentAfterProduction (s : Store) (a : Agent.t) : Agent.t :=
  add_resources (fst (yieldOf s (Agent.id a))) (snd (yieldOf s (Agent.id a))) a.

(** Number of tiles of one terrain in a holding. *)
Definition count_terrain (terrain : TerrainType) (ts : list Tile.t) : Z :=
  Z.of_nat (List.length
              (filter (fun t => valueOrder (Tile.terrain t) =? valueOrder terrain)
                      ts)).

(** Both primary keys hold. *)
Definition store_keyed (s : Store) : Prop :=
  tiles_keyed (tiles s) /\ agents_keyed (agents s).

(** The store after STEP 1 of a tick. *)
Definition afterAttacks (now : Z) (s : Store) : Store :=
  fst (resolveAttacks now (s, initialResult s)).

(** The store after STEP 2 of a tick. *)
Definition afterProduction (now : Z) (s : Store) : Store :=
  fst (produceResources (getAllAgents (afterAttacks now s))
         (resolveAttacks now (s, initialResult s))).

(** The store after STEP 3 of a tick. *)
Definition afterUpkeep (now : Z) (s : Store) : Store :=
  fst (deductUpkeep (getAllAgents (afterAttacks now s))
         (produceResources (getAllAgents (afterAttacks now s))
            (resolveAttacks now (s, initialResult s)))).

(** *** Further sample stores *)

(** A miner down to 1 food, with the capital on the mine [(0, 0)], a
    barren tile and a second mine; a farmer on one farmland tile. *)
Definition miner : Agent.t := Agent.mk "miner" "Miner" 1 0 (Some 0) (Some 0) None.
Definition farmer : Agent.t := Agent.mk "farmer" "Farmer" 0 0 (Some 5) (Some 5) None.

Definition famine_store : Store :=
  mkStore [miner; farmer] []
          [Tile.mk 0 0 mine (Some "miner") 4;
           Tile.mk 1 0 barren (Some "miner") 0;
           Tile.mk 0 1 mine (Some "miner") 2;
           Tile.mk 5 5 farmland (Some "farmer") 1;
           Tile.mk 2 2 mixed None 0]
          [] [] [] [] (GameState.mk 0 (Some 0) 2 8) 0 0 0.

(** alice's attack on bob's mine, committed with 15 metal, is due. *)
Definition raid_store : Store :=
  mkStore [Agent.mk "alice" "Alice" 100 35 (Some 0) (Some 0) None; bob]
          [AgentMemory.mk "alice" "" 0; AgentMemory.mk "bob" "" 0]
          [Tile.mk 0 0 barren (Some "alice") 0;
           Tile.mk 1 0 mine (Some "bob") 0;
           Tile.mk 0 1 farmland None 0]
          [] []
          [Attack.mk 1 "alice" 1 0 15 attack_pending (Some 7200)]
          [] (GameState.mk 0 (Some 0) 2 8) 1 0 0.

(** The claim that a tile captured during a tick yields for its new owner
    only from the next tick: in a tick whose one due attack captures its
    target, the metal the attacker ends the tick with is the metal it had
    plus the yield of the tiles it held when the tick began.  (A tick
    never charges metal, so the difference is what the tick produced.) *)
Definition capture_yields_from_next_tick : Prop :=
  forall (now : Z) (s : Store) (attack : Attack.t) (d : option string)
         (tile : Tile.t) (a a' : Agent.t),
    store_keyed s ->
    getPendingAttacksToResolve now s = [(attack, d)] ->
    getTile s (Attack.target_q attack) (Attack.target_r attack) = Some tile ->
    attack_captures attack tile = true ->
    getAgent s (Attack.attacker_id attack) = Some a ->
    getAgent (fst (processTick now s)) (Attack.attacker_id attack) = Some a' ->
    Agent.metal a'
    = Agent.metal a
      + snd (totalProduction (getAgentTiles s (Attack.attacker_id attack))).

(** *** Hex adjacency *)

(** Distance on the axial grid: the largest of the three cube-coordinate
    differences. *)
Definition hex_distance (q r q' r' : Z) : Z :=
  Z.max (Z.abs (q' - q)) (Z.max (Z.abs (r' - r)) (Z.abs ((q' + r') - (q + r)))).

(** The tiles table covers exactly the cells within [radius] of the
    origin. *)
Definition hexagon (radius : Z) (ts : list Tile.t) : Prop :=
  forall q r, In (q, r) (map coord ts) <-> hex_distance 0 0 q r <= radius.

(** *** Joining *)





(** *** What no action rewrites *)

(** The columns of an agent row that identify it to the server. *)
Definition identity (a : Agent.t) : string * string * option Z :=
  (Agent.id a, Agent.display_name a, Agent.last_seen_at a).

(** The second store has the same agents, in the same order, under the
    same ids, names and last-seen stamps, the same memories and the same
    game state. *)
Definition keeps_identities (s s' : Store) : Prop :=
  map identity (agents s') = map identity (agents s)
  /\ agent_memories s' = agent_memories s
  /\ game_state s' = game_state s.

(** *** Amounts the route hands on unchecked *)





(** *** Solvency *)




(** The record a handler was given shows the balances the store holds for
    that agent. *)
Definition current (s : Store) (agent : Agent.t) : Prop :=
  forall x, In x (agents s) -> Agent.id x = Agent.id agent ->
            Agent.food x = Agent.food agent /\ Agent.metal x = Agent.metal agent.




(** *** The parties of the trades *)

Definition parties (t : Trade.t) : string * string :=
  (Trade.from_id t, Trade.to_id t).

(** What one action of [agent] does to the trades table, as far as the
    parties go: rows are rewritten in place, or one row is appended that
    the agent proposes to somebody else. *)
Definition trades_step (agent : Agent.t) (s s' : Store) : Prop :=
  map parties (trades s') = map parties (trades s)
  \/ exists row,
       trades s' = (trades s ++ [row])%list
       /\ Trade.from_id row = Agent.id agent
       /\ Trade.to_id row <> Agent.id agent.

(** Every trade was proposed by a registered agent to somebody else. *)
Definition proposers_registered (s : Store) : Prop :=
  forall t, In t (trades s) ->
    In (Trade.from_id t) (map Agent.id (agents s))
    /\ Trade.from_id t <> Trade.to_id t.

(** bob offers alice 30 food for 20 metal. *)
Definition trade_propose_action (to : string) (offerFood requestMetal : Z)
  : ActionRequest :=
  mkRequest
    (Some (AgentAction.mk (JStr "trade_propose") JUndefined JUndefined
             JUndefined JUndefined (JStr to) JUndefined JUndefined
             JUndefined JUndefined (JNum offerFood) JUndefined JUndefined
             (JNum requestMetal)))
    JUndefined.

Definition trading_game : Store :=
  run (OpAction 30 "bob" (trade_propose_action "alice" 30 20)) two_players.

(* ================================================================== *)
(** * Properties *)
(* ================================================================== *)

(** ** Rows and keys *)

Section SqlUpdate.
Context {A : Type}.
Variables (key where_ : A -> bool) (set : A -> A).
Hypothesis set_keeps_key : forall x, key (set x) = key x.

Lemma find_sql_update (rows : list A) :
    find key (sql_update where_ set rows)
    = option_map (fun x => if where_ x then set x else x) (find key rows).
Proof.
    induction rows as [|x rows IH]; simpl; auto.
    destruct (where_ x) eqn:W.
    - rewrite set_keeps_key. destruct (key x); simpl; [now rewrite W | exact IH].
    - destruct (key x); simpl; [now rewrite W | exact IH].
Qed.

Lemma filter_sql_update (rows : list A) :
    filter key (sql_update where_ set rows)
    = sql_update where_ set (filter key rows).
Proof.
    induction rows as [|x rows IH]; simpl; auto.
    destruct (where_ x) eqn:W.
    - rewrite set_keeps_key. destruct (key x); simpl; [rewrite W|]; now rewrite IH.
    - destruct (key x); simpl; [rewrite W|]; now rewrite IH.
Qed.
End SqlUpdate.

Lemma sql_update_length {A : Type} (w : A -> bool) (f : A -> A) (rows : list A) :
  List.length (sql_update w f rows) = List.length rows.
Proof. unfold sql_update. apply length_map. Qed.

Lemma sql_update_none {A : Type} (w : A -> bool) (f : A -> A) (rows : list A) :
  (forall x, In x rows -> w x = false) -> sql_update w f rows = rows.
Proof.
  induction rows as [|x rows IH]; simpl; intros H; auto.
  rewrite (H x (or_introl eq_refl)). f_equal. apply IH. intros y Hy. apply H. now right.
Qed.

Lemma sql_update_In {A : Type} (w : A -> bool) (f : A -> A) (rows : list A) (y : A) :
  In y (sql_update w f rows) ->
  exists x, In x rows /\ y = (if w x then f x else x).
Proof.
  unfold sql_update. rewrite in_map_iff. intros [x [E H]]. exists x. auto.
Qed.

Lemma eq_opt_string_true (o : option string) (v : string) :
  eq_opt_string o v = true <-> o = Some v.
Proof.
  destruct o as [x|]; simpl; [rewrite String.eqb_eq|]; split; congruence.
Qed.

Lemma eq_opt_Z_true (o : option Z) (v : Z) :
  eq_opt_Z o v = true <-> o = Some v.
Proof.
  destruct o as [x|]; simpl; [rewrite Z.eqb_eq|]; split; congruence.
Qed.

Lemma at_coord_true (q r : Z) (t : Tile.t) :
  at_coord q r t = true <-> Tile.q t = q /\ Tile.r t = r.
Proof.
  unfold at_coord. rewrite andb_true_iff, !Z.eqb_eq. tauto.
Qed.

Lemma at_coord_set_owner q r o t : at_coord q r (set_owner o t) = at_coord q r t.
Proof. reflexivity. Qed.

Lemma at_coord_set_owner_reset q r o t :
  at_coord q r (set_owner_reset o t) = at_coord q r t.
Proof. reflexivity. Qed.

Lemma at_coord_add_fortification q r n t :
  at_coord q r (add_fortification n t) = at_coord q r t.
Proof. reflexivity. Qed.

Lemma has_id_add_resources id f m a : has_id id (add_resources f m a) = has_id id a.
Proof. reflexivity. Qed.

Lemma has_id_set_capital id cq cr a : has_id id (set_capital cq cr a) = has_id id a.
Proof. reflexivity. Qed.

Lemma has_id_set_food id f a : has_id id (set_food f a) = has_id id a.
Proof. reflexivity. Qed.

Lemma has_id_set_last_seen_at id ts a :
  has_id id (set_last_seen_at ts a) = has_id id a.
Proof. reflexivity. Qed.

Lemma getTile_found (s : Store) (q r : Z) (t : Tile.t) :
  getTile s q r = Some t -> In t (tiles s) /\ Tile.q t = q /\ Tile.r t = r.
Proof.
  unfold getTile. intros H. apply find_some in H. destruct H as [H1 H2].
  apply at_coord_true in H2. tauto.
Qed.

Lemma getAgent_found (s : Store) (id : string) (a : Agent.t) :
  getAgent s id = Some a -> In a (agents s) /\ Agent.id a = id.
Proof.
  unfold getAgent. intros H. apply find_some in H. destruct H as [H1 H2].
  unfold has_id in H2. apply String.eqb_eq in H2. tauto.
Qed.

(** Reading a tile after an update of the tile at [(uq, ur)]. *)
Lemma getTile_update (s : Store) (uq ur q r : Z) (f : Tile.t -> Tile.t) :
  (forall x, at_coord q r (f x) = at_coord q r x) ->
  getTile (with_tiles (sql_update (at_coord uq ur) f) s) q r
  = option_map (fun t => if at_coord uq ur t then f t else t) (getTile s q r).
Proof.
  intros H. unfold getTile. simpl. now apply find_sql_update.
Qed.

Lemma getTile_update_same (s : Store) (q r : Z) (f : Tile.t -> Tile.t) (t : Tile.t) :
  (forall x, at_coord q r (f x) = at_coord q r x) ->
  getTile s q r = Some t ->
  getTile (with_tiles (sql_update (at_coord q r) f) s) q r = Some (f t).
Proof.
  intros H G. rewrite getTile_update by assumption. rewrite G. simpl.
  apply getTile_found in G. destruct G as [_ [G1 G2]].
  assert (E : at_coord q r t = true) by (apply at_coord_true; auto).
  now rewrite E.
Qed.

Lemma getTile_update_other (s : Store) (uq ur q r : Z) (f : Tile.t -> Tile.t) :
  (forall x, at_coord q r (f x) = at_coord q r x) ->
  (q, r) <> (uq, ur) ->
  getTile (with_tiles (sql_update (at_coord uq ur) f) s) q r = getTile s q r.
Proof.
  intros H N. rewrite getTile_update by assumption.
  destruct (getTile s q r) as [t|] eqn:G; simpl; auto.
  apply getTile_found in G. destruct G as [_ [G1 G2]].
  destruct (at_coord uq ur t) eqn:E; auto.
  apply at_coord_true in E. destruct E. exfalso. apply N. congruence.
Qed.

(** Reading an agent after an update of the agent [uid]. *)
Lemma getAgent_update (s : Store) (uid id : string) (f : Agent.t -> Agent.t) :
  (forall x, has_id id (f x) = has_id id x) ->
  getAgent (with_agents (sql_update (has_id uid) f) s) id
  = option_map (fun a => if has_id uid a then f a else a) (getAgent s id).
Proof.
  intros H. unfold getAgent. simpl. now apply find_sql_update.
Qed.

Lemma getAgent_update_same (s : Store) (id : string) (f : Agent.t -> Agent.t)
  (a : Agent.t) :
  (forall x, has_id id (f x) = has_id id x) ->
  getAgent s id = Some a ->
  getAgent (with_agents (sql_update (has_id id) f) s) id = Some (f a).
Proof.
  intros H G. rewrite getAgent_update by assumption. rewrite G. simpl.
  apply getAgent_found in G. destruct G as [_ G].
  unfold has_id. rewrite G, String.eqb_refl. reflexivity.
Qed.

Lemma getAgent_update_other (s : Store) (uid id : string) (f : Agent.t -> Agent.t) :
  (forall x, has_id id (f x) = has_id id x) ->
  id <> uid ->
  getAgent (with_agents (sql_update (has_id uid) f) s) id = getAgent s id.
Proof.
  intros H N. rewrite getAgent_update by assumption.
  destruct (getAgent s id) as [a|] eqn:G; simpl; auto.
  apply getAgent_found in G. destruct G as [_ G].
  unfold has_id. rewrite G.
  destruct (String.eqb id uid) eqn:E; auto.
  apply String.eqb_eq in E. contradiction.
Qed.

Lemma getAgent_logEvent s actor ty d id :
  getAgent (logEvent actor ty d s) id = getAgent s id.
Proof. reflexivity. Qed.

Lemma getTile_logEvent s actor ty d q r :
  getTile (logEvent actor ty d s) q r = getTile s q r.
Proof. reflexivity. Qed.

(** ** Expand *)

Lemma expand_fails_iff (s : Store) (agent : Agent.t) (q r : Z) :
  success (snd (expand s agent q r)) = false <-> expand_refused s agent q r.
Proof.
  unfold expand, expand_refused, GAME_CONSTANTS.EXPAND_FOOD_COST,
    GAME_CONSTANTS.EXPAND_METAL_COST.
  destruct (getTile s q r) as [t|] eqn:G; simpl; [|tauto].
  destruct (Tile.owner_id t) as [o|] eqn:O; simpl.
  { split; auto. intros _. right; left. now exists t, o. }
  destruct (hasAdjacentTerritory s (Agent.id agent) q r) eqn:H; simpl; [|tauto].
  destruct (Agent.food agent <? 20) eqn:F; simpl.
  { apply Z.ltb_lt in F. tauto. }
  destruct (Agent.metal agent <? 10) eqn:M; simpl.
  { apply Z.ltb_lt in M. tauto. }
  apply Z.ltb_ge in F. apply Z.ltb_ge in M.
  split; [discriminate|].
  intros [C|[[t' [o [C1 C2]]]|[C|[C|C]]]]; try discriminate; try lia.
  congruence.
Qed.

Lemma expand_failure_keeps_store (s : Store) (agent : Agent.t) (q r : Z) :
  success (snd (expand s agent q r)) = false -> fst (expand s agent q r) = s.
Proof.
  unfold expand.
  destruct (getTile s q r) as [t|]; simpl; auto.
  destruct (Tile.owner_id t); simpl; auto.
  destruct (hasAdjacentTerritory s (Agent.id agent) q r); simpl; auto.
  destruct (Agent.food agent <? _); simpl; auto.
  destruct (Agent.metal agent <? _); simpl; auto.
  discriminate.
Qed.

(** The store a successful expansion leaves behind. *)
Lemma expand_success_store (s : Store) (agent : Agent.t) (q r : Z) :
  success (snd (expand s agent q r)) = true ->
  fst (expand s agent q r)
  = logEvent (Some (Agent.id agent)) "expand"
      (Agent.display_name agent ++ " expanded to " ++ show_coord q r)
      (with_tiles (sql_update (at_coord q r) (set_owner (Some (Agent.id agent))))
         (updateAgentResources (Agent.id agent) (-20) (-10) s))
  /\ exists t, getTile s q r = Some t /\ Tile.owner_id t = None.
Proof.
  unfold expand.
  destruct (getTile s q r) as [t|]; simpl; try discriminate.
  destruct (Tile.owner_id t) eqn:O; simpl; try discriminate.
  destruct (hasAdjacentTerritory s (Agent.id agent) q r); simpl; try discriminate.
  destruct (Agent.food agent <? _); simpl; try discriminate.
  destruct (Agent.metal agent <? _); simpl; try discriminate.
  intros _. split; [reflexivity|]. now exists t.
Qed.

(** C7. Expand is refused exactly when the target tile does not exist, is
    already owned, the agent owns no adjacent tile, or the agent has less
    than 20 food or less than 10 metal; a refusal changes nothing.  When it
    succeeds the agent's row has 20 food and 10 metal less and is otherwise
    as it was, the target tile now has the agent as its owner and keeps its
    terrain and fortification, no other tile and nobody else's row changes,
    and an [expand] event is appended to the log; so 100 food / 50 metal
    become 80 food / 40 metal.  The agent is the record the route read, the
    stored row carries the time stamp the route wrote after reading. *)
Theorem expand_correct (s : Store) (agent : Agent.t) (seen : option Z)
  (q r : Z) :
  getAgent s (Agent.id agent) = Some (stamped seen agent) ->
  let s' := fst (expand s agent q r) in
  let result := snd (expand s agent q r) in
  (success result = false <-> expand_refused s agent q r)
  /\ (success result = false -> s' = s)
  /\ (success result = true ->
      getAgent s' (Agent.id agent)
        = Some (Agent.mk (Agent.id agent) (Agent.display_name agent)
                         (Agent.food agent - 20) (Agent.metal agent - 10)
                         (Agent.capital_q agent) (Agent.capital_r agent) seen)
      /\ (forall other, other <> Agent.id agent ->
            getAgent s' other = getAgent s other)
      /\ (exists t, getTile s q r = Some t /\ Tile.owner_id t = None
            /\ getTile s' q r
               = Some (Tile.mk q r (Tile.terrain t) (Some (Agent.id agent))
                               (Tile.fortification t)))
      /\ (forall q' r', (q', r') <> (q, r) -> getTile s' q' r' = getTile s q' r')
      /\ events s'
         = (events s ++
            [GameEvent.mk "expand" (Some (Agent.id agent))
               (Agent.display_name agent ++ " expanded to " ++ show_coord q r)])%list
      /\ attacks s' = attacks s /\ trades s' = trades s
      /\ (Agent.food agent = 100 -> Agent.metal agent = 50 ->
          exists a', getAgent s' (Agent.id agent) = Some a'
                     /\ Agent.food a' = 80 /\ Agent.metal a' = 40)).
Proof.
  intros Hagent s' result. subst s' result.
  split; [apply expand_fails_iff|].
  split; [apply expand_failure_keeps_store|].
  intros Hok. destruct (expand_success_store s agent q r Hok) as [E [t [G O]]].
  rewrite E. clear E.
  destruct (getTile_found s q r t G) as (_ & Hq & Hr).
  assert (A : getAgent
                (logEvent (Some (Agent.id agent)) "expand"
                   (Agent.display_name agent ++ " expanded to " ++ show_coord q r)
                   (with_tiles (sql_update (at_coord q r)
                                  (set_owner (Some (Agent.id agent))))
                      (updateAgentResources (Agent.id agent) (-20) (-10) s)))
                (Agent.id agent)
              = Some (Agent.mk (Agent.id agent) (Agent.display_name agent)
                        (Agent.food agent - 20) (Agent.metal agent - 10)
                        (Agent.capital_q agent) (Agent.capital_r agent) seen)).
  { rewrite getAgent_logEvent.
    change (getAgent (updateAgentResources (Agent.id agent) (-20) (-10) s)
              (Agent.id agent)
            = Some (add_resources (-20) (-10) (stamped seen agent))).
    unfold updateAgentResources.
    apply getAgent_update_same; auto. }
  split; [exact A|].
  split.
  { intros other Hne. rewrite getAgent_logEvent.
    change (getAgent (updateAgentResources (Agent.id agent) (-20) (-10) s) other
            = getAgent s other).
    unfold updateAgentResources. apply getAgent_update_other; auto. }
  split.
  { exists t. split; [exact G|]. split; [exact O|].
    rewrite getTile_logEvent.
    rewrite (getTile_update_same _ q r _ t); auto.
    unfold set_owner. now rewrite Hq, Hr. }
  split.
  { intros q' r' Hne. rewrite getTile_logEvent.
    rewrite getTile_update_other; auto. }
  split; [reflexivity|].
  split; [reflexivity|]. split; [reflexivity|].
  intros F M. eexists. split; [exact A|]. simpl. lia.
Qed.

Lemma expand_correct_witness :
  let s := touch_last_seen 50 "alice" sample_store in
  getAgent s "alice" = Some (stamped (Some 50) alice)
  /\ success (snd (expand s alice 0 1)) = true
  /\ getAgent (fst (expand s alice 0 1)) "alice"
     = Some (Agent.mk "alice" "Alice" 80 40 (Some 0) (Some 0) (Some 50))
  /\ getTile (fst (expand s alice 0 1)) 0 1
     = Some (Tile.mk 0 1 farmland (Some "alice") 0).
Proof.
  cbv zeta.
  pose proof (expand_correct (touch_last_seen 50 "alice" sample_store) alice
                (Some 50) 0 1 eq_refl) as H.
  cbv zeta in H. destruct H as (_ & _ & H).
  destruct (H eq_refl) as (A & _ & (t & G & _ & T) & _).
  split; [reflexivity|]. split; [reflexivity|].
  split; [exact A|].
  rewrite T. injection G as <-. reflexivity.
Defined.

(** ** Attack resolution: what one iteration of STEP 1 does *)

Lemma getTile_ext (s1 s2 : Store) (q r : Z) :
  tiles s1 = tiles s2 -> getTile s1 q r = getTile s2 q r.
Proof. unfold getTile. now intros ->. Qed.

Lemma getAgent_ext (s1 s2 : Store) (id : string) :
  agents s1 = agents s2 -> getAgent s1 id = getAgent s2 id.
Proof. unfold getAgent. now intros ->. Qed.

Lemma tiles_clearCapitalIfLost (p : string) (q r : Z) (s : Store) :
  tiles (clearCapitalIfLost p q r s) = tiles s.
Proof.
  unfold clearCapitalIfLost. destruct (getAgent s p) as [a|]; auto.
  destruct (_ && _); auto.
Qed.

Lemma attacks_clearCapitalIfLost (p : string) (q r : Z) (s : Store) :
  attacks (clearCapitalIfLost p q r s) = attacks s.
Proof.
  unfold clearCapitalIfLost. destruct (getAgent s p) as [a|]; auto.
  destruct (_ && _); auto.
Qed.

Lemma trades_clearCapitalIfLost (p : string) (q r : Z) (s : Store) :
  trades (clearCapitalIfLost p q r s) = trades s.
Proof.
  unfold clearCapitalIfLost. destruct (getAgent s p) as [a|]; auto.
  destruct (_ && _); auto.
Qed.

Lemma game_state_clearCapitalIfLost (p : string) (q r : Z) (s : Store) :
  game_state (clearCapitalIfLost p q r s) = game_state s.
Proof.
  unfold clearCapitalIfLost. destruct (getAgent s p) as [a|]; auto.
  destruct (_ && _); auto.
Qed.

Lemma agents_clearCapitalIfLost_ext (p : string) (q r : Z) (s1 s2 : Store) :
  agents s1 = agents s2 ->
  agents (clearCapitalIfLost p q r s1) = agents (clearCapitalIfLost p q r s2).
Proof.
  intros E. unfold clearCapitalIfLost.
  rewrite (getAgent_ext s1 s2 p E).
  destruct (getAgent s2 p) as [a|]; auto.
  destruct (_ && _); simpl; auto. now rewrite E.
Qed.

(** Reading any agent after [clearCapitalIfLost]. *)
Lemma getAgent_clearCapitalIfLost (p : string) (q r : Z) (s : Store) (id : string) :
  getAgent (clearCapitalIfLost p q r s) id
  = option_map
      (fun a => if String.eqb id p && capital_at a q r
                then set_capital None None a else a)
      (getAgent s id).
Proof.
  unfold clearCapitalIfLost, capital_at.
  destruct (String.eqb id p) eqn:E.
  - apply String.eqb_eq in E. subst id.
    destruct (getAgent s p) as [a|] eqn:G; simpl; [|now rewrite G].
    destruct (_ && _) eqn:C.
    + now rewrite (getAgent_update_same s p _ a (has_id_set_capital p None None) G).
    + now rewrite G.
  - apply String.eqb_neq in E. simpl.
    assert (X : forall o : option Agent.t, option_map (fun a => a) o = o)
      by (now intros [a|]).
    rewrite X.
    destruct (getAgent s p) as [a|] eqn:G; auto.
    destruct (_ && _); auto.
    apply getAgent_update_other; auto.
Qed.

Lemma clearCapitalIfLost_resources (p : string) (q r : Z) (s : Store)
  (id : string) (a : Agent.t) :
  getAgent s id = Some a ->
  exists a', getAgent (clearCapitalIfLost p q r s) id = Some a'
             /\ Agent.food a' = Agent.food a /\ Agent.metal a' = Agent.metal a
             /\ Agent.id a' = Agent.id a.
Proof.
  intros G. rewrite getAgent_clearCapitalIfLost, G. simpl.
  destruct (_ && _); eexists; split; eauto.
Qed.

Lemma resolveAttack_capture (s : Store) (result : TickResult.t)
  (attack : Attack.t) (d : option string) (tile : Tile.t) :
  getTile s (Attack.target_q attack) (Attack.target_r attack) = Some tile ->
  attack_captures attack tile = true ->
  let s' := fst (resolveAttack (s, result) (attack, d)) in
  tiles s' = sql_update (at_coord (Attack.target_q attack) (Attack.target_r attack))
               (set_owner_reset (Some (Attack.attacker_id attack))) (tiles s)
  /\ agents s' = agents (clear_previous_owner (Tile.owner_id tile)
                           (Attack.target_q attack) (Attack.target_r attack) s)
  /\ attacks s' = sql_update (fun a => Attack.id a =? Attack.id attack)
                    (set_attack_status attack_resolved) (attacks s)
  /\ trades s' = trades s /\ game_state s' = game_state s.
Proof.
  intros G C. unfold resolveAttack, attack_captures in *.
  rewrite G. unfold GAME_CONSTANTS.BASE_TILE_DEFENSE. rewrite C.
  unfold clear_previous_owner.
  destruct (Tile.owner_id tile) as [p|]; simpl; auto.
  destruct (String.eqb p ""); simpl; auto.
  rewrite tiles_clearCapitalIfLost, attacks_clearCapitalIfLost,
    trades_clearCapitalIfLost, game_state_clearCapitalIfLost.
  simpl. repeat split; auto.
  now apply agents_clearCapitalIfLost_ext.
Qed.

Lemma resolveAttack_repelled (s : Store) (result : TickResult.t)
  (attack : Attack.t) (d : option string) (tile : Tile.t) :
  getTile s (Attack.target_q attack) (Attack.target_r attack) = Some tile ->
  attack_captures attack tile = false ->
  let s' := fst (resolveAttack (s, result) (attack, d)) in
  tiles s' = tiles s
  /\ agents s' = agents s
  /\ attacks s' = sql_update (fun a => Attack.id a =? Attack.id attack)
                    (set_attack_status attack_resolved) (attacks s)
  /\ trades s' = trades s /\ game_state s' = game_state s.
Proof.
  intros G C. unfold resolveAttack, attack_captures in *.
  rewrite G. unfold GAME_CONSTANTS.BASE_TILE_DEFENSE. rewrite C.
  simpl. auto.
Qed.

Lemma resolveAttack_no_tile (s : Store) (result : TickResult.t)
  (attack : Attack.t) (d : option string) :
  getTile s (Attack.target_q attack) (Attack.target_r attack) = None ->
  let s' := fst (resolveAttack (s, result) (attack, d)) in
  tiles s' = tiles s
  /\ agents s' = agents s
  /\ attacks s' = sql_update (fun a => Attack.id a =? Attack.id attack)
                    (set_attack_status attack_resolved) (attacks s)
  /\ trades s' = trades s /\ game_state s' = game_state s.
Proof.
  intros G. unfold resolveAttack. rewrite G. simpl. auto.
Qed.

(** In every case the attack row is marked resolved and nothing else
    happens to the attacks table. *)
Lemma resolveAttack_attacks (st : Store * TickResult.t)
  (row : Attack.t * option string) :
  attacks (fst (resolveAttack st row))
  = sql_update (fun a => Attack.id a =? Attack.id (fst row))
      (set_attack_status attack_resolved) (attacks (fst st)).
Proof.
  destruct st as [s result]. destruct row as [attack d]. cbn [fst].
  destruct (getTile s (Attack.target_q attack) (Attack.target_r attack))
    as [tile|] eqn:G.
  - destruct (attack_captures attack tile) eqn:C.
    + now destruct (resolveAttack_capture s result attack d tile G C)
        as (_ & _ & E & _).
    + now destruct (resolveAttack_repelled s result attack d tile G C)
        as (_ & _ & E & _).
  - now destruct (resolveAttack_no_tile s result attack d G) as (_ & _ & E & _).
Qed.

Lemma sql_update_coords (w : Tile.t -> bool) (f : Tile.t -> Tile.t)
  (ts : list Tile.t) :
  (forall t, coord (f t) = coord t) ->
  map coord (sql_update w f ts) = map coord ts.
Proof.
  intros H. unfold sql_update. rewrite map_map. apply map_ext.
  intros t. destruct (w t); auto.
Qed.

Lemma resolveAttack_coords (st : Store * TickResult.t)
  (row : Attack.t * option string) :
  map coord (tiles (fst (resolveAttack st row))) = map coord (tiles (fst st)).
Proof.
  destruct st as [s result]. destruct row as [attack d]. cbn [fst].
  destruct (getTile s (Attack.target_q attack) (Attack.target_r attack))
    as [tile|] eqn:G.
  - destruct (attack_captures attack tile) eqn:C.
    + destruct (resolveAttack_capture s result attack d tile G C) as [E _].
      rewrite E. now apply sql_update_coords.
    + destruct (resolveAttack_repelled s result attack d tile G C) as [E _].
      now rewrite E.
  - destruct (resolveAttack_no_tile s result attack d G) as [E _]. now rewrite E.
Qed.

Lemma fold_resolveAttack_coords (rows : list (Attack.t * option string))
  (st : Store * TickResult.t) :
  map coord (tiles (fst (fold_left resolveAttack rows st)))
  = map coord (tiles (fst st)).
Proof.
  revert st. induction rows as [|row rows IH]; intros st; simpl; auto.
  rewrite IH. apply resolveAttack_coords.
Qed.

Lemma getTile_some_iff_coord (s : Store) (q r : Z) :
  (exists t, getTile s q r = Some t) <-> In (q, r) (map coord (tiles s)).
Proof.
  unfold getTile. split.
  - intros [t H]. apply find_some in H. destruct H as [H1 H2].
    apply at_coord_true in H2. destruct H2 as [<- <-].
    apply in_map_iff. now exists t.
  - intros H. apply in_map_iff in H. destruct H as [t [E H]].
    destruct (find (at_coord q r) (tiles s)) as [t'|] eqn:F; eauto.
    exfalso. apply (find_none _ _ F) in H.
    unfold coord in E. injection E as E1 E2.
    assert (at_coord q r t = true) by (apply at_coord_true; auto). congruence.
Qed.

(** ** Which tables each step of the tick leaves alone *)

Lemma fold_left_invariant {A B : Type} (f : A -> B -> A) (P : A -> Prop) :
  (forall a b, P a -> P (f a b)) ->
  forall l a, P a -> P (fold_left f l a).
Proof.
  intros H l. induction l as [|b l IH]; simpl; auto.
Qed.

Lemma produceFor_frame (st : Store * TickResult.t) (agent : Agent.t) :
  let s := fst st in
  let s' := fst (produceFor st agent) in
  tiles s' = tiles s /\ attacks s' = attacks s /\ trades s' = trades s
  /\ game_state s' = game_state s /\ events s' = events s.
Proof.
  destruct st as [s result]. unfold produceFor.
  destruct (totalProduction _) as [f m].
  destruct (_ || _); simpl; auto.
Qed.

Lemma produceResources_frame (l : list Agent.t) (st : Store * TickResult.t) :
  let s := fst st in
  let s' := fst (produceResources l st) in
  tiles s' = tiles s /\ attacks s' = attacks s /\ trades s' = trades s
  /\ game_state s' = game_state s /\ events s' = events s.
Proof.
  unfold produceResources.
  apply (fold_left_invariant produceFor
           (fun x => tiles (fst x) = tiles (fst st)
                     /\ attacks (fst x) = attacks (fst st)
                     /\ trades (fst x) = trades (fst st)
                     /\ game_state (fst x) = game_state (fst st)
                     /\ events (fst x) = events (fst st))); auto.
  intros a b (H1 & H2 & H3 & H4 & H5).
  destruct (produceFor_frame a b) as (F1 & F2 & F3 & F4 & F5).
  repeat split; congruence.
Qed.

Lemma loseTile_frame (agent : Agent.t) (st : Store * TickResult.t) (t : Tile.t) :
  let s := fst st in
  let s' := fst (loseTile agent st t) in
  attacks s' = attacks s /\ trades s' = trades s /\ game_state s' = game_state s.
Proof.
  destruct st as [s result]. unfold loseTile. cbn [fst].
  cbn [logEvent with_events attacks trades game_state].
  rewrite attacks_clearCapitalIfLost, trades_clearCapitalIfLost,
    game_state_clearCapitalIfLost. auto.
Qed.

Lemma payUpkeep_frame (st : Store * TickResult.t) (agent : Agent.t) :
  let s := fst st in
  let s' := fst (payUpkeep st agent) in
  attacks s' = attacks s /\ trades s' = trades s /\ game_state s' = game_state s.
Proof.
  destruct st as [s result]. unfold payUpkeep. cbn [fst].
  destruct (_ >? 0); auto.
  destruct (getAgent s (Agent.id agent)) as [cur|]; auto.
  destruct (_ >=? _); auto.
  match goal with
  | |- context [fold_left ?f ?l ?x] =>
      apply (fold_left_invariant f
               (fun y => attacks (fst y) = attacks s /\ trades (fst y) = trades s
                         /\ game_state (fst y) = game_state s))
  end; auto.
  intros a b (H1 & H2 & H3).
  destruct (loseTile_frame agent a b) as (F1 & F2 & F3).
  repeat split; congruence.
Qed.

Lemma deductUpkeep_frame (l : list Agent.t) (st : Store * TickResult.t) :
  let s := fst st in
  let s' := fst (deductUpkeep l st) in
  attacks s' = attacks s /\ trades s' = trades s /\ game_state s' = game_state s.
Proof.
  unfold deductUpkeep.
  apply (fold_left_invariant payUpkeep
           (fun x => attacks (fst x) = attacks (fst st)
                     /\ trades (fst x) = trades (fst st)
                     /\ game_state (fst x) = game_state (fst st))); auto.
  intros a b (H1 & H2 & H3).
  destruct (payUpkeep_frame a b) as (F1 & F2 & F3).
  repeat split; congruence.
Qed.

Lemma expireTrades_frame (now : Z) (st : Store * TickResult.t) :
  let s := fst st in
  let s' := fst (expireTrades now st) in
  agents s' = agents s /\ tiles s' = tiles s /\ attacks s' = attacks s
  /\ game_state s' = game_state s /\ events s' = events s.
Proof. destruct st as [s result]. simpl. auto. Qed.

Lemma updateGameState_frame (now n : Z) (st : Store * TickResult.t) :
  let s := fst st in
  let s' := fst (updateGameState now n st) in
  agents s' = agents s /\ tiles s' = tiles s /\ attacks s' = attacks s
  /\ trades s' = trades s.
Proof. destruct st as [s result]. simpl. auto. Qed.

(** The five steps, named. *)
Lemma processTick_steps (now : Z) (s : Store) :
  processTick now s
  = let st1 := resolveAttacks now (s, initialResult s) in
    let agents := getAllAgents (fst st1) in
    updateGameState now (GameState.current_tick (getGameState s) + 1)
      (expireTrades now
         (deductUpkeep agents (produceResources agents st1))).
Proof. reflexivity. Qed.

(** After STEP 1 nothing in the tick touches the attacks table. *)
Lemma processTick_attacks (now : Z) (s : Store) :
  attacks (fst (processTick now s))
  = attacks (fst (resolveAttacks now (s, initialResult s))).
Proof.
  rewrite processTick_steps. cbv zeta.
  destruct (updateGameState_frame now (GameState.current_tick (getGameState s) + 1)
              (expireTrades now
                 (deductUpkeep (getAllAgents (fst (resolveAttacks now (s, initialResult s))))
                    (produceResources (getAllAgents (fst (resolveAttacks now (s, initialResult s))))
                       (resolveAttacks now (s, initialResult s))))))
    as (_ & _ & E1 & _).
  rewrite E1.
  destruct (expireTrades_frame now
              (deductUpkeep (getAllAgents (fst (resolveAttacks now (s, initialResult s))))
                 (produceResources (getAllAgents (fst (resolveAttacks now (s, initialResult s))))
                    (resolveAttacks now (s, initialResult s)))))
    as (_ & _ & E2 & _).
  rewrite E2.
  destruct (deductUpkeep_frame (getAllAgents (fst (resolveAttacks now (s, initialResult s))))
              (produceResources (getAllAgents (fst (resolveAttacks now (s, initialResult s))))
                 (resolveAttacks now (s, initialResult s))))
    as (E3 & _).
  rewrite E3.
  destruct (produceResources_frame (getAllAgents (fst (resolveAttacks now (s, initialResult s))))
              (resolveAttacks now (s, initialResult s)))
    as (_ & E4 & _).
  exact E4.
Qed.

Lemma mark_resolves (id : Z) (rows : list Attack.t) :
  resolved_in id (sql_update (fun a => Attack.id a =? id)
                    (set_attack_status attack_resolved) rows).
Proof.
  intros a H E. apply sql_update_In in H. destruct H as [x [_ ->]].
  destruct (Attack.id x =? id) eqn:W; auto.
  apply Z.eqb_neq in W. contradiction.
Qed.

Lemma mark_keeps_resolved (id id' : Z) (rows : list Attack.t) :
  resolved_in id rows ->
  resolved_in id (sql_update (fun a => Attack.id a =? id')
                    (set_attack_status attack_resolved) rows).
Proof.
  intros R a H E. apply sql_update_In in H. destruct H as [x [Hx ->]].
  destruct (Attack.id x =? id'); auto.
Qed.

Lemma fold_resolveAttack_keeps_resolved (id : Z)
  (rows : list (Attack.t * option string)) (st : Store * TickResult.t) :
  resolved_in id (attacks (fst st)) ->
  resolved_in id (attacks (fst (fold_left resolveAttack rows st))).
Proof.
  apply (fold_left_invariant resolveAttack
           (fun x => resolved_in id (attacks (fst x)))).
  intros a b H.
  rewrite resolveAttack_attacks. now apply mark_keeps_resolved.
Qed.

(** What the join of [getPendingAttacksToResolve] returns. *)
Lemma pending_row_sound (now : Z) (s : Store) (attack : Attack.t)
  (d : option string) :
  In (attack, d) (getPendingAttacksToResolve now s) ->
  In attack (attacks s) /\ attack_is_due now attack = true
  /\ exists t, In t (tiles s)
               /\ coord t = (Attack.target_q attack, Attack.target_r attack)
               /\ d = Tile.owner_id t.
Proof.
  unfold getPendingAttacksToResolve. rewrite in_flat_map.
  intros [a [Ha H]]. destruct (attack_is_due now a) eqn:D; [|contradiction].
  apply in_map_iff in H. destruct H as [t [E H]].
  injection E as -> <-. apply filter_In in H. destruct H as [H1 H2].
  apply at_coord_true in H2. destruct H2 as [H2 H3].
  repeat split; auto. exists t. unfold coord. repeat split; auto. congruence.
Qed.

Lemma pending_row_complete (now : Z) (s : Store) (attack : Attack.t) (t : Tile.t) :
  In attack (attacks s) -> attack_is_due now attack = true ->
  getTile s (Attack.target_q attack) (Attack.target_r attack) = Some t ->
  exists d, In (attack, d) (getPendingAttacksToResolve now s).
Proof.
  intros H D G. exists (Tile.owner_id t).
  unfold getPendingAttacksToResolve. rewrite in_flat_map.
  exists attack. split; auto. rewrite D.
  apply in_map_iff. exists t. split; auto.
  apply filter_In. unfold getTile in G. apply find_some in G. exact G.
Qed.

(** ** Attack resolution at tick time *)

Lemma declareAttack_success_store (now : Z) (s : Store) (agent : Agent.t)
  (q r c : Z) :
  success (snd (declareAttack now s agent q r c)) = true ->
  exists defender,
    fst (declareAttack now s agent q r c)
    = logEvent (Some (Agent.id agent)) "attack_declared"
        (Agent.display_name agent ++ " declared attack on " ++ show_coord q r
         ++ " owned by " ++ Agent.display_name defender)
        (insert_attack (Agent.id agent) q r c (now + 2 * 60 * 60)
           (updateAgentResources (Agent.id agent) 0 (- c) s)).
Proof.
  unfold declareAttack.
  destruct (c <=? 0); simpl; try discriminate.
  destruct (c >? Agent.metal agent); simpl; try discriminate.
  destruct (getTile s q r) as [t|]; simpl; try discriminate.
  destruct (Tile.owner_id t) as [o|]; simpl; try discriminate.
  destruct (String.eqb o (Agent.id agent)); simpl; try discriminate.
  destruct (hasAdjacentTerritory s (Agent.id agent) q r); simpl; try discriminate.
  destruct (getAgent s o) as [defender|]; simpl; try discriminate.
  intros _. now exists defender.
Qed.

Lemma declareAttack_deducts (now : Z) (s : Store) (agent row : Agent.t)
  (q r c : Z) :
  getAgent s (Agent.id agent) = Some row ->
  success (snd (declareAttack now s agent q r c)) = true ->
  getAgent (fst (declareAttack now s agent q r c)) (Agent.id agent)
  = Some (add_resources 0 (- c) row).
Proof.
  intros G H. destruct (declareAttack_success_store now s agent q r c H) as [d E].
  rewrite E, getAgent_logEvent.
  change (getAgent (updateAgentResources (Agent.id agent) 0 (- c) s) (Agent.id agent)
          = Some (add_resources 0 (- c) row)).
  unfold updateAgentResources. apply getAgent_update_same; auto.
Qed.

Lemma resolveAttack_agent (s : Store) (result : TickResult.t) (attack : Attack.t)
  (d : option string) (tile : Tile.t) (id : string) (a : Agent.t) :
  getTile s (Attack.target_q attack) (Attack.target_r attack) = Some tile ->
  getAgent s id = Some a ->
  getAgent (fst (resolveAttack (s, result) (attack, d))) id
  = Some (if attack_captures attack tile
             && loses_capital tile (Attack.target_q attack)
                  (Attack.target_r attack) id a
          then set_capital None None a else a).
Proof.
  intros G A. destruct (attack_captures attack tile) eqn:C.
  - destruct (resolveAttack_capture s result attack d tile G C) as (_ & E & _).
    rewrite (getAgent_ext _ _ id E). unfold clear_previous_owner, loses_capital.
    destruct (Tile.owner_id tile) as [p|]; simpl; auto.
    destruct (String.eqb p "") eqn:P.
    + apply String.eqb_eq in P. subst p. rewrite A.
      destruct (String.eqb "" id) eqn:I; simpl; auto.
      apply String.eqb_eq in I. subst id. reflexivity.
    + rewrite getAgent_clearCapitalIfLost, A. simpl.
      rewrite (String.eqb_sym p id).
      destruct (String.eqb id p) eqn:I; simpl; auto.
      apply String.eqb_eq in I. subst id. now rewrite P.
  - destruct (resolveAttack_repelled s result attack d tile G C) as (_ & E & _).
    now rewrite (getAgent_ext _ _ id E).
Qed.



(** C10. Resolving an attack looks at nothing but the commitment and the
    tile's fortification at that moment: the target tile ends up with the
    attacker as owner and fortification 0 exactly when commitment > 10 +
    fortification, and is untouched otherwise.  Neither adjacency nor the
    identity of the current owner enters; in particular an attacker who
    owns no adjacent tile still captures, and an attacker who has
    meanwhile become the owner is given the tile again and loses its
    fortification. *)
Theorem resolution_skips_declaration_checks (s : Store) (result : TickResult.t)
  (attack : Attack.t) (d : option string) (tile : Tile.t) :
  getTile s (Attack.target_q attack) (Attack.target_r attack) = Some tile ->
  let s' := fst (resolveAttack (s, result) (attack, d)) in
  let tq := Attack.target_q attack in
  let tr := Attack.target_r attack in
  let captured :=
    Tile.mk (Tile.q tile) (Tile.r tile) (Tile.terrain tile)
            (Some (Attack.attacker_id attack)) 0 in
  getTile s' tq tr
    = Some (if Attack.commitment attack >? 10 + Tile.fortification tile
            then captured else tile)
  /\ (hasAdjacentTerritory s (Attack.attacker_id attack) tq tr = false ->
      Attack.commitment attack > 10 + Tile.fortification tile ->
      getTile s' tq tr = Some captured)
  /\ (Tile.owner_id tile = Some (Attack.attacker_id attack) ->
      Attack.commitment attack > 10 + Tile.fortification tile ->
      getTile s' tq tr = Some captured
      /\ Tile.owner_id captured = Tile.owner_id tile
      /\ Tile.fortification captured = 0).
Proof.
  intros G s' tq tr captured.
  assert (Main : getTile s' tq tr
                 = Some (if Attack.commitment attack >? 10 + Tile.fortification tile
                         then captured else tile)).
  { subst s'. fold (attack_captures attack tile).
    destruct (attack_captures attack tile) eqn:C.
    - destruct (resolveAttack_capture s result attack d tile G C) as (E & _).
      rewrite (getTile_ext _ (with_tiles (sql_update (at_coord tq tr)
                  (set_owner_reset (Some (Attack.attacker_id attack)))) s) tq tr E).
      now rewrite (getTile_update_same s tq tr _ tile
                     (at_coord_set_owner_reset tq tr _) G).
    - destruct (resolveAttack_repelled s result attack d tile G C) as (E & _).
      rewrite (getTile_ext _ s tq tr E). exact G. }
  split; [exact Main|].
  assert (Win : Attack.commitment attack > 10 + Tile.fortification tile ->
                getTile s' tq tr = Some captured).
  { intros C. rewrite Main.
    replace (Attack.commitment attack >? 10 + Tile.fortification tile) with true;
      auto.
    symmetry. apply Z.gtb_lt. lia. }
  split; [intros _; exact Win|].
  intros O C. split; [now apply Win|]. split; [now rewrite O|reflexivity].
Qed.

Lemma resolution_skips_declaration_checks_witness :
  getTile self_attack_store 1 0 = Some (Tile.mk 1 0 farmland (Some "alice") 3)
  /\ getTile (fst (resolveAttack (self_attack_store, initialResult self_attack_store)
                     (battle_attack, Some "alice"))) 1 0
     = Some (Tile.mk 1 0 farmland (Some "alice") 0).
Proof.
  split; [reflexivity|].
  exact (proj1 (resolution_skips_declaration_checks self_attack_store
                  (initialResult self_attack_store) battle_attack (Some "alice")
                  (Tile.mk 1 0 farmland (Some "alice") 3) eq_refl)).
Defined.

(** ** The effect of every operation on the tiles table *)

Lemma tiles_touch_last_seen now id s : tiles (touch_last_seen now id s) = tiles s.
Proof. reflexivity. Qed.

Lemma tiles_saveAgentMemory now id c s : tiles (saveAgentMemory now id c s) = tiles s.
Proof. reflexivity. Qed.

Lemma expand_tile_effect (gift : bool) (s : Store) (agent : Agent.t) (q r : Z) :
  tile_effect (tiles s) gift (tiles (fst (expand s agent q r))).
Proof.
  unfold expand.
  destruct (getTile s q r) as [t|] eqn:G; simpl; [|constructor].
  destruct (Tile.owner_id t) eqn:O; simpl; [constructor|].
  destruct (negb _); simpl; [constructor|].
  destruct (_ <? _); simpl; [constructor|].
  destruct (_ <? _); simpl; [constructor|].
  now apply effect_claim with (t := t).
Qed.

Lemma declareAttack_tiles (now : Z) (s : Store) (agent : Agent.t) (q r c : Z) :
  tiles (fst (declareAttack now s agent q r c)) = tiles s.
Proof.
  unfold declareAttack.
  destruct (_ <=? _); simpl; auto.
  destruct (_ >? _); simpl; auto.
  destruct (getTile s q r) as [t|]; simpl; auto.
  destruct (Tile.owner_id t) as [o|]; simpl; auto.
  destruct (String.eqb _ _); simpl; auto.
  destruct (negb _); simpl; auto.
  destruct (getAgent s o); simpl; auto.
Qed.

Lemma fortify_tile_effect (gift : bool) (s : Store) (agent : Agent.t) (q r m : Z) :
  tile_effect (tiles s) gift (tiles (fst (fortify s agent q r m))).
Proof.
  unfold fortify.
  destruct (_ <=? _); simpl; [constructor|].
  destruct (_ >? _); simpl; [constructor|].
  destruct (getTile s q r) as [t|] eqn:G; simpl; [|constructor].
  destruct (eq_opt_string _ _) eqn:O; simpl; [|constructor].
  apply eq_opt_string_true in O.
  now apply effect_fortify with (owner := Agent.id agent) (t := t).
Qed.

Lemma giftTile_tile_effect (s : Store) (agent : Agent.t) (q r : Z) (to : string) :
  tile_effect (tiles s) true (tiles (fst (giftTile s agent q r to))).
Proof.
  unfold giftTile.
  destruct (getTile s q r) as [t|] eqn:G; simpl; [|constructor].
  destruct (eq_opt_string _ _) eqn:O; simpl; [|constructor].
  destruct (getAgent s to) as [recipient|]; simpl; [|constructor].
  destruct (String.eqb _ _); simpl; [constructor|].
  rewrite tiles_clearCapitalIfLost. simpl.
  apply eq_opt_string_true in O.
  now apply effect_gift with (giver := Agent.id agent) (t := t).
Qed.

Lemma setCapital_tiles (s : Store) (agent : Agent.t) (q r : Z) :
  tiles (fst (setCapital s agent q r)) = tiles s.
Proof.
  unfold setCapital.
  destruct (getTile s q r) as [t|]; simpl; auto.
  destruct (negb _); simpl; auto.
Qed.

Lemma giftResources_tiles (s : Store) (agent : Agent.t) (to : string) (f m : Z) :
  tiles (fst (giftResources s agent to f m)) = tiles s.
Proof.
  unfold giftResources.
  destruct (_ || _); simpl; auto.
  destruct (_ && _); simpl; auto.
  destruct (_ >? _); simpl; auto.
  destruct (_ >? _); simpl; auto.
  destruct (getAgent s to); simpl; auto.
  destruct (String.eqb _ _); simpl; auto.
Qed.

Lemma sendMessage_tiles (s : Store) (agent : Agent.t) (to c : string) :
  tiles (fst (sendMessage s agent to c)) = tiles s.
Proof.
  unfold sendMessage.
  destruct (_ || _); simpl; auto.
  destruct (_ <? _)%nat; simpl; auto.
  destruct (getAgent s to); simpl; auto.
  destruct (String.eqb _ _); simpl; auto.
Qed.

Lemma proposeTrade_tiles (now : Z) (s : Store) (agent : Agent.t) (to : string)
  (a b c d : Z) :
  tiles (fst (proposeTrade now s agent to a b c d)) = tiles s.
Proof.
  unfold proposeTrade.
  destruct (_ || _); simpl; auto.
  destruct (_ && _); simpl; auto.
  destruct (_ >? _); simpl; auto.
  destruct (_ >? _); simpl; auto.
  destruct (getAgent s to); simpl; auto.
  destruct (String.eqb _ _); simpl; auto.
Qed.

Lemma acceptTrade_tiles (now : Z) (s : Store) (agent : Agent.t) (tid : Z) :
  tiles (fst (acceptTrade now s agent tid)) = tiles s.
Proof.
  unfold acceptTrade.
  destruct (getPendingTrade s tid) as [trade|]; simpl; auto.
  destruct (trade_is_past_expiry now trade); simpl; auto.
  destruct (negb _); simpl; auto.
  destruct (getAgent s _); simpl; auto.
  destruct (_ || _); simpl; auto.
  destruct (_ || _); simpl; auto.
Qed.

Lemma rejectTrade_tiles (s : Store) (agent : Agent.t) (tid : Z) :
  tiles (fst (rejectTrade s agent tid)) = tiles s.
Proof.
  unfold rejectTrade.
  destruct (getPendingTrade s tid) as [trade|]; simpl; auto.
  destruct (negb _); simpl; auto.
  destruct (getAgent s _); simpl; auto.
Qed.

Lemma send_result_store (sr : Store * ActionResponse) :
  fst (send_result sr) = fst sr.
Proof. now destruct sr. Qed.

Lemma tile_effect_eq (gift : bool) (ts ts' : list Tile.t) :
  ts' = ts -> tile_effect ts gift ts'.
Proof. intros ->. constructor. Qed.

Ltac by_json_cases :=
  repeat match goal with
  | |- context [match ?x with JUndefined => _ | _ => _ end] => destruct x
  | |- context [if ?c then _ else _] => destruct c
  end;
  unfold bad_request; rewrite ?send_result_store; cbn [fst];
  try apply effect_none.

Lemma case_expand_tile_effect (gift : bool) (s : Store) (agent : Agent.t)
  (act : AgentAction.t) :
  tile_effect (tiles s) gift (tiles (fst (case_expand s agent act))).
Proof. unfold case_expand. by_json_cases. apply expand_tile_effect. Qed.

Lemma case_attack_tiles (now : Z) (s : Store) (agent : Agent.t)
  (act : AgentAction.t) :
  tiles (fst (case_attack now s agent act)) = tiles s.
Proof.
  unfold case_attack.
  repeat match goal with
  | |- context [match ?x with JUndefined => _ | _ => _ end] => destruct x
  | |- context [if ?c then _ else _] => destruct c
  end;
  unfold bad_request; rewrite ?send_result_store; cbn [fst]; auto.
  apply declareAttack_tiles.
Qed.

Lemma case_fortify_tile_effect (gift : bool) (s : Store) (agent : Agent.t)
  (act : AgentAction.t) :
  tile_effect (tiles s) gift (tiles (fst (case_fortify s agent act))).
Proof. unfold case_fortify. by_json_cases. apply fortify_tile_effect. Qed.

Lemma case_gift_tile_tile_effect (s : Store) (agent : Agent.t)
  (act : AgentAction.t) :
  tile_effect (tiles s) true (tiles (fst (case_gift_tile s agent act))).
Proof. unfold case_gift_tile. by_json_cases. apply giftTile_tile_effect. Qed.

Lemma case_gift_resources_tiles (s : Store) (agent : Agent.t)
  (act : AgentAction.t) (out : Store * HttpResponse) :
  case_gift_resources s agent act = Some out -> tiles (fst out) = tiles s.
Proof.
  unfold case_gift_resources, bad_request.
  destruct (AgentAction.to_agent_id act);
    try (intros [= <-]; reflexivity).
  destruct (amount_or_zero (AgentAction.food act)); [|discriminate].
  destruct (amount_or_zero (AgentAction.metal act)); [|discriminate].
  intros [= <-]. rewrite send_result_store. apply giftResources_tiles.
Qed.

Lemma case_message_tiles (s : Store) (agent : Agent.t) (act : AgentAction.t) :
  tiles (fst (case_message s agent act)) = tiles s.
Proof.
  unfold case_message, bad_request.
  destruct (AgentAction.to_agent_id act); auto.
  destruct (AgentAction.content act); rewrite ?send_result_store; auto.
  apply sendMessage_tiles.
Qed.

Lemma case_trade_propose_tiles (now : Z) (s : Store) (agent : Agent.t)
  (act : AgentAction.t) (out : Store * HttpResponse) :
  case_trade_propose now s agent act = Some out -> tiles (fst out) = tiles s.
Proof.
  unfold case_trade_propose, bad_request.
  destruct (AgentAction.to_agent_id act);
    try (intros [= <-]; reflexivity).
  destruct (amount_or_zero (AgentAction.offer_food act)); [|discriminate].
  destruct (amount_or_zero (AgentAction.offer_metal act)); [|discriminate].
  destruct (amount_or_zero (AgentAction.request_food act)); [|discriminate].
  destruct (amount_or_zero (AgentAction.request_metal act)); [|discriminate].
  intros [= <-]. rewrite send_result_store. apply proposeTrade_tiles.
Qed.

Lemma case_trade_accept_tiles (now : Z) (s : Store) (agent : Agent.t)
  (act : AgentAction.t) :
  tiles (fst (case_trade_accept now s agent act)) = tiles s.
Proof.
  unfold case_trade_accept, bad_request.
  destruct (AgentAction.trade_id act); rewrite ?send_result_store; auto.
  apply acceptTrade_tiles.
Qed.

Lemma case_trade_reject_tiles (s : Store) (agent : Agent.t) (act : AgentAction.t) :
  tiles (fst (case_trade_reject s agent act)) = tiles s.
Proof.
  unfold case_trade_reject, bad_request.
  destruct (AgentAction.trade_id act); rewrite ?send_result_store; auto.
  apply rejectTrade_tiles.
Qed.

Lemma case_set_capital_tiles (s : Store) (agent : Agent.t) (act : AgentAction.t) :
  tiles (fst (case_set_capital s agent act)) = tiles s.
Proof.
  unfold case_set_capital, bad_request.
  destruct (AgentAction.target_q act); auto;
    destruct (AgentAction.target_r act); rewrite ?send_result_store; auto.
  apply setCapital_tiles.
Qed.

Lemma switch_action_type_tile_effect (now : Z) (s : Store) (agent : Agent.t)
  (act : AgentAction.t) (out : Store * HttpResponse) :
  switch_action_type now s agent act = Some out ->
  tile_effect (tiles s) (is_gift_tile act) (tiles (fst out)).
Proof.
  unfold is_gift_tile, switch_action_type.
  destruct (AgentAction.type act) as [| |b|n|ty];
    try (intros [= <-]; apply effect_none).
  destruct (String.eqb ty "expand");
    [intros [= <-]; apply case_expand_tile_effect|].
  destruct (String.eqb ty "attack");
    [intros [= <-]; apply tile_effect_eq, case_attack_tiles|].
  destruct (String.eqb ty "fortify");
    [intros [= <-]; apply case_fortify_tile_effect|].
  destruct (String.eqb ty "gift_tile");
    [intros [= <-]; apply case_gift_tile_tile_effect|].
  destruct (String.eqb ty "gift_resources");
    [intros E; eapply tile_effect_eq, case_gift_resources_tiles, E|].
  destruct (String.eqb ty "message");
    [intros [= <-]; apply tile_effect_eq, case_message_tiles|].
  destruct (String.eqb ty "trade_propose");
    [intros E; eapply tile_effect_eq, case_trade_propose_tiles, E|].
  destruct (String.eqb ty "trade_accept");
    [intros [= <-]; apply tile_effect_eq, case_trade_accept_tiles|].
  destruct (String.eqb ty "trade_reject");
    [intros [= <-]; apply tile_effect_eq, case_trade_reject_tiles|].
  destruct (String.eqb ty "wait"); [intros [= <-]; apply effect_none|].
  destruct (String.eqb ty "set_capital");
    [intros [= <-]; apply tile_effect_eq, case_set_capital_tiles|].
  intros [= <-]. apply effect_none.
Qed.

Lemma save_memory_if_provided_tiles (now : Z) (id : string) (v : JVal)
  (s s2 : Store) :
  save_memory_if_provided now id v s = Some s2 -> tiles s2 = tiles s.
Proof. destruct v; try discriminate; now intros [= <-]. Qed.

Lemma post_action_tile_effect (now : Z) (s : Store) (id : string)
  (req : ActionRequest) (out : Store * HttpResponse) :
  post_action now s id req = Some out ->
  tile_effect (tiles s) (is_gift_request req) (tiles (fst out)).
Proof.
  unfold post_action.
  destruct (getAgentById s id) as [agent|]; [|intros [= <-]; constructor].
  destruct (save_memory_if_provided now id (save_memory req)
              (touch_last_seen now id s)) as [s2|] eqn:M;
    [|intros [= <-]; constructor].
  apply save_memory_if_provided_tiles in M.
  change (tiles (touch_last_seen now id s)) with (tiles s) in M.
  rewrite <- M. unfold is_gift_request.
  destruct (action req) as [act|]; [|intros [= <-]; constructor].
  destruct (negb _); [intros [= <-]; constructor|].
  apply switch_action_type_tile_effect.
Qed.

Lemma run_action_tile_effect (now : Z) (s : Store) (id : string)
  (req : ActionRequest) :
  tile_effect (tiles s) (is_gift_request req)
    (tiles (run (OpAction now id req) s)).
Proof.
  cbn [run]. destruct (post_action now s id req) as [out|] eqn:E.
  - now apply post_action_tile_effect in E.
  - constructor.
Qed.

(** ** Invariants of the tiles table under those effects *)

Lemma NoDup_map_injective {A B : Type} (f : A -> B) (l : list A) :
  (forall x y, In x l -> In y l -> f x = f y -> x = y) ->
  NoDup l -> NoDup (map f l).
Proof.
  induction l as [|a l IH]; simpl; intros Inj N; [constructor|].
  inversion N as [|? ? Hn Hl]; subst. constructor.
  - intros H. apply in_map_iff in H. destruct H as [y [E Hy]].
    assert (y = a) by (apply Inj; auto). subst y. contradiction.
  - apply IH; auto.
Qed.

Lemma keyed_unique (ts : list Tile.t) (t t' : Tile.t) :
  tiles_keyed ts -> In t ts -> In t' ts -> coord t = coord t' -> t = t'.
Proof.
  unfold tiles_keyed. induction ts as [|x ts IH]; simpl; [tauto|].
  intros N H H' E. inversion N as [|? ? Hn Hl]; subst.
  destruct H as [->|H], H' as [->|H']; auto.
  - exfalso. apply Hn. rewrite E. now apply in_map.
  - exfalso. apply Hn. rewrite <- E. now apply in_map.
Qed.

Lemma keyed_find_unique (ts : list Tile.t) (q r : Z) (t t' : Tile.t) :
  tiles_keyed ts -> find (at_coord q r) ts = Some t ->
  In t' ts -> at_coord q r t' = true -> t' = t.
Proof.
  intros N F H' C. apply find_some in F. destruct F as [H Ct].
  apply (keyed_unique ts t' t N H' H).
  apply at_coord_true in C, Ct. unfold coord. destruct C, Ct. congruence.
Qed.

Lemma keyed_sql_update (w : Tile.t -> bool) (f : Tile.t -> Tile.t)
  (ts : list Tile.t) :
  (forall t, coord (f t) = coord t) ->
  tiles_keyed ts -> tiles_keyed (sql_update w f ts).
Proof.
  intros H N. unfold tiles_keyed. now rewrite sql_update_coords.
Qed.

Lemma Forall_sql_update {A : Type} (P : A -> Prop) (w : A -> bool) (f : A -> A)
  (rows : list A) :
  Forall P rows ->
  (forall x, In x rows -> w x = true -> P (f x)) ->
  Forall P (sql_update w f rows).
Proof.
  intros HP Hf. apply Forall_forall. intros y Hy.
  apply sql_update_In in Hy. destruct Hy as [x [Hx ->]].
  destruct (w x) eqn:W; auto.
  rewrite Forall_forall in HP. auto.
Qed.

Lemma tile_effect_ok (gift : bool) (ts ts' : list Tile.t) :
  tiles_ok ts -> tile_effect ts gift ts' -> tiles_ok ts'.
Proof.
  intros [N U] E. destruct E as [b|b q r x t F O|q r x g t F O|b q r m o t F O].
  - now split.
  - split; [now apply keyed_sql_update|].
    apply Forall_sql_update; auto. intros y _ _ C. discriminate C.
  - split; [now apply keyed_sql_update|].
    apply Forall_sql_update; auto. intros y _ _ C. discriminate C.
  - split; [now apply keyed_sql_update|].
    apply Forall_sql_update; auto. intros y Hy W C.
    rewrite (keyed_find_unique ts q r t y N F Hy W) in C.
    simpl in C. congruence.
Qed.

Lemma tiles_reset_ok (ts ts' : list Tile.t) :
  tiles_ok ts -> tiles_reset ts ts' -> tiles_ok ts'.
Proof.
  intros H E. induction E as [|ts' q r o E IH]; auto.
  destruct IH as [N U]. split; [now apply keyed_sql_update|].
  apply Forall_sql_update; auto. intros y _ _ _. reflexivity.
Qed.

Lemma tiles_reset_trans (a b c : list Tile.t) :
  tiles_reset a b -> tiles_reset b c -> tiles_reset a c.
Proof.
  intros H1 H2. induction H2; auto. now constructor.
Qed.

Lemma tiles_reset_eq (ts ts' : list Tile.t) : ts' = ts -> tiles_reset ts ts'.
Proof. intros ->. constructor. Qed.

Lemma resolveAttack_tiles_reset (st : Store * TickResult.t)
  (row : Attack.t * option string) :
  tiles_reset (tiles (fst st)) (tiles (fst (resolveAttack st row))).
Proof.
  destruct st as [s result]. destruct row as [attack d]. cbn [fst].
  destruct (getTile s (Attack.target_q attack) (Attack.target_r attack))
    as [tile|] eqn:G.
  - destruct (attack_captures attack tile) eqn:C.
    + destruct (resolveAttack_capture s result attack d tile G C) as (E & _).
      rewrite E. constructor. constructor.
    + destruct (resolveAttack_repelled s result attack d tile G C) as (E & _).
      now apply tiles_reset_eq.
  - destruct (resolveAttack_no_tile s result attack d G) as (E & _).
    now apply tiles_reset_eq.
Qed.

Lemma fold_tiles_reset {B : Type} (f : Store * TickResult.t -> B -> Store * TickResult.t)
  (l : list B) (st : Store * TickResult.t) :
  (forall x b, tiles_reset (tiles (fst x)) (tiles (fst (f x b)))) ->
  tiles_reset (tiles (fst st)) (tiles (fst (fold_left f l st))).
Proof.
  intros H.
  apply (fold_left_invariant f
           (fun x => tiles_reset (tiles (fst st)) (tiles (fst x)))).
  - intros a b Ha. eapply tiles_reset_trans; eauto.
  - constructor.
Qed.

Lemma loseTile_tiles (agent : Agent.t) (st : Store * TickResult.t) (t : Tile.t) :
  tiles (fst (loseTile agent st t))
  = sql_update (at_coord (Tile.q t) (Tile.r t)) (set_owner_reset None)
      (tiles (fst st)).
Proof.
  destruct st as [s result]. unfold loseTile. cbn [fst].
  cbn [logEvent with_events tiles]. now rewrite tiles_clearCapitalIfLost.
Qed.

Lemma payUpkeep_tiles_reset (st : Store * TickResult.t) (agent : Agent.t) :
  tiles_reset (tiles (fst st)) (tiles (fst (payUpkeep st agent))).
Proof.
  destruct st as [s result]. unfold payUpkeep. cbn [fst].
  destruct (_ >? 0); [|constructor].
  destruct (getAgent s (Agent.id agent)) as [cur|]; [|constructor].
  destruct (_ >=? _); [constructor|].
  match goal with
  | |- context [fold_left ?f ?l ?x] =>
      change (tiles s) with (tiles (fst x)); apply fold_tiles_reset
  end.
  intros x b. rewrite loseTile_tiles. constructor. constructor.
Qed.

Lemma processTick_tiles_reset (now : Z) (s : Store) :
  tiles_reset (tiles s) (tiles (fst (processTick now s))).
Proof.
  rewrite processTick_steps. cbv zeta.
  set (st1 := resolveAttacks now (s, initialResult s)).
  set (ags := getAllAgents (fst st1)).
  destruct (updateGameState_frame now (GameState.current_tick (getGameState s) + 1)
              (expireTrades now (deductUpkeep ags (produceResources ags st1))))
    as (_ & E1 & _). rewrite E1.
  destruct (expireTrades_frame now (deductUpkeep ags (produceResources ags st1)))
    as (_ & E2 & _). rewrite E2.
  apply tiles_reset_trans with (b := tiles (fst st1)).
  { subst st1. unfold resolveAttacks.
    change (tiles s) with (tiles (fst (s, initialResult s))) at 1.
    apply fold_tiles_reset. apply resolveAttack_tiles_reset. }
  destruct (produceResources_frame ags st1) as (E3 & _). rewrite <- E3.
  unfold deductUpkeep. apply fold_tiles_reset. apply payUpkeep_tiles_reset.
Qed.

(** ** Grid generation, join and reset keep the tiles table well formed *)

Lemma fresh_is_unfortified (t : Tile.t) : fresh_tile t -> unfortified_if_unowned t.
Proof. intros [_ F] _. exact F. Qed.

Lemma existsb_at_coord_false (ts : list Tile.t) (q r : Z) :
  existsb (at_coord q r) ts = false -> ~ In (q, r) (map coord ts).
Proof.
  intros E H. apply in_map_iff in H. destruct H as [t [C H]].
  assert (X : existsb (at_coord q r) ts = true).
  { apply existsb_exists. exists t. split; auto. apply at_coord_true.
    unfold coord in C. now injection C. }
  congruence.
Qed.

Lemma insert_tile_or_ignore_grows (rng : Z -> Z -> Z) (acc : list Tile.t * Z)
  (c : Z * Z) :
  grid_grows (fst acc) (fst (insert_tile_or_ignore rng acc c))
  /\ (tiles_keyed (fst acc) -> tiles_keyed (fst (insert_tile_or_ignore rng acc c))).
Proof.
  destruct acc as [ts n]. destruct c as [q r]. unfold insert_tile_or_ignore.
  destruct (existsb (at_coord q r) ts) eqn:E; cbn [fst].
  - split; auto. exists []. split; [now rewrite app_nil_r|constructor].
  - split.
    + eexists. split; [reflexivity|]. repeat constructor.
    + intros N. unfold tiles_keyed in *. rewrite map_app. apply NoDup_app; auto.
      * simpl. repeat constructor. simpl. tauto.
      * intros a Ha [<-|[]]. simpl in Ha.
        now apply (existsb_at_coord_false ts q r E).
Qed.

Lemma grid_grows_trans (a b c : list Tile.t) :
  grid_grows a b -> grid_grows b c -> grid_grows a c.
Proof.
  intros [e1 [-> F1]] [e2 [-> F2]]. exists (e1 ++ e2)%list.
  split; [now rewrite app_assoc|]. apply Forall_app. now split.
Qed.

Lemma grid_grows_refl (a : list Tile.t) : grid_grows a a.
Proof. exists []. split; [now rewrite app_nil_r|constructor]. Qed.

Lemma expandGrid_grows (rng : Z -> Z -> Z) (rings : Z) (s : Store) :
  grid_grows (tiles s) (tiles (fst (expandGrid rng rings s)))
  /\ (tiles_keyed (tiles s) -> tiles_keyed (tiles (fst (expandGrid rng rings s)))).
Proof.
  unfold expandGrid.
  set (coords := flat_map getHexRingCoords _).
  assert (H : grid_grows (tiles s)
                (fst (fold_left (insert_tile_or_ignore rng) coords (tiles s, 0)))
              /\ (tiles_keyed (tiles s) ->
                  tiles_keyed (fst (fold_left (insert_tile_or_ignore rng) coords
                                      (tiles s, 0))))).
  { apply (fold_left_invariant (insert_tile_or_ignore rng)
             (fun acc => grid_grows (tiles s) (fst acc)
                         /\ (tiles_keyed (tiles s) -> tiles_keyed (fst acc)))).
    - intros a b [G K].
      destruct (insert_tile_or_ignore_grows rng a b) as [G' K'].
      split; [eapply grid_grows_trans; eauto | auto].
    - split; [apply grid_grows_refl | auto]. }
  destruct (fold_left _ _ _) as [ts n]. exact H.
Qed.

Lemma grid_grows_ok (ts ts' : list Tile.t) :
  tiles_ok ts -> grid_grows ts ts' -> tiles_keyed ts' -> tiles_ok ts'.
Proof.
  intros [_ U] [extra [-> F]] K. split; auto.
  apply Forall_app. split; auto.
  eapply Forall_impl; [|exact F]. apply fresh_is_unfortified.
Qed.

Lemma expandGrid_ok (rng : Z -> Z -> Z) (rings : Z) (s : Store) :
  tiles_ok (tiles s) -> tiles_ok (tiles (fst (expandGrid rng rings s))).
Proof.
  intros H. destruct (expandGrid_grows rng rings s) as [G K].
  apply (grid_grows_ok (tiles s)); auto. apply K, H.
Qed.

Lemma first_min_by_In (key : Tile.t -> Z) (ts : list Tile.t) (t : Tile.t) :
  first_min_by key ts = Some t -> In t ts.
Proof.
  revert t. induction ts as [|x ts IH]; simpl; intros t; [discriminate|].
  destruct (first_min_by key ts) as [m|].
  - destruct (key x <=? key m); intros E; injection E as <-; auto.
  - intros E; injection E as <-; auto.
Qed.

Lemma findStartingTile_sound (s : Store) (t : Tile.t) :
  findStartingTile s = Some t -> In t (tiles s) /\ Tile.owner_id t = None.
Proof.
  unfold findStartingTile. intros H. apply first_min_by_In in H.
  apply filter_In in H. destruct H as [H U]. split; auto.
  unfold is_unclaimed in U. now destruct (Tile.owner_id t).
Qed.

Lemma keyed_find_self (ts : list Tile.t) (t : Tile.t) :
  tiles_keyed ts -> In t ts -> find (at_coord (Tile.q t) (Tile.r t)) ts = Some t.
Proof.
  intros K H.
  destruct (find (at_coord (Tile.q t) (Tile.r t)) ts) as [t'|] eqn:F.
  - f_equal. symmetry.
    apply (keyed_find_unique ts (Tile.q t) (Tile.r t) t' t K F H).
    now apply at_coord_true.
  - exfalso. apply (find_none _ _ F) in H.
    assert (at_coord (Tile.q t) (Tile.r t) t = true) by now apply at_coord_true.
    congruence.
Qed.

(** Joining: an optional grid expansion, then one claim of a free tile. *)
Lemma join_tiles (rng : Z -> Z -> Z) (now : Z) (s : Store) (req : JoinRequest) :
  tiles_keyed (tiles s) ->
  exists mid, grid_grows (tiles s) mid /\ tiles_keyed mid
              /\ tile_effect mid false (tiles (fst (join rng now s req))).
Proof.
  intros K. unfold join.
  destruct (valid_name (agent_id req)) as [tid|];
    [|exists (tiles s); repeat split; auto using grid_grows_refl; constructor].
  destruct (valid_name (display_name req)) as [tname|];
    [|exists (tiles s); repeat split; auto using grid_grows_refl; constructor].
  destruct (existsb _ _);
    [exists (tiles s); repeat split; auto using grid_grows_refl; constructor|].
  destruct (existsb _ _);
    [exists (tiles s); repeat split; auto using grid_grows_refl; constructor|].
  set (s1 := if getUnclaimedCount s <? GAME_CONSTANTS.MAP_EXPANSION_THRESHOLD
             then fst (expandGrid rng GAME_CONSTANTS.MAP_EXPANSION_RINGS s)
             else s).
  assert (G1 : grid_grows (tiles s) (tiles s1) /\ tiles_keyed (tiles s1)).
  { subst s1. destruct (_ <? _).
    - destruct (expandGrid_grows rng GAME_CONSTANTS.MAP_EXPANSION_RINGS s); auto.
    - split; auto using grid_grows_refl. }
  destruct G1 as [G1 K1]. exists (tiles s1). repeat split; auto.
  destruct (findStartingTile s1) as [t|] eqn:F; [|constructor].
  destruct (negb (forallb bindable (optional_bindings req))
            || existsb (has_memory tid) (agent_memories s1)); [constructor|].
  cbn [fst]. destruct (findStartingTile_sound s1 t F) as [Hin O].
  cbn [logEvent with_events with_agents with_tiles with_agent_memories tiles].
  apply effect_claim with (t := t); auto.
  now apply keyed_find_self.
Qed.

Lemma join_ok (rng : Z -> Z -> Z) (now : Z) (s : Store) (req : JoinRequest) :
  tiles_ok (tiles s) -> tiles_ok (tiles (fst (join rng now s req))).
Proof.
  intros H. destruct (join_tiles rng now s req (proj1 H)) as [mid [G [K E]]].
  apply (tile_effect_ok false mid); auto. now apply (grid_grows_ok (tiles s)).
Qed.

(** Reset: every tile is released with fortification 0, then handed out. *)
Lemma assignStartingTile_tiles (s : Store) (id : string) :
  map coord (tiles (assignStartingTile s id)) = map coord (tiles s)
  /\ (Forall (fun t => Tile.fortification t = 0) (tiles s) ->
      Forall (fun t => Tile.fortification t = 0) (tiles (assignStartingTile s id))).
Proof.
  unfold assignStartingTile. destruct (findStartingTile s) as [t|]; auto.
  cbn [with_agents with_tiles tiles]. split.
  - now apply sql_update_coords.
  - intros H. apply Forall_sql_update; auto.
    intros x Hx _. simpl. rewrite Forall_forall in H. auto.
Qed.

Lemma resetGame_tiles (now : Z) (keep : list string) (food metal : option Z)
  (s : Store) :
  map coord (tiles (resetGame now keep food metal s)) = map coord (tiles s)
  /\ Forall (fun t => Tile.fortification t = 0)
       (tiles (resetGame now keep food metal s)).
Proof.
  unfold resetGame. cbv zeta.
  match goal with
  | |- context [fold_left assignStartingTile ?l ?x] =>
      set (ids := l); set (s5 := x)
  end.
  assert (E5 : tiles s5 = sql_update (fun _ => true) (set_owner_reset None) (tiles s)).
  { subst s5. now destruct keep. }
  assert (H : map coord (tiles (fold_left assignStartingTile ids s5))
              = map coord (tiles s5)
              /\ Forall (fun t => Tile.fortification t = 0)
                   (tiles (fold_left assignStartingTile ids s5))).
  { apply (fold_left_invariant assignStartingTile
             (fun x => map coord (tiles x) = map coord (tiles s5)
                       /\ Forall (fun t => Tile.fortification t = 0) (tiles x))).
    - intros a b [C F]. destruct (assignStartingTile_tiles a b) as [C' F'].
      split; [congruence | auto].
    - split; auto. rewrite E5. apply Forall_forall. intros y Hy.
      apply sql_update_In in Hy. now destruct Hy as [x [_ ->]]. }
  cbn [with_game_state tiles]. destruct H as [C F]. split; auto.
  rewrite C, E5. now apply sql_update_coords.
Qed.

Lemma resetGame_ok (now : Z) (keep : list string) (food metal : option Z)
  (s : Store) :
  tiles_ok (tiles s) -> tiles_ok (tiles (resetGame now keep food metal s)).
Proof.
  intros [K _]. destruct (resetGame_tiles now keep food metal s) as [C F].
  split.
  - unfold tiles_keyed. now rewrite C.
  - eapply Forall_impl; [|exact F]. intros t H _. exact H.
Qed.

(** The initial grid. *)
Lemma Zrange_NoDup (lo hi : Z) : NoDup (Zrange lo hi).
Proof.
  unfold Zrange. apply NoDup_map_injective; [|apply seq_NoDup].
  intros x y _ _ E. lia.
Qed.

Lemma NoDup_rows {A : Type} (f : Z -> list A) (qs : list Z) :
  NoDup qs -> (forall q, NoDup (f q)) ->
  NoDup (flat_map (fun q => map (pair q) (f q)) qs).
Proof.
  induction qs as [|q qs IH]; simpl; intros N H; [constructor|].
  inversion N as [|? ? Hn Hl]; subst.
  apply NoDup_app; auto.
  - apply NoDup_map_injective; auto. intros x y _ _ E. congruence.
  - intros [q' r'] H1 H2. apply in_map_iff in H1. destruct H1 as [x [E _]].
    injection E as <- _. apply in_flat_map in H2. destruct H2 as [q2 [Hq2 H2]].
    apply in_map_iff in H2. destruct H2 as [y [E _]]. injection E as -> _.
    contradiction.
Qed.

Lemma initializeDatabase_ok (rng : Z -> Z -> Z) (now : Z) :
  tiles_ok (tiles (initializeDatabase rng now)).
Proof.
  unfold initializeDatabase, generateInitialGrid. cbn [with_tiles tiles emptyStore].
  rewrite app_nil_l. split.
  - unfold tiles_keyed. rewrite flat_map_concat_map, concat_map, map_map.
    rewrite <- flat_map_concat_map.
    erewrite flat_map_ext; [apply (NoDup_rows
        (fun q => Zrange (Z.max (- gridRadius) (- q - gridRadius))
                         (Z.min gridRadius (- q + gridRadius))))|].
    + apply Zrange_NoDup.
    + intros q. apply Zrange_NoDup.
    + intros q. cbv beta. rewrite map_map. reflexivity.
  - apply Forall_forall. intros t H. apply in_flat_map in H.
    destruct H as [q [_ H]]. apply in_map_iff in H. destruct H as [r [<- _]].
    intros _. reflexivity.
Qed.

(** ** Unowned tiles carry no fortification *)

Lemma run_preserves_tiles_ok (op : Op) (s : Store) :
  tiles_ok (tiles s) -> tiles_ok (tiles (run op s)).
Proof.
  intros H. destruct op as [now id req|rng now req|now|now|rng rings|now keep f m];
    cbn [run].
  - apply (tile_effect_ok (is_gift_request req) (tiles s)); auto.
    apply (run_action_tile_effect now s id req).
  - now apply join_ok.
  - unfold checkAndProcessTick. destruct (shouldProcessTick now s); auto.
    apply (tiles_reset_ok (tiles s)); auto. apply processTick_tiles_reset.
  - unfold triggerTickManually.
    apply (tiles_reset_ok (tiles s)); auto. apply processTick_tiles_reset.
  - now apply expandGrid_ok.
  - now apply resetGame_ok.
Qed.

Lemma reachable_tiles_ok (s : Store) : reachable s -> tiles_ok (tiles s).
Proof.
  induction 1 as [rng now|s op _ IH].
  - apply initializeDatabase_ok.
  - now apply run_preserves_tiles_ok.
Qed.

(** C9. In every state the server can reach from a fresh database -- by
    actions, joins, timer and manual ticks, grid expansions and resets --
    every tile without an owner has fortification 0, and the next
    operation, whatever it is, keeps it so. *)
Theorem unowned_tiles_unfortified (s : Store) :
  reachable s ->
  (forall t, In t (tiles s) -> Tile.owner_id t = None -> Tile.fortification t = 0)
  /\ (forall op t, In t (tiles (run op s)) -> Tile.owner_id t = None ->
        Tile.fortification t = 0).
Proof.
  intros R. split.
  - intros t H. destruct (reachable_tiles_ok s R) as [_ U].
    rewrite Forall_forall in U. now apply U.
  - intros op t H.
    destruct (reachable_tiles_ok (run op s) (reachable_step s op R)) as [_ U].
    rewrite Forall_forall in U. now apply U.
Qed.

Lemma fortified_game_reachable : reachable fortified_game.
Proof. repeat constructor. Qed.

Lemma unowned_tiles_unfortified_witness :
  reachable fortified_game
  /\ (forall t, In t (tiles (run gift_op fortified_game)) ->
        Tile.owner_id t = None -> Tile.fortification t = 0).
Proof.
  split; [repeat constructor|].
  exact (proj2 (unowned_tiles_unfortified fortified_game
                  ltac:(repeat constructor)) gift_op).
Defined.

(** ** Ownership changes and fortification *)

Lemma find_update_tile (ts : list Tile.t) (uq ur q r : Z) (f : Tile.t -> Tile.t)
  (t t' : Tile.t) :
  (forall x, at_coord q r (f x) = at_coord q r x) ->
  find (at_coord q r) ts = Some t ->
  find (at_coord q r) (sql_update (at_coord uq ur) f ts) = Some t' ->
  t' = (if at_coord uq ur t then f t else t).
Proof.
  intros H F F'. rewrite (find_sql_update _ _ _ H), F in F'. simpl in F'.
  congruence.
Qed.

Lemma tile_effect_owner_change (gift : bool) (ts ts' : list Tile.t) (q r : Z)
  (t t' : Tile.t) :
  tiles_ok ts -> tile_effect ts gift ts' ->
  find (at_coord q r) ts = Some t -> find (at_coord q r) ts' = Some t' ->
  Tile.owner_id t' <> Tile.owner_id t ->
  if gift then Tile.fortification t' = Tile.fortification t
  else Tile.fortification t' = 0.
Proof.
  intros [K U] E F F' N.
  destruct E as [b|b uq ur x t0 F0 O|uq ur x g t0 F0 O|b uq ur m o t0 F0 O].
  - exfalso. apply N. congruence.
  - rewrite (find_update_tile ts uq ur q r _ t t' (at_coord_set_owner q r _) F F').
    rewrite (find_update_tile ts uq ur q r _ t t' (at_coord_set_owner q r _) F F') in N.
    destruct (at_coord uq ur t) eqn:C; [|contradiction].
    destruct b; [reflexivity|].
    apply find_some in F. destruct F as [Hin _].
    rewrite (keyed_find_unique ts uq ur t0 t K F0 Hin C).
    simpl. rewrite Forall_forall in U.
    apply find_some in F0. destruct F0 as [Hin0 _]. now apply U.
  - rewrite (find_update_tile ts uq ur q r _ t t' (at_coord_set_owner q r _) F F').
    now destruct (at_coord uq ur t).
  - exfalso. apply N.
    rewrite (find_update_tile ts uq ur q r _ t t'
               (at_coord_add_fortification q r _) F F').
    now destruct (at_coord uq ur t).
Qed.

Lemma tiles_reset_find (ts ts' : list Tile.t) (q r : Z) (t : Tile.t) :
  tiles_reset ts ts' -> find (at_coord q r) ts = Some t ->
  exists t', find (at_coord q r) ts' = Some t'
             /\ (t' = t \/ Tile.fortification t' = 0).
Proof.
  intros E F. induction E as [|ts' uq ur o E IH].
  - exists t. auto.
  - destruct IH as [t1 [F1 H1]].
    rewrite (find_sql_update _ _ _ (at_coord_set_owner_reset q r o)), F1. simpl.
    eexists. split; [reflexivity|].
    destruct (at_coord uq ur t1); auto.
Qed.

Lemma tiles_reset_owner_change (ts ts' : list Tile.t) (q r : Z) (t t' : Tile.t) :
  tiles_reset ts ts' ->
  find (at_coord q r) ts = Some t -> find (at_coord q r) ts' = Some t' ->
  Tile.owner_id t' <> Tile.owner_id t -> Tile.fortification t' = 0.
Proof.
  intros E F F' N. destruct (tiles_reset_find ts ts' q r t E F) as [t1 [F1 H]].
  assert (t1 = t') by congruence. subst t1.
  destruct H as [->|H]; auto. contradiction.
Qed.

Lemma grid_grows_find (ts ts' : list Tile.t) (q r : Z) (t : Tile.t) :
  grid_grows ts ts' -> find (at_coord q r) ts = Some t ->
  find (at_coord q r) ts' = Some t.
Proof.
  intros [extra [-> _]] F. induction ts as [|x ts IH]; simpl in *; [discriminate|].
  destruct (at_coord q r x); auto.
Qed.

Lemma run_owner_change (s : Store) (op : Op) (q r : Z) (t t' : Tile.t) :
  tiles_ok (tiles s) ->
  getTile s q r = Some t ->
  getTile (run op s) q r = Some t' ->
  Tile.owner_id t' <> Tile.owner_id t ->
  if is_gift_op op then Tile.fortification t' = Tile.fortification t
  else Tile.fortification t' = 0.
Proof.
  unfold getTile. intros OK F F' N.
  destruct op as [now id req|rng now req|now|now|rng rings|now keep f m];
    cbn [is_gift_op].
  - apply (tile_effect_owner_change _ (tiles s) _ q r t t' OK
             (run_action_tile_effect now s id req) F F' N).
  - cbn [run] in F'.
    destruct (join_tiles rng now s req (proj1 OK)) as [mid [G [K E]]].
    assert (OKmid : tiles_ok mid) by now apply (grid_grows_ok (tiles s)).
    apply (tile_effect_owner_change false mid _ q r t t' OKmid E
             (grid_grows_find _ _ q r t G F) F' N).
  - cbn [run] in F'. unfold checkAndProcessTick in F'.
    destruct (shouldProcessTick now s).
    + apply (tiles_reset_owner_change _ _ q r t t'
               (processTick_tiles_reset now s) F F' N).
    + exfalso. apply N. congruence.
  - cbn [run] in F'.
    apply (tiles_reset_owner_change _ _ q r t t'
             (processTick_tiles_reset now s) F F' N).
  - cbn [run] in F'.
    exfalso. apply N. destruct (expandGrid_grows rng rings s) as [G _].
    rewrite (grid_grows_find _ _ q r t G F) in F'. congruence.
  - cbn [run] in F'.
    destruct (resetGame_tiles now keep f m s) as [_ Z0].
    rewrite Forall_forall in Z0. apply Z0.
    apply find_some in F'. tauto.
Qed.

(** C5, as the code has it.  Whenever one operation changes the owner of
    an existing tile, what happens to its fortification is decided by the
    kind of operation.  A [gift_tile] action hands the tile over with the
    fortification it had.  Every other operation -- an expand or a join
    claiming the tile, a capture or a starvation loss during a tick, a
    reset -- leaves it at fortification 0. *)
Theorem ownership_change_resets_unless_gift (s : Store) (op : Op) (q r : Z)
  (t t' : Tile.t) :
  reachable s ->
  getTile s q r = Some t ->
  getTile (run op s) q r = Some t' ->
  Tile.owner_id t' <> Tile.owner_id t ->
  (is_gift_op op = true -> Tile.fortification t' = Tile.fortification t)
  /\ (is_gift_op op = false -> Tile.fortification t' = 0).
Proof.
  intros R F F' N.
  pose proof (run_owner_change s op q r t t' (reachable_tiles_ok s R) F F' N)
    as H.
  destruct (is_gift_op op); split; intros E; try discriminate E; exact H.
Qed.

(** alice's tile, fortified with 5 metal, is gifted to bob and keeps the
    5; had the game been reset for bob alone instead, the tile would have
    passed to bob at fortification 0. *)
Lemma ownership_change_resets_unless_gift_witness :
  (getTile fortified_game 0 0 = Some (Tile.mk 0 0 farmland (Some "alice") 5)
   /\ getTile (run gift_op fortified_game) 0 0
      = Some (Tile.mk 0 0 farmland (Some "bob") 5)
   /\ Tile.fortification (Tile.mk 0 0 farmland (Some "bob") 5)
      = Tile.fortification (Tile.mk 0 0 farmland (Some "alice") 5))
  /\ (getTile (run (OpReset 50 ["bob"] None None) fortified_game) 0 0
        = Some (Tile.mk 0 0 farmland (Some "bob") 0)
      /\ Tile.fortification (Tile.mk 0 0 farmland (Some "bob") 0) = 0).
Proof.
  assert (R : reachable fortified_game) by (repeat constructor).
  split.
  - split; [reflexivity|]. split; [reflexivity|].
    exact (proj1 (ownership_change_resets_unless_gift fortified_game gift_op 0 0
             (Tile.mk 0 0 farmland (Some "alice") 5)
             (Tile.mk 0 0 farmland (Some "bob") 5)
             R eq_refl eq_refl ltac:(discriminate))
             eq_refl).
  - split; [reflexivity|].
    exact (proj2 (ownership_change_resets_unless_gift fortified_game
             (OpReset 50 ["bob"] None None) 0 0
             (Tile.mk 0 0 farmland (Some "alice") 5)
             (Tile.mk 0 0 farmland (Some "bob") 0)
             R eq_refl eq_refl ltac:(discriminate))
             eq_refl).
Defined.

(** The claim as stated fails: alice fortifies her tile with 5 metal and
    gifts it to bob; the owner changes and the fortification is still 5. *)
Lemma gift_keeps_fortification : ~ every_ownership_change_resets.
Proof.
  intros H.
  assert (X : Tile.fortification (Tile.mk 0 0 farmland (Some "bob") 5) = 0).
  { apply (H fortified_game gift_op 0 0
             (Tile.mk 0 0 farmland (Some "alice") 5)
             (Tile.mk 0 0 farmland (Some "bob") 5)).
    - repeat constructor.
    - reflexivity.
    - reflexivity.
    - discriminate. }
  discriminate X.
Qed.

(** ** The scheduler's two paths *)

Lemma resolveAttack_game_state (st : Store * TickResult.t)
  (row : Attack.t * option string) :
  game_state (fst (resolveAttack st row)) = game_state (fst st)
  /\ trades (fst (resolveAttack st row)) = trades (fst st).
Proof.
  destruct st as [s result]. destruct row as [attack d]. cbn [fst].
  destruct (getTile s (Attack.target_q attack) (Attack.target_r attack))
    as [tile|] eqn:G.
  - destruct (attack_captures attack tile) eqn:C.
    + destruct (resolveAttack_capture s result attack d tile G C)
        as (_ & _ & _ & E1 & E2). auto.
    + destruct (resolveAttack_repelled s result attack d tile G C)
        as (_ & _ & _ & E1 & E2). auto.
  - destruct (resolveAttack_no_tile s result attack d G)
      as (_ & _ & _ & E1 & E2). auto.
Qed.

Lemma resolveAttacks_game_state (now : Z) (st : Store * TickResult.t) :
  game_state (fst (resolveAttacks now st)) = game_state (fst st)
  /\ trades (fst (resolveAttacks now st)) = trades (fst st).
Proof.
  unfold resolveAttacks.
  apply (fold_left_invariant resolveAttack
           (fun x => game_state (fst x) = game_state (fst st)
                     /\ trades (fst x) = trades (fst st))); auto.
  intros a b [H1 H2]. destruct (resolveAttack_game_state a b) as [E1 E2].
  split; congruence.
Qed.

(** STEP 5 is the only step that writes the game state. *)
Lemma processTick_game_state (now : Z) (s : Store) :
  game_state (fst (processTick now s))
  = GameState.mk (GameState.current_tick (game_state s) + 1) (Some now)
      (GameState.tick_interval_hours (game_state s))
      (GameState.grid_radius (game_state s)).
Proof.
  rewrite processTick_steps. cbv zeta.
  set (st1 := resolveAttacks now (s, initialResult s)).
  set (ags := getAllAgents (fst st1)).
  set (st4 := expireTrades now (deductUpkeep ags (produceResources ags st1))).
  assert (E : game_state (fst st4) = game_state s).
  { subst st4.
    destruct (expireTrades_frame now (deductUpkeep ags (produceResources ags st1)))
      as (_ & _ & _ & E1 & _). rewrite E1.
    destruct (deductUpkeep_frame ags (produceResources ags st1)) as (_ & _ & E2).
    rewrite E2.
    destruct (produceResources_frame ags st1) as (_ & _ & _ & E3 & _).
    rewrite E3. subst st1.
    now destruct (resolveAttacks_game_state now (s, initialResult s)) as [E4 _]. }
  destruct st4 as [s4 r4]. cbn [fst] in E.
  unfold updateGameState. cbn [fst logEvent with_events with_game_state game_state].
  unfold getGameState. now rewrite E.
Qed.

Lemma processTick_advances (now : Z) (s : Store) :
  GameState.current_tick (game_state (fst (processTick now s)))
  = GameState.current_tick (game_state s) + 1.
Proof. now rewrite processTick_game_state. Qed.

(** C8, as the code has it.  The manual trigger runs exactly the tick
    processor, whatever the time since the last tick; the timer path runs
    the same processor when a tick is due and does nothing otherwise.  The
    trigger is not idempotent: every trigger processes one more tick, so
    the counter stands at +1 after the first trigger and at +2 after the
    second, and the two states differ. *)
Theorem manual_trigger_runs_one_tick (now now' : Z) (s : Store) :
  triggerTickManually now s = fst (processTick now s)
  /\ (shouldProcessTick now s = true ->
      checkAndProcessTick now s = triggerTickManually now s)
  /\ (shouldProcessTick now s = false -> checkAndProcessTick now s = s)
  /\ GameState.current_tick (game_state (triggerTickManually now s))
     = GameState.current_tick (game_state s) + 1
  /\ GameState.current_tick
       (game_state (triggerTickManually now' (triggerTickManually now s)))
     = GameState.current_tick (game_state s) + 2
  /\ triggerTickManually now' (triggerTickManually now s)
     <> triggerTickManually now s.
Proof.
  assert (A1 : GameState.current_tick (game_state (triggerTickManually now s))
               = GameState.current_tick (game_state s) + 1)
    by apply processTick_advances.
  assert (A2 : GameState.current_tick
                 (game_state (triggerTickManually now' (triggerTickManually now s)))
               = GameState.current_tick (game_state s) + 2).
  { unfold triggerTickManually at 1. rewrite processTick_advances, A1. lia. }
  split; [reflexivity|].
  split; [unfold checkAndProcessTick; now intros ->|].
  split; [unfold checkAndProcessTick; now intros ->|].
  split; [exact A1|]. split; [exact A2|].
  intros E. rewrite E in A2. lia.
Qed.

Lemma manual_trigger_runs_one_tick_witness :
  shouldProcessTick 60 sample_store = false
  /\ checkAndProcessTick 60 sample_store = sample_store
  /\ GameState.current_tick (game_state (triggerTickManually 60 sample_store)) = 1.
Proof.
  split; [reflexivity|]. split.
  - exact (proj1 (proj2 (proj2
             (manual_trigger_runs_one_tick 60 60 sample_store))) eq_refl).
  - exact (proj1 (proj2 (proj2 (proj2
             (manual_trigger_runs_one_tick 60 60 sample_store))))).
Defined.

(** The claim as stated fails: on the sample store a second trigger moves
    the tick counter from 1 to 2. *)
Lemma manual_trigger_not_idempotent : ~ manual_trigger_idempotent.
Proof.
  intros H. specialize (H 60 sample_store).
  apply (f_equal (fun x => GameState.current_tick (game_state x))) in H.
  vm_compute in H. discriminate H.
Qed.

(** ** Accepting a trade *)

Lemma getPendingTrade_none_iff (s : Store) (tid : Z) :
  getPendingTrade s tid = None
  <-> (forall t, In t (trades s) -> Trade.id t = tid ->
                 Trade.status t <> trade_pending).
Proof.
  unfold getPendingTrade. split.
  - intros F t H E P. apply (find_none _ _ F) in H.
    unfold has_trade_id, is_pending in H. rewrite E, Z.eqb_refl, P in H.
    discriminate.
  - intros H. destruct (find _ (trades s)) as [t|] eqn:F; auto.
    apply find_some in F. destruct F as [Hin C].
    apply andb_true_iff in C. destruct C as [C1 C2].
    unfold has_trade_id in C1. apply Z.eqb_eq in C1.
    exfalso. apply (H t Hin C1). unfold is_pending in C2.
    now destruct (Trade.status t).
Qed.

Lemma getPendingTrade_In (s : Store) (tid : Z) (trade : Trade.t) :
  getPendingTrade s tid = Some trade ->
  In trade (trades s) /\ Trade.id trade = tid /\ Trade.status trade = trade_pending.
Proof.
  unfold getPendingTrade. intros F. apply find_some in F. destruct F as [Hin C].
  apply andb_true_iff in C. destruct C as [C1 C2].
  unfold has_trade_id in C1. apply Z.eqb_eq in C1.
  unfold is_pending in C2. repeat split; auto.
  now destruct (Trade.status trade).
Qed.

Lemma acceptTrade_outcome (now : Z) (s : Store) (agent : Agent.t) (tid : Z) :
  accept_outcome now s agent tid (acceptTrade now s agent tid).
Proof.
  unfold acceptTrade, fail.
  destruct (getPendingTrade s tid) as [trade|] eqn:P;
    [|now apply accept_not_pending].
  destruct (trade_is_past_expiry now trade) eqn:X;
    [now apply accept_expired with (trade := trade)|].
  destruct (String.eqb (Trade.to_id trade) (Agent.id agent)) eqn:R; cbn [negb].
  - apply String.eqb_eq in R.
    destruct (getAgent s (Trade.from_id trade)) as [proposer|] eqn:G;
      [|now apply accept_no_proposer with (trade := trade)].
    destruct (_ || _) eqn:S1.
    { apply accept_proposer_short with (trade := trade) (proposer := proposer);
        auto.
      apply orb_true_iff in S1. rewrite !Z.ltb_lt in S1. exact S1. }
    apply orb_false_iff in S1. rewrite !Z.ltb_ge in S1. destruct S1.
    destruct (_ || _) eqn:S2.
    { apply accept_accepter_short with (trade := trade) (proposer := proposer);
        auto; lia. }
    apply orb_false_iff in S2. rewrite !Z.ltb_ge in S2. destruct S2.
    apply accept_done with (trade := trade); auto; lia.
  - apply String.eqb_neq in R.
    now apply accept_not_recipient with (trade := trade).
Qed.

Lemma getAgent_updateAgentResources_same (s : Store) (id : string) (f m : Z)
  (a : Agent.t) :
  getAgent s id = Some a ->
  getAgent (updateAgentResources id f m s) id = Some (add_resources f m a).
Proof.
  intros G. unfold updateAgentResources. apply getAgent_update_same; auto.
Qed.

Lemma getAgent_updateAgentResources_other (s : Store) (uid id : string) (f m : Z) :
  id <> uid ->
  getAgent (updateAgentResources uid f m s) id = getAgent s id.
Proof.
  intros N. unfold updateAgentResources. apply getAgent_update_other; auto.
Qed.

Lemma updateTradeStatus_trades (tid : Z) (st : TradeStatus) (s : Store) :
  trades (updateTradeStatus tid st s) = mark_trade tid st (trades s).
Proof. reflexivity. Qed.

Lemma mark_trade_status (tid : Z) (st : TradeStatus) (rows : list Trade.t)
  (t : Trade.t) :
  In t (mark_trade tid st rows) -> Trade.id t = tid -> Trade.status t = st.
Proof.
  unfold mark_trade. rewrite in_map_iff. intros [x [E _]] I. subst t.
  destruct (Trade.id x =? tid) eqn:C; [reflexivity|].
  apply Z.eqb_neq in C. contradiction.
Qed.

(** C4.  The caller is the record the route read (the stored row carries
    the time stamp written since), and the trades table respects its
    foreign key, as it does in every state the server reaches.
    [acceptTrade] is refused exactly when no pending trade has that id,
    the trade is past its expiry, the caller is not the recipient, or the
    proposer or the caller lacks the required balance.  A refusal moves no
    resources: the agents table (like tiles, attacks and events) is
    unchanged, and the only write a refusal can make is to set the status
    of that trade to expired, which it does for an expired trade and for a
    proposer-side shortfall.  On success the proposer's row has
    food - offer + request and the caller's row food + offer - request, the
    same for metal, nobody else changes, the status of the trade is
    accepted, and food and metal summed over the two parties are what they
    were. *)
Theorem acceptTrade_correct (now : Z) (s : Store) (agent : Agent.t)
  (seen : option Z) (tid : Z) :
  getAgent s (Agent.id agent) = Some (stamped seen agent) ->
  trades_wf s ->
  let s' := fst (acceptTrade now s agent tid) in
  let result := snd (acceptTrade now s agent tid) in
  (success result = false <-> accept_refused now s agent tid)
  /\ (success result = false ->
      agents s' = agents s /\ tiles s' = tiles s /\ attacks s' = attacks s
      /\ events s' = events s
      /\ (trades s' = trades s
          \/ trades s' = mark_trade tid trade_expired (trades s)))
  /\ (forall trade,
        getPendingTrade s tid = Some trade ->
        trade_is_past_expiry now trade = true ->
        trades s' = mark_trade tid trade_expired (trades s))
  /\ (forall trade proposer,
        getPendingTrade s tid = Some trade ->
        trade_is_past_expiry now trade = false ->
        Trade.to_id trade = Agent.id agent ->
        getAgent s (Trade.from_id trade) = Some proposer ->
        Agent.food proposer < Trade.offer_food trade
        \/ Agent.metal proposer < Trade.offer_metal trade ->
        trades s' = mark_trade tid trade_expired (trades s))
  /\ (success result = true ->
      exists trade proposer,
        getPendingTrade s tid = Some trade
        /\ getAgent s (Trade.from_id trade) = Some proposer
        /\ Trade.to_id trade = Agent.id agent
        /\ getAgent s' (Trade.from_id trade)
           = Some (Agent.mk (Agent.id proposer) (Agent.display_name proposer)
                     (Agent.food proposer - Trade.offer_food trade
                      + Trade.request_food trade)
                     (Agent.metal proposer - Trade.offer_metal trade
                      + Trade.request_metal trade)
                     (Agent.capital_q proposer) (Agent.capital_r proposer)
                     (Agent.last_seen_at proposer))
        /\ getAgent s' (Agent.id agent)
           = Some (Agent.mk (Agent.id agent) (Agent.display_name agent)
                     (Agent.food agent + Trade.offer_food trade
                      - Trade.request_food trade)
                     (Agent.metal agent + Trade.offer_metal trade
                      - Trade.request_metal trade)
                     (Agent.capital_q agent) (Agent.capital_r agent) seen)
        /\ (forall other, other <> Trade.from_id trade -> other <> Agent.id agent ->
              getAgent s' other = getAgent s other)
        /\ trades s' = mark_trade tid trade_accepted (trades s)
        /\ (forall t, In t (trades s') -> Trade.id t = tid ->
              Trade.status t = trade_accepted)
        /\ tiles s' = tiles s /\ attacks s' = attacks s
        /\ (exists p' a',
              getAgent s' (Trade.from_id trade) = Some p'
              /\ getAgent s' (Agent.id agent) = Some a'
              /\ Agent.food p' + Agent.food a'
                 = Agent.food proposer + Agent.food agent
              /\ Agent.metal p' + Agent.metal a'
                 = Agent.metal proposer + Agent.metal agent)).
Proof.
  intros Hagent Hwf s' result. subst s' result.
  pose proof (acceptTrade_outcome now s agent tid) as O.
  destruct O as [msg P|trade msg P X|trade msg P X R|trade msg P X R G
                |trade proposer msg P X R G S|trade proposer msg P X R G F M S
                |trade proposer msg P X R G F M F' M']; cbn [fst snd success].
  - (* no pending trade *)
    split; [split; auto; intros _; left; now apply getPendingTrade_none_iff|].
    split; [auto 6|]. split; [intros t P'; congruence|].
    split; [intros t p P'; congruence|]. discriminate.
  - (* expired *)
    split; [split; auto; intros _; right; exists trade; auto|].
    split; [intros _; repeat split; auto|].
    split; [reflexivity|]. split; [reflexivity|]. discriminate.
  - (* not the recipient *)
    split; [split; auto; intros _; right; exists trade; auto|].
    split; [auto 6|]. split; [intros t P' X'; congruence|].
    split; [intros t p P' _ R'; congruence|]. discriminate.
  - (* proposer missing: excluded by the foreign key *)
    exfalso. apply getPendingTrade_In in P. destruct P as [Hin _].
    destruct (Hwf trade Hin) as [[p Hp] _]. congruence.
  - (* proposer short *)
    split.
    { split; auto; intros _; right; exists trade. split; auto.
      right; right; left. now exists proposer. }
    split; [intros _; repeat split; auto|].
    split; [reflexivity|]. split; [reflexivity|]. discriminate.
  - (* accepter short *)
    split; [split; auto; intros _; right; exists trade; tauto|].
    split; [auto 6|]. split; [intros t P' X'; congruence|].
    split.
    { intros t p P' _ _ G' S'. exfalso.
      assert (t = trade) by congruence. subst t.
      assert (p = proposer) by congruence. subst p. lia. }
    discriminate.
  - (* accepted *)
    split.
    { split; [discriminate|].
      intros [C|[t [P' C]]].
      - apply getPendingTrade_none_iff in C. congruence.
      - assert (t = trade) by congruence. subst t.
        destruct C as [C|[C|[[p [G' C]]|C]]]; try congruence.
        + assert (p = proposer) by congruence. subst p. exfalso. lia.
        + exfalso. lia. }
    split; [discriminate|]. split; [intros t P' X'; congruence|].
    split.
    { intros t p P' _ _ G' S'. exfalso.
      assert (t = trade) by congruence. subst t.
      assert (p = proposer) by congruence. subst p. lia. }
    intros _. exists trade, proposer.
    pose proof (getPendingTrade_In s tid trade P) as (Hin & _ & _).
    destruct (Hwf trade Hin) as [_ Hne].
    destruct (getAgent_found s _ _ G) as [_ Hpid].
    assert (A1 : forall st ev d x,
               getAgent (logEvent None ev d (updateTradeStatus tid st x))
                 = getAgent x) by reflexivity.
    assert (GP : getAgent
                   (logEvent None "trade_accepted"
                      (Agent.display_name proposer ++ " and "
                       ++ Agent.display_name agent ++ " completed a trade")
                      (updateTradeStatus tid trade_accepted
                         (updateAgentResources (Agent.id agent)
                            (Trade.offer_food trade - Trade.request_food trade)
                            (Trade.offer_metal trade - Trade.request_metal trade)
                            (updateAgentResources (Agent.id proposer)
                               (- Trade.offer_food trade + Trade.request_food trade)
                               (- Trade.offer_metal trade + Trade.request_metal trade)
                               s))))
                   (Trade.from_id trade)
                 = Some (add_resources
                           (- Trade.offer_food trade + Trade.request_food trade)
                           (- Trade.offer_metal trade + Trade.request_metal trade)
                           proposer)).
    { rewrite A1. rewrite getAgent_updateAgentResources_other by congruence.
      rewrite Hpid. now apply getAgent_updateAgentResources_same. }
    assert (GA : getAgent
                   (logEvent None "trade_accepted"
                      (Agent.display_name proposer ++ " and "
                       ++ Agent.display_name agent ++ " completed a trade")
                      (updateTradeStatus tid trade_accepted
                         (updateAgentResources (Agent.id agent)
                            (Trade.offer_food trade - Trade.request_food trade)
                            (Trade.offer_metal trade - Trade.request_metal trade)
                            (updateAgentResources (Agent.id proposer)
                               (- Trade.offer_food trade + Trade.request_food trade)
                               (- Trade.offer_metal trade + Trade.request_metal trade)
                               s))))
                   (Agent.id agent)
                 = Some (add_resources
                           (Trade.offer_food trade - Trade.request_food trade)
                           (Trade.offer_metal trade - Trade.request_metal trade)
                           (stamped seen agent))).
    { rewrite A1. apply getAgent_updateAgentResources_same.
      rewrite getAgent_updateAgentResources_other by congruence. exact Hagent. }
    split; [exact P|]. split; [exact G|]. split; [exact R|].
    split.
    { rewrite GP. unfold add_resources. do 2 f_equal; lia. }
    split.
    { rewrite GA. unfold add_resources, stamped.
      cbn [Agent.id Agent.display_name Agent.food Agent.metal Agent.capital_q
           Agent.capital_r Agent.last_seen_at].
      do 2 f_equal; lia. }
    split.
    { intros other N1 N2. rewrite A1.
      rewrite getAgent_updateAgentResources_other by auto.
      apply getAgent_updateAgentResources_other. congruence. }
    split; [reflexivity|].
    split.
    { intros t Ht. apply (mark_trade_status tid trade_accepted (trades s)).
      exact Ht. }
    split; [reflexivity|]. split; [reflexivity|].
    eexists. eexists. split; [exact GP|]. split; [exact GA|].
    simpl. split; lia.
Qed.


(** ** Failed actions *)

Ltac failure_cases :=
  repeat match goal with
  | |- context [match ?x with Some _ => _ | None => _ end] => destruct x
  | |- context [if ?c then _ else _] => destruct c
  end;
  simpl; auto; try discriminate.

Lemma declareAttack_failure (now : Z) (s : Store) (agent : Agent.t) (q r c : Z) :
  success (snd (declareAttack now s agent q r c)) = false ->
  fst (declareAttack now s agent q r c) = s.
Proof. unfold declareAttack, fail. failure_cases. Qed.

Lemma fortify_failure (s : Store) (agent : Agent.t) (q r m : Z) :
  success (snd (fortify s agent q r m)) = false ->
  fst (fortify s agent q r m) = s.
Proof. unfold fortify, fail. failure_cases. Qed.

Lemma giftTile_failure (s : Store) (agent : Agent.t) (q r : Z) (to : string) :
  success (snd (giftTile s agent q r to)) = false ->
  fst (giftTile s agent q r to) = s.
Proof. unfold giftTile, fail. failure_cases. Qed.

Lemma setCapital_failure (s : Store) (agent : Agent.t) (q r : Z) :
  success (snd (setCapital s agent q r)) = false ->
  fst (setCapital s agent q r) = s.
Proof. unfold setCapital, fail. failure_cases. Qed.

Lemma giftResources_failure (s : Store) (agent : Agent.t) (to : string) (f m : Z) :
  success (snd (giftResources s agent to f m)) = false ->
  fst (giftResources s agent to f m) = s.
Proof. unfold giftResources, fail. failure_cases. Qed.

Lemma sendMessage_failure (s : Store) (agent : Agent.t) (to c : string) :
  success (snd (sendMessage s agent to c)) = false ->
  fst (sendMessage s agent to c) = s.
Proof. unfold sendMessage, fail. failure_cases. Qed.

Lemma proposeTrade_failure (now : Z) (s : Store) (agent : Agent.t) (to : string)
  (a b c d : Z) :
  success (snd (proposeTrade now s agent to a b c d)) = false ->
  fst (proposeTrade now s agent to a b c d) = s.
Proof. unfold proposeTrade, fail. failure_cases. Qed.



















(** The store in which the route calls the handler, against the store the
    request arrived in. *)
Lemma save_memory_if_provided_frame (now : Z) (id : string) (v : JVal)
  (s s2 : Store) :
  save_memory_if_provided now id v s = Some s2 ->
  agents s2 = agents s /\ tiles s2 = tiles s /\ attacks s2 = attacks s
  /\ trades s2 = trades s /\ messages s2 = messages s /\ events s2 = events s
  /\ game_state s2 = game_state s
  /\ agent_memories s2 = memory_saved now id v (agent_memories s).
Proof.
  destruct v; try discriminate; intros [= <-]; repeat split; reflexivity.
Qed.







(** ** The starvation order *)

Lemma insert_by_value_perm (x : Tile.t) (l : list Tile.t) :
  Permutation (insert_by_value x l) (x :: l).
Proof.
  induction l as [|y l IH]; simpl; auto.
  destruct (_ <=? 0); auto.
  rewrite IH. apply perm_swap.
Qed.

Lemma sort_by_value_perm (l : list Tile.t) : Permutation (sort_by_value l) l.
Proof.
  induction l as [|x l IH]; simpl; auto.
  rewrite insert_by_value_perm. now constructor.
Qed.

Lemma sort_by_value_length (l : list Tile.t) :
  List.length (sort_by_value l) = List.length l.
Proof. apply Permutation_length, sort_by_value_perm. Qed.

Lemma insert_by_value_ascending (x : Tile.t) (l : list Tile.t) :
  ascending l -> ascending (insert_by_value x l).
Proof.
  induction 1 as [|y l Hy Hl IH]; simpl.
  - constructor; [intros y []|constructor].
  - destruct (_ <=? 0) eqn:C.
    + apply Z.leb_le in C. constructor; [|now constructor].
      intros z [<-|Hz]; unfold value_le in *; [lia|].
      specialize (Hy z Hz). lia.
    + apply Z.leb_gt in C. constructor; auto.
      intros z Hz.
      apply (Permutation_in _ (insert_by_value_perm x l)) in Hz.
      destruct Hz as [<-|Hz]; unfold value_le in *; [lia | now apply Hy].
Qed.

Lemma sort_by_value_ascending (l : list Tile.t) : ascending (sort_by_value l).
Proof.
  induction l as [|x l IH]; simpl; [constructor|].
  now apply insert_by_value_ascending.
Qed.

Lemma firstn_In {A : Type} (k : nat) (l : list A) (x : A) :
  In x (firstn k l) -> In x l.
Proof.
  intros H. rewrite <- (firstn_skipn k l). apply in_or_app. now left.
Qed.

Lemma skipn_In {A : Type} (k : nat) (l : list A) (x : A) :
  In x (skipn k l) -> In x l.
Proof.
  intros H. rewrite <- (firstn_skipn k l). apply in_or_app. now right.
Qed.

Lemma ascending_split (l : list Tile.t) (k : nat) :
  ascending l -> ascending (firstn k l) /\ all_le (firstn k l) (skipn k l).
Proof.
  intros H. revert k. induction H as [|x l Hx Hl IH]; intros k.
  - rewrite firstn_nil, skipn_nil. split; [constructor | intros a b []].
  - destruct k as [|k]; simpl.
    + split; [constructor | intros a b []].
    + destruct (IH k) as [A B]. split.
      * constructor; auto. intros y Hy. apply Hx. now apply (firstn_In k).
      * intros a b [<-|Ha] Hb; [|now apply B].
        apply Hx. now apply (skipn_In k).
Qed.

Lemma ceil_div_3_pos (a : Z) : 0 < a -> 1 <= ceil_div a 3.
Proof.
  intros H. unfold ceil_div.
  assert ((- a) / 3 < 0); [|lia].
  apply Z.div_lt_upper_bound; lia.
Qed.

Lemma ceil_div_3_spec (a : Z) : 3 * (ceil_div a 3 - 1) < a <= 3 * ceil_div a 3.
Proof.
  unfold ceil_div.
  pose proof (Z.div_mod (- a) 3 ltac:(lia)).
  pose proof (Z.mod_pos_bound (- a) 3 ltac:(lia)). lia.
Qed.

(** ** One iteration of STEP 3 *)

Lemma getAgent_update_by_id (s : Store) (uid x : string) (f : Agent.t -> Agent.t) :
  (forall a, has_id x (f a) = has_id x a) ->
  getAgent (with_agents (sql_update (has_id uid) f) s) x
  = option_map (fun a => if String.eqb x uid then f a else a) (getAgent s x).
Proof.
  intros H. rewrite getAgent_update by assumption.
  destruct (getAgent s x) as [a|] eqn:G; simpl; auto.
  apply getAgent_found in G. destruct G as [_ G].
  unfold has_id. now rewrite G.
Qed.

Lemma option_map_id {A : Type} (f : A -> A) (o : option A) :
  (forall a, f a = a) -> option_map f o = o.
Proof. intros H. destruct o; simpl; auto. now rewrite H. Qed.

Lemma option_map_compose {A : Type} (f g : A -> A) (o : option A) :
  option_map f (option_map g o) = option_map (fun a => f (g a)) o.
Proof. now destruct o. Qed.

Lemma option_map_ext_some {A : Type} (f g : A -> A) (o : option A) :
  (forall a, o = Some a -> f a = g a) -> option_map f o = option_map g o.
Proof. intros H. destruct o; simpl; auto. now rewrite H. Qed.

Lemma sql_update_twice {A : Type} (w1 w2 : A -> bool) (f : A -> A) (rows : list A) :
  (forall x, f (f x) = f x) -> (forall x, w2 (f x) = w2 x) ->
  sql_update w2 f (sql_update w1 f rows)
  = sql_update (fun x => w1 x || w2 x) f rows.
Proof.
  intros Hf Hw. unfold sql_update. rewrite map_map. apply map_ext. intros x.
  destruct (w1 x); simpl.
  - rewrite Hw. destruct (w2 x); auto.
  - destruct (w2 x); auto.
Qed.

Lemma covers_reset (lost : list Tile.t) (o : option string) (t : Tile.t) :
  covers lost (set_owner_reset o t) = covers lost t.
Proof. reflexivity. Qed.

Lemma fold_loseTile_tiles (agent : Agent.t) (lost : list Tile.t)
  (st : Store * TickResult.t) :
  tiles (fst (fold_left (loseTile agent) lost st))
  = sql_update (covers lost) (set_owner_reset None) (tiles (fst st)).
Proof.
  revert st. induction lost as [|l lost IH]; intros st; simpl.
  - symmetry. now apply sql_update_none.
  - rewrite IH, loseTile_tiles. rewrite sql_update_twice; auto.
Qed.

Lemma capital_at_cleared (a : Agent.t) (q r : Z) :
  capital_at (set_capital None None a) q r = false.
Proof. reflexivity. Qed.

Lemma capital_among_cleared (lost : list Tile.t) (a : Agent.t) :
  capital_among lost (set_capital None None a) = false.
Proof. induction lost; simpl; auto. Qed.

Lemma loseTile_getAgent (agent : Agent.t) (st : Store * TickResult.t)
  (l : Tile.t) (x : string) :
  getAgent (fst (loseTile agent st l)) x
  = option_map
      (fun a => if String.eqb x (Agent.id agent)
                   && capital_at a (Tile.q l) (Tile.r l)
                then set_capital None None a else a)
      (getAgent (fst st) x).
Proof.
  destruct st as [s result]. unfold loseTile. cbn [fst].
  rewrite getAgent_logEvent, getAgent_clearCapitalIfLost. reflexivity.
Qed.

Lemma fold_loseTile_getAgent (agent : Agent.t) (lost : list Tile.t)
  (st : Store * TickResult.t) (x : string) :
  getAgent (fst (fold_left (loseTile agent) lost st)) x
  = option_map
      (fun a => if String.eqb x (Agent.id agent) then clear_capital_among lost a
                else a)
      (getAgent (fst st) x).
Proof.
  revert st. induction lost as [|l lost IH]; intros st; simpl.
  - symmetry. apply option_map_id. intros a. now destruct (String.eqb _ _).
  - rewrite IH, loseTile_getAgent, option_map_compose.
    apply option_map_ext_some. intros a _.
    unfold clear_capital_among. simpl.
    destruct (String.eqb x (Agent.id agent)); simpl; auto.
    destruct (capital_at a (Tile.q l) (Tile.r l)); simpl; auto.
    now rewrite capital_among_cleared.
Qed.

Lemma add_resources_zero (a : Agent.t) : add_resources 0 0 a = a.
Proof. destruct a. unfold add_resources. simpl. now rewrite !Z.add_0_r. Qed.

(** The tiles table after the agent's turn. *)
Lemma payUpkeep_tiles (s : Store) (result : TickResult.t) (agent : Agent.t) :
  tiles (fst (payUpkeep (s, result) agent))
  = sql_update (covers (lostOf s (Agent.id agent))) (set_owner_reset None)
      (tiles s).
Proof.
  unfold payUpkeep, lostOf, tilesLost, starves, tilesToLoseOf, upkeepCostOf.
  destruct (_ >? 0) eqn:C; cbn [andb].
  - destruct (getAgent s (Agent.id agent)) as [cur|];
      [|symmetry; now apply sql_update_none].
    destruct (_ >=? _); cbn [negb].
    + symmetry. now apply sql_update_none.
    + now rewrite fold_loseTile_tiles.
  - destruct (getAgent s (Agent.id agent)); symmetry; now apply sql_update_none.
Qed.

(** Every agent's record after the agent's turn. *)
Lemma payUpkeep_getAgent (s : Store) (result : TickResult.t) (agent : Agent.t)
  (x : string) :
  getAgent (fst (payUpkeep (s, result) agent)) x
  = option_map
      (fun a => if String.eqb x (Agent.id agent)
                then agentAfterUpkeep (getAgentTiles s (Agent.id agent)) a
                else a)
      (getAgent s x).
Proof.
  unfold payUpkeep.
  fold (upkeepCostOf (getAgentTiles s (Agent.id agent))).
  destruct (String.eqb x (Agent.id agent)) eqn:X.
  - apply String.eqb_eq in X. subst x. unfold agentAfterUpkeep.
    destruct (_ >? 0) eqn:C; [|symmetry; now apply option_map_id].
    destruct (getAgent s (Agent.id agent)) as [cur|] eqn:G;
      [|cbn [fst option_map]; exact G].
    cbn [option_map]. destruct (_ >=? _) eqn:P.
    + cbn [fst]. unfold updateAgentResources.
      rewrite getAgent_update_by_id by reflexivity.
      now rewrite G, String.eqb_refl.
    + rewrite fold_loseTile_getAgent. cbn [fst].
      rewrite getAgent_update_by_id by reflexivity.
      rewrite G, String.eqb_refl. simpl.
      unfold tilesLost, starves, tilesToLoseOf.
      fold (upkeepCostOf (getAgentTiles s (Agent.id agent))).
      now rewrite C, P.
  - assert (N : x <> Agent.id agent) by now apply String.eqb_neq.
    rewrite option_map_id by reflexivity.
    destruct (_ >? 0); auto.
    destruct (getAgent s (Agent.id agent)) as [cur|]; auto.
    destruct (_ >=? _).
    + cbn [fst]. now apply getAgent_updateAgentResources_other.
    + rewrite fold_loseTile_getAgent. cbn [fst]. rewrite X.
      rewrite option_map_id by reflexivity.
      now apply getAgent_update_other.
Qed.

(** ** STEP 3 over all agents: every agent is charged on its own record *)

Lemma tilesLost_subset (food : Z) (owned : list Tile.t) (l : Tile.t) :
  In l (tilesLost food owned) -> In l owned.
Proof.
  unfold tilesLost. destruct (starves food owned); [|intros []].
  intros H. apply firstn_In in H.
  now apply (Permutation_in _ (sort_by_value_perm owned)).
Qed.

Lemma getAgentTiles_In (s : Store) (id : string) (t : Tile.t) :
  In t (getAgentTiles s id) <-> In t (tiles s) /\ Tile.owner_id t = Some id.
Proof.
  unfold getAgentTiles. rewrite filter_In, eq_opt_string_true. tauto.
Qed.

Lemma lostOf_owned (s : Store) (id : string) (l : Tile.t) :
  In l (lostOf s id) -> In l (tiles s) /\ Tile.owner_id l = Some id.
Proof.
  unfold lostOf. destruct (getAgent s id); [|intros []].
  intros H. apply tilesLost_subset in H. now apply getAgentTiles_In.
Qed.

(** With the primary key, a row sits at the coordinate of a lost tile only
    if it is that tile. *)
Lemma covers_iff_In (ts lost : list Tile.t) (t : Tile.t) :
  tiles_keyed ts -> (forall l, In l lost -> In l ts) -> In t ts ->
  covers lost t = true <-> In t lost.
Proof.
  intros K Sub Ht. unfold covers. rewrite existsb_exists. split.
  - intros [l [Hl C]]. apply at_coord_true in C.
    assert (t = l); [|now subst].
    apply (keyed_unique ts t l K Ht (Sub l Hl)). unfold coord. destruct C.
    congruence.
  - intros H. exists t. split; auto. now apply at_coord_true.
Qed.

Lemma covers_lostOf_owner (s : Store) (id : string) (t : Tile.t) :
  tiles_keyed (tiles s) -> In t (tiles s) ->
  covers (lostOf s id) t = true -> Tile.owner_id t = Some id.
Proof.
  intros K Ht C.
  apply (covers_iff_In (tiles s)) in C; auto.
  - now apply lostOf_owned in C.
  - intros l Hl. now apply lostOf_owned in Hl.
Qed.

Lemma filter_sql_update_reset (p W : Tile.t -> bool) (f : Tile.t -> Tile.t)
  (ts : list Tile.t) :
  (forall t, In t ts -> W t = true -> p (f t) = false) ->
  filter p (sql_update W f ts) = filter (fun t => p t && negb (W t)) ts.
Proof.
  intros H. induction ts as [|t ts IH]; simpl; auto.
  rewrite IH by (intros x Hx; apply H; now right).
  destruct (W t) eqn:Wt; simpl.
  - rewrite (H t (or_introl eq_refl) Wt). now rewrite andb_false_r.
  - now rewrite andb_true_r.
Qed.

Lemma existsb_ext_in {A : Type} (f g : A -> bool) (l : list A) :
  (forall a, In a l -> f a = g a) -> existsb f l = existsb g l.
Proof.
  induction l as [|x l IH]; simpl; intros H; auto.
  rewrite (H x (or_introl eq_refl)), IH; auto.
Qed.

Lemma filter_andb {A : Type} (p q : A -> bool) (l : list A) :
  filter (fun t => p t && q t) l = filter q (filter p l).
Proof.
  induction l as [|t l IH]; simpl; auto.
  destruct (p t); simpl; [destruct (q t)|]; now rewrite IH.
Qed.

(** What the agent [x] owns after the turn of [agent]. *)
Lemma payUpkeep_getAgentTiles (s : Store) (result : TickResult.t)
  (agent : Agent.t) (x : string) :
  tiles_keyed (tiles s) ->
  getAgentTiles (fst (payUpkeep (s, result) agent)) x
  = if String.eqb x (Agent.id agent)
    then filter (fun t => negb (covers (lostOf s x) t)) (getAgentTiles s x)
    else getAgentTiles s x.
Proof.
  intros K. unfold getAgentTiles at 1. rewrite payUpkeep_tiles.
  rewrite filter_sql_update_reset by (intros; reflexivity).
  destruct (String.eqb x (Agent.id agent)) eqn:X.
  - apply String.eqb_eq in X. subst x. unfold getAgentTiles.
    apply filter_andb.
  - apply String.eqb_neq in X. unfold getAgentTiles.
    apply filter_ext_in. intros t Ht.
    destruct (eq_opt_string (Tile.owner_id t) x) eqn:O; simpl; auto.
    destruct (covers (lostOf s (Agent.id agent)) t) eqn:C; auto.
    apply covers_lostOf_owner in C; auto.
    apply eq_opt_string_true in O. congruence.
Qed.

Lemma payUpkeep_keyed (s : Store) (result : TickResult.t) (agent : Agent.t) :
  tiles_keyed (tiles s) -> tiles_keyed (tiles (fst (payUpkeep (s, result) agent))).
Proof. intros K. rewrite payUpkeep_tiles. now apply keyed_sql_update. Qed.

Lemma payUpkeep_lostOf_other (s : Store) (result : TickResult.t)
  (agent : Agent.t) (x : string) :
  tiles_keyed (tiles s) -> x <> Agent.id agent ->
  lostOf (fst (payUpkeep (s, result) agent)) x = lostOf s x.
Proof.
  intros K N. unfold lostOf.
  rewrite payUpkeep_getAgent, payUpkeep_getAgentTiles by assumption.
  apply String.eqb_neq in N. rewrite N.
  rewrite option_map_id by reflexivity. reflexivity.
Qed.

Lemma has_turn_false (l : list Agent.t) (x : string) :
  ~ In x (map Agent.id l) -> has_turn l x = false.
Proof.
  intros H. unfold has_turn. destruct (existsb _ l) eqn:E; auto.
  apply existsb_exists in E. destruct E as [a [Ha E]].
  apply String.eqb_eq in E. subst x. exfalso. apply H. now apply in_map.
Qed.

Lemma has_turn_true (l : list Agent.t) (a : Agent.t) :
  In a l -> has_turn l (Agent.id a) = true.
Proof.
  intros H. apply existsb_exists. exists a. split; auto. apply String.eqb_refl.
Qed.

(** The agents after STEP 3, read from the state STEP 3 starts in. *)
Lemma deductUpkeep_getAgent (l : list Agent.t) (st : Store * TickResult.t)
  (x : string) :
  tiles_keyed (tiles (fst st)) -> agents_keyed l ->
  getAgent (fst (deductUpkeep l st)) x
  = option_map
      (fun a => if has_turn l x
                then agentAfterUpkeep (getAgentTiles (fst st) x) a else a)
      (getAgent (fst st) x).
Proof.
  unfold deductUpkeep, agents_keyed.
  revert st. induction l as [|a l IH]; intros st K N; simpl.
  - symmetry. now apply option_map_id.
  - inversion N as [|? ? Hn Hl]; subst. destruct st as [s result].
    rewrite IH; auto using payUpkeep_keyed.
    cbn [fst]. rewrite payUpkeep_getAgent, payUpkeep_getAgentTiles by assumption.
    rewrite option_map_compose. apply option_map_ext_some. intros a0 _.
    destruct (String.eqb x (Agent.id a)) eqn:X; simpl.
    + apply String.eqb_eq in X. subst x. now rewrite has_turn_false.
    + reflexivity.
Qed.

(** The tiles after STEP 3, read from the state STEP 3 starts in. *)
Lemma deductUpkeep_tiles (l : list Agent.t) (st : Store * TickResult.t) :
  tiles_keyed (tiles (fst st)) -> agents_keyed l ->
  tiles (fst (deductUpkeep l st))
  = sql_update (lost_in_phase (fst st) l) (set_owner_reset None) (tiles (fst st)).
Proof.
  unfold deductUpkeep, agents_keyed.
  revert st. induction l as [|a l IH]; intros st K N; simpl.
  - symmetry. now apply sql_update_none.
  - inversion N as [|? ? Hn Hl]; subst. destruct st as [s result].
    rewrite IH; auto using payUpkeep_keyed. cbn [fst].
    rewrite payUpkeep_tiles.
    assert (E : forall t,
               lost_in_phase (fst (payUpkeep (s, result) a)) l t
               = lost_in_phase s l t).
    { intros t. unfold lost_in_phase. apply existsb_ext_in.
      intros b Hb. rewrite payUpkeep_lostOf_other; auto.
      intros Eb. apply Hn. rewrite <- Eb. now apply in_map. }
    unfold sql_update at 1. erewrite map_ext; [|intros t; now rewrite E].
    fold (sql_update (lost_in_phase s l) (set_owner_reset None)
            (sql_update (covers (lostOf s (Agent.id a))) (set_owner_reset None)
               (tiles s))).
    rewrite sql_update_twice; auto.
Qed.

(** ** STEP 2: production *)

Ltac yields :=
  unfold calculateResourceProduction, GAME_CONSTANTS.FARMLAND_FOOD,
    GAME_CONSTANTS.MINE_METAL, GAME_CONSTANTS.MIXED_FOOD,
    GAME_CONSTANTS.MIXED_METAL, GAME_CONSTANTS.BARREN_FOOD;
  cbn [fst snd].

Lemma totalProduction_from (ts : list Tile.t) (f0 m0 : Z) :
  fold_left (fun acc tile =>
               let production := calculateResourceProduction (Tile.terrain tile) in
               (fst acc + fst production, snd acc + snd production))
            ts (f0, m0)
  = (f0 + fst (totalProduction ts), m0 + snd (totalProduction ts)).
Proof.
  unfold totalProduction. revert f0 m0.
  induction ts as [|t ts IH]; intros f0 m0; cbn [fold_left].
  - cbn [fst snd]. now rewrite !Z.add_0_r.
  - cbv zeta. cbn [fst snd]. rewrite IH, (IH (0 + _) (0 + _)).
    cbn [fst snd]. now rewrite !Z.add_0_l, !Z.add_assoc.
Qed.

Lemma totalProduction_cons (t : Tile.t) (ts : list Tile.t) :
  totalProduction (t :: ts)
  = (fst (calculateResourceProduction (Tile.terrain t)) + fst (totalProduction ts),
     snd (calculateResourceProduction (Tile.terrain t)) + snd (totalProduction ts)).
Proof.
  unfold totalProduction at 1. cbn [fold_left]. cbv zeta. cbn [fst snd].
  rewrite totalProduction_from. now rewrite !Z.add_0_l.
Qed.

Lemma totalProduction_nonneg (ts : list Tile.t) :
  0 <= fst (totalProduction ts) /\ 0 <= snd (totalProduction ts).
Proof.
  induction ts as [|t ts [IH1 IH2]]; [simpl; lia|].
  rewrite totalProduction_cons. cbn [fst snd].
  destruct (Tile.terrain t); yields; lia.
Qed.

Lemma count_terrain_cons (terrain : TerrainType) (t : Tile.t) (ts : list Tile.t) :
  count_terrain terrain (t :: ts)
  = (if valueOrder (Tile.terrain t) =? valueOrder terrain then 1 else 0)
    + count_terrain terrain ts.
Proof.
  unfold count_terrain. cbn [filter].
  destruct (_ =? _); cbn [List.length]; [rewrite Nat2Z.inj_succ|]; lia.
Qed.

(** X4 — [calculateResourceProduction] and the inner loop of STEP 2
    (tick/processor.ts): what a holding yields in one tick depends only on
    how many tiles of each terrain it has: 10 food per farmland, 5 food
    and 5 metal per mixed tile, 2 food per barren tile, 10 metal per mine;
    a mine feeds nobody and farmland and barren land give no metal. *)
Lemma totalProduction_by_terrain (ts : list Tile.t) :
  fst (totalProduction ts)
  = 10 * count_terrain farmland ts + 5 * count_terrain mixed ts
    + 2 * count_terrain barren ts
  /\ snd (totalProduction ts)
     = 10 * count_terrain mine ts + 5 * count_terrain mixed ts.
Proof.
  induction ts as [|t ts [IH1 IH2]]; [split; reflexivity|].
  rewrite totalProduction_cons, !count_terrain_cons. cbn [fst snd].
  rewrite IH1, IH2.
  destruct (Tile.terrain t); yields; cbv [valueOrder]; cbn [Z.eqb Pos.eqb];
    split; lia.
Qed.

Lemma produceFor_getAgent (s : Store) (result : TickResult.t) (agent : Agent.t)
  (x : string) :
  getAgent (fst (produceFor (s, result) agent)) x
  = option_map
      (fun a => if String.eqb x (Agent.id agent) then agentAfterProduction s a
                else a)
      (getAgent s x).
Proof.
  assert (E : getAgent (fst (produceFor (s, result) agent)) x
              = option_map
                  (fun a => if String.eqb x (Agent.id agent)
                            then add_resources
                                   (fst (yieldOf s (Agent.id agent)))
                                   (snd (yieldOf s (Agent.id agent))) a
                            else a)
                  (getAgent s x)).
  { unfold produceFor, yieldOf.
    pose proof (totalProduction_nonneg (getAgentTiles s (Agent.id agent)))
      as [N1 N2].
    destruct (totalProduction (getAgentTiles s (Agent.id agent))) as [f m].
    cbn [fst snd] in *.
    destruct ((f >? 0) || (m >? 0)) eqn:C; cbn [fst].
    - unfold updateAgentResources. now apply getAgent_update_by_id.
    - assert (f = 0 /\ m = 0) as [-> ->] by lia.
      symmetry. apply option_map_id. intros a.
      destruct (String.eqb _ _); auto using add_resources_zero. }
  rewrite E. apply option_map_ext_some. intros a G.
  destruct (getAgent_found s x a G) as [_ Ha].
  destruct (String.eqb x (Agent.id agent)) eqn:X; auto.
  apply String.eqb_eq in X. unfold agentAfterProduction. now rewrite Ha, X.
Qed.

Lemma produceFor_tiles (st : Store * TickResult.t) (agent : Agent.t) :
  tiles (fst (produceFor st agent)) = tiles (fst st).
Proof. now destruct (produceFor_frame st agent) as [E _]. Qed.

Lemma yieldOf_ext (s1 s2 : Store) (x : string) :
  tiles s1 = tiles s2 -> yieldOf s1 x = yieldOf s2 x.
Proof. unfold yieldOf, getAgentTiles. now intros ->. Qed.

(** The agents after STEP 2, read from the state STEP 2 starts in. *)
Lemma produceResources_getAgent (l : list Agent.t) (st : Store * TickResult.t)
  (x : string) :
  agents_keyed l ->
  getAgent (fst (produceResources l st)) x
  = option_map
      (fun a => if has_turn l x then agentAfterProduction (fst st) a else a)
      (getAgent (fst st) x).
Proof.
  unfold produceResources, agents_keyed.
  revert st. induction l as [|a l IH]; intros st N; cbn [fold_left].
  - symmetry. now apply option_map_id.
  - inversion N as [|? ? Hn Hl]; subst. destruct st as [s result].
    rewrite IH by assumption. rewrite produceFor_getAgent. cbn [fst].
    rewrite option_map_compose. apply option_map_ext_some. intros a0 G.
    destruct (getAgent_found s x a0 G) as [_ Ha0].
    assert (Y : forall b, agentAfterProduction (fst (produceFor (s, result) a)) b
                          = agentAfterProduction s b).
    { intros b. unfold agentAfterProduction.
      now rewrite (yieldOf_ext _ s (Agent.id b) (produceFor_tiles (s, result) a)). }
    cbv beta. rewrite Y. unfold has_turn at 2. cbn [existsb].
    fold (has_turn l x).
    destruct (String.eqb x (Agent.id a)) eqn:X; cbn [orb]; auto.
    apply String.eqb_eq in X. rewrite has_turn_false; auto. now rewrite X.
Qed.

(** ** The tick, stage by stage *)

Lemma sql_update_ids (w : Agent.t -> bool) (f : Agent.t -> Agent.t)
  (l : list Agent.t) :
  (forall a, Agent.id (f a) = Agent.id a) ->
  map Agent.id (sql_update w f l) = map Agent.id l.
Proof.
  intros H. unfold sql_update. rewrite map_map. apply map_ext.
  intros a. destruct (w a); auto.
Qed.

Lemma clearCapitalIfLost_ids (p : string) (q r : Z) (s : Store) :
  map Agent.id (agents (clearCapitalIfLost p q r s)) = map Agent.id (agents s).
Proof.
  unfold clearCapitalIfLost. destruct (getAgent s p); auto.
  destruct (_ && _); auto. simpl. now apply sql_update_ids.
Qed.

Lemma resolveAttack_ids (st : Store * TickResult.t)
  (row : Attack.t * option string) :
  map Agent.id (agents (fst (resolveAttack st row)))
  = map Agent.id (agents (fst st)).
Proof.
  destruct st as [s result]. destruct row as [attack d]. cbn [fst].
  destruct (getTile s (Attack.target_q attack) (Attack.target_r attack))
    as [tile|] eqn:G.
  - destruct (attack_captures attack tile) eqn:C.
    + destruct (resolveAttack_capture s result attack d tile G C) as (_ & E & _).
      rewrite E. unfold clear_previous_owner.
      destruct (Tile.owner_id tile) as [p|]; auto.
      destruct (String.eqb p ""); auto. apply clearCapitalIfLost_ids.
    + destruct (resolveAttack_repelled s result attack d tile G C) as (_ & E & _).
      now rewrite E.
  - destruct (resolveAttack_no_tile s result attack d G) as (_ & E & _).
    now rewrite E.
Qed.

(** STEP 1 keeps both primary keys. *)
Lemma afterAttacks_keyed (now : Z) (s : Store) :
  store_keyed s -> store_keyed (afterAttacks now s).
Proof.
  intros [K1 K2]. unfold afterAttacks, resolveAttacks, store_keyed,
    tiles_keyed, agents_keyed in *.
  rewrite fold_resolveAttack_coords. split; auto.
  cbn [fst].
  assert (E : map Agent.id
                (agents (fst (fold_left resolveAttack
                                (getPendingAttacksToResolve now s)
                                (s, initialResult s))))
              = map Agent.id (agents s)).
  { apply (fold_left_invariant resolveAttack
             (fun x => map Agent.id (agents (fst x)) = map Agent.id (agents s)));
      auto.
    intros a b H. now rewrite resolveAttack_ids. }
  now rewrite E.
Qed.

Lemma keyed_getAgent_self (s : Store) (a : Agent.t) :
  agents_keyed (agents s) -> In a (agents s) -> getAgent s (Agent.id a) = Some a.
Proof.
  unfold agents_keyed, getAgent. induction (agents s) as [|x l IH]; simpl;
    [tauto|].
  intros N H. inversion N as [|? ? Hn Hl]; subst.
  unfold has_id at 1. destruct (String.eqb (Agent.id x) (Agent.id a)) eqn:E.
  - destruct H as [->|H]; auto. apply String.eqb_eq in E.
    exfalso. apply Hn. rewrite E. now apply in_map.
  - destruct H as [->|H]; auto. now rewrite String.eqb_refl in E.
Qed.

Lemma afterProduction_tiles (now : Z) (s : Store) :
  tiles (afterProduction now s) = tiles (afterAttacks now s).
Proof.
  unfold afterProduction, afterAttacks.
  now destruct (produceResources_frame
                  (getAllAgents (fst (resolveAttacks now (s, initialResult s))))
                  (resolveAttacks now (s, initialResult s))) as [E _].
Qed.

Lemma afterProduction_getAgentTiles (now : Z) (s : Store) (x : string) :
  getAgentTiles (afterProduction now s) x = getAgentTiles (afterAttacks now s) x.
Proof. unfold getAgentTiles. now rewrite afterProduction_tiles. Qed.

(** After STEP 2 every agent holds its post-attack record plus the yield
    of the tiles it owns after the attacks. *)
Lemma afterProduction_getAgent (now : Z) (s : Store) (a : Agent.t) :
  store_keyed s -> In a (agents (afterAttacks now s)) ->
  getAgent (afterProduction now s) (Agent.id a)
  = Some (agentAfterProduction (afterAttacks now s) a).
Proof.
  intros K H. destruct (afterAttacks_keyed now s K) as [K1 K2].
  unfold afterProduction. rewrite produceResources_getAgent by exact K2.
  fold (afterAttacks now s).
  rewrite (keyed_getAgent_self _ a K2 H). cbn [option_map].
  unfold getAllAgents. now rewrite (has_turn_true _ a H).
Qed.

(** STEPS 4 and 5 leave agents and tiles alone. *)
Lemma processTick_agents_tiles (now : Z) (s : Store) :
  agents (fst (processTick now s)) = agents (afterUpkeep now s)
  /\ tiles (fst (processTick now s)) = tiles (afterUpkeep now s).
Proof.
  rewrite processTick_steps. cbv zeta. unfold afterUpkeep, afterAttacks.
  set (st3 := deductUpkeep _ _).
  destruct (updateGameState_frame now
              (GameState.current_tick (getGameState s) + 1)
              (expireTrades now st3)) as (E1 & E2 & _).
  destruct (expireTrades_frame now st3) as (E3 & E4 & _).
  split; congruence.
Qed.

(** After STEP 3 every agent holds its post-production record, charged for
    what it owned when STEP 3 began. *)
Lemma afterUpkeep_getAgent (now : Z) (s : Store) (a : Agent.t) :
  store_keyed s -> In a (agents (afterAttacks now s)) ->
  getAgent (afterUpkeep now s) (Agent.id a)
  = Some (agentAfterUpkeep (getAgentTiles (afterAttacks now s) (Agent.id a))
            (agentAfterProduction (afterAttacks now s) a)).
Proof.
  intros K H. destruct (afterAttacks_keyed now s K) as [K1 K2].
  unfold afterUpkeep.
  rewrite deductUpkeep_getAgent; [|fold (afterProduction now s);
                                   now rewrite afterProduction_tiles|exact K2].
  fold (afterProduction now s).
  rewrite (afterProduction_getAgent now s a K H). cbn [option_map].
  unfold getAllAgents. rewrite (has_turn_true _ a H).
  now rewrite afterProduction_getAgentTiles.
Qed.

Lemma lost_in_phase_owned (s : Store) (l : list Agent.t) (a : Agent.t)
  (t : Tile.t) :
  tiles_keyed (tiles s) -> In a l -> In t (tiles s) ->
  Tile.owner_id t = Some (Agent.id a) ->
  lost_in_phase s l t = covers (lostOf s (Agent.id a)) t.
Proof.
  intros K Ha Ht O. unfold lost_in_phase.
  destruct (covers (lostOf s (Agent.id a)) t) eqn:C.
  - apply existsb_exists. now exists a.
  - destruct (existsb _ l) eqn:E; auto.
    apply existsb_exists in E. destruct E as [b [Hb Cb]].
    pose proof (covers_lostOf_owner s (Agent.id b) t K Ht Cb) as Ob.
    assert (Agent.id b = Agent.id a) by congruence.
    congruence.
Qed.

Lemma lost_in_phase_unowned (s : Store) (l : list Agent.t) (t : Tile.t) :
  tiles_keyed (tiles s) -> In t (tiles s) ->
  (forall a, In a l -> Tile.owner_id t <> Some (Agent.id a)) ->
  lost_in_phase s l t = false.
Proof.
  intros K Ht N. unfold lost_in_phase.
  destruct (existsb _ l) eqn:E; auto.
  apply existsb_exists in E. destruct E as [b [Hb Cb]].
  pose proof (covers_lostOf_owner s (Agent.id b) t K Ht Cb) as Ob.
  exfalso. now apply (N b Hb).
Qed.

(** The tiles after STEP 3. *)
Lemma afterUpkeep_tiles (now : Z) (s : Store) :
  store_keyed s ->
  tiles (afterUpkeep now s)
  = sql_update
      (lost_in_phase (afterProduction now s) (agents (afterAttacks now s)))
      (set_owner_reset None) (tiles (afterAttacks now s)).
Proof.
  intros K. destruct (afterAttacks_keyed now s K) as [K1 K2].
  unfold afterUpkeep. rewrite deductUpkeep_tiles;
    [|fold (afterProduction now s); now rewrite afterProduction_tiles|exact K2].
  fold (afterProduction now s). now rewrite afterProduction_tiles.
Qed.

(** ** What a tick does to one agent *)

Lemma afterUpkeep_row (now : Z) (s : Store) (a : Agent.t) (t : Tile.t) :
  store_keyed s -> In a (agents (afterAttacks now s)) ->
  In t (getAgentTiles (afterAttacks now s) (Agent.id a)) ->
  getTile (afterUpkeep now s) (Tile.q t) (Tile.r t)
  = Some (if covers (lostOf (afterProduction now s) (Agent.id a)) t
          then set_owner_reset None t else t).
Proof.
  intros K Ha Ht. destruct (afterAttacks_keyed now s K) as [K1 K2].
  apply getAgentTiles_In in Ht. destruct Ht as [Ht O].
  unfold getTile. rewrite afterUpkeep_tiles by assumption.
  rewrite (find_sql_update _ _ _
             (at_coord_set_owner_reset (Tile.q t) (Tile.r t) None)).
  rewrite (keyed_find_self _ t K1 Ht). cbn [option_map].
  rewrite (lost_in_phase_owned (afterProduction now s) _ a t); auto;
    now rewrite afterProduction_tiles.
Qed.

Lemma lostOf_afterProduction (now : Z) (s : Store) (a : Agent.t) :
  store_keyed s -> In a (agents (afterAttacks now s)) ->
  lostOf (afterProduction now s) (Agent.id a)
  = tilesLost
      (Agent.food a
       + fst (totalProduction (getAgentTiles (afterAttacks now s) (Agent.id a))))
      (getAgentTiles (afterAttacks now s) (Agent.id a)).
Proof.
  intros K Ha. unfold lostOf.
  rewrite (afterProduction_getAgent now s a K Ha).
  now rewrite afterProduction_getAgentTiles.
Qed.

Lemma keyed_NoDup (ts : list Tile.t) : tiles_keyed ts -> NoDup ts.
Proof. apply NoDup_map_inv. Qed.

Lemma getAgentTiles_NoDup (s : Store) (x : string) :
  tiles_keyed (tiles s) -> NoDup (getAgentTiles s x).
Proof. intros K. apply NoDup_filter. now apply keyed_NoDup. Qed.

Lemma NoDup_split {A : Type} (l : list A) (k : nat) (x : A) :
  NoDup l -> In x (firstn k l) -> ~ In x (skipn k l).
Proof.
  intros N H1 H2. rewrite <- (firstn_skipn k l) in N.
  revert N H1 H2. generalize (firstn k l), (skipn k l). intros l1 l2.
  induction l1 as [|y l1 IH]; simpl; [tauto|].
  intros N [->|H1] H2; inversion N as [|? ? Hn Hl]; subst.
  - apply Hn. apply in_or_app. now right.
  - now apply IH.
Qed.

Lemma covers_owned_iff (s : Store) (x : string) (lost : list Tile.t) (t : Tile.t) :
  tiles_keyed (tiles s) ->
  (forall l, In l lost -> In l (getAgentTiles s x)) ->
  In t (getAgentTiles s x) ->
  covers lost t = true <-> In t lost.
Proof.
  intros K Sub Ht. apply (covers_iff_In (tiles s)); auto.
  - intros l Hl. now apply (getAgentTiles_In s x), Sub.
  - now apply (getAgentTiles_In s x).
Qed.

(** The holding of [x] after a reset of the rows [lost] covers. *)
Lemma getAgentTiles_after_reset (ts : list Tile.t) (W : Tile.t -> bool)
  (x : string) :
  filter (fun t => eq_opt_string (Tile.owner_id t) x)
         (sql_update W (set_owner_reset None) ts)
  = filter (fun t => negb (W t))
           (filter (fun t => eq_opt_string (Tile.owner_id t) x) ts).
Proof.
  rewrite filter_sql_update_reset by (intros; reflexivity).
  apply filter_andb.
Qed.

Lemma afterUpkeep_getAgentTiles (now : Z) (s : Store) (a : Agent.t) :
  store_keyed s -> In a (agents (afterAttacks now s)) ->
  getAgentTiles (afterUpkeep now s) (Agent.id a)
  = filter (fun t => negb (covers (lostOf (afterProduction now s) (Agent.id a)) t))
           (getAgentTiles (afterAttacks now s) (Agent.id a)).
Proof.
  intros K Ha. destruct (afterAttacks_keyed now s K) as [K1 K2].
  unfold getAgentTiles at 1. rewrite afterUpkeep_tiles by assumption.
  rewrite getAgentTiles_after_reset. fold (getAgentTiles (afterAttacks now s) (Agent.id a)).
  apply filter_ext_in. intros t Ht. f_equal.
  apply getAgentTiles_In in Ht. destruct Ht as [Ht O].
  apply (lost_in_phase_owned (afterProduction now s) _ a t); auto;
    now rewrite afterProduction_tiles.
Qed.

Lemma filter_out_NoDup_length (owned lost kept : list Tile.t)
  (W : Tile.t -> bool) :
  NoDup owned -> NoDup kept ->
  (forall t, In t owned <-> In t lost \/ In t kept) ->
  (forall t, In t kept -> ~ In t lost) ->
  (forall t, In t owned -> (W t = true <-> In t lost)) ->
  Permutation (filter (fun t => negb (W t)) owned) kept.
Proof.
  intros N1 N2 Hsplit Hdisj HW. apply NoDup_Permutation; auto.
  - now apply NoDup_filter.
  - intros t. rewrite filter_In. split.
    + intros [Ho Hw]. apply negb_true_iff in Hw.
      apply Hsplit in Ho as Ho'. destruct Ho' as [Hl|Hk]; auto.
      apply (HW t Ho) in Hl. congruence.
    + intros Hk. assert (Ho : In t owned) by (apply Hsplit; now right).
      split; auto. apply negb_true_iff.
      destruct (W t) eqn:E; auto.
      apply (HW t Ho) in E. exfalso. now apply (Hdisj t Hk).
Qed.

(** ** The tick, agent by agent *)

Lemma getAgentTiles_ext (s1 s2 : Store) (x : string) :
  tiles s1 = tiles s2 -> getAgentTiles s1 x = getAgentTiles s2 x.
Proof. unfold getAgentTiles. now intros ->. Qed.

Lemma upkeepCostOf_nil_iff (owned : list Tile.t) :
  upkeepCostOf owned = Z.of_nat (List.length owned) * 3
  /\ (owned = [] <-> upkeepCostOf owned = 0).
Proof.
  unfold upkeepCostOf, GAME_CONSTANTS.UPKEEP_FOOD_PER_TILE. split; auto.
  destruct owned; cbn [List.length]; split; try lia; try discriminate; auto.
Qed.

Lemma starves_true (food : Z) (owned : list Tile.t) :
  food < Z.of_nat (List.length owned) * 3 -> owned <> [] ->
  starves food owned = true.
Proof.
  intros H N. destruct (upkeepCostOf_nil_iff owned) as [E [_ Z0]].
  unfold starves. rewrite E.
  assert (0 < Z.of_nat (List.length owned)).
  { destruct owned; [congruence|cbn [List.length]; lia]. }
  apply andb_true_iff. split; [lia|]. apply negb_true_iff. lia.
Qed.

Lemma starves_false (food : Z) (owned : list Tile.t) :
  Z.of_nat (List.length owned) * 3 <= food \/ owned = [] ->
  starves food owned = false.
Proof.
  intros H. destruct (upkeepCostOf_nil_iff owned) as [E [Z0 _]].
  unfold starves. destruct H as [H| ->].
  - rewrite E. apply andb_false_iff. right. apply negb_false_iff. lia.
  - reflexivity.
Qed.

Lemma filter_all {A : Type} (p : A -> bool) (l : list A) :
  (forall x, In x l -> p x = true) -> filter p l = l.
Proof.
  induction l as [|x l IH]; intros H; cbn [filter]; auto.
  rewrite (H x) by now left. f_equal. apply IH. intros; apply H; now right.
Qed.

Lemma famine_store_keyed : store_keyed famine_store.
Proof. split; repeat constructor; cbn; intuition discriminate. Qed.

(** X1 — [processTick], STEPS 2 and 3 (tick/processor.ts): every agent
    registered when production starts is credited with what the tiles it
    owns after the attacks yield, and is then charged 3 food per tile out
    of the balance that already includes this tick's yield. If that
    balance covers the charge, or the agent owns nothing, the agent keeps
    its capital and ends with the difference; otherwise its food ends at
    0. Metal is never charged. *)
Theorem tick_income_then_upkeep (now : Z) (s : Store) (a : Agent.t) :
  store_keyed s -> In a (agents (afterAttacks now s)) ->
  let owned := getAgentTiles (afterAttacks now s) (Agent.id a) in
  let food2 := Agent.food a + fst (totalProduction owned) in
  let cost := Z.of_nat (List.length owned) * 3 in
  exists a',
    getAgent (fst (processTick now s)) (Agent.id a) = Some a'
    /\ Agent.metal a' = Agent.metal a + snd (totalProduction owned)
    /\ (cost <= food2 \/ owned = [] ->
        Agent.food a' = food2 - cost
        /\ Agent.capital_q a' = Agent.capital_q a
        /\ Agent.capital_r a' = Agent.capital_r a)
    /\ (food2 < cost -> owned <> [] -> Agent.food a' = 0).
Proof.
  intros K Ha owned food2 cost.
  destruct (processTick_agents_tiles now s) as [EA _].
  rewrite (getAgent_ext _ _ _ EA), (afterUpkeep_getAgent now s a K Ha).
  fold owned. eexists. split; [reflexivity|].
  destruct (upkeepCostOf_nil_iff owned) as [E [N0 N1]]. fold cost in E.
  unfold agentAfterUpkeep, agentAfterProduction, yieldOf. fold owned.
  rewrite E. cbn [add_resources Agent.food Agent.metal]. fold food2.
  unfold clear_capital_among.
  destruct (cost >? 0) eqn:C0; [destruct (food2 >=? cost) eqn:C1|].
  - cbn. repeat split; try lia; intros; lia.
  - destruct (capital_among _ _); cbn; (split; [lia|]); (split; [|auto]);
      intros [H| ->]; try lia; cbn in C0; discriminate.
  - cbn. split; [lia|]. split.
    + intros _. repeat split; auto. lia.
    + intros H N. exfalso. apply N, N1. lia.
Qed.

Lemma tick_income_then_upkeep_witness :
  exists a',
    getAgent (fst (processTick 7200 famine_store)) "farmer" = Some a'
    /\ Agent.metal a' = 0
    /\ Agent.food a' = 7
    /\ Agent.capital_q a' = Some 5
    /\ Agent.capital_r a' = Some 5.
Proof.
  destruct (tick_income_then_upkeep 7200 famine_store farmer
              famine_store_keyed (or_intror (or_introl eq_refl)))
    as (a' & G & M & P & _).
  exists a'. split; [exact G|]. split; [exact M|].
  apply P. left. discriminate.
Defined.

Lemma tilesLost_starving (food : Z) (owned : list Tile.t) :
  food < Z.of_nat (List.length owned) * 3 -> owned <> [] ->
  tilesLost food owned
  = firstn (Z.to_nat (Z.min (ceil_div (Z.of_nat (List.length owned) * 3 - food) 3)
                            (Z.of_nat (List.length owned))))
           (sort_by_value owned).
Proof.
  intros H N. unfold tilesLost. rewrite (starves_true food owned H N).
  unfold tilesToLoseOf. rewrite sort_by_value_length.
  now destruct (upkeepCostOf_nil_iff owned) as [-> _].
Qed.

Lemma sorted_split_In (owned : list Tile.t) (k : nat) (t : Tile.t) :
  In t owned <->
  In t (firstn k (sort_by_value owned)) \/ In t (skipn k (sort_by_value owned)).
Proof.
  rewrite <- in_app_iff, firstn_skipn.
  split; apply Permutation_in;
    [apply Permutation_sym|]; apply sort_by_value_perm.
Qed.

(** X2 — [processTick], STEP 3, starvation branch (tick/processor.ts):
    an agent whose food after this tick's production is below 3 per owned
    tile gives up [k = min(ceil(shortfall / 3), n)] tiles, at least one and
    never one more than the shortfall asks for. The tiles given up are the
    first [k] of its holding in ascending terrain value (barren, mixed, mine,
    farmland), so none of them is worth more than a tile it keeps; each
    becomes unowned with fortification 0 and keeps its terrain, the kept
    tiles are untouched, the agent's holding afterwards is exactly the kept
    tiles, its food is 0, and its capital is cleared exactly when it stood on
    one of the tiles given up. *)
Theorem tick_starvation (now : Z) (s : Store) (a : Agent.t) :
  store_keyed s -> In a (agents (afterAttacks now s)) ->
  let owned := getAgentTiles (afterAttacks now s) (Agent.id a) in
  let n := List.length owned in
  let food2 := Agent.food a + fst (totalProduction owned) in
  let shortfall := Z.of_nat n * 3 - food2 in
  let k := Z.to_nat (Z.min (ceil_div shortfall 3) (Z.of_nat n)) in
  let lost := firstn k (sort_by_value owned) in
  let kept := skipn k (sort_by_value owned) in
  let final := fst (processTick now s) in
  0 < shortfall -> owned <> [] ->
  (1 <= k <= n)%nat
  /\ 3 * (Z.of_nat k - 1) < shortfall
  /\ List.length lost = k
  /\ Permutation (lost ++ kept) owned
  /\ all_le lost kept
  /\ (forall t, In t lost ->
        getTile final (Tile.q t) (Tile.r t)
        = Some (Tile.mk (Tile.q t) (Tile.r t) (Tile.terrain t) None 0))
  /\ (forall t, In t kept -> getTile final (Tile.q t) (Tile.r t) = Some t)
  /\ Permutation (getAgentTiles final (Agent.id a)) kept
  /\ exists a',
       getAgent final (Agent.id a) = Some a'
       /\ Agent.food a' = 0
       /\ Agent.capital_q a'
          = (if capital_among lost a then None else Agent.capital_q a)
       /\ Agent.capital_r a'
          = (if capital_among lost a then None else Agent.capital_r a).
Proof.
  intros K Ha owned n food2 shortfall k lost kept final Hs Hn.
  destruct (afterAttacks_keyed now s K) as [K1 K2].
  destruct (processTick_agents_tiles now s) as [EA ET]. fold final in EA, ET.
  assert (Hlt : food2 < Z.of_nat (List.length owned) * 3) by (fold n; lia).
  assert (Npos : (1 <= n)%nat).
  { subst n. destruct owned; [congruence|cbn [List.length]; lia]. }
  pose proof (ceil_div_3_pos shortfall Hs) as C1.
  pose proof (ceil_div_3_spec shortfall) as C2.
  assert (Hk : (1 <= k <= n)%nat) by (subst k; lia).
  assert (L : lostOf (afterProduction now s) (Agent.id a) = lost).
  { rewrite (lostOf_afterProduction now s a K Ha). fold owned food2.
    now rewrite (tilesLost_starving food2 owned Hlt Hn). }
  assert (ND : NoDup (sort_by_value owned)).
  { apply (Permutation_NoDup (Permutation_sym (sort_by_value_perm owned))).
    now apply getAgentTiles_NoDup. }
  assert (Sub : forall l, In l lost -> In l owned).
  { intros l Hl. apply (sorted_split_In owned k). now left. }
  assert (W : forall t, In t owned -> (covers lost t = true <-> In t lost)).
  { intros t Ht. now apply (covers_owned_iff (afterAttacks now s) (Agent.id a)). }
  split; [exact Hk|]. split; [subst k; lia|].
  split; [subst lost; rewrite length_firstn, sort_by_value_length; fold n; lia|].
  split; [subst lost kept; rewrite firstn_skipn; apply sort_by_value_perm|].
  split; [apply ascending_split, sort_by_value_ascending|].
  split; [|split; [|split]].
  - intros t Ht. rewrite (getTile_ext _ _ _ _ ET).
    rewrite (afterUpkeep_row now s a t K Ha (Sub t Ht)), L.
    now rewrite (proj2 (W t (Sub t Ht)) Ht).
  - intros t Ht. rewrite (getTile_ext _ _ _ _ ET).
    assert (Ho : In t owned) by (apply (sorted_split_In owned k); now right).
    rewrite (afterUpkeep_row now s a t K Ha Ho), L.
    destruct (covers lost t) eqn:E; auto.
    apply (W t Ho) in E. exfalso. revert Ht. now apply NoDup_split.
  - rewrite (getAgentTiles_ext _ _ _ ET).
    rewrite (afterUpkeep_getAgentTiles now s a K Ha), L. fold owned.
    apply (filter_out_NoDup_length owned lost kept); auto.
    + now apply getAgentTiles_NoDup.
    + rewrite <- (firstn_skipn k (sort_by_value owned)) in ND.
      now apply NoDup_app_remove_l in ND.
    + apply sorted_split_In.
    + intros t Hk' Hl. revert Hk'. now apply NoDup_split.
  - rewrite (getAgent_ext _ _ _ EA), (afterUpkeep_getAgent now s a K Ha).
    fold owned. eexists. split; [reflexivity|].
    unfold agentAfterUpkeep, agentAfterProduction, yieldOf. fold owned.
    destruct (upkeepCostOf_nil_iff owned) as [E _]. rewrite E.
    cbn [add_resources Agent.food]. fold food2.
    replace (Z.of_nat (List.length owned) * 3 >? 0) with true by lia.
    replace (food2 >=? Z.of_nat (List.length owned) * 3) with false by lia.
    rewrite (tilesLost_starving food2 owned Hlt Hn). fold n shortfall k lost.
    unfold clear_capital_among.
    replace (capital_among lost (set_food 0 _)) with (capital_among lost a)
      by reflexivity.
    destruct (capital_among lost a); cbn; auto.
Qed.

Lemma tick_starvation_witness :
  let owned := [Tile.mk 0 0 mine (Some "miner") 4;
                Tile.mk 1 0 barren (Some "miner") 0;
                Tile.mk 0 1 mine (Some "miner") 2] in
  let lost := [Tile.mk 1 0 barren (Some "miner") 0;
               Tile.mk 0 0 mine (Some "miner") 4] in
  let kept := [Tile.mk 0 1 mine (Some "miner") 2] in
  let final := fst (processTick 7200 famine_store) in
  (1 <= 2 <= 3)%nat
  /\ 3 * (2 - 1) < 3 * 3 - (1 + 2)
  /\ List.length lost = 2%nat
  /\ Permutation (lost ++ kept) owned
  /\ all_le lost kept
  /\ (forall t, In t lost ->
        getTile final (Tile.q t) (Tile.r t)
        = Some (Tile.mk (Tile.q t) (Tile.r t) (Tile.terrain t) None 0))
  /\ (forall t, In t kept -> getTile final (Tile.q t) (Tile.r t) = Some t)
  /\ Permutation (getAgentTiles final "miner") kept
  /\ exists a',
       getAgent final "miner" = Some a'
       /\ Agent.food a' = 0
       /\ Agent.capital_q a' = None
       /\ Agent.capital_r a' = None.
Proof.
  refine (tick_starvation 7200 famine_store miner famine_store_keyed _ _ _).
  - left. reflexivity.
  - reflexivity.
  - discriminate.
Defined.

(** X3 — [processTick], STEP 3, paying branch (tick/processor.ts): an
    agent that can pay its upkeep, or owns nothing, comes out of the tick
    holding exactly the tiles it owned after the attacks, each of them
    unchanged: nobody loses a tile to another agent's starvation. *)
Theorem tick_upkeep_paid_keeps_holding (now : Z) (s : Store) (a : Agent.t) :
  store_keyed s -> In a (agents (afterAttacks now s)) ->
  let owned := getAgentTiles (afterAttacks now s) (Agent.id a) in
  let food2 := Agent.food a + fst (totalProduction owned) in
  let final := fst (processTick now s) in
  Z.of_nat (List.length owned) * 3 <= food2 \/ owned = [] ->
  getAgentTiles final (Agent.id a) = owned
  /\ forall t, In t owned -> getTile final (Tile.q t) (Tile.r t) = Some t.
Proof.
  intros K Ha owned food2 final H.
  destruct (processTick_agents_tiles now s) as [_ ET]. fold final in ET.
  assert (L : lostOf (afterProduction now s) (Agent.id a) = []).
  { rewrite (lostOf_afterProduction now s a K Ha). fold owned food2.
    unfold tilesLost. now rewrite (starves_false food2 owned H). }
  split.
  - rewrite (getAgentTiles_ext _ _ _ ET).
    rewrite (afterUpkeep_getAgentTiles now s a K Ha), L. fold owned.
    now apply filter_all.
  - intros t Ht. rewrite (getTile_ext _ _ _ _ ET).
    now rewrite (afterUpkeep_row now s a t K Ha Ht), L.
Qed.

Lemma tick_upkeep_paid_keeps_holding_witness :
  getAgentTiles (fst (processTick 7200 famine_store)) "farmer"
  = [Tile.mk 5 5 farmland (Some "farmer") 1]
  /\ forall t, In t [Tile.mk 5 5 farmland (Some "farmer") 1] ->
       getTile (fst (processTick 7200 famine_store)) (Tile.q t) (Tile.r t)
       = Some t.
Proof.
  refine (tick_upkeep_paid_keeps_holding 7200 famine_store farmer
            famine_store_keyed _ _).
  - right. left. reflexivity.
  - left. discriminate.
Defined.

(** ** The tick: attacks, trades and the clock *)

Lemma fold_resolveAttack_marks (rows : list (Attack.t * option string))
  (st : Store * TickResult.t) (a : Attack.t) (d : option string) :
  In (a, d) rows ->
  resolved_in (Attack.id a) (attacks (fst (fold_left resolveAttack rows st))).
Proof.
  revert st. induction rows as [|row rows IH]; intros st H; [contradiction|].
  cbn [fold_left]. destruct H as [->|H].
  - apply fold_resolveAttack_keeps_resolved.
    rewrite resolveAttack_attacks. apply mark_resolves.
  - now apply IH.
Qed.

Lemma pending_survivor (id : Z) (rows : list Attack.t) (a : Attack.t) :
  In a (sql_update (fun x => Attack.id x =? id)
          (set_attack_status attack_resolved) rows) ->
  Attack.status a = attack_pending -> In a rows.
Proof.
  intros H P. apply sql_update_In in H. destruct H as [x [Hx E]].
  destruct (Attack.id x =? id); subst a; [discriminate P|exact Hx].
Qed.

Lemma fold_resolveAttack_pending (rows : list (Attack.t * option string))
  (st : Store * TickResult.t) (a : Attack.t) :
  In a (attacks (fst (fold_left resolveAttack rows st))) ->
  Attack.status a = attack_pending -> In a (attacks (fst st)).
Proof.
  revert st. induction rows as [|row rows IH]; intros st H P; [exact H|].
  cbn [fold_left] in H. apply IH in H; auto.
  rewrite resolveAttack_attacks in H. now apply pending_survivor in H.
Qed.

Lemma attack_is_due_pending (now : Z) (a : Attack.t) :
  attack_is_due now a = true -> Attack.status a = attack_pending.
Proof. unfold attack_is_due. destruct (Attack.status a); auto; discriminate. Qed.

Lemma tiles_reset_coords (ts ts' : list Tile.t) :
  tiles_reset ts ts' -> map coord ts' = map coord ts.
Proof.
  intros H. induction H as [|ts' q r o H IH]; auto.
  rewrite <- IH. now apply sql_update_coords.
Qed.

(** X5 — [processTick], STEP 1 with [getPendingAttacksToResolve]
    (tick/processor.ts): a tick leaves no attack to resolve. Queried again
    at the same instant, on the store the tick produced, the due-attack
    query returns nothing: every row it returned has been marked resolved,
    so no attack is resolved twice. *)
Theorem tick_leaves_no_due_attack (now : Z) (s : Store) :
  getPendingAttacksToResolve now (fst (processTick now s)) = [].
Proof.
  destruct (getPendingAttacksToResolve now (fst (processTick now s)))
    as [|[a d] rest] eqn:E; auto.
  exfalso.
  assert (H : In (a, d) (getPendingAttacksToResolve now (fst (processTick now s))))
    by (rewrite E; now left).
  apply pending_row_sound in H. destruct H as (Ha & Due & t & Ht & Ct & _).
  pose proof (attack_is_due_pending now a Due) as P.
  rewrite processTick_attacks in Ha. unfold resolveAttacks in Ha. cbn [fst] in Ha.
  pose proof (fold_resolveAttack_pending _ _ a Ha P) as H0. cbn [fst] in H0.
  assert (G : exists t0, getTile s (Attack.target_q a) (Attack.target_r a) = Some t0).
  { apply getTile_some_iff_coord.
    rewrite <- (tiles_reset_coords _ _ (processTick_tiles_reset now s)).
    rewrite <- Ct. now apply in_map. }
  destruct G as [t0 G].
  destruct (pending_row_complete now s a t0 H0 Due G) as [d0 Hrow].
  pose proof (fold_resolveAttack_marks _ (s, initialResult s) a d0 Hrow) as R.
  specialize (R a Ha eq_refl). congruence.
Qed.

Lemma processTick_trades (now : Z) (s : Store) :
  trades (fst (processTick now s))
  = sql_update (trade_is_due now) (set_trade_status trade_expired) (trades s)
  /\ TickResult.trades_expired (snd (processTick now s))
     = Z.of_nat (List.length (filter (trade_is_due now) (trades s))).
Proof.
  rewrite processTick_steps. cbv zeta.
  set (st1 := resolveAttacks now (s, initialResult s)).
  set (ags := getAllAgents (fst st1)).
  set (st3 := deductUpkeep ags (produceResources ags st1)).
  assert (T : trades (fst st3) = trades s).
  { subst st3. destruct (deductUpkeep_frame ags (produceResources ags st1))
      as (_ & -> & _).
    destruct (produceResources_frame ags st1) as (_ & _ & -> & _).
    subst st1. unfold resolveAttacks. cbn [fst].
    apply (fold_left_invariant resolveAttack
             (fun x => trades (fst x) = trades s)); auto.
    intros [x res] [a d] H. cbn [fst] in *. rewrite <- H.
    destruct (getTile x (Attack.target_q a) (Attack.target_r a)) as [tile|] eqn:G.
    - destruct (attack_captures a tile) eqn:C.
      + now destruct (resolveAttack_capture x res a d tile G C)
          as (_ & _ & _ & E & _).
      + now destruct (resolveAttack_repelled x res a d tile G C)
          as (_ & _ & _ & E & _).
    - now destruct (resolveAttack_no_tile x res a d G) as (_ & _ & _ & E & _). }
  destruct st3 as [s3 r3]. cbn [fst] in T.
  unfold expireTrades, updateGameState. cbn. now rewrite T.
Qed.

(** X6 — [processTick], STEP 4 (tick/processor.ts): the tick expires
    exactly the trades that are pending with a deadline at or before now.
    Each of them is left with status expired and every other field as it
    was, every other trade is left untouched, the table keeps its length,
    no trade in the resulting store is still due, and the tick reports the
    number of trades it expired. The earlier steps of the tick do not touch
    the trades table. *)
Theorem tick_expires_due_trades (now : Z) (s : Store) :
  let final := fst (processTick now s) in
  List.length (trades final) = List.length (trades s)
  /\ (forall t, In t (trades s) -> trade_is_due now t = true ->
        In (set_trade_status trade_expired t) (trades final))
  /\ (forall t, In t (trades s) -> trade_is_due now t = false ->
        In t (trades final))
  /\ (forall t', In t' (trades final) ->
        trade_is_due now t' = false
        /\ exists t, In t (trades s)
             /\ (t' = t \/ (trade_is_due now t = true
                            /\ t' = set_trade_status trade_expired t)))
  /\ TickResult.trades_expired (snd (processTick now s))
     = Z.of_nat (List.length (filter (trade_is_due now) (trades s))).
Proof.
  cbv zeta. destruct (processTick_trades now s) as [-> ->].
  split; [apply sql_update_length|].
  split; [|split; [|split; [|reflexivity]]].
  - intros t H D. unfold sql_update. apply in_map_iff. exists t.
    now rewrite D.
  - intros t H D. unfold sql_update. apply in_map_iff. exists t.
    now rewrite D.
  - intros t' H. apply sql_update_In in H. destruct H as [t [H ->]].
    destruct (trade_is_due now t) eqn:D.
    + split; [reflexivity|]. exists t. split; auto.
    + split; [exact D|]. exists t. split; auto.
Qed.

(** X7 — [shouldProcessTick] and [getTimeUntilNextTick]
    (tick/processor.ts): the two clocks of the scheduler agree. A tick is
    due exactly when the time until the next tick is zero, and that time is
    never negative. *)
Theorem tick_due_iff_no_time_left (now : Z) (s : Store) :
  0 <= getTimeUntilNextTick now s
  /\ (shouldProcessTick now s = true <-> getTimeUntilNextTick now s = 0).
Proof.
  unfold shouldProcessTick, getTimeUntilNextTick.
  destruct (GameState.last_tick_at (getGameState s)) as [l|].
  - split; [lia|]. rewrite Z.geb_le. lia.
  - split; [lia|]. tauto.
Qed.

(** X8 — [checkAndProcessTick] (tick/scheduler.ts) over [processTick] and
    [shouldProcessTick]: once a tick has run at time [now], the timer path
    runs the next one only when the tick interval has elapsed since [now].
    With a positive interval a second timer check at the same instant
    changes nothing, which is what the manual trigger does not offer. *)
Theorem timer_waits_for_interval (now now' : Z) (s : Store) :
  let s1 := fst (processTick now s) in
  let interval := GameState.tick_interval_hours (getGameState s) * 60 * 60 in
  (shouldProcessTick now' s1 = true <-> now + interval <= now')
  /\ getNextTickAt s1 = Some (now + interval)
  /\ (now' < now + interval -> checkAndProcessTick now' s1 = s1)
  /\ (0 < interval ->
      checkAndProcessTick now (checkAndProcessTick now s)
      = checkAndProcessTick now s).
Proof.
  cbv zeta. pose proof (processTick_game_state now s) as G.
  assert (S1 : forall t, shouldProcessTick t (fst (processTick now s)) = true
                         <-> now + GameState.tick_interval_hours (getGameState s)
                                   * 60 * 60 <= t).
  { intros t. unfold shouldProcessTick, getGameState. rewrite G. cbn.
    rewrite Z.geb_le. unfold getGameState. lia. }
  split; [apply S1|]. split.
  { unfold getNextTickAt, getGameState. rewrite G. reflexivity. }
  split.
  - intros H. unfold checkAndProcessTick.
    destruct (shouldProcessTick now' _) eqn:E; auto.
    apply S1 in E. lia.
  - intros H. unfold checkAndProcessTick at 2 3.
    destruct (shouldProcessTick now s) eqn:E.
    + unfold checkAndProcessTick.
      destruct (shouldProcessTick now (fst (processTick now s))) eqn:E2; auto.
      apply S1 in E2. lia.
    + unfold checkAndProcessTick. now rewrite E.
Qed.

Lemma timer_waits_for_interval_witness :
  checkAndProcessTick 9000 (fst (processTick 7200 famine_store))
  = fst (processTick 7200 famine_store)
  /\ checkAndProcessTick 7200 (checkAndProcessTick 7200 famine_store)
     = checkAndProcessTick 7200 famine_store.
Proof.
  destruct (timer_waits_for_interval 7200 9000 famine_store)
    as (_ & _ & A & B).
  split; [apply A|apply B]; reflexivity.
Defined.

(** ** Territorial actions *)

Lemma In_getNeighbors_iff (q r q' r' : Z) :
  In (q', r') (getNeighbors q r) <-> hex_distance q r q' r' = 1.
Proof.
  unfold getNeighbors, hex_distance. cbn [In]. rewrite !pair_equal_spec. lia.
Qed.

(** X9 — [getNeighbors] (game/actions.ts): the six neighbours of a cell
    are pairwise distinct, never contain the cell itself, and are exactly
    the cells at hex distance 1; so adjacency is symmetric. *)
Theorem getNeighbors_adjacent (q r q' r' : Z) :
  List.length (getNeighbors q r) = 6%nat
  /\ NoDup (getNeighbors q r)
  /\ ~ In (q, r) (getNeighbors q r)
  /\ (In (q', r') (getNeighbors q r) <-> hex_distance q r q' r' = 1)
  /\ (In (q', r') (getNeighbors q r) <-> In (q, r) (getNeighbors q' r')).
Proof.
  unfold getNeighbors, hex_distance. split; [reflexivity|].
  split.
  { repeat constructor; cbn [In]; rewrite ?pair_equal_spec; lia. }
  cbn [In]. rewrite !pair_equal_spec. repeat split; try lia.
Qed.

Lemma hasAdjacentTerritory_true (s : Store) (id : string) (q r : Z) :
  hasAdjacentTerritory s id q r = true <->
  exists n t, In n (getNeighbors q r)
              /\ getTile s (fst n) (snd n) = Some t
              /\ Tile.owner_id t = Some id.
Proof.
  unfold hasAdjacentTerritory. rewrite existsb_exists. split.
  - intros [n [Hn H]]. destruct (getTile s (fst n) (snd n)) as [t|] eqn:G;
      [|discriminate].
    exists n, t. repeat split; auto. now apply eq_opt_string_true.
  - intros (n & t & Hn & G & O). exists n. split; auto. rewrite G.
    now apply eq_opt_string_true.
Qed.

(** X10 — [hasAdjacentTerritory] (game/actions.ts): on a tiles table
    that respects its primary key, an agent has territory adjacent to a
    cell exactly when it owns some tile at hex distance 1 from it. *)
Theorem hasAdjacentTerritory_spec (s : Store) (id : string) (q r : Z) :
  tiles_keyed (tiles s) ->
  (hasAdjacentTerritory s id q r = true <->
   exists t, In t (tiles s) /\ Tile.owner_id t = Some id
             /\ hex_distance q r (Tile.q t) (Tile.r t) = 1).
Proof.
  intros K. rewrite hasAdjacentTerritory_true. split.
  - intros ([q' r'] & t & Hn & G & O). cbn [fst snd] in G.
    pose proof (find_some _ _ G) as [Ht C]. apply at_coord_true in C.
    destruct C as [<- <-]. exists t. repeat split; auto.
    now apply In_getNeighbors_iff.
  - intros (t & Ht & O & D). exists (Tile.q t, Tile.r t), t.
    split; [now apply In_getNeighbors_iff|].
    split; auto. cbn [fst snd]. unfold getTile. now apply keyed_find_self.
Qed.

Lemma hasAdjacentTerritory_spec_witness :
  hasAdjacentTerritory sample_store "alice" 0 1 = true <->
  exists t, In t (tiles sample_store) /\ Tile.owner_id t = Some "alice"
            /\ hex_distance 0 1 (Tile.q t) (Tile.r t) = 1.
Proof.
  apply (hasAdjacentTerritory_spec sample_store "alice" 0 1).
  repeat constructor; cbn; intuition discriminate.
Defined.

Lemma add_resources_stamped (f m : Z) (seen : option Z) (a : Agent.t) :
  add_resources f m (stamped seen a)
  = Agent.mk (Agent.id a) (Agent.display_name a) (Agent.food a + f)
             (Agent.metal a + m) (Agent.capital_q a) (Agent.capital_r a) seen.
Proof. reflexivity. Qed.

Lemma declareAttack_succeeds_iff (now : Z) (s : Store) (agent : Agent.t)
  (q r c : Z) :
  success (snd (declareAttack now s agent q r c)) = true <->
  0 < c <= Agent.metal agent
  /\ exists t owner defender,
       getTile s q r = Some t /\ Tile.owner_id t = Some owner
       /\ owner <> Agent.id agent
       /\ hasAdjacentTerritory s (Agent.id agent) q r = true
       /\ getAgent s owner = Some defender.
Proof.
  unfold declareAttack, fail.
  destruct (c <=? 0) eqn:C0; cbn [snd success].
  { split; [discriminate|]. intros [H _]. lia. }
  destruct (c >? Agent.metal agent) eqn:C1; cbn [snd success].
  { split; [discriminate|]. intros [H _]. lia. }
  destruct (getTile s q r) as [t|]; cbn [snd success].
  2:{ split; [discriminate|]. intros (_ & t & o & d & H & _). discriminate. }
  destruct (Tile.owner_id t) as [o|] eqn:O; cbn [snd success].
  2:{ split; [discriminate|]. intros (_ & t' & o & d & H & H' & _). congruence. }
  destruct (String.eqb o (Agent.id agent)) eqn:E; cbn [snd success].
  { apply String.eqb_eq in E. split; [discriminate|].
    intros (_ & t' & o' & d & H & H' & N & _). congruence. }
  apply String.eqb_neq in E.
  destruct (hasAdjacentTerritory s (Agent.id agent) q r) eqn:A;
    cbn [negb snd success].
  2:{ split; [discriminate|]. intros (_ & t' & o' & d & _ & _ & _ & H & _).
      discriminate. }
  destruct (getAgent s o) as [d|] eqn:D; cbn [snd success].
  2:{ split; [discriminate|]. intros (_ & t' & o' & d & H & H' & _ & _ & G).
      congruence. }
  split; auto. intros _. split; [lia|]. exists t, o, d. auto.
Qed.

(** X11 — [declareAttack] (game/actions.ts): an attack is accepted
    exactly when the commitment is positive and within the attacker's
    metal, the target tile exists and is owned by another registered
    agent, and the attacker owns an adjacent tile. A refusal changes
    nothing. An accepted attack leaves the attacker's row with the
    commitment taken from its metal at once and nothing else changed,
    leaves every other agent and every tile as they were, and appends one
    pending attack with the next id that resolves two hours later: it is
    not due before [now + 7200] and due from then on.  The attacker is the
    record the route read; the stored row carries the time stamp written
    since. *)
Theorem declareAttack_correct (now : Z) (s : Store) (agent : Agent.t)
  (seen : option Z) (q r c : Z) :
  getAgent s (Agent.id agent) = Some (stamped seen agent) ->
  let s' := fst (declareAttack now s agent q r c) in
  let result := snd (declareAttack now s agent q r c) in
  let row := Attack.mk (seq_attacks s + 1) (Agent.id agent) q r c
               attack_pending (Some (now + 7200)) in
  (success result = true <->
   0 < c <= Agent.metal agent
   /\ exists t owner defender,
        getTile s q r = Some t /\ Tile.owner_id t = Some owner
        /\ owner <> Agent.id agent
        /\ hasAdjacentTerritory s (Agent.id agent) q r = true
        /\ getAgent s owner = Some defender)
  /\ (success result = false -> s' = s)
  /\ (success result = true ->
      getAgent s' (Agent.id agent)
      = Some (Agent.mk (Agent.id agent) (Agent.display_name agent)
                (Agent.food agent) (Agent.metal agent - c)
                (Agent.capital_q agent) (Agent.capital_r agent) seen)
      /\ (forall other, other <> Agent.id agent ->
            getAgent s' other = getAgent s other)
      /\ tiles s' = tiles s
      /\ attacks s' = (attacks s ++ [row])%list
      /\ seq_attacks s' = seq_attacks s + 1
      /\ (forall t, attack_is_due t row = true <-> now + 7200 <= t)).
Proof.
  intros G s' result row. subst s' result.
  split; [apply declareAttack_succeeds_iff|].
  split; [apply declareAttack_failure|].
  intros Hok. split.
  { rewrite (declareAttack_deducts now s agent _ q r c G Hok).
    rewrite add_resources_stamped. now rewrite Z.add_0_r. }
  destruct (declareAttack_success_store now s agent q r c Hok) as [d E].
  rewrite E. split.
  { intros other N. rewrite getAgent_logEvent.
    change (getAgent (updateAgentResources (Agent.id agent) 0 (- c) s) other
            = getAgent s other).
    now apply getAgent_updateAgentResources_other. }
  split; [reflexivity|]. split; [reflexivity|]. split; [reflexivity|].
  intros t. subst row. unfold attack_is_due. cbn. apply Z.leb_le.
Qed.

Lemma declareAttack_correct_witness :
  let s := touch_last_seen 50 "alice" sample_store in
  getAgent s "alice" = Some (stamped (Some 50) alice)
  /\ getAgent (fst (declareAttack 50 s alice 1 0 15)) "alice"
     = Some (Agent.mk "alice" "Alice" 100 35 (Some 0) (Some 0) (Some 50))
  /\ attacks (fst (declareAttack 50 s alice 1 0 15))
     = [Attack.mk 1 "alice" 1 0 15 attack_pending (Some 7250)].
Proof.
  cbv zeta. split; [reflexivity|].
  destruct (declareAttack_correct 50 (touch_last_seen 50 "alice" sample_store)
              alice (Some 50) 1 0 15 eq_refl)
    as (_ & _ & H).
  destruct (H eq_refl) as (A & _ & _ & B & _).
  split; [exact A|exact B].
Defined.

Lemma fortify_succeeds_iff (s : Store) (agent : Agent.t) (q r m : Z) :
  success (snd (fortify s agent q r m)) = true <->
  0 < m <= Agent.metal agent
  /\ exists t, getTile s q r = Some t
               /\ Tile.owner_id t = Some (Agent.id agent).
Proof.
  unfold fortify, fail.
  destruct (m <=? 0) eqn:C0; cbn [snd success].
  { split; [discriminate|]. intros [H _]. lia. }
  destruct (m >? Agent.metal agent) eqn:C1; cbn [snd success].
  { split; [discriminate|]. intros [H _]. lia. }
  destruct (getTile s q r) as [t|]; cbn [snd success].
  2:{ split; [discriminate|]. intros (_ & t & H & _). discriminate. }
  destruct (eq_opt_string (Tile.owner_id t) (Agent.id agent)) eqn:O;
    cbn [negb snd success].
  - apply eq_opt_string_true in O. split; auto. intros _.
    split; [lia|]. now exists t.
  - split; [discriminate|]. intros (_ & t' & H & O').
    injection H as <-. apply eq_opt_string_true in O'. congruence.
Qed.

Lemma fortify_success_store (s : Store) (agent : Agent.t) (q r m : Z) :
  success (snd (fortify s agent q r m)) = true ->
  fst (fortify s agent q r m)
  = logEvent (Some (Agent.id agent)) "fortify"
      (Agent.display_name agent ++ " fortified " ++ show_coord q r)
      (with_tiles (sql_update (at_coord q r) (add_fortification m))
         (updateAgentResources (Agent.id agent) 0 (- m) s)).
Proof.
  unfold fortify, fail.
  destruct (m <=? 0); cbn [snd success]; try discriminate.
  destruct (m >? Agent.metal agent); cbn [snd success]; try discriminate.
  destruct (getTile s q r) as [t|]; cbn [snd success]; try discriminate.
  destruct (eq_opt_string _ _); cbn [negb snd success]; try discriminate.
  reflexivity.
Qed.

(** X12 — [fortify] (game/actions.ts): fortifying is accepted exactly
    when the amount is positive and within the agent's metal and the tile
    exists and belongs to the agent. A refusal changes nothing. On success
    the metal spent is the fortification gained: the agent's row has the
    amount less metal and is otherwise unchanged, the tile's fortification
    rises by the same amount with its owner and terrain unchanged, and no
    other agent or tile is touched.  The agent is the record the route
    read; the stored row carries the time stamp written since. *)
Theorem fortify_correct (s : Store) (agent : Agent.t) (seen : option Z)
  (q r m : Z) :
  getAgent s (Agent.id agent) = Some (stamped seen agent) ->
  let s' := fst (fortify s agent q r m) in
  let result := snd (fortify s agent q r m) in
  (success result = true <->
   0 < m <= Agent.metal agent
   /\ exists t, getTile s q r = Some t
                /\ Tile.owner_id t = Some (Agent.id agent))
  /\ (success result = false -> s' = s)
  /\ (success result = true ->
      getAgent s' (Agent.id agent)
      = Some (Agent.mk (Agent.id agent) (Agent.display_name agent)
                (Agent.food agent) (Agent.metal agent - m)
                (Agent.capital_q agent) (Agent.capital_r agent) seen)
      /\ (forall other, other <> Agent.id agent ->
            getAgent s' other = getAgent s other)
      /\ (exists t, getTile s q r = Some t
            /\ getTile s' q r
               = Some (Tile.mk q r (Tile.terrain t) (Some (Agent.id agent))
                         (Tile.fortification t + m)))
      /\ (forall q' r', (q', r') <> (q, r) ->
            getTile s' q' r' = getTile s q' r')).
Proof.
  intros G s' result. subst s' result.
  split; [apply fortify_succeeds_iff|].
  split; [apply fortify_failure|].
  intros Hok. rewrite (fortify_success_store s agent q r m Hok).
  apply fortify_succeeds_iff in Hok. destruct Hok as (_ & t & Gt & O).
  split.
  { rewrite getAgent_logEvent.
    change (getAgent (updateAgentResources (Agent.id agent) 0 (- m) s)
              (Agent.id agent)
            = Some (Agent.mk (Agent.id agent) (Agent.display_name agent)
                      (Agent.food agent) (Agent.metal agent - m)
                      (Agent.capital_q agent) (Agent.capital_r agent) seen)).
    rewrite (getAgent_updateAgentResources_same s _ 0 (- m) _ G).
    rewrite add_resources_stamped. now rewrite Z.add_0_r. }
  split.
  { intros other N. rewrite getAgent_logEvent.
    change (getAgent (updateAgentResources (Agent.id agent) 0 (- m) s) other
            = getAgent s other).
    now apply getAgent_updateAgentResources_other. }
  split.
  { exists t. split; auto. rewrite getTile_logEvent.
    assert (Gt' : getTile (updateAgentResources (Agent.id agent) 0 (- m) s) q r
                  = Some t) by exact Gt.
    rewrite (getTile_update_same _ q r (add_fortification m) t
               (fun x => at_coord_add_fortification q r m x) Gt').
    unfold add_fortification. rewrite O.
    apply getTile_found in Gt. destruct Gt as (_ & -> & ->). reflexivity. }
  intros q' r' N. rewrite getTile_logEvent.
  rewrite getTile_update_other; auto.
Qed.

Lemma fortify_correct_witness :
  let s := touch_last_seen 50 "alice" sample_store in
  getAgent s "alice" = Some (stamped (Some 50) alice)
  /\ getAgent (fst (fortify s alice 0 0 5)) "alice"
     = Some (Agent.mk "alice" "Alice" 100 45 (Some 0) (Some 0) (Some 50))
  /\ getTile (fst (fortify s alice 0 0 5)) 0 0
     = Some (Tile.mk 0 0 barren (Some "alice") 5).
Proof.
  cbv zeta. split; [reflexivity|].
  destruct (fortify_correct (touch_last_seen 50 "alice" sample_store) alice
              (Some 50) 0 0 5 eq_refl) as (_ & _ & H).
  destruct (H eq_refl) as (A & _ & (t & G & B) & _).
  split; [exact A|]. rewrite B. injection G as <-. reflexivity.
Defined.

Lemma giftTile_succeeds_iff (s : Store) (agent : Agent.t) (q r : Z)
  (to : string) :
  success (snd (giftTile s agent q r to)) = true <->
  exists t recipient,
    getTile s q r = Some t /\ Tile.owner_id t = Some (Agent.id agent)
    /\ getAgent s to = Some recipient /\ to <> Agent.id agent.
Proof.
  unfold giftTile, fail.
  destruct (getTile s q r) as [t|]; cbn [snd success].
  2:{ split; [discriminate|]. intros (t & x & H & _). discriminate. }
  destruct (eq_opt_string (Tile.owner_id t) (Agent.id agent)) eqn:O;
    cbn [negb snd success].
  2:{ split; [discriminate|]. intros (t' & x & H & O' & _).
      injection H as <-. apply eq_opt_string_true in O'. congruence. }
  apply eq_opt_string_true in O.
  destruct (getAgent s to) as [recipient|] eqn:G; cbn [snd success].
  2:{ split; [discriminate|]. intros (t' & x & _ & _ & H & _). discriminate. }
  pose proof (getAgent_found s to recipient G) as [_ I].
  destruct (String.eqb (Agent.id recipient) (Agent.id agent)) eqn:E;
    cbn [snd success].
  - apply String.eqb_eq in E. split; [discriminate|].
    intros (t' & x & _ & _ & _ & N). congruence.
  - apply String.eqb_neq in E. split; auto. intros _.
    exists t, recipient. repeat split; auto. congruence.
Qed.

Lemma giftTile_success_store (s : Store) (agent : Agent.t) (q r : Z)
  (to : string) :
  success (snd (giftTile s agent q r to)) = true ->
  exists recipient,
    getAgent s to = Some recipient
    /\ fst (giftTile s agent q r to)
       = logEvent (Some (Agent.id agent)) "gift"
           (Agent.display_name agent ++ " gifted " ++ show_coord q r ++ " to "
            ++ Agent.display_name recipient)
           (clearCapitalIfLost (Agent.id agent) q r
              (with_tiles (sql_update (at_coord q r) (set_owner (Some to))) s)).
Proof.
  unfold giftTile, fail.
  destruct (getTile s q r) as [t|]; cbn [snd success]; try discriminate.
  destruct (eq_opt_string _ _); cbn [negb snd success]; try discriminate.
  destruct (getAgent s to) as [recipient|] eqn:G; cbn [snd success];
    try discriminate.
  destruct (String.eqb _ _); cbn [snd success]; try discriminate.
  intros _. exists recipient. split; auto. cbn [fst].
  now destruct (getAgent_found s to recipient G) as [_ ->].
Qed.

(** X13 — [giftTile] with [clearCapitalIfLost] (game/actions.ts): a tile
    gift is accepted exactly when the tile exists and belongs to the giver
    and the recipient is another registered agent. A refusal changes
    nothing. On success the tile passes to the recipient with its terrain
    and its fortification unchanged, no other tile changes, the giver's
    row has both capital coordinates cleared exactly when the capital
    stood on the gifted tile and is otherwise unchanged, and nobody pays or
    receives food or metal; the recipient's record and capital are left as
    they were.  The giver is the record the route read; the stored row
    carries the time stamp written since. *)
Theorem giftTile_correct (s : Store) (agent : Agent.t) (seen : option Z)
  (q r : Z) (to : string) :
  getAgent s (Agent.id agent) = Some (stamped seen agent) ->
  let s' := fst (giftTile s agent q r to) in
  let result := snd (giftTile s agent q r to) in
  (success result = true <->
   exists t recipient,
     getTile s q r = Some t /\ Tile.owner_id t = Some (Agent.id agent)
     /\ getAgent s to = Some recipient /\ to <> Agent.id agent)
  /\ (success result = false -> s' = s)
  /\ (success result = true ->
      (exists t, getTile s q r = Some t
         /\ getTile s' q r
            = Some (Tile.mk q r (Tile.terrain t) (Some to)
                      (Tile.fortification t)))
      /\ (forall q' r', (q', r') <> (q, r) ->
            getTile s' q' r' = getTile s q' r')
      /\ getAgent s' (Agent.id agent)
         = Some (Agent.mk (Agent.id agent) (Agent.display_name agent)
                   (Agent.food agent) (Agent.metal agent)
                   (if capital_at agent q r then None else Agent.capital_q agent)
                   (if capital_at agent q r then None else Agent.capital_r agent)
                   seen)
      /\ (forall other, other <> Agent.id agent ->
            getAgent s' other = getAgent s other)).
Proof.
  intros G s' result. subst s' result.
  split; [apply giftTile_succeeds_iff|].
  split; [apply giftTile_failure|].
  intros Hok.
  destruct (giftTile_success_store s agent q r to Hok) as (rc & Gr & ->).
  apply giftTile_succeeds_iff in Hok. destruct Hok as (t & _ & Gt & O & _ & N).
  set (s1 := with_tiles (sql_update (at_coord q r) (set_owner (Some to))) s).
  assert (T : forall q' r',
             getTile (logEvent (Some (Agent.id agent)) "gift"
                        (Agent.display_name agent ++ " gifted " ++ show_coord q r
                         ++ " to " ++ Agent.display_name rc)
                        (clearCapitalIfLost (Agent.id agent) q r s1)) q' r'
             = getTile s1 q' r').
  { intros q' r'. rewrite getTile_logEvent. apply getTile_ext.
    apply tiles_clearCapitalIfLost. }
  split.
  { exists t. split; auto. rewrite T. subst s1.
    rewrite (getTile_update_same _ q r (set_owner (Some to)) t
               (fun x => at_coord_set_owner q r (Some to) x) Gt).
    unfold set_owner. apply getTile_found in Gt.
    now destruct Gt as (_ & -> & ->). }
  split.
  { intros q' r' Hne. rewrite T. subst s1.
    apply getTile_update_other; auto. }
  split.
  - rewrite getAgent_logEvent, getAgent_clearCapitalIfLost.
    change (getAgent s1 (Agent.id agent)) with (getAgent s (Agent.id agent)).
    rewrite G. cbn [option_map]. rewrite String.eqb_refl. cbn [andb].
    change (capital_at (stamped seen agent) q r) with (capital_at agent q r).
    now destruct (capital_at agent q r).
  - intros other Hne. rewrite getAgent_logEvent, getAgent_clearCapitalIfLost.
    change (getAgent s1 other) with (getAgent s other).
    apply String.eqb_neq in Hne. rewrite Hne. cbn [andb].
    now destruct (getAgent s other).
Qed.

(** alice gives away the tile her capital stands on, fortified with 5. *)
Lemma giftTile_correct_witness :
  let s := touch_last_seen 50 "alice"
             (fst (fortify sample_store alice 0 0 5)) in
  let giver := Agent.mk "alice" "Alice" 100 45 (Some 0) (Some 0) None in
  getAgent s "alice" = Some (stamped (Some 50) giver)
  /\ getTile (fst (giftTile s giver 0 0 "bob")) 0 0
     = Some (Tile.mk 0 0 barren (Some "bob") 5)
  /\ getAgent (fst (giftTile s giver 0 0 "bob")) "alice"
     = Some (Agent.mk "alice" "Alice" 100 45 None None (Some 50)).
Proof.
  cbv zeta. split; [reflexivity|].
  destruct (giftTile_correct
              (touch_last_seen 50 "alice" (fst (fortify sample_store alice 0 0 5)))
              (Agent.mk "alice" "Alice" 100 45 (Some 0) (Some 0) None)
              (Some 50) 0 0 "bob" eq_refl)
    as (_ & _ & H).
  destruct (H eq_refl) as ((t & G & A) & _ & B & _).
  split; [|exact B]. rewrite A. injection G as <-. reflexivity.
Defined.

Lemma setCapital_succeeds_iff (s : Store) (agent : Agent.t) (q r : Z) :
  success (snd (setCapital s agent q r)) = true <->
  exists t, getTile s q r = Some t
            /\ Tile.owner_id t = Some (Agent.id agent).
Proof.
  unfold setCapital, fail.
  destruct (getTile s q r) as [t|]; cbn [snd success].
  2:{ split; [discriminate|]. intros (t & H & _). discriminate. }
  destruct (eq_opt_string (Tile.owner_id t) (Agent.id agent)) eqn:O;
    cbn [negb snd success].
  - apply eq_opt_string_true in O. split; auto. intros _. now exists t.
  - split; [discriminate|]. intros (t' & H & O').
    injection H as <-. apply eq_opt_string_true in O'. congruence.
Qed.

(** X14 — [setCapital] (game/actions.ts): the capital can be moved
    exactly to an existing tile the agent owns; a refusal changes nothing.
    On success the agent's row has the capital at the target coordinates
    and is otherwise unchanged: its food and metal, every other agent and
    the whole tiles table are as before, the move costs nothing, and the
    one event appended to the public log carries the type [expand], not a
    type of its own.  The agent is the record the route read; the stored
    row carries the time stamp written since. *)
Theorem setCapital_correct (s : Store) (agent : Agent.t) (seen : option Z)
  (q r : Z) :
  getAgent s (Agent.id agent) = Some (stamped seen agent) ->
  let s' := fst (setCapital s agent q r) in
  let result := snd (setCapital s agent q r) in
  (success result = true <->
   exists t, getTile s q r = Some t
             /\ Tile.owner_id t = Some (Agent.id agent))
  /\ (success result = false -> s' = s)
  /\ (success result = true ->
      getAgent s' (Agent.id agent)
      = Some (Agent.mk (Agent.id agent) (Agent.display_name agent)
                (Agent.food agent) (Agent.metal agent) (Some q) (Some r) seen)
      /\ (forall other, other <> Agent.id agent ->
            getAgent s' other = getAgent s other)
      /\ tiles s' = tiles s
      /\ events s'
         = (events s ++
            [GameEvent.mk "expand" (Some (Agent.id agent))
               (Agent.display_name agent ++ " designated " ++ show_coord q r
                ++ " as their capital")])%list).
Proof.
  intros G s' result. subst s' result.
  split; [apply setCapital_succeeds_iff|].
  split; [apply setCapital_failure|].
  unfold setCapital, fail.
  destruct (getTile s q r) as [t|]; cbn [snd success]; try discriminate.
  destruct (eq_opt_string _ _); cbn [negb snd success]; try discriminate.
  intros _. cbn [fst]. split.
  { rewrite getAgent_logEvent.
    rewrite (getAgent_update_same s _ _ _ (has_id_set_capital _ _ _) G).
    reflexivity. }
  split.
  { intros other N. rewrite getAgent_logEvent.
    apply getAgent_update_other; auto using has_id_set_capital. }
  split; reflexivity.
Qed.

(** alice has expanded to [(0, 1)] and moves her capital there. *)
Lemma setCapital_correct_witness :
  let s := touch_last_seen 50 "alice" (fst (expand sample_store alice 0 1)) in
  let mover := Agent.mk "alice" "Alice" 80 40 (Some 0) (Some 0) None in
  getAgent s "alice" = Some (stamped (Some 50) mover)
  /\ getAgent (fst (setCapital s mover 0 1)) "alice"
     = Some (Agent.mk "alice" "Alice" 80 40 (Some 0) (Some 1) (Some 50))
  /\ tiles (fst (setCapital s mover 0 1)) = tiles s.
Proof.
  cbv zeta. split; [reflexivity|].
  destruct (setCapital_correct
              (touch_last_seen 50 "alice" (fst (expand sample_store alice 0 1)))
              (Agent.mk "alice" "Alice" 80 40 (Some 0) (Some 0) None)
              (Some 50) 0 1 eq_refl) as (_ & _ & H).
  destruct (H eq_refl) as (A & _ & B & _).
  split; [exact A|exact B].
Defined.

Lemma giftResources_succeeds_iff (s : Store) (agent : Agent.t) (to : string)
  (f m : Z) :
  success (snd (giftResources s agent to f m)) = true <->
  0 <= f <= Agent.food agent /\ 0 <= m <= Agent.metal agent /\ 0 < f + m
  /\ to <> Agent.id agent
  /\ exists recipient, getAgent s to = Some recipient.
Proof.
  unfold giftResources, fail.
  destruct ((f <? 0) || (m <? 0)) eqn:C0; cbn [snd success].
  { split; [discriminate|]. lia. }
  destruct ((f =? 0) && (m =? 0)) eqn:C1; cbn [snd success].
  { split; [discriminate|]. lia. }
  destruct (f >? Agent.food agent) eqn:C2; cbn [snd success].
  { split; [discriminate|]. lia. }
  destruct (m >? Agent.metal agent) eqn:C3; cbn [snd success].
  { split; [discriminate|]. lia. }
  destruct (getAgent s to) as [recipient|] eqn:G; cbn [snd success].
  2:{ split; [discriminate|]. intros (_ & _ & _ & _ & x & H). discriminate. }
  pose proof (getAgent_found s to recipient G) as [_ I].
  destruct (String.eqb (Agent.id recipient) (Agent.id agent)) eqn:E;
    cbn [snd success].
  - apply String.eqb_eq in E. split; [discriminate|].
    intros (_ & _ & _ & N & _). congruence.
  - apply String.eqb_neq in E. split; auto. intros _.
    repeat split; try lia; [congruence|now exists recipient].
Qed.

Lemma giftResources_success_store (s : Store) (agent : Agent.t) (to : string)
  (f m : Z) :
  success (snd (giftResources s agent to f m)) = true ->
  exists recipient,
    getAgent s to = Some recipient
    /\ fst (giftResources s agent to f m)
       = logEvent (Some (Agent.id agent)) "gift"
           (Agent.display_name agent ++ " gifted resources to "
            ++ Agent.display_name recipient)
           (updateAgentResources to f m
              (updateAgentResources (Agent.id agent) (- f) (- m) s)).
Proof.
  unfold giftResources, fail.
  destruct (_ || _); cbn [snd success]; try discriminate.
  destruct (_ && _); cbn [snd success]; try discriminate.
  destruct (f >? _); cbn [snd success]; try discriminate.
  destruct (m >? _); cbn [snd success]; try discriminate.
  destruct (getAgent s to) as [recipient|] eqn:G; cbn [snd success];
    try discriminate.
  destruct (String.eqb _ _); cbn [snd success]; try discriminate.
  intros _. exists recipient. split; auto. cbn [fst].
  now destruct (getAgent_found s to recipient G) as [_ ->].
Qed.

(** X15 — [giftResources] (game/actions.ts): a gift of resources is
    accepted exactly when both amounts are non-negative and not both zero,
    neither exceeds what the giver holds, and the recipient is another
    registered agent. A refusal changes nothing. On success the giver's
    row has the gifted amounts less and the recipient's row the gifted
    amounts more, both otherwise unchanged, so their combined food and
    combined metal are what they were and the giver's balances stay
    non-negative; no other agent and no tile is touched.  The giver is the
    record the route read; the stored row carries the time stamp written
    since. *)
Theorem giftResources_correct (s : Store) (agent : Agent.t) (seen : option Z)
  (to : string) (f m : Z) :
  getAgent s (Agent.id agent) = Some (stamped seen agent) ->
  let s' := fst (giftResources s agent to f m) in
  let result := snd (giftResources s agent to f m) in
  (success result = true <->
   0 <= f <= Agent.food agent /\ 0 <= m <= Agent.metal agent /\ 0 < f + m
   /\ to <> Agent.id agent
   /\ exists recipient, getAgent s to = Some recipient)
  /\ (success result = false -> s' = s)
  /\ (success result = true ->
      exists recipient,
        getAgent s to = Some recipient
        /\ getAgent s' (Agent.id agent)
           = Some (Agent.mk (Agent.id agent) (Agent.display_name agent)
                     (Agent.food agent - f) (Agent.metal agent - m)
                     (Agent.capital_q agent) (Agent.capital_r agent) seen)
        /\ getAgent s' to
           = Some (Agent.mk (Agent.id recipient) (Agent.display_name recipient)
                     (Agent.food recipient + f) (Agent.metal recipient + m)
                     (Agent.capital_q recipient) (Agent.capital_r recipient)
                     (Agent.last_seen_at recipient))
        /\ (Agent.food agent - f) + (Agent.food recipient + f)
           = Agent.food agent + Agent.food recipient
        /\ (Agent.metal agent - m) + (Agent.metal recipient + m)
           = Agent.metal agent + Agent.metal recipient
        /\ 0 <= Agent.food agent - f /\ 0 <= Agent.metal agent - m
        /\ (forall other, other <> Agent.id agent -> other <> to ->
              getAgent s' other = getAgent s other)
        /\ tiles s' = tiles s).
Proof.
  intros G s' result. subst s' result.
  split; [apply giftResources_succeeds_iff|].
  split; [apply giftResources_failure|].
  intros Hok.
  destruct (giftResources_success_store s agent to f m Hok) as (rc & Gr & ->).
  apply giftResources_succeeds_iff in Hok.
  destruct Hok as (Hf & Hm & _ & N & _).
  exists rc.
  split; [exact Gr|]. split.
  { rewrite getAgent_logEvent.
    rewrite getAgent_updateAgentResources_other by congruence.
    rewrite (getAgent_updateAgentResources_same s _ (- f) (- m) _ G).
    now rewrite add_resources_stamped. }
  split.
  { rewrite getAgent_logEvent.
    rewrite (getAgent_updateAgentResources_same _ to f m rc); [reflexivity|].
    now rewrite getAgent_updateAgentResources_other. }
  split; [lia|]. split; [lia|]. split; [lia|]. split; [lia|].
  split; [|reflexivity].
  intros other N1 N2. rewrite getAgent_logEvent.
  now rewrite !getAgent_updateAgentResources_other.
Qed.

Lemma giftResources_correct_witness :
  let s := touch_last_seen 50 "alice" sample_store in
  getAgent s "alice" = Some (stamped (Some 50) alice)
  /\ getAgent (fst (giftResources s alice "bob" 30 5)) "alice"
     = Some (Agent.mk "alice" "Alice" 70 45 (Some 0) (Some 0) (Some 50))
  /\ getAgent (fst (giftResources s alice "bob" 30 5)) "bob"
     = Some (Agent.mk "bob" "Bob" 130 55 (Some 1) (Some 0) None).
Proof.
  cbv zeta. split; [reflexivity|].
  destruct (giftResources_correct (touch_last_seen 50 "alice" sample_store)
              alice (Some 50) "bob" 30 5 eq_refl)
    as (_ & _ & H).
  destruct (H eq_refl) as (rc & G & A & B & _).
  split; [exact A|]. rewrite B. injection G as <-. reflexivity.
Defined.

(** ** Messages and trade proposals *)

Lemma sendMessage_succeeds_iff (s : Store) (agent : Agent.t)
  (to content : string) :
  success (snd (sendMessage s agent to content)) = true <->
  trim content <> "" /\ (String.length content <= 2000)%nat
  /\ to <> Agent.id agent
  /\ exists recipient, getAgent s to = Some recipient.
Proof.
  assert (L : forall x : string, (String.length x =? 0)%nat = true <-> x = "").
  { intros [|c x]; cbn; split; auto; discriminate. }
  assert (T : trim "" = "") by reflexivity.
  unfold sendMessage, fail.
  destruct ((String.length content =? 0)%nat
            || (String.length (trim content) =? 0)%nat) eqn:C0;
    cbn [snd success].
  { split; [discriminate|]. intros (N & _). exfalso.
    apply orb_true_iff in C0. destruct C0 as [C|C]; apply L in C.
    - subst content. now apply N.
    - now apply N. }
  apply orb_false_iff in C0. destruct C0 as [_ C0].
  destruct (2000 <? String.length content)%nat eqn:C1; cbn [snd success].
  { apply Nat.ltb_lt in C1. split; [discriminate|]. lia. }
  apply Nat.ltb_ge in C1.
  destruct (getAgent s to) as [recipient|] eqn:G; cbn [snd success].
  2:{ split; [discriminate|]. intros (_ & _ & _ & x & H). discriminate. }
  pose proof (getAgent_found s to recipient G) as [_ I].
  destruct (String.eqb (Agent.id recipient) (Agent.id agent)) eqn:E;
    cbn [snd success].
  - apply String.eqb_eq in E. split; [discriminate|].
    intros (_ & _ & N & _). congruence.
  - apply String.eqb_neq in E. split; auto. intros _.
    split; [|split; [exact C1|split; [congruence|now exists recipient]]].
    intros H. apply L in H. congruence.
Qed.

(** X16 — [sendMessage] (game/communication.ts): a message is accepted
    exactly when its content is not blank, has at most 2000 characters,
    and the recipient is another registered agent. A refusal changes
    nothing. On success exactly one row is appended to the messages table:
    it carries the next message id, sender and recipient, the content with
    leading and trailing white space removed, and the unread flag. Messages
    are private: nothing is added to the public event log, and no agent,
    tile, trade or attack is touched. *)
Theorem sendMessage_correct (s : Store) (agent : Agent.t) (to content : string) :
  let s' := fst (sendMessage s agent to content) in
  let result := snd (sendMessage s agent to content) in
  (success result = true <->
   trim content <> "" /\ (String.length content <= 2000)%nat
   /\ to <> Agent.id agent
   /\ exists recipient, getAgent s to = Some recipient)
  /\ (success result = false -> s' = s)
  /\ (success result = true ->
      messages s'
      = (messages s ++
         [Message.mk (seq_messages s + 1) (Agent.id agent) to
                     (trim content) 0])%list
      /\ seq_messages s' = seq_messages s + 1
      /\ events s' = events s /\ agents s' = agents s
      /\ tiles s' = tiles s /\ trades s' = trades s
      /\ attacks s' = attacks s).
Proof.
  cbv zeta. split; [apply sendMessage_succeeds_iff|].
  split; [apply sendMessage_failure|].
  unfold sendMessage, fail.
  destruct (_ || _); cbn [snd success]; try discriminate.
  destruct (_ <? _)%nat; cbn [snd success]; try discriminate.
  destruct (getAgent s to) as [recipient|] eqn:G; cbn [snd success];
    try discriminate.
  destruct (String.eqb _ _); cbn [snd success]; try discriminate.
  intros _. cbn [fst]. destruct (getAgent_found s to recipient G) as [_ ->].
  repeat split; reflexivity.
Qed.

Lemma proposeTrade_succeeds_iff (now : Z) (s : Store) (agent : Agent.t)
  (to : string) (ofd omt rfd rmt : Z) :
  success (snd (proposeTrade now s agent to ofd omt rfd rmt)) = true <->
  0 <= ofd <= Agent.food agent /\ 0 <= omt <= Agent.metal agent
  /\ 0 <= rfd /\ 0 <= rmt /\ 0 < ofd + omt + rfd + rmt
  /\ to <> Agent.id agent
  /\ exists recipient, getAgent s to = Some recipient.
Proof.
  unfold proposeTrade, fail.
  destruct ((ofd <? 0) || (omt <? 0) || (rfd <? 0) || (rmt <? 0)) eqn:C0;
    cbn [snd success].
  { split; [discriminate|]. lia. }
  destruct ((ofd =? 0) && (omt =? 0) && (rfd =? 0) && (rmt =? 0)) eqn:C1;
    cbn [snd success].
  { split; [discriminate|]. lia. }
  destruct (ofd >? Agent.food agent) eqn:C2; cbn [snd success].
  { split; [discriminate|]. lia. }
  destruct (omt >? Agent.metal agent) eqn:C3; cbn [snd success].
  { split; [discriminate|]. lia. }
  destruct (getAgent s to) as [recipient|] eqn:G; cbn [snd success].
  2:{ split; [discriminate|]. intros (_ & _ & _ & _ & _ & _ & x & H).
      discriminate. }
  pose proof (getAgent_found s to recipient G) as [_ I].
  destruct (String.eqb (Agent.id recipient) (Agent.id agent)) eqn:E;
    cbn [snd success].
  - apply String.eqb_eq in E. split; [discriminate|].
    intros (_ & _ & _ & _ & _ & N & _). congruence.
  - apply String.eqb_neq in E. split; auto. intros _.
    repeat split; try lia; [congruence|now exists recipient].
Qed.

(** X17 — [proposeTrade] (game/communication.ts): a proposal is accepted
    exactly when no amount is negative, not all four are zero, the offer
    is within what the proposer holds, and the recipient is another
    registered agent; what is requested is not checked against the
    recipient's holdings. A refusal changes nothing. On success nothing is
    set aside: the agents table is unchanged, so the offered resources stay
    spendable; one pending trade with the next trade id and a deadline 24
    hours ahead is appended, and one [trade_proposed] event is logged. *)
Theorem proposeTrade_correct (now : Z) (s : Store) (agent : Agent.t)
  (to : string) (ofd omt rfd rmt : Z) :
  let s' := fst (proposeTrade now s agent to ofd omt rfd rmt) in
  let result := snd (proposeTrade now s agent to ofd omt rfd rmt) in
  (success result = true <->
   0 <= ofd <= Agent.food agent /\ 0 <= omt <= Agent.metal agent
   /\ 0 <= rfd /\ 0 <= rmt /\ 0 < ofd + omt + rfd + rmt
   /\ to <> Agent.id agent
   /\ exists recipient, getAgent s to = Some recipient)
  /\ (success result = false -> s' = s)
  /\ (success result = true ->
      agents s' = agents s /\ tiles s' = tiles s
      /\ trades s'
         = (trades s ++
            [Trade.mk (seq_trades s + 1) (Agent.id agent) to ofd omt rfd rmt
                      trade_pending (Some (now + 86400))])%list
      /\ seq_trades s' = seq_trades s + 1
      /\ exists recipient,
           getAgent s to = Some recipient
           /\ events s'
              = (events s ++
                 [GameEvent.mk "trade_proposed" (Some (Agent.id agent))
                    (Agent.display_name agent ++ " proposed a trade to "
                     ++ Agent.display_name recipient)])%list).
Proof.
  cbv zeta. split; [apply proposeTrade_succeeds_iff|].
  split; [apply proposeTrade_failure|].
  unfold proposeTrade, fail.
  destruct (_ || _); cbn [snd success]; try discriminate.
  destruct (_ && _); cbn [snd success]; try discriminate.
  destruct (ofd >? _); cbn [snd success]; try discriminate.
  destruct (omt >? _); cbn [snd success]; try discriminate.
  destruct (getAgent s to) as [recipient|] eqn:G; cbn [snd success];
    try discriminate.
  destruct (String.eqb _ _); cbn [snd success]; try discriminate.
  intros _. cbn [fst]. destruct (getAgent_found s to recipient G) as [_ ->].
  repeat split; try reflexivity. now exists recipient.
Qed.

Lemma getPendingTrade_marked (tid : Z) (st : TradeStatus) (s : Store) :
  st <> trade_pending ->
  getPendingTrade (updateTradeStatus tid st s) tid = None.
Proof.
  intros N. apply getPendingTrade_none_iff. intros t H E.
  cbn in H. apply sql_update_In in H. destruct H as [x [_ ->]].
  unfold has_trade_id in *. destruct (Trade.id x =? tid) eqn:W.
  - exact N.
  - cbn in E. apply Z.eqb_neq in W. contradiction.
Qed.

Lemma getPendingTrade_ext (s1 s2 : Store) (tid : Z) :
  trades s1 = trades s2 -> getPendingTrade s1 tid = getPendingTrade s2 tid.
Proof. unfold getPendingTrade. now intros ->. Qed.

Lemma acceptTrade_settles (now : Z) (s : Store) (agent : Agent.t) (tid : Z) :
  fst (acceptTrade now s agent tid) = s
  \/ getPendingTrade (fst (acceptTrade now s agent tid)) tid = None.
Proof.
  destruct (acceptTrade_outcome now s agent tid); cbn [fst]; auto;
    right; apply getPendingTrade_marked; discriminate.
Qed.

Lemma rejectTrade_settles (s : Store) (agent : Agent.t) (tid : Z) :
  success (snd (rejectTrade s agent tid)) = true ->
  getPendingTrade (fst (rejectTrade s agent tid)) tid = None.
Proof.
  unfold rejectTrade, fail.
  destruct (getPendingTrade s tid) as [trade|]; cbn [snd success];
    try discriminate.
  destruct (String.eqb _ _); cbn [negb snd success]; try discriminate.
  intros _. cbn [fst].
  rewrite (getPendingTrade_ext _
             (updateTradeStatus tid trade_rejected s) tid).
  - apply getPendingTrade_marked. discriminate.
  - now destruct (getAgent s (Trade.from_id trade)).
Qed.

Lemma acceptTrade_not_pending (now : Z) (s : Store) (agent : Agent.t) (tid : Z) :
  getPendingTrade s tid = None ->
  acceptTrade now s agent tid
  = (s, mkResponse false "Trade proposal not found or no longer pending").
Proof. unfold acceptTrade, fail. now intros ->. Qed.

Lemma rejectTrade_not_pending (s : Store) (agent : Agent.t) (tid : Z) :
  getPendingTrade s tid = None ->
  rejectTrade s agent tid
  = (s, mkResponse false "Trade proposal not found or no longer pending").
Proof. unfold rejectTrade, fail. now intros ->. Qed.

(** X18 — [acceptTrade] and [rejectTrade] (game/communication.ts): a
    trade settles at most once. Whenever [acceptTrade] writes to the store
    (the exchange, or marking the trade expired) and whenever [rejectTrade]
    succeeds, no trade with that id is pending afterwards; so any later
    accept or reject of the same id, by anyone and at any time, is refused
    as not found or no longer pending and changes nothing. In particular
    the resources of a trade are never exchanged twice. *)
Theorem trade_settles_once (now : Z) (s : Store) (agent : Agent.t) (tid : Z)
  (s' : Store) :
  (s' = fst (acceptTrade now s agent tid) /\ s' <> s)
  \/ (s' = fst (rejectTrade s agent tid)
      /\ success (snd (rejectTrade s agent tid)) = true) ->
  getPendingTrade s' tid = None
  /\ forall (now' : Z) (anyone : Agent.t),
       acceptTrade now' s' anyone tid
       = (s', mkResponse false "Trade proposal not found or no longer pending")
       /\ rejectTrade s' anyone tid
          = (s', mkResponse false "Trade proposal not found or no longer pending").
Proof.
  intros H.
  assert (P : getPendingTrade s' tid = None).
  { destruct H as [[-> N]|[-> Hok]].
    - destruct (acceptTrade_settles now s agent tid); auto. contradiction.
    - now apply rejectTrade_settles. }
  split; auto. intros now' anyone.
  split; [now apply acceptTrade_not_pending|now apply rejectTrade_not_pending].
Qed.

Lemma trade_settles_once_witness :
  getPendingTrade (fst (rejectTrade trade_store alice 1)) 1 = None
  /\ acceptTrade 5 (fst (rejectTrade trade_store alice 1)) alice 1
     = (fst (rejectTrade trade_store alice 1),
        mkResponse false "Trade proposal not found or no longer pending").
Proof.
  destruct (trade_settles_once 0 trade_store alice 1
              (fst (rejectTrade trade_store alice 1))
              (or_intror (conj eq_refl eq_refl))) as [A B].
  split; [exact A|exact (proj1 (B 5 alice))].
Defined.

Lemma sql_update_idempotent {A : Type} (w : A -> bool) (f : A -> A)
  (rows : list A) :
  (forall x, w (f x) = w x) -> (forall x, f (f x) = f x) ->
  sql_update w f (sql_update w f rows) = sql_update w f rows.
Proof.
  intros Hw Hf. unfold sql_update. rewrite map_map. apply map_ext.
  intros x. destruct (w x) eqn:E; [now rewrite Hw, E, Hf|now rewrite E].
Qed.

Lemma filter_sql_update_same {A : Type} (w : A -> bool) (f : A -> A)
  (rows : list A) :
  (forall x, w (f x) = w x) ->
  List.length (filter w (sql_update w f rows)) = List.length (filter w rows).
Proof.
  intros Hw. induction rows as [|x rows IH]; auto.
  cbn [sql_update map filter]. destruct (w x) eqn:E.
  - rewrite Hw, E. cbn [List.length]. f_equal. exact IH.
  - rewrite E. exact IH.
Qed.

Lemma markMessagesRead_twice (s : Store) (agent : Agent.t) (ids : list Z) :
  markMessagesRead (fst (markMessagesRead s agent ids)) agent ids
  = markMessagesRead s agent ids.
Proof.
  destruct ids as [|i ids]; [reflexivity|].
  unfold markMessagesRead.
  cbn [fst with_messages messages agents agent_memories tiles trades attacks
       events game_state seq_attacks seq_trades seq_messages].
  rewrite filter_sql_update_same by reflexivity.
  f_equal. unfold with_messages.
  cbn [messages agents agent_memories tiles trades attacks
       events game_state seq_attacks seq_trades seq_messages].
  now rewrite sql_update_idempotent by reflexivity.
Qed.

Lemma markMessagesRead_rows (s : Store) (agent : Agent.t)
  (messageIds : list Z) :
  let s' := fst (markMessagesRead s agent messageIds) in
  let result := snd (markMessagesRead s agent messageIds) in
  (success result = false <-> messageIds = [])
  /\ (success result = false -> s' = s)
  /\ List.length (messages s') = List.length (messages s)
  /\ (forall m', In m' (messages s') ->
        exists m, In m (messages s)
          /\ Message.id m' = Message.id m
          /\ Message.from_id m' = Message.from_id m
          /\ Message.to_id m' = Message.to_id m
          /\ Message.content m' = Message.content m
          /\ (Message.to_id m <> Agent.id agent -> m' = m)
          /\ (~ In (Message.id m) messageIds -> m' = m)
          /\ (Message.to_id m = Agent.id agent ->
              In (Message.id m) messageIds -> Message.read m' = 1))
  /\ agents s' = agents s /\ events s' = events s.
Proof.
  cbv zeta. unfold markMessagesRead, fail.
  destruct messageIds as [|i ids] eqn:Ids.
  { cbn [fst snd success]. repeat split; auto.
    intros m' H. exists m'. repeat split; auto. intros _ []. }
  rewrite <- Ids. cbn [fst snd success with_messages messages agents events].
  split; [split; [discriminate|intros ->; discriminate]|].
  split; [discriminate|].
  split; [apply sql_update_length|].
  assert (W : forall x, addressed_in messageIds (Agent.id agent) (set_read 1 x)
                        = addressed_in messageIds (Agent.id agent) x)
    by reflexivity.
  split; [|split; reflexivity].
  intros m' H. apply sql_update_In in H. destruct H as [m [H ->]].
    exists m. split; auto.
    assert (Ex : existsb (Z.eqb (Message.id m)) messageIds = true
                 <-> In (Message.id m) messageIds).
    { rewrite existsb_exists. split.
      - intros [x [Hx E]]. apply Z.eqb_eq in E. now subst x.
      - intros Hin. exists (Message.id m). split; auto. apply Z.eqb_refl. }
    unfold addressed_in.
    destruct (existsb _ messageIds) eqn:E1;
      destruct (String.eqb_spec (Message.to_id m) (Agent.id agent)) as [E2|E2];
      cbn [andb]; repeat split; auto; intros; exfalso;
      try contradiction;
      try (match goal with Hn : ~ In _ _ |- _ => now apply Hn, Ex end);
      try (match goal with Hi : In _ _ |- _ => apply Ex in Hi; discriminate end).
Qed.

(** X19 — [markMessagesRead] (game/communication.ts): with an empty id
    list the call is refused and nothing changes. Otherwise it succeeds and
    sets the read flag on exactly the messages whose id is listed and
    whose recipient is the caller: a listed message addressed to someone
    else is left as it was, so nobody can mark another agent's mail, and
    no message changes sender, recipient or content. The call is
    idempotent, answer included: the reported count is the number of
    listed messages addressed to the caller, already read or not. *)
Theorem markMessagesRead_correct (s : Store) (agent : Agent.t)
  (messageIds : list Z) :
  let s' := fst (markMessagesRead s agent messageIds) in
  let result := snd (markMessagesRead s agent messageIds) in
  (success result = false <-> messageIds = [])
  /\ (success result = false -> s' = s)
  /\ List.length (messages s') = List.length (messages s)
  /\ (forall m', In m' (messages s') ->
        exists m, In m (messages s)
          /\ Message.id m' = Message.id m
          /\ Message.from_id m' = Message.from_id m
          /\ Message.to_id m' = Message.to_id m
          /\ Message.content m' = Message.content m
          /\ (Message.to_id m <> Agent.id agent -> m' = m)
          /\ (~ In (Message.id m) messageIds -> m' = m)
          /\ (Message.to_id m = Agent.id agent ->
              In (Message.id m) messageIds -> Message.read m' = 1))
  /\ agents s' = agents s /\ events s' = events s
  /\ markMessagesRead s' agent messageIds = (s', result).
Proof.
  cbv zeta.
  destruct (markMessagesRead_rows s agent messageIds)
    as (A & B & C & D & E & F).
  repeat (split; [assumption|]).
  rewrite markMessagesRead_twice. apply surjective_pairing.
Qed.

(** ** The grid: generation, rings and expansion *)

Lemma In_Zrange (lo hi x : Z) : In x (Zrange lo hi) <-> lo <= x <= hi.
Proof.
  unfold Zrange. rewrite in_map_iff. split.
  - intros [i [<- H]]. apply in_seq in H. lia.
  - intros H. exists (Z.to_nat (x - lo)). split; [lia|]. apply in_seq. lia.
Qed.

Lemma initial_grid_coords (rng : Z -> Z -> Z) (now : Z) (q r : Z) :
  In (q, r) (map coord (tiles (initializeDatabase rng now)))
  <-> -8 <= q <= 8 /\ Z.max (-8) (- q - 8) <= r <= Z.min 8 (- q + 8).
Proof.
  unfold initializeDatabase, generateInitialGrid, gridRadius.
  cbn [with_tiles tiles emptyStore]. rewrite app_nil_l.
  rewrite in_map_iff. split.
  - intros [t [C H]]. apply in_flat_map in H. destruct H as [q0 [Hq H]].
    apply in_map_iff in H. destruct H as [r0 [<- Hr]].
    unfold coord in C. cbn in C. injection C as -> ->.
    apply In_Zrange in Hq. apply In_Zrange in Hr. lia.
  - intros [Hq Hr]. exists (Tile.mk q r (randomTerrain (rng q r)) None 0).
    split; [reflexivity|]. apply in_flat_map. exists q.
    split; [apply In_Zrange; lia|]. apply in_map_iff. exists r.
    split; [reflexivity|]. apply In_Zrange. lia.
Qed.

(** X20 — [generateInitialGrid] and [randomTerrain] (db/database.ts): a
    fresh database holds 217 tiles, one for each cell within hex distance 8
    of the origin and no other, with no coordinate twice; every tile starts
    unowned and unfortified with the terrain drawn for it, and the draw
    maps [0, 25) to farmland, [25, 45) to mine, [45, 55) to mixed and
    the rest to barren (in hundredths). *)
Theorem initial_grid_is_hexagon (rng : Z -> Z -> Z) (now : Z) :
  let ts := tiles (initializeDatabase rng now) in
  List.length ts = 217%nat
  /\ tiles_keyed ts
  /\ hexagon 8 ts
  /\ (forall t, In t ts ->
        Tile.owner_id t = None /\ Tile.fortification t = 0
        /\ Tile.terrain t = randomTerrain (rng (Tile.q t) (Tile.r t)))
  /\ (forall rand,
        randomTerrain rand
        = if rand <? 25 then farmland
          else if rand <? 45 then mine
          else if rand <? 55 then mixed else barren).
Proof.
  cbv zeta. split; [vm_compute; reflexivity|].
  split; [apply initializeDatabase_ok|].
  split.
  { intros q r. rewrite initial_grid_coords. unfold hex_distance. lia. }
  split; [|reflexivity].
  intros t H. unfold initializeDatabase, generateInitialGrid in H.
  cbn [with_tiles tiles emptyStore] in H. rewrite app_nil_l in H.
  apply in_flat_map in H. destruct H as [q [_ H]].
  apply in_map_iff in H. destruct H as [r [<- _]]. auto.
Qed.

Lemma walk_edge_spec (d : nat) (dir : Z * Z) (coords : list (Z * Z)) (q r : Z) :
  walk_edge d dir (coords, (q, r))
  = ((coords ++ map (fun j => (q + Z.of_nat j * fst dir,
                               r + Z.of_nat j * snd dir)) (seq 0 d))%list,
     (q + Z.of_nat d * fst dir, r + Z.of_nat d * snd dir)).
Proof.
  unfold walk_edge. induction d as [|d IH].
  - cbn. rewrite app_nil_r. f_equal. f_equal; lia.
  - rewrite Nat.iter_succ, IH. rewrite seq_S, map_app, app_assoc.
    cbn [map Nat.add]. f_equal. f_equal; lia.
Qed.

Lemma In_edge (n : nat) (q0 r0 dq dr q r : Z) :
  In (q, r) (map (fun j => (q0 + Z.of_nat j * dq, r0 + Z.of_nat j * dr))
               (seq 0 n))
  <-> exists j, 0 <= j < Z.of_nat n /\ q = q0 + j * dq /\ r = r0 + j * dr.
Proof.
  rewrite in_map_iff. split.
  - intros [j [E H]]. apply in_seq in H. injection E as <- <-.
    exists (Z.of_nat j). repeat split; lia.
  - intros [j (H & -> & ->)]. exists (Z.to_nat j). split.
    + now rewrite Z2Nat.id by lia.
    + apply in_seq. lia.
Qed.

(** The six edges of the ring walk. *)
Lemma getHexRingCoords_edges (d : Z) :
  0 < d ->
  getHexRingCoords d
  = (let n := Z.to_nat d in
     let edge q0 r0 dq dr :=
       map (fun j => (q0 + Z.of_nat j * dq, r0 + Z.of_nat j * dr)) (seq 0 n) in
     edge (- d) d 1 0 ++ edge 0 d 1 (-1) ++ edge d 0 0 (-1)
     ++ edge d (- d) (-1) 0 ++ edge 0 (- d) (-1) 1 ++ edge (- d) 0 0 1)%list.
Proof.
  intros H. unfold getHexRingCoords, directions.
  replace (d =? 0) with false by lia.
  cbn [fold_left]. rewrite !walk_edge_spec. cbn [fst snd app].
  rewrite Z2Nat.id by lia. rewrite <- !app_assoc.
  repeat (apply (f_equal2 (@app (Z * Z)));
          [apply map_ext_in; intros j _; f_equal; lia|]).
  apply map_ext_in; intros j _; f_equal; lia.
Qed.

Lemma In_getHexRingCoords_iff (d q r : Z) :
  In (q, r) (getHexRingCoords d) <-> hex_distance 0 0 q r = d.
Proof.
  destruct (Z_lt_dec 0 d) as [H|H].
  2:{ unfold getHexRingCoords, hex_distance. destruct (d =? 0) eqn:D0.
      - cbn [In]. rewrite pair_equal_spec. lia.
      - replace (Z.to_nat d) with 0%nat by lia. cbn. lia. }
  rewrite (getHexRingCoords_edges d H). cbv zeta.
  rewrite !in_app_iff, !In_edge. rewrite Z2Nat.id by lia.
  unfold hex_distance. split.
  - intros [[j X]|[[j X]|[[j X]|[[j X]|[[j X]|[j X]]]]]]; lia.
  - intros D.
    destruct (Z.eq_dec r d) as [R1|R1];
      [destruct (Z_lt_dec q 0);
       [left; exists (q + d); lia
       |right; left; exists q; lia]|].
    destruct (Z.eq_dec (q + r) d) as [R2|R2];
      [destruct (Z_lt_dec q d);
       [right; left; exists q; lia
       |right; right; left; exists (- r); lia]|].
    destruct (Z.eq_dec q d) as [R3|R3];
      [destruct (Z_lt_dec (- d) r);
       [right; right; left; exists (- r); lia
       |right; right; right; left; exists (d - q); lia]|].
    destruct (Z.eq_dec r (- d)) as [R4|R4];
      [destruct (Z_lt_dec 0 q);
       [right; right; right; left; exists (d - q); lia
       |right; right; right; right; left; exists (- q); lia]|].
    destruct (Z.eq_dec (q + r) (- d)) as [R5|R5];
      [destruct (Z_lt_dec (- d) q);
       [right; right; right; right; left; exists (- q); lia
       |right; right; right; right; right; exists r; lia]|].
    right; right; right; right; right. exists r. lia.
Qed.

(** X21 — [getHexRingCoords] (db/database.ts): the ring walk for a
    positive [d] returns [6 * d] cells, without repetition, and they are
    exactly the cells at hex distance [d] from the origin; for [d = 0] it
    returns the origin alone and for a negative [d] nothing. *)
Theorem getHexRingCoords_ring (d q r : Z) :
  (In (q, r) (getHexRingCoords d) <-> hex_distance 0 0 q r = d)
  /\ (0 < d -> List.length (getHexRingCoords d) = Z.to_nat (6 * d))
  /\ NoDup (getHexRingCoords d)
  /\ getHexRingCoords 0 = [(0, 0)]
  /\ (d < 0 -> getHexRingCoords d = []).
Proof.
  split; [apply In_getHexRingCoords_iff|].
  split.
  { intros H. rewrite (getHexRingCoords_edges d H). cbv zeta.
    rewrite !length_app, !length_map, !length_seq. lia. }
  split.
  { destruct (Z_lt_dec 0 d) as [H|H].
    - rewrite (getHexRingCoords_edges d H). cbv zeta.
      assert (E : forall q0 r0 dq dr, (dq <> 0 \/ dr <> 0) ->
                NoDup (map (fun j => (q0 + Z.of_nat j * dq,
                                      r0 + Z.of_nat j * dr))
                         (seq 0 (Z.to_nat d)))).
      { intros q0 r0 dq dr Hd. apply NoDup_map_injective; [|apply seq_NoDup].
        intros x y _ _ Exy. injection Exy as E1 E2. nia. }
      repeat (apply NoDup_app;
              [apply E; lia| |
               intros [a b]; rewrite ?in_app_iff, !In_edge;
               rewrite ?Z2Nat.id by lia;
               intros [j X] Y;
               repeat (destruct Y as [[j' Y]|Y]); try destruct Y as [j' Y];
               lia]).
      apply E; lia.
    - unfold getHexRingCoords. destruct (d =? 0) eqn:D0.
      + repeat constructor. simpl. tauto.
      + replace (Z.to_nat d) with 0%nat by lia. cbn. constructor. }
  split; [reflexivity|].
  intros H. unfold getHexRingCoords. replace (d =? 0) with false by lia.
  replace (Z.to_nat d) with 0%nat by lia. reflexivity.
Qed.

Lemma getHexRingCoords_ring_witness :
  (In (2, -1) (getHexRingCoords 2) <-> hex_distance 0 0 2 (-1) = 2)
  /\ List.length (getHexRingCoords 2) = Z.to_nat (6 * 2).
Proof.
  destruct (getHexRingCoords_ring 2 2 (-1)) as (A & B & _).
  split; [exact A|apply B; reflexivity].
Defined.

Lemma fold_insert_tiles (rng : Z -> Z -> Z) (cells : list (Z * Z))
  (ts : list Tile.t) (n : Z) :
  let acc := fold_left (insert_tile_or_ignore rng) cells (ts, n) in
  (forall c, In c (map coord (fst acc)) <-> In c (map coord ts) \/ In c cells)
  /\ exists extra,
       fst acc = (ts ++ extra)%list /\ Forall fresh_tile extra
       /\ snd acc = n + Z.of_nat (List.length extra).
Proof.
  revert ts n. induction cells as [|[q r] cells IH]; intros ts n; cbv zeta.
  - cbn [fold_left fst snd]. split; [intros c; cbn [In]; tauto|].
    exists []. rewrite app_nil_r. repeat split; auto. cbn. lia.
  - cbn [fold_left].
    replace (insert_tile_or_ignore rng (ts, n) (q, r))
      with (if existsb (at_coord q r) ts then (ts, n)
            else ((ts ++ [Tile.mk q r (randomTerrain (rng q r)) None 0])%list,
                  n + 1)) by reflexivity.
    destruct (existsb (at_coord q r) ts) eqn:E.
    + destruct (IH ts n) as [C (extra & E1 & F & E2)]. split.
      * intros c. rewrite C. cbn [In]. split; [tauto|].
        intros [H|[<-|H]]; auto. left.
        apply existsb_exists in E. destruct E as [t [Ht Ct]].
        apply at_coord_true in Ct. destruct Ct as [<- <-].
        apply in_map_iff. now exists t.
      * exists extra. repeat split; assumption.
    + set (t := Tile.mk q r (randomTerrain (rng q r)) None 0).
      destruct (IH (ts ++ [t])%list (n + 1)) as [C (extra & E1 & F & E2)].
      split.
      * intros c. rewrite C, map_app, in_app_iff. cbn [map In coord t Tile.q Tile.r].
        tauto.
      * exists (t :: extra). rewrite E1, E2, <- app_assoc. cbn [app List.length].
        repeat split; auto; [|lia]. constructor; auto. now split.
Qed.

(** X22 — [expandGrid] with [getHexRingCoords] (db/database.ts): on a
    map that is the full hexagon of the stored radius, adding a
    non-negative number of rings gives the full hexagon of the new radius.
    The existing tiles keep their place and content, every added tile is
    unowned and unfortified, the reported [tilesAdded] is the number of
    rows actually appended, the stored radius becomes the old radius plus
    the rings, and no agent is touched. *)
Theorem expandGrid_hexagon (rng : Z -> Z -> Z) (rings : Z) (s : Store) :
  0 <= rings -> hexagon (getGridRadius s) (tiles s) ->
  let s' := fst (expandGrid rng rings s) in
  let newRadius := fst (snd (expandGrid rng rings s)) in
  let tilesAdded := snd (snd (expandGrid rng rings s)) in
  newRadius = getGridRadius s + rings
  /\ getGridRadius s' = newRadius
  /\ hexagon newRadius (tiles s')
  /\ (exists extra,
        tiles s' = (tiles s ++ extra)%list /\ Forall fresh_tile extra
        /\ tilesAdded = Z.of_nat (List.length extra))
  /\ agents s' = agents s.
Proof.
  intros Hr Hex. cbv zeta. unfold expandGrid.
  set (cells := flat_map getHexRingCoords _).
  destruct (fold_insert_tiles rng cells (tiles s) 0) as [C (extra & E1 & F & E2)].
  destruct (fold_left _ cells _) as [ts n]. cbn [fst snd] in *.
  split; [reflexivity|]. split; [reflexivity|].
  split; [|split; [|reflexivity]].
  - intros q r. cbn [with_game_state with_tiles tiles]. rewrite C, (Hex q r).
    subst cells. rewrite in_flat_map.
    assert (D : 0 <= hex_distance 0 0 q r) by (unfold hex_distance; lia).
    split.
    + intros [H|[d [Hd H]]]; [lia|].
      apply In_Zrange in Hd. apply In_getHexRingCoords_iff in H. lia.
    + intros H.
      destruct (Z_le_dec (hex_distance 0 0 q r) (getGridRadius s)); auto.
      right. exists (hex_distance 0 0 q r).
      split; [apply In_Zrange; lia|now apply In_getHexRingCoords_iff].
  - exists extra. cbn [with_game_state with_tiles tiles].
    repeat split; auto.
Qed.

Lemma expandGrid_hexagon_witness :
  getGridRadius (fst (expandGrid all_farmland 2 (initializeDatabase all_farmland 0)))
  = 10
  /\ hexagon 10
       (tiles (fst (expandGrid all_farmland 2 (initializeDatabase all_farmland 0)))).
Proof.
  assert (H : hexagon (getGridRadius (initializeDatabase all_farmland 0))
                (tiles (initializeDatabase all_farmland 0))).
  { intros q r. rewrite initial_grid_coords. unfold hex_distance.
    cbn [getGridRadius initializeDatabase generateInitialGrid with_tiles
         game_state emptyStore GameState.grid_radius]. lia. }
  destruct (expandGrid_hexagon all_farmland 2 (initializeDatabase all_farmland 0))
    as (A & B & C & _); [discriminate|exact H|].
  split; [exact B|exact C].
Defined.

Lemma first_min_by_least (key : Tile.t -> Z) (ts : list Tile.t) (t : Tile.t) :
  first_min_by key ts = Some t -> forall x, In x ts -> key t <= key x.
Proof.
  revert t. induction ts as [|y ts IH]; cbn [first_min_by]; intros t H x Hx;
    [contradiction|].
  destruct (first_min_by key ts) as [m|] eqn:M.
  - specialize (IH m eq_refl).
    destruct (key y <=? key m) eqn:L; injection H as <-.
    + apply Z.leb_le in L. destruct Hx as [<-|Hx]; [lia|].
      specialize (IH x Hx). lia.
    + apply Z.leb_gt in L. destruct Hx as [<-|Hx]; [lia|]. now apply IH.
  - injection H as <-. destruct Hx as [<-|Hx]; [lia|].
    destruct ts; [contradiction|]. cbn in M.
    destruct (first_min_by key ts); [destruct (_ <=? _)|]; discriminate.
Qed.

Lemma first_min_by_none (key : Tile.t -> Z) (ts : list Tile.t) :
  first_min_by key ts = None <-> ts = [].
Proof.
  destruct ts as [|y ts]; cbn [first_min_by]; [tauto|].
  split; [|discriminate].
  destruct (first_min_by key ts); [destruct (_ <=? _)|]; discriminate.
Qed.

(** X23 — [findStartingTile] (routes/agent.ts, with the admin reset of
    index.ts using the same query): the starting tile offered to a new
    player is an unclaimed tile of the map that is nearest to the centre
    under the measure [q*q + r*r + q*r]: no unclaimed tile is strictly
    nearer. No tile is offered exactly when every tile is claimed (or the
    map is empty). *)
Theorem findStartingTile_nearest (s : Store) :
  (findStartingTile s = None <->
   forall t, In t (tiles s) -> Tile.owner_id t <> None)
  /\ (forall t, findStartingTile s = Some t ->
        In t (tiles s) /\ Tile.owner_id t = None
        /\ forall x, In x (tiles s) -> Tile.owner_id x = None ->
              center_distance t <= center_distance x).
Proof.
  unfold findStartingTile. split.
  - rewrite first_min_by_none. split.
    + intros E t Ht O.
      assert (X : In t (filter is_unclaimed (tiles s))).
      { apply filter_In. split; auto. unfold is_unclaimed. now rewrite O. }
      rewrite E in X. contradiction.
    + intros H. destruct (filter is_unclaimed (tiles s)) as [|t l] eqn:E; auto.
      exfalso. assert (X : In t (filter is_unclaimed (tiles s)))
        by (rewrite E; now left).
      apply filter_In in X. destruct X as [Ht U].
      apply (H t Ht). unfold is_unclaimed in U.
      now destruct (Tile.owner_id t).
  - intros t H. destruct (findStartingTile_sound s t H) as [Ht O].
    repeat split; auto. intros x Hx Ox.
    apply (first_min_by_least _ _ _ H). apply filter_In. split; auto.
    unfold is_unclaimed. now rewrite Ox.
Qed.

(** ** Joining and resetting *)

Lemma existsb_has_id_false (l : list Agent.t) (id : string) :
  existsb (has_id id) l = false ->
  find (has_id id) l = None /\ sql_update (has_id id) (set_capital None None) l = l
  /\ ~ In id (map Agent.id l).
Proof.
  intros E. assert (A : forall a, In a l -> has_id id a = false).
  { intros a Ha. destruct (has_id id a) eqn:H; auto.
    assert (existsb (has_id id) l = true)
      by (apply existsb_exists; now exists a). congruence. }
  split; [|split].
  - destruct (find (has_id id) l) as [a|] eqn:F; auto.
    apply find_some in F. destruct F as [Ha H]. rewrite (A a Ha) in H.
    discriminate.
  - unfold sql_update. rewrite <- (map_id l) at 2. apply map_ext_in.
    intros a Ha. now rewrite (A a Ha).
  - intros H. apply in_map_iff in H. destruct H as [a [I Ha]].
    specialize (A a Ha). unfold has_id in A. rewrite I, String.eqb_refl in A.
    discriminate.
Qed.

Lemma sql_update_absent {A : Type} (w : A -> bool) (f : A -> A) (l : list A) :
  existsb w l = false -> sql_update w f l = l.
Proof.
  intros E. unfold sql_update. rewrite <- (map_id l) at 2. apply map_ext_in.
  intros a Ha. destruct (w a) eqn:H; auto.
  assert (existsb w l = true) by (apply existsb_exists; now exists a).
  congruence.
Qed.

Lemma agents_after_join (l : list Agent.t) (id name : string) (q r : Z) :
  existsb (has_id id) l = false ->
  sql_update (has_id id) (set_capital (Some q) (Some r))
    (l ++ [Agent.mk id name 100 50 None None None])%list
  = (l ++ [Agent.mk id name 100 50 (Some q) (Some r) None])%list.
Proof.
  intros E. unfold sql_update. rewrite map_app. f_equal.
  - now apply sql_update_absent.
  - cbn [map]. unfold has_id, set_capital. cbn [Agent.id].
    now rewrite String.eqb_refl.
Qed.











Lemma fold_left_invariant_In {A B : Type} (f : A -> B -> A) (P : A -> Prop)
  (l : list B) :
  (forall a b, In b l -> P a -> P (f a b)) ->
  forall a, P a -> P (fold_left f l a).
Proof.
  induction l as [|b l IH]; intros H a Pa; cbn [fold_left]; auto.
  apply IH.
  - intros a' b' Hb. apply H. now right.
  - apply H; auto. now left.
Qed.

Lemma assignStartingTile_frame (s : Store) (id : string) :
  let s' := assignStartingTile s id in
  map Agent.id (agents s') = map Agent.id (agents s)
  /\ map Agent.food (agents s') = map Agent.food (agents s)
  /\ map Agent.metal (agents s') = map Agent.metal (agents s)
  /\ agent_memories s' = agent_memories s
  /\ events s' = events s /\ messages s' = messages s
  /\ trades s' = trades s /\ attacks s' = attacks s
  /\ game_state s' = game_state s
  /\ (forall t', In t' (tiles s') ->
        In t' (tiles s) \/ Tile.owner_id t' = Some id).
Proof.
  cbv zeta. unfold assignStartingTile.
  destruct (findStartingTile s) as [tile|]; [|repeat split; auto].
  cbn [with_agents with_tiles agents agent_memories events messages trades
       attacks game_state tiles].
  assert (M : forall (g : Agent.t -> Z),
             (forall a, g (set_capital (Some (Tile.q tile)) (Some (Tile.r tile)) a)
                        = g a) ->
             map g (sql_update (has_id id)
                      (set_capital (Some (Tile.q tile)) (Some (Tile.r tile)))
                      (agents s))
             = map g (agents s)).
  { intros g Hg. unfold sql_update. rewrite map_map. apply map_ext.
    intros a. destruct (has_id id a); auto. }
  split; [apply sql_update_ids; reflexivity|].
  split; [apply M; reflexivity|]. split; [apply M; reflexivity|].
  repeat (split; [reflexivity|]).
  intros t' H. apply sql_update_In in H. destruct H as [t [Ht ->]].
  destruct (at_coord _ _ t); auto.
Qed.

(** X25 — [app.post('/api/admin/reset')] (index.ts): after a reset the
    event log, the messages, the trades and the attacks are empty, the tick
    counter is 0 and the last tick time is the time of the reset. With a
    non-empty keep list exactly the listed agents remain, otherwise all
    do, in table order; every remaining agent holds the start amounts
    (200 food and 100 metal unless the request gives non-zero values) and
    every memory is blank. The map keeps its cells; every tile has
    fortification 0 and is unowned or owned by a remaining agent. *)
Theorem resetGame_correct (now : Z) (keep : list string) (food metal : option Z)
  (s : Store) :
  let s' := resetGame now keep food metal s in
  let startFood := if or_zero food =? 0 then 200 else or_zero food in
  let startMetal := if or_zero metal =? 0 then 100 else or_zero metal in
  let stays (id : string) :=
    match keep with [] => true | _ => existsb (String.eqb id) keep end in
  events s' = [] /\ messages s' = [] /\ trades s' = [] /\ attacks s' = []
  /\ GameState.current_tick (game_state s') = 0
  /\ GameState.last_tick_at (game_state s') = Some now
  /\ map Agent.id (agents s') = filter stays (map Agent.id (agents s))
  /\ (forall a, In a (agents s') ->
        Agent.food a = startFood /\ Agent.metal a = startMetal)
  /\ (forall m, In m (agent_memories s') -> AgentMemory.content m = "")
  /\ map coord (tiles s') = map coord (tiles s)
  /\ (forall t, In t (tiles s') ->
        Tile.fortification t = 0
        /\ (Tile.owner_id t = None
            \/ exists a, In a (agents s') /\ Tile.owner_id t = Some (Agent.id a))).
Proof.
  cbv zeta.
  destruct (resetGame_tiles now keep food metal s) as [C F].
  unfold resetGame in *. cbv zeta in *.
  set (startFood := if or_zero food =? 0 then 200 else or_zero food) in *.
  set (startMetal := if or_zero metal =? 0 then 100 else or_zero metal) in *.
  match goal with
  | |- context [fold_left assignStartingTile ?l ?x] =>
      set (ids := l) in *; set (s5 := x) in *
  end.
  set (stays := fun id : string =>
                  match keep with [] => true | _ => existsb (String.eqb id) keep end).
  assert (A5 : map Agent.id (agents s5) = filter stays (map Agent.id (agents s))
               /\ Forall (fun a => Agent.food a = startFood
                                   /\ Agent.metal a = startMetal) (agents s5)
               /\ Forall (fun m => AgentMemory.content m = "") (agent_memories s5)
               /\ events s5 = [] /\ messages s5 = [] /\ trades s5 = []
               /\ attacks s5 = []
               /\ Forall (fun t => Tile.owner_id t = None) (tiles s5)).
  { subst s5 stays. destruct keep as [|k keep'].
    - cbn [with_agent_memories with_agents with_tiles with_events with_messages
           with_trades with_attacks agents agent_memories events messages trades
           attacks tiles].
      split.
      { rewrite sql_update_ids by reflexivity.
        symmetry. apply filter_all. auto. }
      repeat split; auto; apply Forall_forall; intros x Hx;
        apply sql_update_In in Hx; destruct Hx as [y [_ ->]]; auto.
    - cbn [with_agent_memories with_agents with_tiles with_events with_messages
           with_trades with_attacks agents agent_memories events messages trades
           attacks tiles].
      split.
      { rewrite sql_update_ids by reflexivity.
        induction (agents s) as [|a l IH]; auto.
        cbn [filter map]. destruct (existsb (String.eqb (Agent.id a)) (k :: keep'));
          cbn [map]; now rewrite IH. }
      repeat split; auto; apply Forall_forall; intros x Hx;
        apply sql_update_In in Hx; destruct Hx as [y [_ ->]]; auto. }
  destruct A5 as (I5 & R5 & M5 & E5 & G5 & T5 & K5 & O5).
  assert (H : map Agent.id (agents (fold_left assignStartingTile ids s5))
              = map Agent.id (agents s5)
              /\ map Agent.food (agents (fold_left assignStartingTile ids s5))
                 = map Agent.food (agents s5)
              /\ map Agent.metal (agents (fold_left assignStartingTile ids s5))
                 = map Agent.metal (agents s5)
              /\ agent_memories (fold_left assignStartingTile ids s5)
                 = agent_memories s5
              /\ events (fold_left assignStartingTile ids s5) = events s5
              /\ messages (fold_left assignStartingTile ids s5) = messages s5
              /\ trades (fold_left assignStartingTile ids s5) = trades s5
              /\ attacks (fold_left assignStartingTile ids s5) = attacks s5
              /\ Forall (fun t => Tile.owner_id t = None
                                  \/ exists i, In i ids /\ Tile.owner_id t = Some i)
                   (tiles (fold_left assignStartingTile ids s5))).
  { apply (fold_left_invariant_In assignStartingTile
             (fun x => map Agent.id (agents x) = map Agent.id (agents s5)
                       /\ map Agent.food (agents x) = map Agent.food (agents s5)
                       /\ map Agent.metal (agents x) = map Agent.metal (agents s5)
                       /\ agent_memories x = agent_memories s5
                       /\ events x = events s5 /\ messages x = messages s5
                       /\ trades x = trades s5 /\ attacks x = attacks s5
                       /\ Forall (fun t => Tile.owner_id t = None
                                    \/ exists i, In i ids
                                                 /\ Tile.owner_id t = Some i)
                            (tiles x))).
    - intros x b Hb (P1 & P2 & P3 & P4 & P5 & P6 & P7 & P8 & P9).
      destruct (assignStartingTile_frame x b)
        as (Q1 & Q2 & Q3 & Q4 & Q5 & Q6 & Q7 & Q8 & _ & Q9).
      repeat split; try congruence.
      apply Forall_forall. intros t Ht. destruct (Q9 t Ht) as [Hin|Ho].
      + rewrite Forall_forall in P9. auto.
      + right. now exists b.
    - repeat split; auto. eapply Forall_impl; [|exact O5]. auto. }
  destruct H as (H1 & H2 & H3 & H4 & H5 & H6 & H7 & H8 & H9).
  cbn [with_game_state events messages trades attacks game_state agents
       agent_memories tiles GameState.current_tick GameState.last_tick_at].
  split; [congruence|]. split; [congruence|]. split; [congruence|].
  split; [congruence|]. split; [reflexivity|]. split; [reflexivity|].
  split; [congruence|].
  split.
  { intros a Ha.
    assert (X : In (Agent.food a) (map Agent.food (agents s5))
                /\ In (Agent.metal a) (map Agent.metal (agents s5))).
    { rewrite <- H2, <- H3. split; now apply in_map. }
    destruct X as [X1 X2]. rewrite Forall_forall in R5.
    apply in_map_iff in X1. destruct X1 as [a1 [<- X1]].
    apply in_map_iff in X2. destruct X2 as [a2 [<- X2]].
    split; [apply (R5 a1 X1)|apply (R5 a2 X2)]. }
  split.
  { intros m Hm. rewrite H4 in Hm. rewrite Forall_forall in M5. auto. }
  split; [exact C|].
  intros t Ht. split.
  { cbn [with_game_state tiles] in F. rewrite Forall_forall in F. auto. }
  rewrite Forall_forall in H9. destruct (H9 t Ht) as [O|[i [Hi O]]]; auto.
  right. subst ids. rewrite <- H1 in Hi. apply in_map_iff in Hi.
  destruct Hi as [a [<- Ha]]. now exists a.
Qed.

(** ** The action endpoint as a whole *)

Section Route.

Variable P : Store -> Prop.
Variables (now : Z) (s : Store) (agent : Agent.t).

Hypothesis P_here : P s.
Hypothesis P_expand : forall q r, P (fst (expand s agent q r)).
Hypothesis P_attack : forall q r c, P (fst (declareAttack now s agent q r c)).
Hypothesis P_fortify : forall q r m, P (fst (fortify s agent q r m)).
Hypothesis P_gift_tile : forall q r to, P (fst (giftTile s agent q r to)).
Hypothesis P_gift_resources :
  forall to f m, P (fst (giftResources s agent to f m)).
Hypothesis P_message : forall to c, P (fst (sendMessage s agent to c)).
Hypothesis P_propose :
  forall to a b c d, P (fst (proposeTrade now s agent to a b c d)).
Hypothesis P_accept : forall tid, P (fst (acceptTrade now s agent tid)).
Hypothesis P_reject : forall tid, P (fst (rejectTrade s agent tid)).
Hypothesis P_capital : forall q r, P (fst (setCapital s agent q r)).

Ltac by_case :=
  repeat match goal with
  | |- context [match ?x with JUndefined => _ | _ => _ end] => destruct x
  | |- context [if ?c then _ else _] => destruct c
  end;
  unfold bad_request; rewrite ?send_result_store; cbn [fst]; auto.

(** Whatever every game action preserves, the [switch] preserves. *)
Lemma switch_action_type_preserves (act : AgentAction.t)
  (out : Store * HttpResponse) :
  switch_action_type now s agent act = Some out -> P (fst out).
Proof.
  unfold switch_action_type, case_default.
  destruct (AgentAction.type act) as [| |b|n|ty];
    try (intros [= <-]; unfold bad_request; cbn [fst]; exact P_here).
  destruct (String.eqb ty "expand");
    [intros [= <-]; unfold case_expand; by_case|].
  destruct (String.eqb ty "attack");
    [intros [= <-]; unfold case_attack; by_case|].
  destruct (String.eqb ty "fortify");
    [intros [= <-]; unfold case_fortify; by_case|].
  destruct (String.eqb ty "gift_tile");
    [intros [= <-]; unfold case_gift_tile; by_case|].
  destruct (String.eqb ty "gift_resources").
  { unfold case_gift_resources.
    destruct (AgentAction.to_agent_id act);
      try (intros [= <-]; exact P_here).
    destruct (amount_or_zero (AgentAction.food act)); [|discriminate].
    destruct (amount_or_zero (AgentAction.metal act)); [|discriminate].
    intros [= <-]. rewrite send_result_store. apply P_gift_resources. }
  destruct (String.eqb ty "message");
    [intros [= <-]; unfold case_message; by_case|].
  destruct (String.eqb ty "trade_propose").
  { unfold case_trade_propose.
    destruct (AgentAction.to_agent_id act);
      try (intros [= <-]; exact P_here).
    destruct (amount_or_zero (AgentAction.offer_food act)); [|discriminate].
    destruct (amount_or_zero (AgentAction.offer_metal act)); [|discriminate].
    destruct (amount_or_zero (AgentAction.request_food act)); [|discriminate].
    destruct (amount_or_zero (AgentAction.request_metal act)); [|discriminate].
    intros [= <-]. rewrite send_result_store. apply P_propose. }
  destruct (String.eqb ty "trade_accept");
    [intros [= <-]; unfold case_trade_accept; by_case|].
  destruct (String.eqb ty "trade_reject");
    [intros [= <-]; unfold case_trade_reject; by_case|].
  destruct (String.eqb ty "wait");
    [intros [= <-]; unfold case_wait; rewrite send_result_store; exact P_here|].
  destruct (String.eqb ty "set_capital");
    [intros [= <-]; unfold case_set_capital; by_case|].
  intros [= <-]. unfold bad_request. exact P_here.
Qed.

End Route.

Lemma sql_update_map {A B : Type} (g : A -> B) (w : A -> bool) (f : A -> A)
  (l : list A) :
  (forall a, g (f a) = g a) -> map g (sql_update w f l) = map g l.
Proof.
  intros H. unfold sql_update. rewrite map_map. apply map_ext.
  intros a. destruct (w a); auto.
Qed.

Lemma clearCapitalIfLost_keeps (p : string) (q r : Z) (s : Store) :
  map identity (agents (clearCapitalIfLost p q r s)) = map identity (agents s)
  /\ agent_memories (clearCapitalIfLost p q r s) = agent_memories s
  /\ game_state (clearCapitalIfLost p q r s) = game_state s.
Proof.
  unfold clearCapitalIfLost. destruct (getAgent s p); auto.
  destruct (_ && _); auto. cbn [with_agents agents agent_memories game_state].
  split; auto. now apply sql_update_map.
Qed.

Ltac keeps :=
  unfold keeps_identities, fail;
  repeat match goal with
  | |- context [match ?x with Some _ => _ | None => _ end] => destruct x
  | |- context [if ?c then _ else _] => destruct c
  end;
  cbn [fst logEvent with_events with_tiles with_agents with_trades
       updateAgentResources insert_attack insert_message insert_trade
       updateTradeStatus agents agent_memories game_state];
  rewrite ?sql_update_map by (intros; reflexivity);
  auto.

Lemma expand_keeps (s : Store) (agent : Agent.t) (q r : Z) :
  keeps_identities s (fst (expand s agent q r)).
Proof. unfold expand. keeps. Qed.

Lemma declareAttack_keeps (now : Z) (s : Store) (agent : Agent.t) (q r c : Z) :
  keeps_identities s (fst (declareAttack now s agent q r c)).
Proof. unfold declareAttack. keeps. Qed.

Lemma fortify_keeps (s : Store) (agent : Agent.t) (q r m : Z) :
  keeps_identities s (fst (fortify s agent q r m)).
Proof. unfold fortify. keeps. Qed.

Lemma giftTile_keeps (s : Store) (agent : Agent.t) (q r : Z) (to : string) :
  keeps_identities s (fst (giftTile s agent q r to)).
Proof.
  unfold giftTile. keeps.
  match goal with
  | |- context [clearCapitalIfLost ?p ?a ?b ?x] =>
      destruct (clearCapitalIfLost_keeps p a b x) as (E1 & E2 & E3)
  end.
  rewrite E1, E2, E3. auto.
Qed.

Lemma setCapital_keeps (s : Store) (agent : Agent.t) (q r : Z) :
  keeps_identities s (fst (setCapital s agent q r)).
Proof. unfold setCapital. keeps. Qed.

Lemma giftResources_keeps (s : Store) (agent : Agent.t) (to : string)
  (f m : Z) :
  keeps_identities s (fst (giftResources s agent to f m)).
Proof. unfold giftResources. keeps. Qed.

Lemma sendMessage_keeps (s : Store) (agent : Agent.t) (to c : string) :
  keeps_identities s (fst (sendMessage s agent to c)).
Proof. unfold sendMessage. keeps. Qed.

Lemma proposeTrade_keeps (now : Z) (s : Store) (agent : Agent.t) (to : string)
  (a b c d : Z) :
  keeps_identities s (fst (proposeTrade now s agent to a b c d)).
Proof. unfold proposeTrade. keeps. Qed.

Lemma acceptTrade_keeps (now : Z) (s : Store) (agent : Agent.t) (tid : Z) :
  keeps_identities s (fst (acceptTrade now s agent tid)).
Proof. unfold acceptTrade. keeps. Qed.

Lemma rejectTrade_keeps (s : Store) (agent : Agent.t) (tid : Z) :
  keeps_identities s (fst (rejectTrade s agent tid)).
Proof. unfold rejectTrade. keeps. Qed.

Lemma switch_action_type_keeps (now : Z) (s : Store) (agent : Agent.t)
  (act : AgentAction.t) (out : Store * HttpResponse) :
  switch_action_type now s agent act = Some out ->
  keeps_identities s (fst out).
Proof.
  apply (switch_action_type_preserves (keeps_identities s)).
  - repeat split.
  - apply expand_keeps.
  - apply declareAttack_keeps.
  - apply fortify_keeps.
  - apply giftTile_keeps.
  - apply giftResources_keeps.
  - apply sendMessage_keeps.
  - apply proposeTrade_keeps.
  - apply acceptTrade_keeps.
  - apply rejectTrade_keeps.
  - apply setCapital_keeps.
Qed.






Lemma map_id_of_identity (l l' : list Agent.t) :
  map identity l' = map identity l -> map Agent.id l' = map Agent.id l.
Proof.
  intros H. apply (f_equal (map (fun x : string * string * option Z =>
                                   fst (fst x)))) in H.
  now rewrite !map_map in H.
Qed.





(** ** Solvency: no operation drives a balance below zero *)








Lemma keyed_row (s : Store) (id : string) (a x : Agent.t) :
  agents_keyed (agents s) -> getAgent s id = Some a ->
  In x (agents s) -> Agent.id x = id -> x = a.
Proof.
  intros K G Hx I. pose proof (keyed_getAgent_self s x K Hx) as G'.
  rewrite I in G'. congruence.
Qed.

Lemma keyed_current (s : Store) (a : Agent.t) :
  agents_keyed (agents s) -> getAgent s (Agent.id a) = Some a -> current s a.
Proof.
  intros K G x Hx I. now rewrite (keyed_row s (Agent.id a) a x K G Hx I).
Qed.

(** *** The game actions *)













(** *** The tick *)






(** *** Joining, growing the map, resetting *)

Lemma expandGrid_agents (rng : Z -> Z -> Z) (rings : Z) (s : Store) :
  agents (fst (expandGrid rng rings s)) = agents s
  /\ trades (fst (expandGrid rng rings s)) = trades s.
Proof. unfold expandGrid. destruct (fold_left _ _ _). split; reflexivity. Qed.

Lemma join_agents (rng : Z -> Z -> Z) (now : Z) (s : Store) (req : JoinRequest) :
  trades (fst (join rng now s req)) = trades s
  /\ (agents (fst (join rng now s req)) = agents s
      \/ exists a, agents (fst (join rng now s req)) = (agents s ++ [a])%list
                   /\ ~ In (Agent.id a) (map Agent.id (agents s))
                   /\ Agent.food a = 100 /\ Agent.metal a = 50).
Proof.
  unfold join.
  destruct (valid_name (agent_id req)) as [id|];
    [|split; [reflexivity|left; reflexivity]].
  destruct (valid_name (display_name req)) as [name|];
    [|split; [reflexivity|left; reflexivity]].
  destruct (existsb (has_id id) (agents s)) eqn:E1;
    [split; [reflexivity|left; reflexivity]|].
  destruct (existsb (fun a => String.eqb (Agent.display_name a) name)
              (agents s));
    [split; [reflexivity|left; reflexivity]|].
  set (grown := if _ <? _ then _ else s).
  assert (G : agents grown = agents s /\ trades grown = trades s).
  { subst grown. destruct (_ <? _); auto. apply expandGrid_agents. }
  destruct G as [GA GT].
  destruct (findStartingTile grown) as [tile|]; cbn [fst];
    [|split; [exact GT|left; exact GA]].
  destruct (negb (forallb bindable (optional_bindings req))
            || existsb (has_memory id) (agent_memories grown)); cbn [fst];
    [split; [exact GT|left; exact GA]|].
  split; [exact GT|]. right.
  exists (Agent.mk id name 100 50 (Some (Tile.q tile)) (Some (Tile.r tile)) None).
  cbn [logEvent with_events with_agents with_tiles with_agent_memories agents
       Agent.id Agent.food Agent.metal].
  rewrite GA. split; [now apply agents_after_join|].
  split; [|split; reflexivity].
  now destruct (existsb_has_id_false (agents s) id E1) as (_ & _ & NI).
Qed.


Lemma resetGame_agents (now : Z) (keep : list string) (food metal : option Z)
  (s : Store) :
  let s' := resetGame now keep food metal s in
  let startFood := if or_zero food =? 0 then 200 else or_zero food in
  let startMetal := if or_zero metal =? 0 then 100 else or_zero metal in
  trades s' = []
  /\ (exists stays, map Agent.id (agents s')
                    = filter stays (map Agent.id (agents s)))
  /\ map Agent.food (agents s') = map (fun _ => startFood) (agents s')
  /\ map Agent.metal (agents s') = map (fun _ => startMetal) (agents s').
Proof.
  cbv zeta. unfold resetGame. cbv zeta.
  set (startFood := if or_zero food =? 0 then 200 else or_zero food).
  set (startMetal := if or_zero metal =? 0 then 100 else or_zero metal).
  match goal with
  | |- context [fold_left assignStartingTile ?l ?x] => set (ids := l); set (s5 := x)
  end.
  set (stays := fun id : string =>
                  match keep with [] => true | _ => existsb (String.eqb id) keep end).
  assert (A5 : trades s5 = []
               /\ map Agent.id (agents s5) = filter stays (map Agent.id (agents s))
               /\ map Agent.food (agents s5) = map (fun _ => startFood) (agents s5)
               /\ map Agent.metal (agents s5)
                  = map (fun _ => startMetal) (agents s5)).
  { subst s5 stays. destruct keep as [|k keep'];
      cbn [with_agent_memories with_agents with_tiles with_events with_messages
           with_trades with_attacks agents trades];
      (split; [reflexivity|]); (split; [|split]);
      try (unfold sql_update; rewrite !map_map; reflexivity).
    - rewrite sql_update_ids by reflexivity. symmetry. now apply filter_all.
    - rewrite sql_update_ids by reflexivity.
      induction (agents s) as [|a l IH]; auto.
      cbn [filter map].
      destruct (existsb (String.eqb (Agent.id a)) (k :: keep'));
        cbn [map]; now rewrite IH. }
  destruct A5 as (T5 & I5 & F5 & M5).
  assert (H : trades (fold_left assignStartingTile ids s5) = trades s5
              /\ map Agent.id (agents (fold_left assignStartingTile ids s5))
                 = map Agent.id (agents s5)
              /\ map Agent.food (agents (fold_left assignStartingTile ids s5))
                 = map Agent.food (agents s5)
              /\ map Agent.metal (agents (fold_left assignStartingTile ids s5))
                 = map Agent.metal (agents s5)).
  { apply (fold_left_invariant assignStartingTile
             (fun x => trades x = trades s5
                       /\ map Agent.id (agents x) = map Agent.id (agents s5)
                       /\ map Agent.food (agents x) = map Agent.food (agents s5)
                       /\ map Agent.metal (agents x)
                          = map Agent.metal (agents s5))); auto.
    intros x b (P1 & P2 & P3 & P4).
    destruct (assignStartingTile_frame x b)
      as (Q1 & Q2 & Q3 & _ & _ & _ & Q7 & _).
    repeat split; congruence. }
  destruct H as (H1 & H2 & H3 & H4).
  cbn [with_game_state trades agents].
  assert (L : forall (A : Type) (c : A) (l l' : list Agent.t),
             map Agent.id l' = map Agent.id l ->
             map (fun _ : Agent.t => c) l' = map (fun _ : Agent.t => c) l).
  { intros A c l l' E. apply (f_equal (@List.length string)) in E.
    rewrite !length_map in E. revert l' E.
    induction l as [|x l IH]; intros [|y l'] E; try discriminate; auto.
    cbn [map]. f_equal. apply IH. now injection E. }
  split; [congruence|]. split; [exists stays; congruence|].
  split.
  - rewrite H3, F5. symmetry. now apply L.
  - rewrite H4, M5. symmetry. now apply L.
Qed.







(** ** The primary keys hold in every reachable state *)

Lemma post_action_ids (now : Z) (s : Store) (id : string) (req : ActionRequest)
  (out : Store * HttpResponse) :
  post_action now s id req = Some out ->
  map Agent.id (agents (fst out)) = map Agent.id (agents s).
Proof.
  unfold post_action.
  destruct (getAgentById s id) as [agent|]; [|now intros [= <-]].
  assert (T : map Agent.id (agents (touch_last_seen now id s))
              = map Agent.id (agents s)).
  { cbn [touch_last_seen with_agents agents]. now apply sql_update_ids. }
  destruct (save_memory_if_provided now id (save_memory req)
              (touch_last_seen now id s)) as [s2|] eqn:M;
    [|now intros [= <-]].
  destruct (save_memory_if_provided_frame _ _ _ _ _ M) as (FA & _).
  rewrite <- T, <- FA.
  destruct (action req) as [act|]; [|now intros [= <-]].
  destruct (negb _); [now intros [= <-]|].
  intros E. apply map_id_of_identity.
  apply (switch_action_type_keeps now s2 agent act out E).
Qed.

Lemma produceFor_ids (st : Store * TickResult.t) (agent : Agent.t) :
  map Agent.id (agents (fst (produceFor st agent)))
  = map Agent.id (agents (fst st)).
Proof.
  destruct st as [s result]. unfold produceFor.
  destruct (totalProduction _) as [f m]. destruct (_ || _); cbn [fst]; auto.
  cbn [updateAgentResources with_agents agents]. now apply sql_update_ids.
Qed.

Lemma loseTile_ids (agent : Agent.t) (st : Store * TickResult.t) (t : Tile.t) :
  map Agent.id (agents (fst (loseTile agent st t)))
  = map Agent.id (agents (fst st)).
Proof.
  destruct st as [s result]. unfold loseTile. cbn [fst logEvent with_events agents].
  now rewrite clearCapitalIfLost_ids.
Qed.

Lemma payUpkeep_ids (st : Store * TickResult.t) (agent : Agent.t) :
  map Agent.id (agents (fst (payUpkeep st agent)))
  = map Agent.id (agents (fst st)).
Proof.
  destruct st as [s result]. unfold payUpkeep. cbn [fst].
  destruct (_ >? 0); auto.
  destruct (getAgent s (Agent.id agent)) as [cur|]; auto.
  destruct (_ >=? _).
  - cbn [fst updateAgentResources with_agents agents]. now apply sql_update_ids.
  - match goal with
    | |- context [fold_left ?f ?l ?x] =>
        apply (fold_left_invariant f
                 (fun y => map Agent.id (agents (fst y)) = map Agent.id (agents s)))
    end.
    + intros a b H. now rewrite loseTile_ids.
    + cbn [fst with_agents agents]. now apply sql_update_ids.
Qed.

Lemma processTick_ids (now : Z) (s : Store) :
  map Agent.id (agents (fst (processTick now s))) = map Agent.id (agents s).
Proof.
  destruct (processTick_agents_tiles now s) as [-> _].
  unfold afterUpkeep, deductUpkeep, produceResources, afterAttacks,
    resolveAttacks. cbn [fst].
  set (st1 := fold_left resolveAttack _ _).
  assert (E1 : map Agent.id (agents (fst st1)) = map Agent.id (agents s)).
  { subst st1.
    apply (fold_left_invariant resolveAttack
             (fun x => map Agent.id (agents (fst x)) = map Agent.id (agents s)));
      auto.
    intros a b H. now rewrite resolveAttack_ids. }
  rewrite <- E1.
  apply (fold_left_invariant payUpkeep
           (fun x => map Agent.id (agents (fst x))
                     = map Agent.id (agents (fst st1)))).
  { intros a b H. now rewrite payUpkeep_ids. }
  apply (fold_left_invariant produceFor
           (fun x => map Agent.id (agents (fst x))
                     = map Agent.id (agents (fst st1)))); auto.
  intros a b H. now rewrite produceFor_ids.
Qed.

Lemma run_agents_keyed (op : Op) (s : Store) :
  agents_keyed (agents s) -> agents_keyed (agents (run op s)).
Proof.
  unfold agents_keyed. intros K.
  destruct op as [now id req|rng now req|now|now|rng rings
                 |now keep food metal]; cbn [run].
  - destruct (post_action now s id req) as [out|] eqn:E; auto.
    now rewrite (post_action_ids now s id req out E).
  - destruct (join_agents rng now s req) as [_ [->|(a & -> & NI & _)]]; auto.
    rewrite map_app. apply NoDup_app; auto.
    + cbn. repeat constructor. cbn. tauto.
    + intros x Hx [<-|[]]. contradiction.
  - unfold checkAndProcessTick. destruct (shouldProcessTick now s); auto.
    now rewrite processTick_ids.
  - unfold triggerTickManually. now rewrite processTick_ids.
  - now destruct (expandGrid_agents rng rings s) as [-> _].
  - destruct (resetGame_agents now keep food metal s) as (_ & [stays ->] & _).
    now apply NoDup_filter.
Qed.

(** X28 — the write paths of the server together (routes/actions.ts,
    routes/agent.ts, tick/processor.ts, db/database.ts, index.ts): in
    every state the server can reach from a fresh database, by any
    sequence of actions, joins, ticks, grid expansions and resets, no two
    agents share an id and no two tiles share a coordinate. The code never
    relies on the database to refuse a duplicate: joins check the id,
    expansion inserts only at free coordinates, and every other write is
    an update in place. *)
Theorem reachable_store_keyed (s : Store) :
  reachable s -> tiles_keyed (tiles s) /\ agents_keyed (agents s).
Proof.
  intros R. split; [exact (proj1 (reachable_tiles_ok s R))|].
  induction R as [rng now|s op R IH].
  - constructor.
  - now apply run_agents_keyed.
Qed.

Lemma reachable_store_keyed_witness :
  tiles_keyed (tiles fortified_game) /\ agents_keyed (agents fortified_game).
Proof. exact (reachable_store_keyed fortified_game fortified_game_reachable). Defined.

(** ** Capture, then production, in one tick *)

Lemma afterAttacks_single (now : Z) (s : Store) (attack : Attack.t)
  (d : option string) :
  getPendingAttacksToResolve now s = [(attack, d)] ->
  afterAttacks now s = fst (resolveAttack (s, initialResult s) (attack, d)).
Proof. unfold afterAttacks, resolveAttacks. cbn [fst]. now intros ->. Qed.

(** X29 — [processTick], STEP 1 feeding STEP 2 and STEP 3
    (tick/processor.ts): a tile captured in a tick already counts as the
    captor's when the same tick produces and charges. With one due attack
    that beats the defence, the target is the attacker's, at fortification
    0, before production starts; no other agent holds a tile at that
    coordinate any more; and the attacker's balance after the tick is its
    balance before plus the yield of its holding including the captured
    tile, minus 3 food for each tile of that holding when it can pay. The
    previous owner gets nothing from the tile in this tick. *)
Theorem capture_yields_same_tick (now : Z) (s : Store) (attack : Attack.t)
  (d : option string) (tile : Tile.t) (a : Agent.t) :
  store_keyed s ->
  getPendingAttacksToResolve now s = [(attack, d)] ->
  getTile s (Attack.target_q attack) (Attack.target_r attack) = Some tile ->
  attack_captures attack tile = true ->
  getAgent s (Attack.attacker_id attack) = Some a ->
  let tq := Attack.target_q attack in
  let tr := Attack.target_r attack in
  let owned := getAgentTiles (afterAttacks now s) (Attack.attacker_id attack) in
  let food2 := Agent.food a + fst (totalProduction owned) in
  let cost := Z.of_nat (List.length owned) * 3 in
  In (Tile.mk tq tr (Tile.terrain tile) (Some (Attack.attacker_id attack)) 0)
     owned
  /\ (forall p t, p <> Attack.attacker_id attack ->
        In t (getAgentTiles (afterAttacks now s) p) ->
        (Tile.q t, Tile.r t) <> (tq, tr))
  /\ exists a',
       getAgent (fst (processTick now s)) (Attack.attacker_id attack) = Some a'
       /\ Agent.metal a' = Agent.metal a + snd (totalProduction owned)
       /\ (cost <= food2 -> Agent.food a' = food2 - cost).
Proof.
  intros K R G C A tq tr owned food2 cost.
  destruct (afterAttacks_keyed now s K) as [K1 K2].
  pose proof (afterAttacks_single now s attack d R) as E.
  destruct (resolveAttack_capture s (initialResult s) attack d tile G C)
    as (ET & _).
  cbv zeta in ET. rewrite <- E in ET. fold tq tr in ET.
  pose proof (getTile_found s _ _ tile G) as (Ht & Hq & Hr).
  fold tq in Hq. fold tr in Hr.
  assert (Hcap : In (Tile.mk tq tr (Tile.terrain tile)
                       (Some (Attack.attacker_id attack)) 0)
                   (tiles (afterAttacks now s))).
  { rewrite ET. unfold sql_update. apply in_map_iff. exists tile.
    split; auto.
    replace (at_coord tq tr tile) with true
      by (symmetry; now apply at_coord_true).
    unfold set_owner_reset. now rewrite Hq, Hr. }
  split.
  { subst owned. unfold getAgentTiles. apply filter_In. split; auto.
    cbn [Tile.owner_id]. now apply eq_opt_string_true. }
  split.
  { intros p t N Hin. apply getAgentTiles_In in Hin. destruct Hin as [Hin O].
    intros Eq. injection Eq as Eq1 Eq2.
    assert (X : t = Tile.mk tq tr (Tile.terrain tile)
                      (Some (Attack.attacker_id attack)) 0).
    { apply (keyed_unique (tiles (afterAttacks now s))); auto.
      unfold coord. cbn [Tile.q Tile.r]. now rewrite Eq1, Eq2. }
    rewrite X in O. cbn [Tile.owner_id] in O. congruence. }
  pose proof (resolveAttack_agent s (initialResult s) attack d tile
                (Attack.attacker_id attack) a G A) as A1.
  rewrite <- E in A1.
  remember (if attack_captures attack tile
               && loses_capital tile (Attack.target_q attack)
                    (Attack.target_r attack) (Attack.attacker_id attack) a
            then set_capital None None a else a) as a1 eqn:Ea1.
  pose proof (getAgent_found _ _ a1 A1) as [Hin1 I1].
  assert (B : Agent.food a1 = Agent.food a /\ Agent.metal a1 = Agent.metal a)
    by (rewrite Ea1; destruct (_ && _); split; reflexivity).
  clear Ea1.
  destruct B as [B1 B2].
  destruct (processTick_agents_tiles now s) as [EA _].
  rewrite (getAgent_ext _ _ _ EA). rewrite <- I1.
  rewrite (afterUpkeep_getAgent now s a1 K Hin1). rewrite I1. fold owned.
  eexists. split; [reflexivity|].
  destruct (upkeepCostOf_nil_iff owned) as [Ec _]. fold cost in Ec.
  unfold agentAfterUpkeep, agentAfterProduction, yieldOf. rewrite I1.
  fold owned. rewrite Ec. cbn [add_resources Agent.food Agent.metal].
  rewrite B1. fold food2. unfold clear_capital_among.
  destruct (cost >? 0) eqn:C0; [destruct (food2 >=? cost) eqn:C1|].
  - cbn. rewrite B1, B2. fold food2. split; lia.
  - destruct (capital_among _ _); cbn; rewrite B2; split; auto; lia.
  - cbn. rewrite B1, B2. fold food2. split; auto. lia.
Qed.

Lemma battle_store_keyed : store_keyed battle_store.
Proof. split; vm_compute; repeat constructor; cbn; intuition discriminate. Qed.

Lemma capture_yields_same_tick_witness :
  In (Tile.mk 1 0 farmland (Some "alice") 0)
     (getAgentTiles (afterAttacks 7200 battle_store) "alice")
  /\ exists a',
       getAgent (fst (processTick 7200 battle_store)) "alice" = Some a'
       /\ Agent.metal a' = 35 + 0
       /\ Agent.food a' = 100 + 12 - 2 * 3.
Proof.
  destruct (capture_yields_same_tick 7200 battle_store battle_attack
              (Some "bob") (Tile.mk 1 0 farmland (Some "bob") 0)
              (add_resources 0 (- 15) alice) battle_store_keyed
              eq_refl eq_refl eq_refl eq_refl) as (A & _ & a' & B1 & B2 & B3).
  split; [exact A|]. exists a'. split; [exact B1|]. split; [exact B2|].
  apply B3. discriminate.
Defined.

(** ** The memory endpoint *)

Lemma slice0_spec (n : nat) (c : string) :
  String.length (slice0 n c) = Nat.min (String.length c) n
  /\ (exists rest, c = slice0 n c ++ rest)
  /\ ((String.length c <= n)%nat -> slice0 n c = c).
Proof.
  unfold slice0. revert n. induction c as [|ch c IH]; intros n.
  - destruct n; cbn; repeat split; auto; exists ""; reflexivity.
  - destruct n as [|n].
    + cbn. repeat split; auto; [now exists (String ch c)|].
      intros H. inversion H.
    + cbn [String.substring String.length Nat.min].
      destruct (IH n) as (L & [rest R] & E). split; [now rewrite L|]. split.
      * exists rest. cbn [append]. now rewrite <- R.
      * intros H. f_equal. apply E. now apply Nat.succ_le_mono.
Qed.

(** X30 — [router.post('/:id/memory')] with [saveAgentMemory]
    (routes/actions.ts): the memory endpoint answers 404 for an unknown
    agent, 400 when the content is not a string, and leaves the store
    untouched in both cases. On 200 the caller's memory row, and no other
    row, holds the first 10000 characters of the content (the content
    itself when it is no longer than that) with a fresh time stamp, the
    reported [chars_saved] is the length of what that row now holds, and,
    unlike the action endpoint, nothing in the agents table changes: the
    caller's [last_seen_at] is not stamped. *)
Theorem post_memory_correct (now : Z) (s : Store) (id : string) (content : JVal) :
  let s' := fst (post_memory now s id content) in
  let code := fst (snd (post_memory now s id content)) in
  let saved := snd (snd (post_memory now s id content)) in
  (code = 404 <-> getAgentById s id = None)
  /\ (code = 400 <->
      getAgentById s id <> None /\ forall c, content <> JStr c)
  /\ (code = 200 \/ code = 400 \/ code = 404)
  /\ (code <> 200 -> s' = s /\ saved = None)
  /\ (code = 200 ->
      exists c,
        content = JStr c
        /\ saved = Some (Z.of_nat (Nat.min (String.length c)
                                           GAME_CONSTANTS.MAX_MEMORY_CHARS))
        /\ agents s' = agents s /\ tiles s' = tiles s
        /\ List.length (agent_memories s') = List.length (agent_memories s)
        /\ forall m', In m' (agent_memories s') ->
             exists m, In m (agent_memories s)
               /\ AgentMemory.agent_id m' = AgentMemory.agent_id m
               /\ (AgentMemory.agent_id m <> id -> m' = m)
               /\ (AgentMemory.agent_id m = id ->
                   AgentMemory.updated_at m' = now
                   /\ saved = Some (Z.of_nat
                                      (String.length (AgentMemory.content m')))
                   /\ (exists rest, c = AgentMemory.content m' ++ rest)
                   /\ ((String.length c <= GAME_CONSTANTS.MAX_MEMORY_CHARS)%nat ->
                       AgentMemory.content m' = c))).
Proof.
  cbv zeta. unfold post_memory.
  destruct (getAgentById s id) as [agent|] eqn:G.
  2:{ cbn [fst snd]. split; [tauto|]. split; [|split; [auto|]].
      - split; [discriminate|]. intros [H _]. now contradiction H.
      - split; [auto|discriminate]. }
  assert (Bad : forall x : JVal, (forall c, x <> JStr c) ->
            let out := (s, (400, @None Z)) in
            (fst (snd out) = 404 <-> Some agent = None)
            /\ (fst (snd out) = 400 <->
                Some agent <> None /\ forall c, x <> JStr c)
            /\ (fst (snd out) = 200 \/ fst (snd out) = 400
                \/ fst (snd out) = 404)
            /\ (fst (snd out) <> 200 -> fst out = s /\ snd (snd out) = None)).
  { intros x Hx. cbn [fst snd]. split; [split; discriminate|].
    split; [split; auto; intros _; split; [discriminate|exact Hx]|].
    split; auto. }
  destruct content as [| |b|n|c].
  1-4: match goal with |- context [forall c, ?x <> JStr c] =>
         assert (Hx : forall c, x <> JStr c) by (intros c; discriminate);
         destruct (Bad x Hx) as (B1 & B2 & B3 & B4);
         split; [exact B1|]; split; [exact B2|]; split; [exact B3|];
         split; [exact B4|]; cbn [fst snd]; intros X; discriminate X
       end.
  cbn [fst snd]. split; [split; discriminate|].
  split.
  { split; [intros X; discriminate X|]. intros [_ H]. now contradiction (H c). }
  split; [auto|]. split; [intros H; now contradiction H|].
  intros _. exists c. split; [reflexivity|]. split; [reflexivity|].
  split; [reflexivity|]. split; [reflexivity|].
  cbn [saveAgentMemory with_agent_memories agent_memories].
  split; [apply sql_update_length|].
  intros m' H. apply sql_update_In in H. destruct H as [m [Hm ->]].
  exists m. split; auto.
  destruct (slice0_spec GAME_CONSTANTS.MAX_MEMORY_CHARS c) as (L & R & E).
  destruct (String.eqb_spec (AgentMemory.agent_id m) id) as [I|I];
    cbn [AgentMemory.agent_id AgentMemory.content AgentMemory.updated_at].
  - split; auto. split; [intros N; contradiction|].
    intros _. split; auto. split; [now rewrite L|]. split; auto.
  - split; auto. split; auto. intros X. contradiction.
Qed.

(** ** The foreign key of the trades table holds in every reachable state *)

Lemma registered_iff (l : list Agent.t) (x : string) :
  (exists a, find (has_id x) l = Some a) <-> In x (map Agent.id l).
Proof.
  split.
  - intros [a F]. apply find_some in F. destruct F as [Ha I].
    unfold has_id in I. apply String.eqb_eq in I. subst x. now apply in_map.
  - intros H. apply in_map_iff in H. destruct H as [a [<- Ha]].
    destruct (find (has_id (Agent.id a)) l) as [b|] eqn:F; [now exists b|].
    exfalso. apply (find_none _ _ F) in Ha. unfold has_id in Ha.
    now rewrite String.eqb_refl in Ha.
Qed.

Lemma trades_wf_iff (s : Store) : trades_wf s <-> proposers_registered s.
Proof.
  unfold trades_wf, proposers_registered, getAgent.
  split; intros H t Ht; destruct (H t Ht) as [A B]; split; auto;
    now apply registered_iff.
Qed.

Lemma proposers_registered_ext (s s' : Store) :
  map parties (trades s') = map parties (trades s) ->
  incl (map Agent.id (agents s)) (map Agent.id (agents s')) ->
  proposers_registered s -> proposers_registered s'.
Proof.
  intros T A H t' Ht'.
  assert (X : In (parties t') (map parties (trades s)))
    by (rewrite <- T; now apply in_map).
  apply in_map_iff in X. destruct X as [t [E Ht]].
  unfold parties in E. injection E as E1 E2. rewrite <- E1, <- E2.
  destruct (H t Ht) as [I N]. split; auto.
Qed.

Lemma proposers_registered_step (agent : Agent.t) (s s' : Store) :
  trades_step agent s s' ->
  map Agent.id (agents s') = map Agent.id (agents s) ->
  In (Agent.id agent) (map Agent.id (agents s)) ->
  proposers_registered s -> proposers_registered s'.
Proof.
  intros [T|(row & T & F & N)] A I H.
  - apply (proposers_registered_ext s); auto. rewrite A. apply incl_refl.
  - intros t Ht. rewrite T in Ht. rewrite A. apply in_app_or in Ht.
    destruct Ht as [Ht|[<-|[]]]; [now apply H|].
    rewrite F. split; auto.
Qed.

Ltac parties_step :=
  unfold trades_step, fail;
  repeat match goal with
  | |- context [match ?x with Some _ => _ | None => _ end] => destruct x
  | |- context [if ?c then _ else _] => destruct c
  end;
  cbn [fst logEvent with_events with_tiles with_agents with_trades
       updateAgentResources insert_attack insert_message updateTradeStatus
       trades];
  rewrite ?trades_clearCapitalIfLost;
  try (left; reflexivity);
  try (left; apply sql_update_map; reflexivity).

Lemma expand_parties (s : Store) (agent : Agent.t) (q r : Z) :
  trades_step agent s (fst (expand s agent q r)).
Proof. unfold expand. parties_step. Qed.

Lemma declareAttack_parties (now : Z) (s : Store) (agent : Agent.t)
  (q r c : Z) :
  trades_step agent s (fst (declareAttack now s agent q r c)).
Proof. unfold declareAttack. parties_step. Qed.

Lemma fortify_parties (s : Store) (agent : Agent.t) (q r m : Z) :
  trades_step agent s (fst (fortify s agent q r m)).
Proof. unfold fortify. parties_step. Qed.

Lemma giftTile_parties (s : Store) (agent : Agent.t) (q r : Z) (to : string) :
  trades_step agent s (fst (giftTile s agent q r to)).
Proof. unfold giftTile. parties_step. Qed.

Lemma setCapital_parties (s : Store) (agent : Agent.t) (q r : Z) :
  trades_step agent s (fst (setCapital s agent q r)).
Proof. unfold setCapital. parties_step. Qed.

Lemma giftResources_parties (s : Store) (agent : Agent.t) (to : string)
  (f m : Z) :
  trades_step agent s (fst (giftResources s agent to f m)).
Proof. unfold giftResources. parties_step. Qed.

Lemma sendMessage_parties (s : Store) (agent : Agent.t) (to c : string) :
  trades_step agent s (fst (sendMessage s agent to c)).
Proof. unfold sendMessage. parties_step. Qed.

Lemma acceptTrade_parties (now : Z) (s : Store) (agent : Agent.t) (tid : Z) :
  trades_step agent s (fst (acceptTrade now s agent tid)).
Proof. unfold acceptTrade. parties_step. Qed.

Lemma rejectTrade_parties (s : Store) (agent : Agent.t) (tid : Z) :
  trades_step agent s (fst (rejectTrade s agent tid)).
Proof. unfold rejectTrade. parties_step. Qed.

Lemma proposeTrade_parties (now : Z) (s : Store) (agent : Agent.t)
  (to : string) (a b c d : Z) :
  trades_step agent s (fst (proposeTrade now s agent to a b c d)).
Proof.
  unfold proposeTrade, fail, trades_step.
  destruct (_ || _); [now left|].
  destruct (_ && _); [now left|].
  destruct (a >? _); [now left|].
  destruct (b >? _); [now left|].
  destruct (getAgent s to) as [recipient|]; [|now left].
  destruct (String.eqb (Agent.id recipient) (Agent.id agent)) eqn:E;
    [now left|].
  apply String.eqb_neq in E. right. eexists. split; [reflexivity|].
  split; [reflexivity|exact E].
Qed.

Lemma switch_action_type_parties (now : Z) (s : Store) (agent : Agent.t)
  (act : AgentAction.t) (out : Store * HttpResponse) :
  switch_action_type now s agent act = Some out ->
  trades_step agent s (fst out).
Proof.
  apply (switch_action_type_preserves (trades_step agent s)).
  - now left.
  - apply expand_parties.
  - apply declareAttack_parties.
  - apply fortify_parties.
  - apply giftTile_parties.
  - apply giftResources_parties.
  - apply sendMessage_parties.
  - apply proposeTrade_parties.
  - apply acceptTrade_parties.
  - apply rejectTrade_parties.
  - apply setCapital_parties.
Qed.

Lemma touch_last_seen_registered (now : Z) (id : string) (s : Store) :
  proposers_registered s -> proposers_registered (touch_last_seen now id s).
Proof.
  apply proposers_registered_ext; [reflexivity|].
  cbn [touch_last_seen with_agents agents].
  rewrite sql_update_ids by reflexivity. apply incl_refl.
Qed.

Lemma post_action_registered (now : Z) (s : Store) (id : string)
  (req : ActionRequest) (out : Store * HttpResponse) :
  post_action now s id req = Some out ->
  proposers_registered s -> proposers_registered (fst out).
Proof.
  intros E H. pose proof (post_action_ids now s id req out E) as I.
  revert E. unfold post_action.
  destruct (getAgentById s id) as [agent|] eqn:G; [|now intros [= <-]].
  destruct (getAgent_found s id agent G) as [Ha Ia].
  destruct (save_memory_if_provided now id (save_memory req)
              (touch_last_seen now id s)) as [s2|] eqn:M.
  2:{ intros [= <-]. now apply touch_last_seen_registered. }
  destruct (save_memory_if_provided_frame _ _ _ _ _ M)
    as (FA & _ & _ & FR & _).
  assert (H2 : proposers_registered s2).
  { apply (proposers_registered_ext (touch_last_seen now id s)).
    - now rewrite FR.
    - rewrite FA. apply incl_refl.
    - now apply touch_last_seen_registered. }
  assert (I2 : map Agent.id (agents s2) = map Agent.id (agents s)).
  { rewrite FA. cbn [touch_last_seen with_agents agents].
    now apply sql_update_ids. }
  destruct (action req) as [act|]; [|now intros [= <-]].
  destruct (negb _); [now intros [= <-]|].
  intros E. apply (proposers_registered_step agent s2); auto.
  - now apply (switch_action_type_parties now s2 agent act).
  - now rewrite I, I2.
  - rewrite I2. now apply in_map.
Qed.

Lemma run_registered (op : Op) (s : Store) :
  proposers_registered s -> proposers_registered (run op s).
Proof.
  intros H. destruct op as [now id req|rng now req|now|now|rng rings
                           |now keep food metal]; cbn [run].
  - destruct (post_action now s id req) as [out|] eqn:E; auto.
    now apply (post_action_registered now s id req).
  - destruct (join_agents rng now s req) as [T A].
    apply (proposers_registered_ext s); auto; [now rewrite T|].
    destruct A as [->|(a & -> & _)]; [apply incl_refl|].
    rewrite map_app. now apply incl_appl, incl_refl.
  - unfold checkAndProcessTick. destruct (shouldProcessTick now s); auto.
    apply (proposers_registered_ext s); auto.
    + destruct (processTick_trades now s) as [-> _].
      now apply sql_update_map.
    + rewrite processTick_ids. apply incl_refl.
  - unfold triggerTickManually. apply (proposers_registered_ext s); auto.
    + destruct (processTick_trades now s) as [-> _].
      now apply sql_update_map.
    + rewrite processTick_ids. apply incl_refl.
  - destruct (expandGrid_agents rng rings s) as [EA ET].
    apply (proposers_registered_ext s); auto; [now rewrite ET|].
    rewrite EA. apply incl_refl.
  - destruct (resetGame_agents now keep food metal s) as [T _].
    cbv zeta in T. intros t Ht. rewrite T in Ht. destruct Ht.
Qed.

Lemma reachable_registered (s : Store) : reachable s -> proposers_registered s.
Proof.
  induction 1 as [rng now|s op _ IH].
  - intros t [].
  - now apply run_registered.
Qed.

(** In the store a handler is called in, the proposer of every trade is a
    registered agent and is not the recipient. *)
Lemma trades_wf_at_handler (now : Z) (id : string) (s : Store) :
  reachable s -> trades_wf (touch_last_seen now id s).
Proof.
  intros R. apply trades_wf_iff, touch_last_seen_registered.
  now apply reachable_registered.
Qed.

Lemma trading_game_reachable : reachable trading_game.
Proof. repeat constructor. Qed.

(** bob has offered alice 30 food for 20 metal; alice accepts through the
    route, which has stamped her row before the handler runs. *)
Lemma acceptTrade_correct_witness :
  let s := touch_last_seen 50 "alice" trading_game in
  let caller := Agent.mk "alice" "Alice" 100 50 (Some 0) (Some 0) None in
  getAgent s "alice" = Some (stamped (Some 50) caller)
  /\ trades_wf s
  /\ getAgent (fst (acceptTrade 50 s caller 1)) "bob"
     = Some (Agent.mk "bob" "Bob" 70 70 (Some (-1)) (Some 0) (Some 30))
  /\ getAgent (fst (acceptTrade 50 s caller 1)) "alice"
     = Some (Agent.mk "alice" "Alice" 130 30 (Some 0) (Some 0) (Some 50))
  /\ trades (fst (acceptTrade 50 s caller 1))
     = [Trade.mk 1 "bob" "alice" 30 0 0 20 trade_accepted (Some 86430)].
Proof.
  cbv zeta.
  pose proof (trades_wf_at_handler 50 "alice" trading_game
                trading_game_reachable) as W.
  split; [vm_compute; reflexivity|]. split; [exact W|].
  destruct (acceptTrade_correct 50 (touch_last_seen 50 "alice" trading_game)
              (Agent.mk "alice" "Alice" 100 50 (Some 0) (Some 0) None)
              (Some 50) 1 ltac:(vm_compute; reflexivity) W)
    as (_ & _ & _ & _ & H).
  destruct (H ltac:(vm_compute; reflexivity))
    as (trade & proposer & P & G & _ & GP & GA & _ & T & _).
  vm_compute in P. injection P as <-.
  vm_compute in G. injection G as <-.
  split; [exact GP|]. split; [exact GA|]. rewrite T. vm_compute. reflexivity.
Defined.

(** ** The order of the tick's steps and what follows from it *)

Lemma raid_store_keyed : store_keyed raid_store.
Proof. split; repeat constructor; cbn; intuition discriminate. Qed.

(** C2, as the code has it.  A tick runs its five steps in a fixed order:
    it resolves the due attacks, then produces, then deducts upkeep, then
    expires trades, then advances the tick counter by one.  Because the
    attacks resolve before production, an agent is credited with the yield
    of the tiles it owns once the attacks of this tick have resolved: a
    tile captured in a tick already produces for its new owner in that
    same tick.  Because upkeep comes after production, it is charged
    against the balance that already includes this tick's yield: the agent
    pays 3 food per tile when that balance covers it, and starves, ending
    at 0 food, when it does not. *)
Theorem tick_steps_in_order (now : Z) (s : Store) (a : Agent.t) :
  store_keyed s -> In a (agents (afterAttacks now s)) ->
  let owned := getAgentTiles (afterAttacks now s) (Agent.id a) in
  let food2 := Agent.food a + fst (totalProduction owned) in
  let cost := Z.of_nat (List.length owned) * 3 in
  let final := fst (processTick now s) in
  processTick now s
  = (let st1 := resolveAttacks now (s, initialResult s) in
     let agents := getAllAgents (fst st1) in
     updateGameState now (GameState.current_tick (getGameState s) + 1)
       (expireTrades now (deductUpkeep agents (produceResources agents st1))))
  /\ afterAttacks now s = fst (resolveAttacks now (s, initialResult s))
  /\ GameState.current_tick (game_state final)
     = GameState.current_tick (game_state s) + 1
  /\ exists a',
       getAgent final (Agent.id a) = Some a'
       /\ Agent.metal a' = Agent.metal a + snd (totalProduction owned)
       /\ (0 < cost -> cost <= food2 -> Agent.food a' = food2 - cost)
       /\ (0 < cost -> food2 < cost -> Agent.food a' = 0)
       /\ (cost = 0 -> Agent.food a' = food2).
Proof.
  intros K Ha owned food2 cost final.
  split; [reflexivity|]. split; [reflexivity|].
  split; [apply processTick_advances|].
  destruct (processTick_agents_tiles now s) as [EA _]. subst final.
  rewrite (getAgent_ext _ _ _ EA), (afterUpkeep_getAgent now s a K Ha).
  fold owned. eexists. split; [reflexivity|].
  destruct (upkeepCostOf_nil_iff owned) as [E _]. fold cost in E.
  unfold agentAfterUpkeep, agentAfterProduction, yieldOf. fold owned.
  rewrite E. cbn [add_resources Agent.food Agent.metal]. fold food2.
  unfold clear_capital_among.
  destruct (cost >? 0) eqn:C0; [destruct (food2 >=? cost) eqn:C1|].
  - cbn. split; [lia|]. split; [intros; lia|]. split; intros; lia.
  - destruct (capital_among _ _); cbn; (split; [lia|]);
      (split; [intros; lia|]); split; intros; lia.
  - cbn. split; [lia|]. split; [intros; lia|]. split; intros; lia.
Qed.

(** alice's attack on bob's mine resolves in this tick: she is credited
    with the mine's 10 metal, and with her barren tile's 2 food, and pays
    upkeep for two tiles. *)
Lemma tick_steps_in_order_witness :
  store_keyed raid_store
  /\ getAgentTiles (afterAttacks 7200 raid_store) "alice"
     = [Tile.mk 0 0 barren (Some "alice") 0; Tile.mk 1 0 mine (Some "alice") 0]
  /\ exists a',
       getAgent (fst (processTick 7200 raid_store)) "alice" = Some a'
       /\ Agent.metal a' = 35 + 10
       /\ Agent.food a' = 100 + 2 - 6.
Proof.
  split; [exact raid_store_keyed|]. split; [reflexivity|].
  destruct (tick_steps_in_order 7200 raid_store
              (Agent.mk "alice" "Alice" 100 35 (Some 0) (Some 0) None)
              raid_store_keyed (or_introl eq_refl))
    as (_ & _ & _ & a' & G & M & P & _).
  exists a'. split; [exact G|]. split; [exact M|].
  rewrite P; [reflexivity | reflexivity | discriminate].
Defined.

(** The claim as stated fails: alice captures bob's mine in the tick at
    7200, and that same tick credits her with the mine's 10 metal. *)
Lemma capture_yields_in_same_tick : ~ capture_yields_from_next_tick.
Proof.
  intros H.
  specialize (H 7200 raid_store
                (Attack.mk 1 "alice" 1 0 15 attack_pending (Some 7200))
                (Some "bob") (Tile.mk 1 0 mine (Some "bob") 0)
                (Agent.mk "alice" "Alice" 100 35 (Some 0) (Some 0) None)
                (Agent.mk "alice" "Alice" 96 45 (Some 0) (Some 0) None)
                raid_store_keyed eq_refl eq_refl eq_refl eq_refl eq_refl).
  vm_compute in H. discriminate H.
Qed.

(** ** Starvation *)

(** C3.  Take an agent whose food after this tick's production is below
    its upkeep of 3 per owned tile.  The tick leaves it with 0 food and
    takes exactly [k = min(ceil(shortfall / 3), n)] of its [n] tiles, never
    more than it owns.  The tiles taken are the first [k] of its holding in
    ascending terrain value (barren, mixed, mine, farmland), so none of
    them is worth more than a tile it keeps.  Each tile taken ends the
    tick unowned, at fortification 0, with its terrain; the tiles kept are
    untouched and are exactly what the agent still holds.  The agent's
    capital is cleared when it stood on a tile taken, and only then. *)
Theorem starvation_takes_cheapest_tiles (now : Z) (s : Store) (a : Agent.t) :
  store_keyed s -> In a (agents (afterAttacks now s)) ->
  let owned := getAgentTiles (afterAttacks now s) (Agent.id a) in
  let n := List.length owned in
  let food2 := Agent.food a + fst (totalProduction owned) in
  let cost := Z.of_nat n * 3 in
  let shortfall := cost - food2 in
  let k := Z.to_nat (Z.min (ceil_div shortfall 3) (Z.of_nat n)) in
  let lost := firstn k (sort_by_value owned) in
  let kept := skipn k (sort_by_value owned) in
  let final := fst (processTick now s) in
  0 < cost -> food2 < cost ->
  (exists a',
     getAgent final (Agent.id a) = Some a'
     /\ Agent.food a' = 0
     /\ Agent.capital_q a'
        = (if capital_among lost a then None else Agent.capital_q a)
     /\ Agent.capital_r a'
        = (if capital_among lost a then None else Agent.capital_r a))
  /\ (1 <= k <= n)%nat
  /\ List.length lost = k
  /\ List.length (getAgentTiles final (Agent.id a)) = (n - k)%nat
  /\ Permutation (lost ++ kept) owned
  /\ (forall l t, In l lost -> In t kept ->
        valueOrder (Tile.terrain l) <= valueOrder (Tile.terrain t))
  /\ (forall t, In t lost ->
        getTile final (Tile.q t) (Tile.r t)
        = Some (Tile.mk (Tile.q t) (Tile.r t) (Tile.terrain t) None 0))
  /\ (forall t, In t kept -> getTile final (Tile.q t) (Tile.r t) = Some t)
  /\ Permutation (getAgentTiles final (Agent.id a)) kept.
Proof.
  intros K Ha owned n food2 cost shortfall k lost kept final Hc Hs.
  destruct (afterAttacks_keyed now s K) as [K1 K2].
  destruct (processTick_agents_tiles now s) as [EA ET]. fold final in EA, ET.
  assert (Hn : owned <> []).
  { intros E. subst cost n. rewrite E in Hc. cbn in Hc. lia. }
  assert (Hlt : food2 < Z.of_nat (List.length owned) * 3) by (fold n cost; lia).
  assert (Npos : (1 <= n)%nat) by (subst cost; lia).
  assert (Sp : 0 < shortfall) by (subst shortfall; lia).
  pose proof (ceil_div_3_pos shortfall Sp) as C1.
  assert (Hk : (1 <= k <= n)%nat) by (subst k; lia).
  assert (L : lostOf (afterProduction now s) (Agent.id a) = lost).
  { rewrite (lostOf_afterProduction now s a K Ha). fold owned food2.
    now rewrite (tilesLost_starving food2 owned Hlt Hn). }
  assert (ND : NoDup (sort_by_value owned)).
  { apply (Permutation_NoDup (Permutation_sym (sort_by_value_perm owned))).
    now apply getAgentTiles_NoDup. }
  assert (Sub : forall l, In l lost -> In l owned).
  { intros l Hl. apply (sorted_split_In owned k). now left. }
  assert (W : forall t, In t owned -> (covers lost t = true <-> In t lost)).
  { intros t Ht. now apply (covers_owned_iff (afterAttacks now s) (Agent.id a)). }
  assert (LL : List.length lost = k).
  { subst lost. rewrite length_firstn, sort_by_value_length. fold n. lia. }
  assert (Held : Permutation (getAgentTiles final (Agent.id a)) kept).
  { rewrite (getAgentTiles_ext _ _ _ ET).
    rewrite (afterUpkeep_getAgentTiles now s a K Ha), L. fold owned.
    apply (filter_out_NoDup_length owned lost kept); auto.
    - now apply getAgentTiles_NoDup.
    - rewrite <- (firstn_skipn k (sort_by_value owned)) in ND.
      now apply NoDup_app_remove_l in ND.
    - apply sorted_split_In.
    - intros t Hk' Hl. revert Hk'. now apply NoDup_split. }
  split.
  { rewrite (getAgent_ext _ _ _ EA), (afterUpkeep_getAgent now s a K Ha).
    fold owned. eexists. split; [reflexivity|].
    unfold agentAfterUpkeep, agentAfterProduction, yieldOf. fold owned.
    destruct (upkeepCostOf_nil_iff owned) as [E _]. rewrite E.
    cbn [add_resources Agent.food]. fold food2.
    replace (Z.of_nat (List.length owned) * 3 >? 0) with true by lia.
    replace (food2 >=? Z.of_nat (List.length owned) * 3) with false by lia.
    rewrite (tilesLost_starving food2 owned Hlt Hn).
    fold n cost shortfall k lost.
    unfold clear_capital_among.
    replace (capital_among lost (set_food 0 _)) with (capital_among lost a)
      by reflexivity.
    destruct (capital_among lost a); cbn; auto. }
  split; [exact Hk|]. split; [exact LL|].
  split.
  { rewrite (Permutation_length Held). subst kept.
    rewrite length_skipn, sort_by_value_length. reflexivity. }
  split; [subst lost kept; rewrite firstn_skipn; apply sort_by_value_perm|].
  split.
  { pose proof (ascending_split (sort_by_value owned) k
                  (sort_by_value_ascending owned)) as [_ A].
    intros l t Hl Ht. exact (A l t Hl Ht). }
  split; [|split; [|exact Held]].
  - intros t Ht. rewrite (getTile_ext _ _ _ _ ET).
    rewrite (afterUpkeep_row now s a t K Ha (Sub t Ht)), L.
    now rewrite (proj2 (W t (Sub t Ht)) Ht).
  - intros t Ht. rewrite (getTile_ext _ _ _ _ ET).
    assert (Ho : In t owned) by (apply (sorted_split_In owned k); now right).
    rewrite (afterUpkeep_row now s a t K Ha Ho), L.
    destruct (covers lost t) eqn:E; auto.
    apply (W t Ho) in E. exfalso. revert Ht. now apply NoDup_split.
Qed.

(** The miner, at 1 food with three tiles and 2 food of income, is 6 food
    short: it loses its barren tile and the mine its capital stood on, and
    keeps the other mine. *)
Lemma starvation_takes_cheapest_tiles_witness :
  let final := fst (processTick 7200 famine_store) in
  store_keyed famine_store
  /\ getAgent final "miner" = Some (Agent.mk "miner" "Miner" 0 20 None None None)
  /\ getTile final 1 0 = Some (Tile.mk 1 0 barren None 0)
  /\ getTile final 0 0 = Some (Tile.mk 0 0 mine None 0)
  /\ getTile final 0 1 = Some (Tile.mk 0 1 mine (Some "miner") 2)
  /\ List.length (getAgentTiles final "miner") = 1%nat.
Proof.
  cbv zeta. split; [exact famine_store_keyed|].
  destruct (starvation_takes_cheapest_tiles 7200 famine_store miner
              famine_store_keyed (or_introl eq_refl)
              ltac:(reflexivity) ltac:(reflexivity))
    as (_ & _ & _ & N & _ & _ & Lost & Kept & _).
  split; [reflexivity|].
  split; [exact (Lost (Tile.mk 1 0 barren (Some "miner") 0) (or_introl eq_refl))|].
  split; [exact (Lost (Tile.mk 0 0 mine (Some "miner") 4)
                   (or_intror (or_introl eq_refl)))|].
  split; [exact (Kept (Tile.mk 0 1 mine (Some "miner") 2) (or_introl eq_refl))|].
  exact N.
Defined.
